(* ===== verification/_CoqProject ===== *)
-Q . S2P
Prelude.v
Codec.v
Secp.v
Ser.v
Bigsize.v
Tlv.v
Features.v
Hex.v
Types.v
Msgs.v
MdHash.v
Sha256.v
Ripemd160.v
Hmac.v
Chacha20.v
Poly1305.v
Aead.v
Noise.v
Peer.v
Payload.v
Onion.v
Text.v
Bech32.v
Invoice.v
Encode.v
Script.v
Tx.v
Graph.v
Display.v
Router.v
Shachain.v
Keys.v
Commitment.v
Interp.v
Channel.v
Monitor.v
Dance.v
Close.v
Reestablish.v
Ledger.v
Moves.v
Machine.v
Revocation.v
Holder.v
Enforce.v
Solvency.v
Conservation.v
Sample.v
Onchain.v
Persist.v
Widths.v
Scenario.v
NodeKeys.v
Node.v
NodeChannel.v
NodePayment.v
NodeDispatch.v
NodeInv.v
NodeSafe.v
NodeMoney.v
NodePay.v
NodeGossip.v
NodeScenario.v
Hazards.v
