(* ===== verification/Prelude.v ===== *)
(** * keraunos: a verification development (root file)

    keraunos is a Lightning node in Rust (src/src): a sans-I/O library that is
    fed bytes, blocks and commands and returns bytes, transactions and events.
    This library translates its sources into Rocq and proves what makes them
    correct.  It has four layers, each used by the next.

    ** Layers, files and sources

    _Bytes and wire formats._  Prelude: outcomes of fallible code, fixed-width
    integers, byte lists, the state-and-error monad, shared lemmas and tactics.
    Codec: consuming readers and their laws.  Ser, Bigsize, Tlv, Features, Msgs:
    wire/ser.rs, bigsize.rs, tlv.rs, features.rs, msgs.rs.  Hex, Types: util/hex.rs,
    types.rs.  Encode, Script, Tx: bitcoin/encode.rs, script.rs, tx.rs,
    sighash.rs.  Text: the text functions of the standard library that the code
    calls.  Display: what identifiers, errors and loggers print
    (types.rs, util/logger.rs, chain/mod.rs).

    _Cryptography._  MdHash, Sha256, Ripemd160, Hmac: crypto/sha256.rs,
    ripemd160.rs, hmac.rs, hkdf.rs, mod.rs.  Chacha20, Poly1305, Aead:
    crypto/chacha20.rs, poly1305.rs, aead.rs.  Secp: the interface of the
    secp256k1 crate.  Noise: noise/mod.rs.  Peer: node/peer.rs.  Onion, Payload:
    onion/mod.rs, payload.rs.  Shachain: shachain.rs.  Keys: keys.rs and
    sign/mod.rs.

    _Channels._  Commitment: commitment/mod.rs.  Interp: a script interpreter, the
    specification side of the funding output.  Channel, Dance, Close,
    Reestablish: channel/mod.rs, dance.rs, close.rs, reestablish.rs.  Machine: a
    channel as a state machine, one event per public operation, errors included.
    Ledger, Moves, Solvency, Conservation: the money of a channel.  Revocation,
    Holder, Enforce: who can broadcast and punish what.  Monitor, Persist:
    chain/monitor.rs, persist.rs.  Onchain: channel and monitor together.  Widths:
    what a channel keeps fits the widths of the disk format, and restarts.

    _Network and node._  Bech32, Invoice: invoice/bech32.rs, mod.rs.  Graph:
    graph/mod.rs.  Router: router/mod.rs.  NodeKeys, Node, NodeChannel,
    NodePayment, NodeDispatch: node/mod.rs, one definition per method.  NodeInv:
    the changes the handlers make, and that a predicate closed under them is an
    invariant.  NodeSafe, NodeMoney, NodePay, NodeGossip: the theorems about
    the node.

    Sample, Scenario and NodeScenario hold concrete channels and nodes over the
    toy curve and apply the theorems to them; Hazards (and parts of
    NodeScenario) concrete executions that show where a hypothesis is needed.

    ** How the parts interact

    A node ([Node]) owns connections ([Peer]), channels ([Channel]), the graph
    and its invoices.  [peer_input] decrypts with Peer and Noise, decodes with
    Msgs and dispatches in [handle_message]; a channel message runs one channel
    operation under [with_channel] and turns its result into messages, events
    and further operations on other channels ([forward_htlc],
    [on_htlc_fulfilled], [on_htlc_failed]).  [pay_invoice] calls Router, Onion
    and Payload.  Channels build transactions with Commitment and Tx, sign with
    the [ChannelSigner] class and keep revealed secrets in Shachain; a monitor
    is a snapshot of a channel.  Four classes are the interfaces: [Secp] with
    [SecpLaws], [ChannelSigner] with [ChannelSignerLaws], [NodeSigner] with
    [NodeSignerLaws], [EntropySource]; the theorems are proved against the
    classes, and the implementations of the code discharge the laws.

    ** What the theorems show

    - Codecs: messages, transactions, payloads, invoices, monitors and texts in
      range round-trip; TLV streams and hex text are accepted exactly when they
      are canonical.
    - Cryptography: the incremental and limb-wise implementations compute the
      published functions; handshake, framing and onion deliver exactly what
      was sent to exactly the intended hop, and tampering is detected.
    - Channels: over every run of every operation, each signed commitment is
      current, in flight or punishable; our commitment always carries valid
      signatures in the order the funding script asks for (checked by running
      that script) and our secrets leave only after it was replaced; no money is
      created or lost and every commitment fits the funding output.
    - Chain: from any such run, the monitor answers each commitment that can
      confirm with valid claims of what is ours, and survives a restart.
    - Routing: the graph holds only signed gossip; a route found pays every hop
      and keeps the policies as the code compares them (all of BOLT 7's bounds
      but the minimum), the search ends, and a direct channel is used.
    - Node: whatever it is fed, its tables stay consistent and its channels are
      those of the channel machine; only the peer of a channel acts on it (but
      for the [open_channel] that replaces it); a forward whose sums do not wrap
      earns its fee and its time-lock margin; a payment is claimed
      exactly when it pays an invoice; a payment sent along a route is accepted
      hop by hop; our announcements pass our own checks.
    - Defects: theorems that exhibit a wrap-around, a lost claim, an unreadable
      file or a panic are kept next to the definitions they concern.

    ** Conventions

    A [w]-bit integer is a [Z]; every operation that can leave its width is
    followed by [wrap w], the release-build behaviour.  A byte is a [Z] below
    256.  A [Result] is [result]: [Ok], [Err], and [Panic] for a panic
    ([expect], [assert!], an index out of range).  A [&mut self] method is an
    [stm], which returns its result and the mutated state, errors included.  A
    [HashMap] keyed by public keys is keyed by their serialization.

    ** Bounds and fuel

    Peer's loop has fuel 3 (each pass but the last completes an act) and its
    drain the number of buffered bytes plus one; [input_total] shows they never
    run out.  The invoice's field loop has the length of its input.  The
    router's search has one turn per edge and one more, enough by
    [find_route_terminates], and a path is walked for at most [max_hops + 1]
    steps.  [dec] prints twenty digits, all a [u64] has; thirteen groups of five
    bits hold one too.  Key derivation tries 256 salts and the node draws 256
    keys at most where the code loops until it finds a valid scalar; running out
    is a panic (chance below 2^-32000) and theorems say so where it matters.

    ** Hypotheses

    [SecpLaws]: signatures verify, tweaks commute with public keys, ECDH is
    symmetric, encodings are canonical; [toy_secp], a group of 256 elements,
    satisfies them.  [ChannelSignerLaws] and [NodeSignerLaws] hold of the
    implementations in sign/mod.rs.  [HashOrder] is the unspecified iteration
    order of hash maps; [values] in Persist likewise.  Conservation is about
    runs in which amounts stay below 21 million bitcoin; Machine about
    commitment numbers below 2^48; the node about fewer than 2^64 connections.
    Onion theorems assume that no inner HMAC is zero, which would mark a hop
    as final; routing theorems that costs are [u64]s and payer and payee differ.
    The restart theorem assumes the widths of the channel's Rust types ([typed]),
    the forwarding theorem that sums with the sender's numbers do not wrap
    ([forward_fits]), the invoice theorem that the builder holds what can be
    written ([builder_ok]); theorems next to each show why.

    ** Not modelled

    The operating system's entropy, module declarations and re-exports (lib.rs),
    log calls inside the handlers, [Debug] output derived by the compiler, the
    error texts that quote a character, and the tests.  Elliptic curves are a
    parameter.  The
    code has no sockets, threads or clock of its own: they belong to the
    embedder. *)
From stdpp Require Export prelude list sorting strings.
From Stdlib Require Export Lia ZArith.
From Stdlib Require Import Permutation.

Declare Scope keraunos_scope.
Delimit Scope keraunos_scope with ker.
Open Scope Z_scope.

(** ** Outcomes of fallible Rust code

    [Ok] and [Err] are the constructors of [Result]; [Panic] is a panic
    ([expect], [unreachable!], an index out of range, [clamp] with crossed
    bounds, running out of a loop's fuel). *)
Inductive result (E A : Type) : Type :=
  | Ok (a : A)
  | Err (e : E)
  | Panic.
Arguments Ok {E A} a.
Arguments Err {E A} e.
Arguments Panic {E A}.

#[export] Instance result_ret {E} : MRet (result E) := fun A a => Ok a.
#[export] Instance result_bind {E} : MBind (result E) := fun A B f r =>
  match r with Ok a => f a | Err e => Err e | Panic => Panic end.
#[export] Instance result_fmap {E} : FMap (result E) := fun A B f r =>
  match r with Ok a => Ok (f a) | Err e => Err e | Panic => Panic end.

(** [o.expect(..)]. *)
Definition expect {E A} (o : option A) : result E A :=
  match o with Some a => Ok a | None => Panic end.

(** [o.ok_or(e)]. *)
Definition ok_or {E A} (o : option A) (e : E) : result E A :=
  match o with Some a => Ok a | None => Err e end.

(** [if b { return Err(e) }]. *)
Definition fail_if {E} (b : bool) (e : E) : result E unit :=
  if b then Err e else Ok tt.

(** [r.map_err(f)]. *)
Definition map_err {E E' A} (f : E -> E') (r : result E A) : result E' A :=
  match r with Ok a => Ok a | Err e => Err (f e) | Panic => Panic end.

Definition is_ok {E A} (r : result E A) : bool :=
  match r with Ok _ => true | _ => false end.

Lemma bind_Ok {E A B} (r : result E A) (f : A -> result E B) b :
  (r ≫= f) = Ok b <-> exists a, r = Ok a /\ f a = Ok b.
Proof. destruct r; naive_solver. Qed.

Lemma fail_if_Ok {E} b (e : E) u : fail_if b e = Ok u <-> b = false.
Proof. destruct b, u; naive_solver. Qed.

Lemma fail_if_no_panic {E} b (e : E) : fail_if b e <> Panic.
Proof. by destruct b. Qed.

Lemma ok_or_Ok {E A} (o : option A) (e : E) a : ok_or o e = Ok a <-> o = Some a.
Proof. destruct o; naive_solver. Qed.

Lemma expect_Ok {E A} (o : option A) a : expect (E := E) o = Ok a <-> o = Some a.
Proof. destruct o; naive_solver. Qed.

Lemma Ok_inj {E A} (a b : A) : Ok (E := E) a = Ok b -> a = b.
Proof. by injection 1. Qed.

Lemma is_ok_bind {E A B} (r : result E A) (f : A -> B) :
  is_ok (r ≫= fun a => Ok (f a)) = is_ok r.
Proof. by destruct r. Qed.

(** [iter().map(f).collect::<Result<_, _>>()] and loops that push. *)
Lemma mapM_Ok {E A B} (f : A -> result E B) l k :
  mapM f l = Ok k <-> Forall2 (fun x y => f x = Ok y) l k.
Proof.
  split.
  - revert k. induction l as [|x l IH]; intros k H; cbn [mapM] in H.
    + apply Ok_inj in H. subst k. constructor.
    + apply bind_Ok in H as (y & Hy & H). apply bind_Ok in H as (k' & Hk & H).
      apply Ok_inj in H. subst k. constructor; [done|by apply IH].
  - induction 1 as [|x y l k Hx Hl IH]; cbn [mapM]; [reflexivity|].
    rewrite Hx. cbn [mbind result_bind]. by rewrite IH.
Qed.

Lemma mapM_total {E A B} (f : A -> result E B) l :
  Forall (fun x => exists y, f x = Ok y) l -> exists k, mapM f l = Ok k.
Proof.
  induction 1 as [|x l [y Hy] Hl [k IH]]; cbn [mapM]; [by eexists|].
  rewrite Hy. cbn [mbind result_bind]. rewrite IH. by eexists.
Qed.

(** A panic of a function that never returns an error. *)
Definition or_panic {E A} (r : result unit A) : result E A :=
  match r with Ok a => Ok a | _ => Panic end.

(** Invert the binds of a successful run. *)
Ltac bind_inv :=
  repeat match goal with
  | H : (_ ≫= _) = Ok _ |- _ => apply bind_Ok in H as (? & ? & H)
  | H : fail_if _ _ = Ok _ |- _ => apply fail_if_Ok in H
  | H : ok_or _ _ = Ok _ |- _ => apply ok_or_Ok in H
  | H : expect _ = Ok _ |- _ => apply expect_Ok in H
  | H : mret _ = Ok _ |- _ => injection H as H
  end; simplify_eq.

(** Split the conjunctions of the context, without unfolding definitions
    that are conjunctions (such as [uint]). *)
Ltac destruct_conj :=
  repeat match goal with H : _ /\ _ |- _ => destruct H end.

(** [lia] with division and remainder by constants. *)
Ltac mod_lia := zify; Z.to_euclidean_division_equations; lia.

(** ** Machine integers

    A [w]-bit unsigned integer is a [Z] in [[0, 2^w)]; the arithmetic of the
    code wraps (a build without overflow checks), so [a + b] at [u64] is
    [wrap 64 (a + b)].  Theorems about bounds show where the wrap-around is
    never reached, which is also where a checked build does not panic. *)
Definition wrap (w z : Z) : Z := z mod 2 ^ w.
Definition uint (w z : Z) : Prop := 0 <= z < 2 ^ w.
Abbreviation u8 := (uint 8).
Abbreviation u16 := (uint 16).
Abbreviation u32 := (uint 32).
Abbreviation u64 := (uint 64).
Definition u64_max : Z := 2 ^ 64 - 1.

Definition uintb (w z : Z) : bool := (0 <=? z) && (z <? 2 ^ w).

Lemma uintb_spec w z : uintb w z = true <-> uint w z.
Proof. unfold uintb, uint. rewrite andb_true_iff, Z.leb_le, Z.ltb_lt. done. Qed.

#[export] Instance uint_dec w z : Decision (uint w z).
Proof. refine (cast_if (decide (uintb w z = true))); by rewrite <- uintb_spec. Defined.

(** [a.saturating_sub(b)] on unsigned integers. *)
Definition sat_sub (a b : Z) : Z := Z.max 0 (a - b).
(** [a.saturating_add(b)] at [u64]. *)
Definition sat_add64 (a b : Z) : Z := Z.min u64_max (a + b).

Lemma wrap_small w z : uint w z -> wrap w z = z.
Proof. intros. by apply Z.mod_small. Qed.

Lemma wrap_uint w z : 0 <= w -> uint w (wrap w z).
Proof. intros. apply Z.mod_pos_bound. lia. Qed.

Lemma uint_mono w w' z : w <= w' -> uint w z -> uint w' z.
Proof.
  unfold uint. intros Hw [? ?]. split; [done|].
  destruct (decide (0 <= w)).
  - apply Z.lt_le_trans with (2 ^ w); [done|]. by apply Z.pow_le_mono_r.
  - rewrite Z.pow_neg_r in * by lia. lia.
Qed.

(** ** Bytes *)
Abbreviation bytes := (list Z).
Abbreviation bytes_ok := (Forall (uint 8)).

Fixpoint le_bytes (n : nat) (z : Z) : bytes :=
  match n with
  | O => []
  | S n => z mod 256 :: le_bytes n (z / 256)
  end.

Fixpoint of_le (l : bytes) : Z :=
  match l with
  | [] => 0
  | b :: l => b + 256 * of_le l
  end.

(** [z.to_be_bytes()] and [uN::from_be_bytes]. *)
Definition be_bytes (n : nat) (z : Z) : bytes := reverse (le_bytes n z).
Definition of_be (l : bytes) : Z := of_le (reverse l).

#[global] Arguments be_bytes : simpl never.
#[global] Arguments of_be : simpl never.

Lemma length_le_bytes n z : length (le_bytes n z) = n.
Proof. revert z; induction n; simpl; congruence. Qed.

Lemma length_be_bytes n z : length (be_bytes n z) = n.
Proof. unfold be_bytes. by rewrite length_reverse, length_le_bytes. Qed.

Lemma le_bytes_ok n z : bytes_ok (le_bytes n z).
Proof.
  revert z; induction n; simpl; constructor; [|done].
  unfold uint. pose proof (Z.mod_pos_bound z 256). lia.
Qed.

Lemma be_bytes_ok n z : bytes_ok (be_bytes n z).
Proof. apply Forall_reverse, le_bytes_ok. Qed.

Lemma of_le_le_bytes n z : of_le (le_bytes n z) = z mod 256 ^ Z.of_nat n.
Proof.
  revert z; induction n as [|n IH]; intros z; simpl.
  - by rewrite Z.mod_1_r.
  - rewrite IH, Nat2Z.inj_succ, Z.pow_succ_r by lia.
    rewrite Z.rem_mul_r; lia.
Qed.

Lemma of_le_bound l : bytes_ok l -> 0 <= of_le l < 256 ^ Z.of_nat (length l).
Proof.
  induction 1 as [|b l Hb Hl IH]; simpl; [lia|].
  rewrite Nat2Z.inj_succ, Z.pow_succ_r by lia. unfold uint in Hb. lia.
Qed.

Lemma le_bytes_of_le l : bytes_ok l -> le_bytes (length l) (of_le l) = l.
Proof.
  induction 1 as [|b l Hb Hl IH]; simpl; [done|]. unfold uint in Hb.
  rewrite Z.mul_comm, Z_mod_plus_full, Z.mod_small, Z_div_plus_full by lia.
  rewrite (Z.div_small b), Z.add_0_l by lia. by rewrite IH.
Qed.

Lemma of_be_be_bytes n z : of_be (be_bytes n z) = z mod 256 ^ Z.of_nat n.
Proof. unfold of_be, be_bytes. by rewrite reverse_involutive, of_le_le_bytes. Qed.

Lemma of_be_bound l : bytes_ok l -> 0 <= of_be l < 256 ^ Z.of_nat (length l).
Proof.
  intros. unfold of_be. rewrite <- length_reverse. by apply of_le_bound, Forall_reverse.
Qed.

Lemma be_bytes_of_be l : bytes_ok l -> be_bytes (length l) (of_be l) = l.
Proof.
  intros. unfold of_be, be_bytes. rewrite <- (length_reverse l).
  rewrite le_bytes_of_le by by apply Forall_reverse. by rewrite reverse_involutive.
Qed.

Lemma of_be_be_bytes_id n w z :
  w = 8 * Z.of_nat n -> uint w z -> of_be (be_bytes n z) = z.
Proof.
  intros -> Hz. rewrite of_be_be_bytes, Z.mod_small; [done|].
  unfold uint in Hz. by rewrite Z.pow_mul_r in Hz by lia.
Qed.

Lemma of_le_le_bytes_id n w z :
  w = 8 * Z.of_nat n -> uint w z -> of_le (le_bytes n z) = z.
Proof.
  intros -> Hz. rewrite of_le_le_bytes, Z.mod_small; [done|].
  unfold uint in Hz. by rewrite Z.pow_mul_r in Hz by lia.
Qed.

Lemma of_be_uint n w l :
  w = 8 * Z.of_nat n -> length l = n -> bytes_ok l -> uint w (of_be l).
Proof.
  intros -> <- Hl. unfold uint. rewrite Z.pow_mul_r by lia. by apply of_be_bound.
Qed.

Lemma of_le_uint n w l :
  w = 8 * Z.of_nat n -> length l = n -> bytes_ok l -> uint w (of_le l).
Proof.
  intros -> <- Hl. unfold uint. rewrite Z.pow_mul_r by lia. by apply of_le_bound.
Qed.

Lemma of_be_snoc l b : of_be (l ++ [b]) = 256 * of_be l + b.
Proof. unfold of_be. rewrite reverse_app. simpl. lia. Qed.

Lemma of_be_foldl l : of_be l = foldl (fun acc b => acc * 256 + b) 0 l.
Proof.
  induction l as [|b l IH] using rev_ind; [done|].
  rewrite of_be_snoc, foldl_app, IH. simpl. lia.
Qed.

(** Rust's [Ord] on byte slices: lexicographic, a proper prefix first. *)
Fixpoint bytes_cmp (a b : bytes) : comparison :=
  match a, b with
  | [], [] => Eq
  | [], _ => Lt
  | _, [] => Gt
  | x :: a, y :: b => match x ?= y with Eq => bytes_cmp a b | c => c end
  end.

Definition bytes_leb (a b : bytes) : bool :=
  match bytes_cmp a b with Gt => false | _ => true end.

Lemma bytes_cmp_eq a b : bytes_cmp a b = Eq <-> a = b.
Proof.
  revert b; induction a as [|x a IH]; intros [|y b]; simpl; try naive_solver.
  destruct (Z.compare_spec x y); [subst; rewrite IH|..]; naive_solver lia.
Qed.

Lemma bytes_cmp_antisym a b : bytes_cmp a b = CompOpp (bytes_cmp b a).
Proof.
  revert b; induction a as [|x a IH]; intros [|y b]; simpl; try done.
  rewrite (Z.compare_antisym y x). destruct (y ?= x); simpl; auto.
Qed.

Lemma bytes_cmp_le_trans a b c :
  bytes_cmp a b <> Gt -> bytes_cmp b c <> Gt -> bytes_cmp a c <> Gt.
Proof.
  revert b c; induction a as [|x a IH]; intros [|y b] [|z c]; simpl; try done.
  destruct (Z.compare_spec x y), (Z.compare_spec y z), (Z.compare_spec x z);
    subst; try done; try lia. apply IH.
Qed.

(** ** Bit operations *)
Lemma lor_shiftl_add a b n :
  0 <= n -> 0 <= b < 2 ^ n -> Z.lor (Z.shiftl a n) b = a * 2 ^ n + b.
Proof.
  intros Hn Hb. rewrite <- Z.shiftl_mul_pow2 by done.
  symmetry. apply Z.add_nocarry_lor. apply Z.bits_inj_0. intros k.
  rewrite Z.land_spec. destruct (Z.lt_ge_cases k 0).
  { by rewrite !Z.testbit_neg_r. }
  destruct (Z.lt_ge_cases k n).
  - by rewrite Z.shiftl_spec_low.
  - rewrite <- (Z.mod_small b (2 ^ n)) by done.
    rewrite Z.mod_pow2_bits_high by lia. apply andb_false_r.
Qed.

Lemma land_ones_mod a n : 0 <= n -> Z.land a (Z.ones n) = a mod 2 ^ n.
Proof. apply Z.land_ones. Qed.

Lemma uint_testbit_high w z k : 0 <= w -> uint w z -> w <= k -> Z.testbit z k = false.
Proof.
  intros Hw Hz Hk. rewrite <- (Z.mod_small z (2 ^ w)) by exact Hz.
  apply Z.mod_pow2_bits_high. lia.
Qed.

Lemma testbits_uint w z :
  0 <= w -> 0 <= z -> (forall k, w <= k -> Z.testbit z k = false) -> uint w z.
Proof.
  intros Hw Hz Hb. split; [done|].
  destruct (decide (z = 0)) as [->|Hz0]; [apply Z.pow_pos_nonneg; lia|].
  apply Z.log2_lt_pow2; [lia|]. apply Z.lt_nge. intros Hle.
  pose proof (Z.bit_log2 z). rewrite Hb in * by done. lia.
Qed.

Lemma lor_uint w a b : 0 <= w -> uint w a -> uint w b -> uint w (Z.lor a b).
Proof.
  intros Hw Ha Hb. apply testbits_uint; [done| |].
  - apply Z.lor_nonneg. unfold uint in *. lia.
  - intros k Hk. rewrite Z.lor_spec.
    by rewrite (uint_testbit_high w a), (uint_testbit_high w b).
Qed.

Lemma lxor_uint w a b : 0 <= w -> uint w a -> uint w b -> uint w (Z.lxor a b).
Proof.
  intros Hw Ha Hb. apply testbits_uint; [done| |].
  - apply Z.lxor_nonneg. unfold uint in *. lia.
  - intros k Hk. rewrite Z.lxor_spec.
    by rewrite (uint_testbit_high w a), (uint_testbit_high w b).
Qed.

Lemma land_uint w a b : 0 <= w -> uint w b -> uint w (Z.land a b).
Proof.
  intros Hw Hb. apply testbits_uint; [done| |].
  - apply Z.land_nonneg. unfold uint in *. lia.
  - intros k Hk. rewrite Z.land_spec, (uint_testbit_high w b) by done. apply andb_false_r.
Qed.

(** ** Blocks

    [chunks_exact(n)]: the full blocks of [n] elements, a shorter remainder
    dropped; [remainder n l] is what is dropped. *)
Fixpoint chunks {A} (fuel n : nat) (l : list A) : list (list A) :=
  match fuel with
  | O => []
  | S fuel => if (length l <? n)%nat then [] else take n l :: chunks fuel n (drop n l)
  end.
Definition chunks_exact {A} (n : nat) (l : list A) : list (list A) :=
  chunks (S (length l)) n l.
Definition remainder {A} (n : nat) (l : list A) : list A :=
  drop (n * (length l / n)) l.

Section Chunks.
Context {A : Type} (n : nat) (Hn : (0 < n)%nat).
Implicit Types (l : list A) (ls : list (list A)).

(** The full blocks followed by a shorter tail. *)
Lemma chunks_concat_app ls (t : list A) fuel :
  Forall (fun l => length l = n) ls -> (length t < n)%nat -> (length ls < fuel)%nat ->
  chunks fuel n (concat ls ++ t) = ls.
Proof using Hn.
  intros Hls Ht. revert fuel. induction Hls as [|l ls Hl Hls IH]; intros [|fuel] Hf;
    simpl in *; try lia.
  - by rewrite (proj2 (Nat.ltb_lt _ _)).
  - rewrite <- app_assoc, length_app, (proj2 (Nat.ltb_ge _ _)) by lia.
    rewrite <- Hl, take_app_length, drop_app_length, Hl, IH by lia. done.
Qed.

Lemma chunks_concat ls fuel :
  Forall (fun l => length l = n) ls -> (length ls < fuel)%nat ->
  chunks fuel n (concat ls) = ls.
Proof using Hn.
  intros. rewrite <- (app_nil_r (concat ls)). by apply chunks_concat_app.
Qed.

Lemma length_concat_blocks ls :
  Forall (fun l => length l = n) ls -> length (concat ls) = (n * length ls)%nat.
Proof using Type. clear Hn. induction 1; simpl; [lia|]. rewrite length_app. lia. Qed.

(** Every list is its blocks followed by its remainder. *)
Lemma blocks_exist l :
  exists ls t, l = concat ls ++ t /\ Forall (fun l => length l = n) ls /\ (length t < n)%nat.
Proof using Hn.
  induction l as [l IH] using (induction_ltof1 _ (@length A)).
  destruct (decide (length l < n)%nat); [by exists [], l|].
  destruct (IH (drop n l)) as (ls & t & Heq & Hls & Ht).
  { unfold ltof. rewrite length_drop. lia. }
  exists (take n l :: ls), t. simpl. rewrite <- app_assoc, <- Heq, take_drop.
  split; [done|]. split; [|done]. constructor; [|done]. rewrite length_take. lia.
Qed.

Lemma chunks_exact_blocks ls (t : list A) :
  Forall (fun l => length l = n) ls -> (length t < n)%nat ->
  chunks_exact n (concat ls ++ t) = ls.
Proof using Hn.
  intros Hls Ht. apply chunks_concat_app; [done..|].
  rewrite length_app, length_concat_blocks by done. nia.
Qed.

Lemma remainder_blocks ls (t : list A) :
  Forall (fun l => length l = n) ls -> (length t < n)%nat ->
  remainder n (concat ls ++ t) = t.
Proof using Hn.
  intros Hls Ht. unfold remainder. rewrite length_app, length_concat_blocks by done.
  rewrite (Nat.mul_comm n (length ls)), Nat.div_add_l, (Nat.div_small (length t)),
    Nat.add_0_r by lia.
  rewrite <- length_concat_blocks by done.
  apply drop_app_length.
Qed.
End Chunks.

(** [chunks_mut(n)]: the last chunk may be shorter. *)
Definition chunks_mut {A} (n : nat) (l : list A) : list (list A) :=
  chunks_exact n l ++ match remainder n l with [] => [] | r => [r] end.

(** It depends only on lengths. *)
Lemma chunks_mut_blocks {A} n (ls : list (list A)) t : (0 < n)%nat ->
  Forall (fun l => length l = n) ls -> (length t < n)%nat ->
  chunks_mut n (concat ls ++ t) = ls ++ match t with [] => [] | _ => [t] end.
Proof.
  intros Hn Hls Ht. unfold chunks_mut.
  rewrite chunks_exact_blocks, remainder_blocks by done. by destruct t.
Qed.

Lemma chunks_mut_concat {A} n (l : list A) : (0 < n)%nat -> concat (chunks_mut n l) = l.
Proof.
  intros Hn. destruct (blocks_exist n Hn l) as (ls & t & -> & Hls & Ht).
  rewrite chunks_mut_blocks, concat_app by done. f_equal. destruct t; cbn; by rewrite ?app_nil_r.
Qed.

Lemma chunks_mut_same {A B} n (l : list A) (ls : list (list B)) : (0 < n)%nat ->
  map length ls = map length (chunks_mut n l) -> chunks_mut n (concat ls) = ls.
Proof.
  intros Hn. destruct (blocks_exist n Hn l) as (bs & t & -> & Hbs & Ht).
  rewrite chunks_mut_blocks by done. rewrite map_app. intros E.
  apply map_eq_app in E as (l1 & l2 & -> & E1 & E2).
  assert (H1 : Forall (fun x => length x = n) l1).
  { clear -E1 Hbs. revert l1 E1. induction Hbs as [|b bs Hb _ IH]; intros [|x l1] E; try done.
    cbn in E. injection E as E1 E2. constructor; [congruence|auto]. }
  rewrite concat_app. destruct t as [|x t].
  - destruct l2; [|done]. rewrite chunks_mut_blocks by (done || cbn; lia). done.
  - destruct l2 as [|y [|]]; try done. cbn in E2. injection E2 as E2. cbn [concat].
    rewrite app_nil_r, chunks_mut_blocks; [|done|done|cbn in *; lia]. by destruct y.
Qed.

(** [dst[i..i + src.len()].copy_from_slice(src)], in range. *)
Definition splice {A} (i : nat) (src dst : list A) : list A :=
  take i dst ++ src ++ drop (i + length src) dst.

Lemma length_splice {A} i (src dst : list A) :
  (i + length src <= length dst)%nat -> length (splice i src dst) = length dst.
Proof. intros. unfold splice. rewrite !length_app, length_take, length_drop. lia. Qed.

Lemma take_splice {A} i (src dst : list A) :
  (i + length src <= length dst)%nat ->
  take (i + length src) (splice i src dst) = take i dst ++ src.
Proof.
  intros. unfold splice. rewrite app_assoc. apply take_app_length'.
  rewrite length_app, length_take. lia.
Qed.

Lemma splice_0 {A} (src dst : list A) : splice 0 src dst = src ++ drop (length src) dst.
Proof. done. Qed.

(** ** Stable sorting

    [v.sort_by(cmp)] is a stable sort; [leb a b] is [cmp(a, b) != Greater].
    An element goes in front of the first later element it does not exceed, so
    equal elements keep their order. *)
Fixpoint sort_insert {A} (leb : A -> A -> bool) (x : A) (l : list A) : list A :=
  match l with
  | [] => [x]
  | y :: l' => if leb x y then x :: l else y :: sort_insert leb x l'
  end.
Definition sort_by {A} (leb : A -> A -> bool) (l : list A) : list A :=
  foldr (sort_insert leb) [] l.

Section Sort.
Context {A : Type} (leb : A -> A -> bool).
Context (leb_total : forall x y, leb x y = true \/ leb y x = true).
Context (leb_trans : forall x y z, leb x y = true -> leb y z = true -> leb x z = true).

Lemma sort_insert_perm x l : sort_insert leb x l ≡ₚ x :: l.
Proof using Type.
  clear. induction l as [|y l IH]; simpl; [done|]. case_match; [done|].
  by rewrite IH, Permutation_swap.
Qed.

Lemma sort_by_perm l : sort_by leb l ≡ₚ l.
Proof using Type.
  clear. induction l as [|x l IH]; [done|]. simpl. rewrite sort_insert_perm.
  by apply Permutation_skip.
Qed.

Abbreviation sorted_by := (StronglySorted (fun x y => leb x y = true)).

Lemma sort_insert_sorted x l : sorted_by l -> sorted_by (sort_insert leb x l).
Proof using leb_total leb_trans.
  induction 1 as [|y l Hl IH Hy]; simpl; [by repeat constructor|].
  destruct (leb x y) eqn:Hxy.
  - constructor; [by constructor|]. constructor; [done|].
    eapply Forall_impl; [done|]. simpl. intros z Hz. by eapply leb_trans.
  - constructor; [done|]. rewrite sort_insert_perm. constructor; [|done].
    destruct (leb_total x y); congruence.
Qed.

Lemma sort_by_sorted l : sorted_by (sort_by leb l).
Proof using leb_total leb_trans.
  induction l; [constructor|]. by apply sort_insert_sorted.
Qed.
End Sort.

(** A sorted list is determined by its elements when the order is
    antisymmetric. *)
Lemma sorted_unique {A} (R : A -> A -> Prop) l l' :
  (forall x y, R x y -> R y x -> x = y) ->
  StronglySorted R l -> StronglySorted R l' -> l ≡ₚ l' -> l = l'.
Proof.
  intros Hanti Hl. revert l'. induction Hl as [|x l Hl IH Hx]; intros l' Hl' Hp.
  { by apply Permutation_nil_l in Hp as ->. }
  destruct Hl' as [|y l' Hl' Hy]; [by apply Permutation_nil_r in Hp|].
  assert (x = y) as ->.
  { assert (Hxin : x ∈ y :: l') by (rewrite <- Hp; by left).
    assert (Hyin : y ∈ x :: l) by (rewrite Hp; by left).
    apply elem_of_cons in Hxin as [|Hxin]; [done|].
    apply elem_of_cons in Hyin as [|Hyin]; [done|].
    rewrite Forall_forall in Hx, Hy. apply Hanti; auto. }
  f_equal. apply IH; [done|]. by apply (Permutation_cons_inv (a := y)).
Qed.

Definition zsum (l : list Z) : Z := foldr Z.add 0 l.

Lemma zsum_app l l' : zsum (l ++ l') = zsum l + zsum l'.
Proof. induction l; simpl; lia. Qed.

Lemma zsum_perm l l' : l ≡ₚ l' -> zsum l = zsum l'.
Proof. induction 1; simpl; lia. Qed.

Lemma zsum_le {A} (f g : A -> Z) l :
  Forall (fun x => f x <= g x) l -> zsum (map f l) <= zsum (map g l).
Proof. induction 1; simpl; lia. Qed.

(** ** Code that mutates [self] and can fail

    [fn f(&mut self) -> Result<A, E>]: an error keeps the mutations made before
    it, so the state is returned in every case. *)
Definition stm (S E A : Type) : Type := S -> result E A * S.

#[export] Instance stm_ret {S E} : MRet (stm S E) := fun A a s => (Ok a, s).
#[export] Instance stm_bind {S E} : MBind (stm S E) := fun A B f m s =>
  match m s with
  | (Ok a, s') => f a s'
  | (Err e, s') => (Err e, s')
  | (Panic, s') => (Panic, s')
  end.

(** A [&self] computation, a mutation, an early return. *)
Definition reads_self {S E A} (f : S -> result E A) : stm S E A := fun s => (f s, s).
Definition gets {S E A} (f : S -> A) : stm S E A := fun s => (Ok (f s), s).
Definition modify {S E} (f : S -> S) : stm S E unit := fun s => (Ok tt, f s).
Definition throw_if {S E} (f : S -> bool) (e : E) : stm S E unit :=
  fun s => (fail_if (f s) e, s).

Lemma stm_bind_Ok {S E A B} (m : stm S E A) (f : A -> stm S E B) s b s' :
  (m ≫= f) s = (Ok b, s') <-> exists a s1, m s = (Ok a, s1) /\ f a s1 = (Ok b, s').
Proof.
  unfold mbind, stm_bind. destruct (m s) as [[a|e|] s1]; split; try naive_solver;
    intros (? & ? & [=] & _).
Qed.

Lemma throw_if_Ok {S E} (f : S -> bool) (e : E) s u s' :
  throw_if f e s = (Ok u, s') <-> f s = false /\ s' = s.
Proof. unfold throw_if. destruct (f s), u; simpl; naive_solver. Qed.

Lemma reads_self_Ok {S E A} (f : S -> result E A) s a s' :
  reads_self f s = (Ok a, s') <-> f s = Ok a /\ s' = s.
Proof. unfold reads_self. split; [by intros [= -> ->]|by intros [-> ->]]. Qed.

(** Invert a successful run, bind by bind. *)
Ltac stm_inv :=
  repeat match goal with
  | H : (_ ≫= _) _ = (Ok _, _) |- _ => apply stm_bind_Ok in H as (? & ? & ? & H)
  | H : throw_if _ _ _ = (Ok _, _) |- _ => apply throw_if_Ok in H as [? ?]; subst
  | H : reads_self _ _ = (Ok _, _) |- _ => apply reads_self_Ok in H as [? ?]; subst
  | H : modify _ _ = (Ok _, _) |- _ =>
    unfold modify in H; let E := fresh in injection H as E; subst
  | H : gets _ _ = (Ok _, _) |- _ => unfold gets in H; injection H as ? ?; subst
  | H : mret _ _ = (Ok _, _) |- _ => unfold mret, stm_ret in H; injection H as ? ?; subst
  end.

(** ** Field updates

    [r <| f := v |>] is [r] with its field [f] replaced.  A record type gives
    its eta expansion as [Eta]; the setter of a field is obtained by
    abstracting that projection from it. *)
Class Eta (R : Type) := eta_of : R -> R.
Class Setter {R T} (proj : R -> T) := upd : (T -> T) -> R -> R.
Arguments upd {R T} proj {_} f r : simpl never.

Ltac derive_setter :=
  match goal with
  | |- @Setter ?R ?T ?proj =>
    let e := constr:(_ : Eta R) in
    let t := eval hnf in e in
    let t := eval cbv beta in t in
    let u := eval pattern proj in t in
    match u with ?s _ => exact (fun (f : T -> T) => s (fun r => f (proj r))) end
  end.
#[export] Hint Extern 1 (Setter _) => derive_setter : typeclass_instances.

Notation "r <| f := v |>" := (upd f (fun _ => v) r)
  (at level 1, f at level 200, v at level 200, left associativity).

(** [match self.f() { Ok(..) => .., Err(..) => .. }]: the error becomes a
    value, a panic still unwinds. *)
Definition catch {S E A} (m : stm S E A) : stm S E (result E A) := fun s =>
  match m s with
  | (Panic, s') => (Panic, s')
  | (r, s') => (Ok r, s')
  end.

(** [iter_mut().find(pred)] followed by a mutation of the element found. *)
Fixpoint update_first {A} (pred : A -> bool) (f : A -> A) (l : list A) : list A :=
  match l with
  | [] => []
  | x :: l => if pred x then f x :: l else x :: update_first pred f l
  end.

(** A loop that collects results and stops at the first error. *)
Fixpoint collect {E A B} (f : A -> result E B) (l : list A) : result E (list B) :=
  match l with
  | [] => Ok []
  | x :: l => y ← f x; ys ← collect f l; Ok (y :: ys)
  end.
