(* ===== verification/Codec.v ===== *)
(** * Codec: consuming readers and their two correctness notions

    Both byte readers of the code ([WireReader] of src/src/wire/ser.rs and
    [Reader] of src/src/bitcoin/encode.rs) are a slice that shrinks as it is
    read.  A reading function is modelled as [reader E A]: from the remaining
    bytes to a value and the bytes left, or an error.  A writing function is
    modelled by the bytes it appends.

    [reads p w v] (the reader [p] turns the bytes [w], in front of anything,
    into [v]) is the round-trip notion; [canonical p enc] (everything [p]
    accepts is the encoding of what it returns) is the uniqueness notion. *)
From S2P Require Import Prelude.

Definition reader (E A : Type) : Type := bytes -> result E (A * bytes).

#[export] Instance reader_ret {E} : MRet (reader E) := fun A a bs => Ok (a, bs).
#[export] Instance reader_bind {E} : MBind (reader E) := fun A B f p bs =>
  match p bs with
  | Ok (a, rest) => f a rest
  | Err e => Err e
  | Panic => Panic
  end.

(** [Err(e)?] and [if b { return Err(e) }] inside a reading function. *)
Definition rfail {E A} (e : E) : reader E A := fun _ => Err e.
Definition rfail_if {E} (b : bool) (e : E) : reader E unit :=
  fun bs => if b then Err e else Ok (tt, bs).
(** A fallible computation that does not read. *)
Definition rlift {E A} (r : result E A) : reader E A :=
  fun bs => match r with Ok a => Ok (a, bs) | Err e => Err e | Panic => Panic end.

(** [for _ in 0..n { v.push(p()?) }]. *)
Fixpoint read_n {E A} (n : nat) (p : reader E A) : reader E (list A) :=
  match n with
  | O => mret []
  | S n => a ← p; l ← read_n n p; mret (a :: l)
  end.

(** [split_at(n)] when the slice is long enough. *)
Definition split_take (n : nat) (bs : bytes) : option (bytes * bytes) :=
  if (length bs <? n)%nat then None else Some (take n bs, drop n bs).

Section Reads.
Context {E : Type}.

Definition reads {A} (p : reader E A) (w : bytes) (v : A) : Prop :=
  forall rest, p (w ++ rest) = Ok (v, rest).

(** Readers that take the whole remaining input ([r.rest()]). *)
Definition reads_all {A} (p : reader E A) (w : bytes) (v : A) : Prop :=
  p w = Ok (v, []).

(** What [p] accepts is exactly what [enc] writes. *)
Definition canonical {A} (p : reader E A) (ok : A -> Prop) (enc : A -> bytes) : Prop :=
  forall bs v rest, bytes_ok bs -> p bs = Ok (v, rest) -> ok v /\ bs = enc v ++ rest.

Lemma reads_ret {A} (v : A) : reads (mret v) [] v.
Proof. done. Qed.

Lemma reads_bind {A B} (p : reader E A) (f : A -> reader E B) w1 w2 v1 v2 :
  reads p w1 v1 -> reads (f v1) w2 v2 -> reads (p ≫= f) (w1 ++ w2) v2.
Proof.
  intros Hp Hf rest. unfold mbind, reader_bind. by rewrite <- app_assoc, Hp.
Qed.

Lemma reads_bind_ret {A B} (p : reader E A) (f : A -> B) w v :
  reads p w v -> reads (a ← p; mret (f a)) w (f v).
Proof. intros Hp rest. unfold mbind, reader_bind. by rewrite Hp. Qed.

Lemma reads_all_bind {A B} (p : reader E A) (f : A -> reader E B) w1 w2 v1 v2 :
  reads p w1 v1 -> reads_all (f v1) w2 v2 -> reads_all (p ≫= f) (w1 ++ w2) v2.
Proof. intros Hp Hf. unfold reads_all, mbind, reader_bind. by rewrite Hp. Qed.

Lemma reads_guard {A} (b : bool) (e : E) (p : reader E A) w v :
  b = false -> reads p w v -> reads (rfail_if b e ≫= fun _ => p) w v.
Proof. intros -> Hp rest. unfold mbind, reader_bind. simpl. apply Hp. Qed.

Lemma reads_read_n {A} (p : reader E A) (enc : A -> bytes) (vs : list A) :
  Forall (fun v => reads p (enc v) v) vs ->
  reads (read_n (length vs) p) (concat (map enc vs)) vs.
Proof.
  induction 1 as [|v vs Hv Hvs IH]; simpl; [apply reads_ret|].
  eapply reads_bind; [done|]. rewrite <- (app_nil_r (concat _)).
  eapply reads_bind; [done|]. apply reads_ret.
Qed.

Lemma reads_val {A} (p : reader E A) w v v' : reads p w v -> v = v' -> reads p w v'.
Proof. by intros ? <-. Qed.

Lemma reads_all_val {A} (p : reader E A) w v v' : reads_all p w v -> v = v' -> reads_all p w v'.
Proof. by intros ? <-. Qed.

Lemma read_n_canonical {A} (p : reader E A) ok enc n :
  canonical p ok enc ->
  canonical (read_n n p) (fun l => length l = n /\ Forall ok l)
    (fun l => concat (map enc l)).
Proof.
  intros Hp. induction n as [|n IH]; intros bs v rest Hbs; simpl.
  - intros [= <- <-]. done.
  - unfold mbind, reader_bind. destruct (p bs) as [[a bs1]| |] eqn:Ha; [|done..].
    destruct (Hp _ _ _ Hbs Ha) as [Hok ->].
    apply Forall_app in Hbs as [_ Hbs1].
    destruct (read_n n p bs1) as [[l bs2]| |] eqn:Hl; [|done..].
    intros [= <- <-]. destruct (IH _ _ _ Hbs1 Hl) as [[Hlen Hoks] ->].
    split; [split; [simpl; congruence|by constructor]|]. simpl. by rewrite app_assoc.
Qed.

End Reads.

Arguments reads_all_bind {E A B} p f w1 w2 v1 v2 _ _.

Lemma rbind_Ok {E A B} (p : reader E A) (f : A -> reader E B) bs r :
  (p ≫= f) bs = Ok r <-> exists a rest, p bs = Ok (a, rest) /\ f a rest = Ok r.
Proof.
  unfold mbind, reader_bind. destruct (p bs) as [[a rest]| |]; naive_solver.
Qed.

Lemma rfail_if_Ok {E} b (e : E) bs r :
  rfail_if b e bs = Ok r <-> b = false /\ r = (tt, bs).
Proof. destruct b; simpl; naive_solver. Qed.

(** A read followed by a range check on the value. *)
Lemma reads_guarded {E} (p : reader E Z) (bad : Z -> bool) e w v :
  reads p w v -> bad v = false ->
  reads (x ← p; _ ← rfail_if (bad x) e; mret x) w v.
Proof. intros Hp Hv rest. unfold mbind, reader_bind. by rewrite Hp, Hv. Qed.

Lemma canonical_guarded {E} (p : reader E Z) (bad : Z -> bool) e ok enc :
  canonical p ok enc ->
  canonical (x ← p; _ ← rfail_if (bad x) e; mret x)
    (fun v => ok v /\ bad v = false) enc.
Proof.
  intros Hp bs v rest Hbs (x & r & Hx & H)%rbind_Ok.
  apply rbind_Ok in H as (u & r' & [Hb ?]%rfail_if_Ok & Hret). unfold mret, reader_ret in Hret.
  simplify_eq. by destruct (Hp _ _ _ Hbs Hx).
Qed.

Lemma split_take_app n w rest :
  length w = n -> split_take n (w ++ rest) = Some (w, rest).
Proof.
  intros <-. unfold split_take. rewrite length_app.
  case_match eqn:Hb; [apply Nat.ltb_lt in Hb; lia|].
  by rewrite take_app_length, drop_app_length.
Qed.

Lemma split_take_Some n bs w rest :
  split_take n bs = Some (w, rest) <-> length w = n /\ bs = w ++ rest.
Proof.
  split.
  - unfold split_take. case_match eqn:Hb; [done|]. apply Nat.ltb_ge in Hb.
    intros [= <- <-]. rewrite take_drop, length_take. split; [lia|done].
  - intros [Hn ->]. by apply split_take_app.
Qed.

(** Invert a successful run of a reader, bind by bind. *)
Ltac rbind_inv :=
  repeat match goal with
  | H : (_ ≫= _) _ = Ok _ |- _ => apply rbind_Ok in H as (? & ? & ? & H)
  | H : rfail_if _ _ _ = Ok _ |- _ => apply rfail_if_Ok in H as [? ?]
  | H : mret _ _ = Ok _ |- _ => unfold mret, reader_ret in H
  | H : rfail _ _ = Ok _ |- _ => discriminate H
  end; simplify_eq.

(** The readers of primitive fields, for [eauto with codec]. *)
Create HintDb codec discriminated.
