(* ===== verification/Secp.v ===== *)
(** * Secp: the interface of the [secp256k1] crate

    Elliptic-curve arithmetic is a third-party crate, so it is a parameter:
    the class [Secp] lists the types and functions the code calls, and
    [SecpLaws] the documented behaviour the code relies on.  Every theorem
    that needs a law takes [SecpLaws] as a hypothesis; [toy_secp] is an
    instance (a group of 256 elements) that satisfies all of them, used by
    the witnesses. *)
From S2P Require Import Prelude.

Class Secp := {
  PublicKey : Type;
  SecretKey : Type;
  Signature : Type;
  Scalar : Type;
  pk_eq_dec :: EqDecision PublicKey;
  pk_serialize : PublicKey -> bytes;
  pk_from_slice : bytes -> option PublicKey;
  sig_serialize_compact : Signature -> bytes;
  sig_from_compact : bytes -> option Signature;
  sig_serialize_der : Signature -> bytes;
  sk_from_slice : bytes -> option SecretKey;
  sk_secret_bytes : SecretKey -> bytes;
  sk_public_key : SecretKey -> PublicKey;
  sign_ecdsa : bytes -> SecretKey -> Signature;
  verify_ecdsa : bytes -> Signature -> PublicKey -> bool;
  scalar_from_be_bytes : bytes -> option Scalar;
  scalar_from_sk : SecretKey -> Scalar;
  pk_add_exp_tweak : PublicKey -> Scalar -> option PublicKey;
  pk_mul_tweak : PublicKey -> Scalar -> option PublicKey;
  pk_combine : PublicKey -> PublicKey -> option PublicKey;
  sk_add_tweak : SecretKey -> Scalar -> option SecretKey;
  sk_mul_tweak : SecretKey -> Scalar -> option SecretKey;
  (** [ecdh::SharedSecret::new(pk, sk).secret_bytes()]. *)
  ecdh : PublicKey -> SecretKey -> bytes;
  RecoverableSignature : Type;
  rsig_serialize_compact : RecoverableSignature -> Z * bytes;
  rsig_from_compact : bytes -> Z -> option RecoverableSignature;
  rsig_to_standard : RecoverableSignature -> Signature;
  sign_ecdsa_recoverable : bytes -> SecretKey -> RecoverableSignature;
  recover_ecdsa : bytes -> RecoverableSignature -> option PublicKey;
}.

Class SecpLaws (S : Secp) : Prop := {
  pk_serialize_length : forall pk, length (pk_serialize pk) = 33%nat;
  pk_serialize_ok : forall pk, bytes_ok (pk_serialize pk);
  pk_from_serialize : forall pk, pk_from_slice (pk_serialize pk) = Some pk;
  pk_serialize_from : forall bs pk,
    pk_from_slice bs = Some pk -> length bs = 33%nat -> pk_serialize pk = bs;
  sig_compact_length : forall s, length (sig_serialize_compact s) = 64%nat;
  sig_compact_ok : forall s, bytes_ok (sig_serialize_compact s);
  sig_from_serialize : forall s, sig_from_compact (sig_serialize_compact s) = Some s;
  sk_from_secret_bytes : forall sk, sk_from_slice (sk_secret_bytes sk) = Some sk;
  verify_sign : forall h sk, verify_ecdsa h (sign_ecdsa h sk) (sk_public_key sk) = true;
  pub_add_tweak : forall sk t sk',
    sk_add_tweak sk t = Some sk' ->
    pk_add_exp_tweak (sk_public_key sk) t = Some (sk_public_key sk');
  pub_mul_tweak : forall sk t sk',
    sk_mul_tweak sk t = Some sk' ->
    pk_mul_tweak (sk_public_key sk) t = Some (sk_public_key sk');
  pub_combine : forall a b c,
    sk_add_tweak a (scalar_from_sk b) = Some c ->
    pk_combine (sk_public_key a) (sk_public_key b) = Some (sk_public_key c);
  ecdh_length : forall pk sk, length (ecdh pk sk) = 32%nat;
  ecdh_sym : forall a b, ecdh (sk_public_key a) b = ecdh (sk_public_key b) a;
  rsig_recid : forall r, 0 <= (rsig_serialize_compact r).1 < 4;
  rsig_compact_length : forall r, length (rsig_serialize_compact r).2 = 64%nat;
  rsig_compact_ok : forall r, bytes_ok (rsig_serialize_compact r).2;
  rsig_from_serialize : forall r,
    rsig_from_compact (rsig_serialize_compact r).2 (rsig_serialize_compact r).1 = Some r;
  recover_sign : forall h sk, length h = 32%nat -> bytes_ok h ->
    recover_ecdsa h (sign_ecdsa_recoverable h sk) = Some (sk_public_key sk);
}.

(** ** The toy instance: the additive group of bytes *)
Definition toy : Type := dsig (uint 8).

Definition toy_val (x : toy) : Z := proj1_sig x.

Definition toy_of (z : Z) : toy := dexist (wrap 8 z) (wrap_uint 8 z ltac:(lia)).

Lemma toy_of_proj (x : toy) : toy_of (toy_val x) = x.
Proof.
  apply dsig_eq. simpl. apply wrap_small. destruct x as [x Hx]. simpl.
  by apply bool_decide_unpack in Hx.
Qed.

Lemma toy_of_eq x y : wrap 8 x = wrap 8 y -> toy_of x = toy_of y.
Proof. intros. by apply dsig_eq. Qed.

Lemma toy_proj_of z : toy_val (toy_of z) = wrap 8 z.
Proof. done. Qed.

Definition toy_decode (tag : bytes) (n : nat) (bs : bytes) : option toy :=
  let v := of_be (drop (length tag) bs) in
  if decide (bs = tag ++ be_bytes n (wrap 8 v)) then Some (toy_of v) else None.

Lemma toy_decode_encode tag n (x : toy) :
  (1 <= n)%nat -> toy_decode tag n (tag ++ be_bytes n (toy_val x)) = Some x.
Proof.
  intros Hn. unfold toy_decode.
  assert (Hx : uint 8 (toy_val x)) by (destruct x; by eapply bool_decide_unpack).
  rewrite drop_app_length, (of_be_be_bytes_id n (8 * Z.of_nat n));
    [|done|eapply uint_mono; [|done]; lia].
  rewrite decide_True by by rewrite wrap_small. by rewrite toy_of_proj.
Qed.

#[export] Instance toy_secp : Secp := {
  PublicKey := toy; SecretKey := toy; Signature := toy; Scalar := toy;
  pk_serialize pk := [2] ++ be_bytes 32 (toy_val pk);
  pk_from_slice bs := toy_decode [2] 32 bs;
  sig_serialize_compact s := [] ++ be_bytes 64 (toy_val s);
  sig_from_compact bs := toy_decode [] 64 bs;
  sig_serialize_der s := [48; 1; toy_val s];
  sk_from_slice bs := if decide (length bs = 32%nat) then Some (toy_of (of_be bs)) else None;
  sk_secret_bytes s := be_bytes 32 (toy_val s);
  sk_public_key sk := sk;
  sign_ecdsa h sk := toy_of (of_be h + toy_val sk);
  verify_ecdsa h s pk := bool_decide (s = toy_of (of_be h + toy_val pk));
  scalar_from_be_bytes bs := Some (toy_of (of_be bs));
  scalar_from_sk sk := sk;
  pk_add_exp_tweak pk t := Some (toy_of (toy_val pk + toy_val t));
  pk_mul_tweak pk t := Some (toy_of (toy_val pk * toy_val t));
  pk_combine a b := Some (toy_of (toy_val a + toy_val b));
  sk_add_tweak sk t := Some (toy_of (toy_val sk + toy_val t));
  sk_mul_tweak sk t := Some (toy_of (toy_val sk * toy_val t));
  ecdh pk sk := be_bytes 32 (wrap 8 (toy_val pk + toy_val sk));
  RecoverableSignature := toy;
  rsig_serialize_compact s := (0, [] ++ be_bytes 64 (toy_val s));
  rsig_from_compact bs _ := toy_decode [] 64 bs;
  rsig_to_standard s := s;
  sign_ecdsa_recoverable h sk := toy_of (of_be h + toy_val sk);
  recover_ecdsa h s := Some (toy_of (toy_val s - of_be h));
}.

Lemma toy_decode_Some tag n bs x :
  toy_decode tag n bs = Some x -> tag ++ be_bytes n (toy_val x) = bs.
Proof.
  unfold toy_decode. case_decide as H; [|done].
  intros [= <-]. by rewrite toy_proj_of, <- H.
Qed.

Lemma toy_val_uint (x : toy) : uint 8 (toy_val x).
Proof. destruct x as [x Hx]. exact (bool_decide_unpack _ Hx). Qed.

Lemma toy_from_secret (x : toy) :
  (if decide (length (be_bytes 32 (toy_val x)) = 32%nat)
   then Some (toy_of (of_be (be_bytes 32 (toy_val x)))) else None) = Some x.
Proof.
  rewrite decide_True by apply length_be_bytes.
  rewrite (of_be_be_bytes_id 32 256), toy_of_proj;
    [done|done|]. by eapply uint_mono with 8; [|apply toy_val_uint].
Qed.

#[export] Instance toy_secp_laws : SecpLaws toy_secp.
Proof.
  split.
  - intros pk. change (S (length (be_bytes 32 (toy_val pk))) = 33%nat). by rewrite length_be_bytes.
  - intros pk. constructor; [by unfold uint|]. apply be_bytes_ok.
  - intros pk. by apply (toy_decode_encode [2]); lia.
  - intros bs pk H _. by apply toy_decode_Some in H.
  - intros s. apply (length_be_bytes 64).
  - intros s. apply be_bytes_ok.
  - intros s. apply (toy_decode_encode []); lia.
  - apply toy_from_secret.
  - intros. by apply bool_decide_eq_true.
  - intros sk t sk' [= <-]. done.
  - intros sk t sk' [= <-]. done.
  - intros a b c [= <-]. done.
  - intros. apply (length_be_bytes 32).
  - intros a b. cbn. by rewrite Z.add_comm.
  - intros r. cbn. lia.
  - intros r. apply (length_be_bytes 64).
  - intros r. apply be_bytes_ok.
  - intros r. apply (toy_decode_encode []); lia.
  - intros h sk _ _. cbn. f_equal. rewrite <- (toy_of_proj sk) at 2. apply toy_of_eq.
    unfold wrap. rewrite Zminus_mod_idemp_l. f_equal. lia.
Qed.
