(* ===== verification/Ser.v ===== *)
(** * Ser: big-endian wire primitives (src/src/wire/ser.rs)

    [WireWriter] methods are modelled by the bytes they append, [WireReader]
    methods as readers; [read_take] is the only method that looks at the
    slice, all the others are built from it as in the source. *)
From S2P Require Import Prelude Codec Secp.

Inductive WireError : Type :=
  | UnexpectedEnd
  | NonMinimalBigSize
  | BadPubkey
  | BadSignature
  | UnknownRequiredTlv (typ : Z)
  | TlvNotStrictlyAscending
  | TlvLengthMismatch
  | UnknownMessageType (typ : Z)
  | TrailingBytes
  | BadFormat (msg : string).

(** ** WireWriter *)
Definition write_u8 (v : Z) : bytes := [v].
Definition write_u16 (v : Z) : bytes := be_bytes 2 v.
Definition write_u32 (v : Z) : bytes := be_bytes 4 v.
Definition write_u64 (v : Z) : bytes := be_bytes 8 v.
Definition write_bytes (b : bytes) : bytes := b.
Definition write_bytes_u16 (b : bytes) : bytes :=
  write_u16 (wrap 16 (Z.of_nat (length b))) ++ write_bytes b.

#[global] Arguments write_u8 : simpl never.
#[global] Arguments write_u16 : simpl never.
#[global] Arguments write_u32 : simpl never.
#[global] Arguments write_u64 : simpl never.
#[global] Arguments write_bytes_u16 : simpl never.

(** ** WireReader *)
Definition read_take (n : nat) : reader WireError bytes := fun data =>
  match split_take n data with
  | None => Err UnexpectedEnd
  | Some (head, rest) => Ok (head, rest)
  end.
Definition read_rest : reader WireError bytes := fun data => Ok (data, []).
Definition read_array (n : nat) : reader WireError bytes := read_take n.
Definition read_u8 : reader WireError Z :=
  l ← read_take 1; rlift (expect (head l)).
Definition read_u16 : reader WireError Z := l ← read_array 2; mret (of_be l).
Definition read_u32 : reader WireError Z := l ← read_array 4; mret (of_be l).
Definition read_u64 : reader WireError Z := l ← read_array 8; mret (of_be l).
Definition read_bytes_u16 : reader WireError bytes :=
  len ← read_u16; read_take (Z.to_nat len).
Definition read_finish : reader WireError unit := fun data =>
  match data with [] => Ok (tt, []) | _ => Err TrailingBytes end.

Section Keys.
Context `{Secp}.

Definition write_pubkey (pk : PublicKey) : bytes := write_bytes (pk_serialize pk).
Definition write_signature (s : Signature) : bytes :=
  write_bytes (sig_serialize_compact s).
Definition read_pubkey : reader WireError PublicKey :=
  l ← read_take 33; rlift (ok_or (pk_from_slice l) BadPubkey).
Definition read_signature : reader WireError Signature :=
  l ← read_take 64; rlift (ok_or (sig_from_compact l) BadSignature).
End Keys.

(** ** Each reader inverts its writer *)
Lemma reads_take w n : length w = n -> reads (read_take n) w w.
Proof. intros Hn rest. unfold read_take. by rewrite split_take_app. Qed.

Lemma reads_array w n : length w = n -> reads (read_array n) w w.
Proof. apply reads_take. Qed.

Lemma reads_u8 v : reads read_u8 (write_u8 v) v.
Proof.
  unfold write_u8. rewrite <- (app_nil_r [v]).
  eapply reads_bind; [by apply reads_take|]. by intros rest.
Qed.

Lemma reads_be {v} n w :
  w = 8 * Z.of_nat n -> uint w v ->
  reads (l ← read_array n; mret (of_be l)) (be_bytes n v) v.
Proof.
  intros Hw Hv. rewrite <- (of_be_be_bytes_id n w v) at 2 by done.
  apply (reads_bind_ret _ of_be). apply reads_array, length_be_bytes.
Qed.

Lemma reads_u16 v : u16 v -> reads read_u16 (write_u16 v) v.
Proof. by apply reads_be. Qed.
Lemma reads_u32 v : u32 v -> reads read_u32 (write_u32 v) v.
Proof. by apply reads_be. Qed.
Lemma reads_u64 v : u64 v -> reads read_u64 (write_u64 v) v.
Proof. by apply reads_be. Qed.

Lemma reads_bytes_u16 b :
  u16 (Z.of_nat (length b)) -> reads read_bytes_u16 (write_bytes_u16 b) b.
Proof.
  intros Hb. unfold write_bytes_u16. rewrite wrap_small by done.
  eapply reads_bind; [by apply reads_u16|]. apply reads_take. lia.
Qed.

Section KeysLaws.
Context `{HS : Secp} {HL : SecpLaws HS}.

Lemma reads_pubkey pk : reads read_pubkey (write_pubkey pk) pk.
Proof.
  unfold write_pubkey, write_bytes. rewrite <- (app_nil_r (pk_serialize pk)).
  eapply reads_bind; [apply reads_take, pk_serialize_length|].
  intros rest. by rewrite pk_from_serialize.
Qed.

Lemma reads_signature s : reads read_signature (write_signature s) s.
Proof.
  unfold write_signature, write_bytes. rewrite <- (app_nil_r (sig_serialize_compact s)).
  eapply reads_bind; [apply reads_take, sig_compact_length|].
  intros rest. by rewrite sig_from_serialize.
Qed.
End KeysLaws.

#[export] Hint Resolve reads_u8 reads_u16 reads_u32 reads_u64 reads_bytes_u16
  reads_pubkey reads_signature : codec.
#[export] Hint Extern 1 (reads (read_array _) _ _) =>
  apply reads_array; assumption : codec.
#[export] Hint Extern 1 (reads (read_take _) _ _) =>
  apply reads_take; assumption : codec.

(** ** What a reader accepts *)
Lemma read_take_Ok n bs w rest :
  read_take n bs = Ok (w, rest) <-> length w = n /\ bs = w ++ rest.
Proof.
  unfold read_take. rewrite <- split_take_Some.
  destruct (split_take n bs) as [[]|]; naive_solver.
Qed.

Lemma read_u8_Ok bs v rest : read_u8 bs = Ok (v, rest) <-> bs = v :: rest.
Proof.
  unfold read_u8. rewrite rbind_Ok. setoid_rewrite read_take_Ok. split.
  - intros (l & r & [Hl ->] & H). destruct l as [|x [|]]; try done.
    by simplify_eq/=.
  - intros ->. exists [v], rest. done.
Qed.

Lemma read_be_canonical n w :
  w = 8 * Z.of_nat n ->
  canonical (l ← read_array n; mret (of_be l)) (uint w) (be_bytes n).
Proof.
  intros Hw bs v rest Hbs H. rbind_inv.
  apply read_take_Ok in H0 as [<- ->]. apply Forall_app in Hbs as [Hx _].
  split; [by eapply of_be_uint|]. by rewrite be_bytes_of_be.
Qed.

Lemma read_u16_canonical : canonical read_u16 u16 write_u16.
Proof. by apply read_be_canonical. Qed.
Lemma read_u32_canonical : canonical read_u32 u32 write_u32.
Proof. by apply read_be_canonical. Qed.
Lemma read_u64_canonical : canonical read_u64 u64 write_u64.
Proof. by apply read_be_canonical. Qed.

Lemma read_u8_canonical : canonical read_u8 u8 write_u8.
Proof.
  intros bs v rest Hbs ->%read_u8_Ok. by apply Forall_cons in Hbs as [? _].
Qed.
