(* ===== verification/Bigsize.v ===== *)
(** * Bigsize: variable-length integers (src/src/wire/bigsize.rs) *)
From S2P Require Import Prelude Codec Ser.

Definition write (value : Z) : bytes :=
  if value <=? 0xfc then write_u8 (wrap 8 value)
  else if value <=? 0xffff then write_u8 0xfd ++ write_u16 (wrap 16 value)
  else if value <=? 0xffffffff then write_u8 0xfe ++ write_u32 (wrap 32 value)
  else write_u8 0xff ++ write_u64 value.

Definition read : reader WireError Z :=
  first ← read_u8;
  if first <=? 0xfc then mret first
  else if first =? 0xfd then
    v ← read_u16;
    _ ← rfail_if (v <? 0xfd) NonMinimalBigSize;
    mret v
  else if first =? 0xfe then
    v ← read_u32;
    _ ← rfail_if (v <=? 0xffff) NonMinimalBigSize;
    mret v
  else
    v ← read_u64;
    _ ← rfail_if (v <=? 0xffffffff) NonMinimalBigSize;
    mret v.

Definition len (value : Z) : nat :=
  if value <=? 0xfc then 1
  else if value <=? 0xffff then 3
  else if value <=? 0xffffffff then 5
  else 9.

Ltac bigsize_cases :=
  repeat match goal with
  | |- context [if (?a <=? ?b) then _ else _] => destruct (Z.leb_spec a b)
  | |- context [if (?a =? ?b) then _ else _] => destruct (Z.eqb_spec a b)
  end; try lia.

Lemma read_cons b r :
  read (b :: r) =
    (if b <=? 0xfc then mret b
     else if b =? 0xfd then
       v ← read_u16; _ ← rfail_if (v <? 0xfd) NonMinimalBigSize; mret v
     else if b =? 0xfe then
       v ← read_u32; _ ← rfail_if (v <=? 0xffff) NonMinimalBigSize; mret v
     else v ← read_u64; _ ← rfail_if (v <=? 0xffffffff) NonMinimalBigSize; mret v) r.
Proof. unfold read. unfold mbind at 1, reader_bind at 1. by rewrite (reads_u8 b r : read_u8 (b :: r) = _). Qed.

Lemma bigsize_reads v : u64 v -> reads read (write v) v.
Proof.
  intros Hv rest. unfold write. unfold uint in Hv.
  bigsize_cases; rewrite ?wrap_small by (unfold uint; lia).
  - change (read (v :: rest) = Ok (v, rest)).
    by rewrite read_cons, (proj2 (Z.leb_le v 0xfc)).
  - change (read (0xfd :: (write_u16 v ++ rest)) = Ok (v, rest)). rewrite read_cons.
    apply (reads_guarded read_u16 (fun v => v <? 0xfd));
      [apply reads_u16; unfold uint; lia|lia].
  - change (read (0xfe :: (write_u32 v ++ rest)) = Ok (v, rest)). rewrite read_cons.
    apply (reads_guarded read_u32 (fun v => v <=? 0xffff));
      [apply reads_u32; unfold uint; lia|lia].
  - change (read (0xff :: (write_u64 v ++ rest)) = Ok (v, rest)). rewrite read_cons.
    apply (reads_guarded read_u64 (fun v => v <=? 0xffffffff));
      [apply reads_u64; unfold uint; lia|lia].
Qed.

Lemma bigsize_canonical : canonical read u64 write.
Proof.
  intros [|b r] v rest Hbs; [done|]. rewrite read_cons.
  apply Forall_cons in Hbs as [Hb Hr]. unfold uint in Hb. unfold write.
  destruct (Z.leb_spec b 0xfc); [|destruct (Z.eqb_spec b 0xfd);
    [|destruct (Z.eqb_spec b 0xfe)]]; intros Hrun.
  - injection Hrun as -> ->. split; [unfold uint; lia|]. bigsize_cases.
    by rewrite wrap_small by (unfold uint; lia).
  - apply (canonical_guarded read_u16 (fun v => v <? 0xfd) _ _ _ read_u16_canonical)
      in Hrun as [[Hv Hm] ->]; [|done]. unfold uint in *. subst b.
    split; [lia|]. bigsize_cases. by rewrite wrap_small.
  - apply (canonical_guarded read_u32 (fun v => v <=? 0xffff) _ _ _ read_u32_canonical)
      in Hrun as [[Hv Hm] ->]; [|done]. unfold uint in *. subst b.
    split; [lia|]. bigsize_cases. by rewrite wrap_small.
  - apply (canonical_guarded read_u64 (fun v => v <=? 0xffffffff) _ _ _ read_u64_canonical)
      in Hrun as [[Hv Hm] ->]; [|done]. unfold uint in *. assert (b = 0xff) as -> by lia.
    split; [lia|]. bigsize_cases. done.
Qed.

Lemma length_write v : length (write v) = len v.
Proof. unfold write, len. by bigsize_cases; rewrite ?length_app, ?length_be_bytes. Qed.

Lemma len_pos v : (1 <= len v)%nat.
Proof. unfold len. bigsize_cases. Qed.

Lemma read_no_panic bs : read bs <> Panic.
Proof.
  destruct bs as [|b r]; [done|]. rewrite read_cons.
  repeat case_match; try done;
    unfold mbind, reader_bind, read_u16, read_u32, read_u64, read_array, mbind,
      reader_bind, read_take, rfail_if; repeat case_match; simplify_eq/=; try done.
Qed.

#[export] Hint Resolve bigsize_reads : codec.

(** BigSize is a bijection between 64-bit integers and the byte strings
    [read] accepts: reading succeeds exactly on the minimal encoding [write]
    produces (of [len] bytes), whatever follows it. *)
Theorem read_iff bs v rest (Hok : bytes_ok bs) :
  read bs = Ok (v, rest) <->
  u64 v /\ bs = write v ++ rest /\ length bs = (len v + length rest)%nat.
Proof.
  rewrite <- length_write. split.
  - intros [Hv ->]%bigsize_canonical; [|done]. by rewrite length_app.
  - intros (Hv & -> & _). by apply bigsize_reads.
Qed.

Lemma read_iff_witness :
  read [0xfd; 1; 0; 9] = Ok (256, [9]) <->
  u64 256 /\ [0xfd; 1; 0; 9] = write 256 ++ [9] /\
  length [0xfd; 1; 0; 9] = (len 256 + length [9])%nat.
Proof. apply read_iff. repeat constructor; unfold uint; lia. Defined.
