(* ===== verification/Tlv.v ===== *)
(** * Tlv: TLV streams and truncated integers (src/src/wire/tlv.rs) *)
From S2P Require Import Prelude Codec Ser Bigsize.

Record TlvRecord := { typ : Z; value : bytes }.

(** The body of the [while !r.is_empty()] loop of [parse_stream], with the
    type seen last; the fuel bounds the number of records. *)
Fixpoint parse_loop (fuel : nat) (last_type : option Z) (r : bytes)
    : result WireError (list TlvRecord) :=
  match fuel with
  | O => Panic
  | S fuel =>
    match r with
    | [] => Ok []
    | _ =>
      '(t, r) ← Bigsize.read r;
      _ ← fail_if (match last_type with Some prev => t <=? prev | None => false end)
            TlvNotStrictlyAscending;
      '(len, r) ← Bigsize.read r;
      _ ← fail_if (Z.of_nat (length r) <? len) TlvLengthMismatch;
      '(v, r) ← read_take (Z.to_nat len) r;
      records ← parse_loop fuel (Some t) r;
      Ok ({| typ := t; value := v |} :: records)
    end
  end.

Definition parse_stream (data : bytes) : result WireError (list TlvRecord) :=
  parse_loop (S (length data)) None data.

Fixpoint check_unknown_even (records : list TlvRecord) (known : list Z)
    : result WireError unit :=
  match records with
  | [] => Ok tt
  | rec :: records =>
    if (typ rec mod 2 =? 0) && negb (bool_decide (typ rec ∈ known))
    then Err (UnknownRequiredTlv (typ rec))
    else check_unknown_even records known
  end.

Definition write_record (t : Z) (v : bytes) : bytes :=
  Bigsize.write t ++ Bigsize.write (Z.of_nat (length v)) ++ write_bytes v.

Fixpoint skip_zeros (l : bytes) : bytes :=
  match l with
  | b :: l' => if b =? 0 then skip_zeros l' else l
  | [] => []
  end.

Definition write_tu64 (v : Z) : bytes := skip_zeros (be_bytes 8 v).

Definition read_tu64 (v : bytes) : result WireError Z :=
  _ ← fail_if (8 <? length v)%nat (BadFormat "tu64 too long");
  _ ← fail_if (bool_decide (head v = Some 0)) (BadFormat "tu64 not minimal");
  Ok (foldl (fun out b => Z.lor (wrap 64 (Z.shiftl out 8)) b) 0 v).

Definition write_tu32 (v : Z) : bytes := write_tu64 v.
Definition read_tu32 (v : bytes) : result WireError Z :=
  _ ← fail_if (4 <? length v)%nat (BadFormat "tu32 too long");
  x ← read_tu64 v; Ok (wrap 32 x).
Definition write_tu16 (v : Z) : bytes := write_tu64 v.
Definition read_tu16 (v : bytes) : result WireError Z :=
  _ ← fail_if (2 <? length v)%nat (BadFormat "tu16 too long");
  x ← read_tu64 v; Ok (wrap 16 x).

(** ** Specification: the stream as a list of records *)
Definition encode_stream (records : list TlvRecord) : bytes :=
  concat (map (fun r => write_record (typ r) (value r)) records).

(** Types strictly ascending above [last]; types and lengths are u64. *)
Fixpoint ascending (last : option Z) (records : list TlvRecord) : Prop :=
  match records with
  | [] => True
  | r :: records =>
    match last with Some prev => prev < typ r | None => True end /\
    u64 (typ r) /\ u64 (Z.of_nat (length (value r))) /\
    ascending (Some (typ r)) records
  end.

Lemma parse_loop_step fuel last r :
  r <> [] ->
  parse_loop (S fuel) last r =
    ('(t, r) ← Bigsize.read r;
     _ ← fail_if (match last with Some prev => t <=? prev | None => false end)
           TlvNotStrictlyAscending;
     '(len, r) ← Bigsize.read r;
     _ ← fail_if (Z.of_nat (length r) <? len) TlvLengthMismatch;
     '(v, r) ← read_take (Z.to_nat len) r;
     records ← parse_loop fuel (Some t) r;
     Ok ({| typ := t; value := v |} :: records)).
Proof. by destruct r. Qed.

Lemma encode_stream_cons r records :
  encode_stream (r :: records) =
    Bigsize.write (typ r) ++ Bigsize.write (Z.of_nat (length (value r))) ++
    value r ++ encode_stream records.
Proof.
  unfold encode_stream. simpl. unfold write_record, write_bytes. by rewrite <- !app_assoc.
Qed.

Lemma write_app_nonempty t w : Bigsize.write t ++ w <> [].
Proof.
  intros Hne%(f_equal length). rewrite length_app, Bigsize.length_write in Hne.
  pose proof (Bigsize.len_pos t). simpl in Hne. lia.
Qed.

Lemma parse_loop_encode records : forall fuel last,
  ascending last records -> (length (encode_stream records) < fuel)%nat ->
  parse_loop fuel last (encode_stream records) = Ok records.
Proof.
  induction records as [|[t v] records IH]; intros [|fuel] last;
    [simpl; lia|done|simpl; lia|].
  intros (Hlast & Ht & Hv & Hrec) Hfuel. simpl in Hlast, Ht, Hv, Hrec.
  rewrite encode_stream_cons in *. simpl typ in *. simpl value in *.
  rewrite parse_loop_step by apply write_app_nonempty.
  rewrite Bigsize.bigsize_reads by done. simpl.
  replace (match last with Some prev => t <=? prev | None => false end) with false
    by (destruct last; [symmetry; lia|done]). simpl.
  rewrite Bigsize.bigsize_reads by done. simpl.
  rewrite (proj2 (Z.ltb_ge _ _)) by (rewrite length_app; lia). simpl.
  rewrite reads_take by lia. simpl.
  rewrite IH; [done|done|]. rewrite !length_app in Hfuel.
  pose proof (Bigsize.length_write t). pose proof (Bigsize.len_pos t). lia.
Qed.

Lemma parse_loop_sound fuel : forall last data records,
  bytes_ok data -> parse_loop fuel last data = Ok records ->
  ascending last records /\ data = encode_stream records.
Proof.
  induction fuel as [|fuel IH]; intros last data records Hok; [done|].
  destruct (decide (data = [])) as [->|Hne]; [by intros [= <-]|].
  rewrite parse_loop_step by done.
  intros H. apply bind_Ok in H as ([t r1] & Hr1 & H).
  apply bind_Ok in H as (? & Hlast%fail_if_Ok & H).
  apply bind_Ok in H as ([len r2] & Hr2 & H).
  apply bind_Ok in H as (? & Hlen%fail_if_Ok & H).
  apply bind_Ok in H as ([v r3] & Hr3 & H).
  apply bind_Ok in H as (recs & Hrecs & [= <-]).
  apply Bigsize.bigsize_canonical in Hr1 as [Ht Hd]; [|done]. rewrite Hd in Hok |- *.
  apply Forall_app in Hok as [_ Hok].
  apply Bigsize.bigsize_canonical in Hr2 as [Hl ->]; [|done].
  apply Forall_app in Hok as [_ Hok].
  apply read_take_Ok in Hr3 as [Hv ->]. apply Forall_app in Hok as [_ Hok].
  destruct (IH _ _ _ Hok Hrecs) as [Hasc ->]. unfold uint in Hl.
  assert (Z.of_nat (length v) = len) as Hvl by lia. split.
  - simpl. rewrite Hvl. split; [destruct last; [lia|done]|]. done.
  - rewrite encode_stream_cons. simpl. by rewrite Hvl.
Qed.

Lemma parse_loop_no_panic fuel : forall last data,
  (length data < fuel)%nat -> bytes_ok data -> parse_loop fuel last data <> Panic.
Proof.
  induction fuel as [|fuel IH]; intros last data Hfuel Hok; [lia|].
  destruct (decide (data = [])) as [->|Hne]; [done|]. rewrite parse_loop_step by done.
  destruct (Bigsize.read data) as [[t r1]| |] eqn:Hr1; simpl; [|done|].
  2: by apply Bigsize.read_no_panic in Hr1.
  destruct (fail_if _ _) eqn:Hf; simpl; [|done|by apply fail_if_no_panic in Hf].
  destruct (Bigsize.read r1) as [[len r2]| |] eqn:Hr2; simpl; [|done|].
  2: by apply Bigsize.read_no_panic in Hr2.
  destruct (fail_if (_ <? _) _) eqn:Hg; simpl; [|done|by apply fail_if_no_panic in Hg].
  unfold read_take. destruct (split_take _ r2) as [[v r3]|] eqn:Hs; simpl; [|done].
  apply split_take_Some in Hs as [_ ->].
  apply Bigsize.bigsize_canonical in Hr1 as [_ Hd]; [|done]. rewrite Hd in Hok, Hfuel.
  apply Forall_app in Hok as [_ Hok].
  apply Bigsize.bigsize_canonical in Hr2 as [_ ->]; [|done].
  rewrite !Forall_app in Hok. destruct Hok as (_ & _ & Hok).
  rewrite !length_app in Hfuel.
  pose proof (Bigsize.length_write t). pose proof (Bigsize.len_pos t).
  specialize (IH (Some t) r3 ltac:(lia) Hok).
  by destruct (parse_loop fuel (Some t) r3).
Qed.

(** [C40] A byte string parses as a TLV stream exactly when it is the
    concatenation of the records it parses to, with types strictly ascending
    and types and lengths in 64 bits: the parser accepts every stream the
    writer produces, and nothing else (no second encoding of a stream). *)
Theorem parse_stream_iff data records (Hok : bytes_ok data) :
  parse_stream data = Ok records <->
  ascending None records /\ data = encode_stream records.
Proof.
  split; [by apply parse_loop_sound|]. intros [Hasc ->].
  apply parse_loop_encode; [done|lia].
Qed.

Lemma parse_stream_iff_witness :
  parse_stream [1; 1; 7; 0xfd; 1; 0; 2; 8; 9] =
    Ok [{| typ := 1; value := [7] |}; {| typ := 256; value := [8; 9] |}] <->
  ascending None [{| typ := 1; value := [7] |}; {| typ := 256; value := [8; 9] |}] /\
  [1; 1; 7; 0xfd; 1; 0; 2; 8; 9] =
    encode_stream [{| typ := 1; value := [7] |}; {| typ := 256; value := [8; 9] |}].
Proof. apply parse_stream_iff. repeat constructor; unfold uint; lia. Defined.

(** The parser is total: on any bytes the loop ends within one iteration
    per input byte, with records or with a wire error, never a panic. *)
Theorem parse_stream_total data (Hok : bytes_ok data) : parse_stream data <> Panic.
Proof. apply parse_loop_no_panic; [lia|done]. Qed.

Lemma parse_stream_total_witness : parse_stream [1; 2; 0] <> Panic.
Proof. apply parse_stream_total. repeat constructor; unfold uint; lia. Defined.

(** ** "It's OK to be odd" *)
Lemma check_unknown_even_Ok records known :
  check_unknown_even records known = Ok tt <->
  Forall (fun r => typ r mod 2 = 0 -> typ r ∈ known) records.
Proof.
  induction records as [|r records IH]; simpl; [done|]. rewrite Forall_cons, <- IH.
  destruct (Z.eqb_spec (typ r mod 2) 0); simpl; [|naive_solver].
  case_bool_decide; simpl; naive_solver.
Qed.

Lemma check_unknown_even_Err records known e :
  check_unknown_even records known = Err e <->
  exists pre r post, records = pre ++ (r :: post) /\
    Forall (fun r => typ r mod 2 = 0 -> typ r ∈ known) pre /\
    typ r mod 2 = 0 /\ (typ r ∉ known) /\ e = UnknownRequiredTlv (typ r).
Proof.
  induction records as [|r records IH]; simpl.
  { split; [done|]. intros ([] & ? & ? & ? & _); done. }
  destruct (_ && _) eqn:Hb.
  - apply andb_true_iff in Hb as [He Hk]. apply Z.eqb_eq in He.
    apply negb_true_iff, bool_decide_eq_false in Hk. split.
    + intros [= <-]. by exists [], r, records.
    + intros (pre & r' & post & Heq & Hpre & _ & _ & ->).
      destruct pre as [|r'' pre]; simplify_eq/=; [done|].
      apply Forall_cons in Hpre as [? _]. naive_solver.
  - assert (typ r mod 2 = 0 -> typ r ∈ known) as Hr.
    { intros He%Z.eqb_eq. rewrite He in Hb. simpl in Hb.
      by apply negb_false_iff, bool_decide_eq_true in Hb. }
    rewrite IH. split; intros (pre & r' & post & Heq & Hpre & ? & ? & ->).
    + exists (r :: pre), r', post. subst. by rewrite Forall_cons.
    + destruct pre as [|r'' pre]; simplify_eq/=; [naive_solver|].
      apply Forall_cons in Hpre as [_ ?]. by exists pre, r', post.
Qed.

(** Unknown types: the check passes exactly when every even type is
    known, and otherwise reports the first unknown even type; odd types never
    matter. *)
Theorem check_unknown_even_spec records known :
  (check_unknown_even records known = Ok tt <->
     Forall (fun r => typ r mod 2 = 0 -> typ r ∈ known) records) /\
  (forall e, check_unknown_even records known = Err e <->
     exists pre r post, records = pre ++ (r :: post) /\
       Forall (fun r => typ r mod 2 = 0 -> typ r ∈ known) pre /\
       typ r mod 2 = 0 /\ (typ r ∉ known) /\ e = UnknownRequiredTlv (typ r)).
Proof. split; [apply check_unknown_even_Ok|apply check_unknown_even_Err]. Qed.

(** ** Truncated integers *)
Lemma skip_zeros_app l : exists n, l = replicate n 0 ++ skip_zeros l.
Proof.
  induction l as [|b l [n IH]]; simpl; [by exists 0%nat|].
  destruct (Z.eqb_spec b 0) as [->|]; [|by exists 0%nat].
  exists (S n). simpl. by rewrite <- IH.
Qed.

Lemma skip_zeros_head l : head (skip_zeros l) <> Some 0.
Proof.
  induction l as [|b l IH]; simpl; [done|]. destruct (Z.eqb_spec b 0); [done|].
  simpl. congruence.
Qed.

Lemma skip_zeros_replicate n l : head l <> Some 0 -> skip_zeros (replicate n 0 ++ l) = l.
Proof.
  intros Hl. induction n as [|n IH]; simpl; [|done].
  destruct l as [|b l]; simpl in *; [done|]. by destruct (Z.eqb_spec b 0); subst.
Qed.

Lemma of_be_zeros n l : of_be (replicate n 0 ++ l) = of_be l.
Proof.
  rewrite !of_be_foldl, foldl_app. f_equal. by induction n.
Qed.

Lemma tu_fold l :
  bytes_ok l -> (length l <= 8)%nat ->
  foldl (fun out b => Z.lor (wrap 64 (Z.shiftl out 8)) b) 0 l = of_be l.
Proof.
  induction l as [|b l IH] using rev_ind; [done|].
  rewrite Forall_app, Forall_singleton, length_app. simpl. intros [Hl Hb] Hlen.
  rewrite foldl_app, of_be_snoc. simpl. rewrite IH by (done || lia).
  pose proof (of_be_bound l Hl) as Hbd.
  assert (256 ^ Z.of_nat (length l) <= 256 ^ 7) by (apply Z.pow_le_mono_r; lia).
  rewrite wrap_small.
  - rewrite lor_shiftl_add; [lia|lia|exact Hb].
  - unfold uint. rewrite Z.shiftl_mul_pow2 by lia. lia.
Qed.

Lemma be_bytes_pad l :
  bytes_ok l -> (length l <= 8)%nat ->
  be_bytes 8 (of_be l) = replicate (8 - length l) 0 ++ l.
Proof.
  intros Hl Hlen. rewrite <- (of_be_zeros (8 - length l) l).
  replace 8%nat with (length (replicate (8 - length l) 0 ++ l)) at 1
    by (rewrite length_app, length_replicate; lia).
  apply be_bytes_of_be. apply Forall_app. split; [|done].
  apply Forall_replicate. by unfold uint.
Qed.

Lemma write_tu64_parts v :
  u64 v -> bytes_ok (write_tu64 v) /\ (length (write_tu64 v) <= 8)%nat /\
    head (write_tu64 v) <> Some 0 /\ of_be (write_tu64 v) = v.
Proof.
  intros Hv. unfold write_tu64. destruct (skip_zeros_app (be_bytes 8 v)) as [n Hn].
  pose proof (be_bytes_ok 8 v) as Hok. pose proof (length_be_bytes 8 v) as Hlen.
  rewrite Hn, Forall_app in Hok. rewrite Hn, length_app in Hlen.
  split; [apply Hok|]. split; [lia|]. split; [apply skip_zeros_head|].
  rewrite <- (of_be_zeros n), <- Hn. by apply (of_be_be_bytes_id 8 64).
Qed.

Lemma read_tu64_spec bs v (Hok : bytes_ok bs) :
  read_tu64 bs = Ok v <-> u64 v /\ bs = write_tu64 v.
Proof.
  unfold read_tu64. split.
  - intros (? & Hlen%fail_if_Ok & H)%bind_Ok.
    apply bind_Ok in H as (? & Hh%fail_if_Ok & [= <-]).
    apply Nat.ltb_ge in Hlen. apply bool_decide_eq_false in Hh.
    rewrite tu_fold by done. split.
    + eapply uint_mono; [|by apply (of_be_uint (length bs))]. lia.
    + unfold write_tu64. rewrite be_bytes_pad by done. by rewrite skip_zeros_replicate.
  - intros [Hv ->]. destruct (write_tu64_parts v Hv) as (Hb & Hl & Hh & Hval).
    rewrite (proj2 (Nat.ltb_ge _ _)) by done. simpl.
    rewrite bool_decide_eq_false_2 by done. simpl. by rewrite tu_fold, Hval.
Qed.

(** Truncated integers: [read_tu64] accepts exactly the minimal
    big-endian form that [write_tu64] produces, and returns the integer it
    was produced from. *)
Theorem read_tu64_iff bs v (Hok : bytes_ok bs) :
  read_tu64 bs = Ok v <-> u64 v /\ bs = write_tu64 v.
Proof. by apply read_tu64_spec. Qed.

Lemma read_tu64_iff_witness :
  read_tu64 [1; 0] = Ok 256 <-> u64 256 /\ [1; 0] = write_tu64 256.
Proof. apply read_tu64_iff. repeat constructor; unfold uint; lia. Defined.

Lemma length_skip_zeros_le l n :
  bytes_ok l -> of_be l < 256 ^ Z.of_nat n -> (length (skip_zeros l) <= n)%nat.
Proof.
  intros Hl Hlt. destruct (skip_zeros_app l) as [k Hk].
  rewrite Hk, of_be_zeros in Hlt. rewrite Hk, Forall_app in Hl. destruct Hl as [_ Hl].
  pose proof (skip_zeros_head l) as Hh. destruct (skip_zeros l) as [|b r]; simpl; [lia|].
  apply Forall_cons in Hl as [Hb Hr]. simpl in Hh. unfold uint in Hb.
  assert (b <> 0) by congruence.
  pose proof (be_bytes_of_be r Hr). pose proof (of_be_bound r Hr).
  assert (of_be (b :: r) = b * 256 ^ Z.of_nat (length r) + of_be r) as Hbr.
  { unfold of_be. rewrite reverse_cons.
    assert (forall l x, of_le (l ++ [x]) = of_le l + x * 256 ^ Z.of_nat (length l)) as Happ.
    { clear. induction l as [|y l IH]; intros x; simpl of_le; simpl length; [simpl; lia|].
      rewrite IH, Nat2Z.inj_succ, Z.pow_succ_r by lia. lia. }
    rewrite Happ, length_reverse. lia. }
  assert (256 ^ Z.of_nat (length r) < 256 ^ Z.of_nat n) by nia.
  assert (Z.of_nat (length r) < Z.of_nat n)
    by (apply Z.pow_lt_mono_r_iff with 256; lia). lia.
Qed.

(** The narrower truncated integers round-trip at their own width. *)
Theorem read_tu32_tu16_write :
  (forall v, u32 v -> read_tu32 (write_tu32 v) = Ok v) /\
  (forall v, u16 v -> read_tu16 (write_tu16 v) = Ok v).
Proof.
  assert (forall v n w, (n <= 8)%nat -> w = 8 * Z.of_nat n -> uint w v ->
    read_tu64 (write_tu64 v) = Ok v /\ (length (write_tu64 v) <= n)%nat) as Hgen.
  { intros v n w Hn Hw Hv. assert (u64 v) as Hv64 by (eapply uint_mono; [|done]; lia).
    split; [apply read_tu64_spec; [by apply write_tu64_parts|done]|].
    apply length_skip_zeros_le; [apply be_bytes_ok|].
    rewrite (of_be_be_bytes_id 8 64) by done.
    unfold uint in Hv. subst w. rewrite Z.pow_mul_r in Hv by lia. apply Hv. }
  split; intros v Hv.
  - destruct (Hgen v 4%nat 32) as [Hr Hl]; [lia|lia|done|].
    unfold read_tu32, write_tu32. rewrite (proj2 (Nat.ltb_ge _ _)) by done. simpl.
    rewrite Hr. simpl. by rewrite wrap_small.
  - destruct (Hgen v 2%nat 16) as [Hr Hl]; [lia|lia|done|].
    unfold read_tu16, write_tu16. rewrite (proj2 (Nat.ltb_ge _ _)) by done. simpl.
    rewrite Hr. simpl. by rewrite wrap_small.
Qed.

Lemma read_tu32_tu16_write_witness :
  read_tu32 (write_tu32 42) = Ok 42 /\ read_tu16 (write_tu16 420) = Ok 420.
Proof.
  split; [apply (proj1 read_tu32_tu16_write)|apply (proj2 read_tu32_tu16_write)];
    unfold uint; lia.
Defined.
