(* ===== verification/Features.v ===== *)
(** * Features: BOLT 9 feature vectors (src/src/wire/features.rs)

    A vector is the byte list of the code, big-endian as a whole; the
    abstract view of a vector is the number [of_be f], whose bit [n] is
    feature bit [n].  Each operation is related to that number. *)
From S2P Require Import Prelude.

Inductive FeatureBit : Type :=
  | DataLossProtect | InitialRoutingSync | UpfrontShutdownScript | GossipQueries
  | VarOnionOptin | GossipQueriesEx | StaticRemoteKey | PaymentSecretBit | BasicMpp
  | Wumbo | AnchorsZeroFeeHtlcTx | RouteBlinding | ShutdownAnySegwit | ChannelType
  | ScidAlias | PaymentMetadata | ZeroConf.

(** [feature as u16]. *)
Definition feature_bit (f : FeatureBit) : Z :=
  match f with
  | DataLossProtect => 0 | InitialRoutingSync => 3 | UpfrontShutdownScript => 4
  | GossipQueries => 6 | VarOnionOptin => 8 | GossipQueriesEx => 10
  | StaticRemoteKey => 12 | PaymentSecretBit => 14 | BasicMpp => 16 | Wumbo => 18
  | AnchorsZeroFeeHtlcTx => 22 | RouteBlinding => 24 | ShutdownAnySegwit => 26
  | ChannelType => 44 | ScidAlias => 46 | PaymentMetadata => 48 | ZeroConf => 50
  end.

Definition empty : bytes := [].

(** The prepending of zeros in [set]. *)
Definition grow (f : bytes) (byte_from_end : nat) : bytes :=
  if (length f <=? byte_from_end)%nat
  then replicate (byte_from_end + 1 - length f) 0 ++ f else f.

Definition set (f : bytes) (bit : Z) : bytes :=
  let byte_from_end := Z.to_nat (bit / 8) in
  let f := grow f byte_from_end in
  let idx := (length f - 1 - byte_from_end)%nat in
  <[idx := Z.lor (f !!! idx) (Z.shiftl 1 (bit mod 8))]> f.

Definition is_set (f : bytes) (bit : Z) : bool :=
  let byte_from_end := Z.to_nat (bit / 8) in
  if (length f <=? byte_from_end)%nat then false
  else
    let idx := (length f - 1 - byte_from_end)%nat in
    negb (Z.land (f !!! idx) (Z.shiftl 1 (bit mod 8)) =? 0).

Definition supports (f : bytes) (feature : FeatureBit) : bool :=
  let even := Z.land (feature_bit feature) 0xfffe in
  is_set f even || is_set f (even + 1).

Definition requires (f : bytes) (feature : FeatureBit) : bool :=
  is_set f (Z.land (feature_bit feature) 0xfffe).

(** The two nested loops: byte by byte from the end, bit by bit. *)
Definition bit_offends (known : list Z) (byte byte_from_end bit_in_byte : Z) : option Z :=
  let bit := wrap 16 (wrap 16 (wrap 16 byte_from_end * 8) + bit_in_byte) in
  if (bit mod 2 =? 0) && negb (Z.land byte (Z.shiftl 1 bit_in_byte) =? 0)
     && negb (bool_decide (bit ∈ known))
  then Some bit else None.

Fixpoint first_some {A B} (f : A -> option B) (l : list A) : option B :=
  match l with
  | [] => None
  | a :: l => match f a with Some b => Some b | None => first_some f l end
  end.

Definition unknown_required_bits (f : bytes) (known : list Z) : option Z :=
  first_some (fun byte_from_end =>
    let byte := f !!! (length f - 1 - byte_from_end)%nat in
    first_some (bit_offends known byte (Z.of_nat byte_from_end)) [0;1;2;3;4;5;6;7])
    (seq 0 (length f)).

Definition known_even_bits : list Z := [0; 4; 6; 8; 12; 14; 16; 22; 26; 44; 46; 48; 50].

(** [v.len().checked_sub(1 + from_end).map(|j| v[j]).unwrap_or(0)]. *)
Definition byte_at (f : bytes) (from_end : nat) : Z :=
  if (1 + from_end <=? length f)%nat then f !!! (length f - (1 + from_end))%nat else 0.

Definition or (a b : bytes) : bytes :=
  let len := Nat.max (length a) (length b) in
  map (fun i => let from_end := (len - 1 - i)%nat in
                Z.lor (byte_at a from_end) (byte_at b from_end)) (seq 0 len).

Definition keraunos_default : bytes :=
  let f := empty in
  let f := set f (feature_bit DataLossProtect + 1) in
  let f := set f (feature_bit VarOnionOptin) in
  let f := set f (feature_bit StaticRemoteKey) in
  let f := set f (feature_bit PaymentSecretBit) in
  let f := set f (feature_bit ShutdownAnySegwit + 1) in
  set f (feature_bit ChannelType + 1).

(** ** The abstract view *)
Lemma of_le_testbit l k :
  bytes_ok l -> 0 <= k ->
  Z.testbit (of_le l) k = Z.testbit (default 0 (l !! Z.to_nat (k / 8))) (k mod 8).
Proof.
  intros Hl. revert k. induction Hl as [|b l Hb Hl IH]; intros k Hk; simpl.
  { by rewrite !Z.testbit_0_l. }
  rewrite Z.add_comm, Z.mul_comm. change 256 with (2 ^ 8).
  rewrite <- lor_shiftl_add by (done || lia). rewrite Z.lor_spec.
  destruct (Z.lt_ge_cases k 8).
  - rewrite Z.shiftl_spec_low by lia. rewrite Z.div_small, Z.mod_small by lia. done.
  - rewrite Z.shiftl_spec_high by lia. rewrite (uint_testbit_high 8 b) by (done || lia).
    rewrite orb_false_r, IH by lia.
    replace (k - 8) with (k + (-1) * 8) by lia.
    rewrite Z.div_add, Z_mod_plus_full by lia.
    replace (Z.to_nat (k / 8)) with (S (Z.to_nat (k / 8 + -1))); [done|].
    assert (1 <= k / 8) by (apply Z.div_le_lower_bound; lia). lia.
Qed.

Lemma byte_at_lookup f i : byte_at f i = default 0 (reverse f !! i).
Proof.
  unfold byte_at. destruct (Nat.leb_spec (1 + i) (length f)).
  - rewrite reverse_lookup by lia.
    destruct (lookup_lt_is_Some_2 f (length f - S i)) as [x Hx]; [lia|].
    rewrite (list_lookup_total_correct _ _ x) by (rewrite <- Hx; f_equal; lia).
    by rewrite Hx.
  - rewrite lookup_ge_None_2; [done|]. rewrite length_reverse. lia.
Qed.

Lemma of_be_testbit f k :
  bytes_ok f -> 0 <= k ->
  Z.testbit (of_be f) k = Z.testbit (byte_at f (Z.to_nat (k / 8))) (k mod 8).
Proof.
  intros Hf Hk. unfold of_be. rewrite of_le_testbit by (done || by apply Forall_reverse).
  by rewrite byte_at_lookup.
Qed.

Lemma land_bit_testbit a i : 0 <= i -> negb (Z.land a (Z.shiftl 1 i) =? 0) = Z.testbit a i.
Proof.
  intros Hi. rewrite Z.shiftl_1_l. destruct (Z.testbit a i) eqn:Ha.
  - apply negb_true_iff, Z.eqb_neq. intros H0.
    assert (Z.testbit (Z.land a (2 ^ i)) i = true) as Hc
      by (by rewrite Z.land_spec, Ha, Z.pow2_bits_true).
    rewrite H0, Z.testbit_0_l in Hc. done.
  - apply negb_false_iff, Z.eqb_eq. apply Z.bits_inj_0. intros k. rewrite Z.land_spec.
    destruct (decide (k = i)) as [->|]; [by rewrite Ha|].
    rewrite Z.pow2_bits_false by done. apply andb_false_r.
Qed.

Lemma is_set_testbit f bit :
  bytes_ok f -> 0 <= bit -> is_set f bit = Z.testbit (of_be f) bit.
Proof.
  intros Hf Hb. rewrite of_be_testbit by done. unfold is_set, byte_at.
  destruct (Nat.leb_spec (length f) (Z.to_nat (bit / 8))).
  - rewrite (proj2 (Nat.leb_gt _ _)) by lia. by rewrite Z.testbit_0_l.
  - rewrite (proj2 (Nat.leb_le _ _)) by lia.
    rewrite land_bit_testbit by (apply Z.mod_pos_bound; lia). do 2 f_equal. lia.
Qed.

Lemma byte_at_set_grown f bfe i x :
  (bfe < length f)%nat ->
  byte_at (<[(length f - 1 - bfe)%nat := x]> f) i = if decide (i = bfe) then x else byte_at f i.
Proof.
  intros Hlt. unfold byte_at. rewrite length_insert.
  destruct (Nat.leb_spec (1 + i) (length f)) as [Hi|Hi].
  - case_decide as Heq.
    + subst i. replace (length f - (1 + bfe))%nat with (length f - 1 - bfe)%nat by lia.
      apply list_lookup_total_insert_eq. lia.
    + apply list_lookup_total_insert_ne. lia.
  - rewrite decide_False by lia. done.
Qed.

Lemma grow_spec f n :
  bytes_ok f ->
  bytes_ok (grow f n) /\ (n < length (grow f n))%nat /\ of_be (grow f n) = of_be f.
Proof.
  intros Hf. unfold grow. destruct (Nat.leb_spec (length f) n); [|done].
  rewrite length_app, length_replicate. split; [|split; [lia|]].
  - apply Forall_app. split; [|done]. apply Forall_replicate. by unfold uint.
  - rewrite !of_be_foldl, foldl_app. f_equal. by induction (n + 1 - length f)%nat.
Qed.

Lemma lookup_total_ok (f : bytes) i : bytes_ok f -> u8 (f !!! i).
Proof.
  intros Hf. rewrite list_lookup_total_alt. destruct (f !! i) eqn:Hx; [|by unfold uint].
  by eapply Forall_lookup in Hf.
Qed.

Lemma bytes_ok_set f bit : bytes_ok f -> bytes_ok (set f bit).
Proof.
  intros Hf. unfold set. destruct (grow_spec f (Z.to_nat (bit / 8)) Hf) as (Hg & _ & _).
  apply Forall_insert; [done|]. apply lor_uint; [lia|by apply lookup_total_ok|].
  rewrite Z.shiftl_1_l. pose proof (Z.mod_pos_bound bit 8 ltac:(lia)). split; [lia|].
  apply Z.pow_lt_mono_r; lia.
Qed.

Lemma of_be_set f bit :
  bytes_ok f -> 0 <= bit -> of_be (set f bit) = Z.lor (of_be f) (2 ^ bit).
Proof.
  intros Hf Hb. apply Z.bits_inj'. intros k Hk.
  rewrite Z.lor_spec, Z.pow2_bits_eqb by lia.
  rewrite of_be_testbit by (done || by apply bytes_ok_set).
  unfold set. destruct (grow_spec f (Z.to_nat (bit / 8)) Hf) as (Hg & Hn & Heq).
  rewrite byte_at_set_grown by done. rewrite <- Heq, of_be_testbit by done.
  pose proof (Z.mod_pos_bound bit 8 ltac:(lia)). pose proof (Z.mod_pos_bound k 8 ltac:(lia)).
  pose proof (Z.div_mod bit 8 ltac:(lia)). pose proof (Z.div_mod k 8 ltac:(lia)).
  assert (0 <= bit / 8) by (apply Z.div_pos; lia). assert (0 <= k / 8) by (apply Z.div_pos; lia).
  case_decide as Hd.
  - rewrite Z.lor_spec, Z.shiftl_1_l, Z.pow2_bits_eqb by lia. f_equal.
    + rewrite Hd. unfold byte_at. rewrite (proj2 (Nat.leb_le _ _)) by lia.
      do 2 f_equal. lia.
    + assert (k / 8 = bit / 8) by lia.
      destruct (Z.eqb_spec (bit mod 8) (k mod 8)), (Z.eqb_spec bit k); lia.
  - rewrite (proj2 (Z.eqb_neq bit k)), orb_false_r; [done|]. intros ->. done.
Qed.

Lemma length_or a b : length (or a b) = Nat.max (length a) (length b).
Proof. unfold or. by rewrite length_map, length_seq. Qed.

Lemma byte_at_or a b i : byte_at (or a b) i = Z.lor (byte_at a i) (byte_at b i).
Proof.
  unfold byte_at at 1. rewrite length_or.
  destruct (Nat.leb_spec (1 + i) (length a `max` length b)) as [Hi|Hi].
  - unfold or. set (len := (length a `max` length b)%nat).
    erewrite list_lookup_total_correct; [|].
    2: { rewrite list_lookup_fmap, lookup_seq_lt by lia. done. }
    by replace (len - 1 - (0 + (len - (1 + i))))%nat with i by lia.
  - unfold byte_at. by rewrite !(proj2 (Nat.leb_gt _ _)) by lia.
Qed.

Lemma byte_at_ok f i : bytes_ok f -> u8 (byte_at f i).
Proof.
  intros Hf. rewrite byte_at_lookup. destruct (reverse f !! i) eqn:Hx; simpl; [|by unfold uint].
  apply Forall_reverse in Hf. by eapply Forall_lookup in Hf.
Qed.

Lemma bytes_ok_or a b : bytes_ok a -> bytes_ok b -> bytes_ok (or a b).
Proof.
  intros Ha Hb. unfold or. apply Forall_map, Forall_forall. intros i _. simpl.
  apply lor_uint; [lia|by apply byte_at_ok..].
Qed.

(** The vector implements a set of bit numbers, read off the number
    [of_be f]: [is_set] is the bit test, [set] adds one bit and [or] is the
    union, whatever the lengths of the vectors. *)
Theorem features_refine_bits f g bit (Hf : bytes_ok f) (Hg : bytes_ok g) (Hb : 0 <= bit) :
  is_set f bit = Z.testbit (of_be f) bit /\
  of_be (set f bit) = Z.setbit (of_be f) bit /\
  of_be (or f g) = Z.lor (of_be f) (of_be g).
Proof.
  split; [by apply is_set_testbit|]. 
  split; [rewrite Z.setbit_spec'; by apply of_be_set|].
  apply Z.bits_inj'. intros k Hk.
  by rewrite Z.lor_spec, !of_be_testbit, byte_at_or, Z.lor_spec
    by (done || by apply bytes_ok_or).
Qed.

Lemma features_refine_bits_witness :
  is_set [2; 1] 9 = Z.testbit (of_be [2; 1]) 9 /\
  of_be (set [2; 1] 9) = Z.setbit (of_be [2; 1]) 9 /\
  of_be (or [2; 1] [0x20; 0; 0]) = Z.lor (of_be [2; 1]) (of_be [0x20; 0; 0]).
Proof.
  apply features_refine_bits; [repeat constructor; unfold uint; lia..|lia].
Defined.

(** ** Unknown required bits *)
Lemma first_some_None {A B} (f : A -> option B) l :
  first_some f l = None <-> Forall (fun a => f a = None) l.
Proof. induction l; simpl; [done|]. rewrite Forall_cons. case_match; naive_solver. Qed.

Lemma first_some_Some {A B} (f : A -> option B) l b :
  first_some f l = Some b <->
  exists pre a post, l = pre ++ (a :: post) /\ Forall (fun a => f a = None) pre /\ f a = Some b.
Proof.
  induction l as [|a l IH]; simpl.
  { split; [done|]. intros ([] & ? & ? & ? & _); done. }
  destruct (f a) as [b'|] eqn:Hfa.
  - split.
    + intros [= ->]. by exists [], a, l.
    + intros (pre & a' & post & Heq & Hpre & Hb). destruct pre; simplify_eq/=; [done|].
      apply Forall_cons in Hpre as [? _]. congruence.
  - rewrite IH. split; intros (pre & a' & post & Heq & Hpre & Hb).
    + exists (a :: pre), a', post. subst. by rewrite Forall_cons.
    + destruct pre as [|a'' pre]; simplify_eq/=. apply Forall_cons in Hpre as [_ ?].
      by exists pre, a', post.
Qed.

(** A bit the peer must not set: even, set, and not known. *)
Definition offending (f : bytes) (known : list Z) (bit : Z) : Prop :=
  bit mod 2 = 0 /\ is_set f bit = true /\ bit ∉ known.

Lemma bit_offends_Some f known bfe j bit :
  bytes_ok f -> Z.of_nat (length f) <= 8192 -> (bfe < length f)%nat -> 0 <= j < 8 ->
  bit_offends known (f !!! (length f - 1 - bfe)%nat) (Z.of_nat bfe) j = Some bit <->
  bit = Z.of_nat bfe * 8 + j /\ offending f known bit.
Proof.
  intros Hf Hlen Hbfe Hj. unfold bit_offends.
  rewrite (wrap_small 16 (Z.of_nat bfe)) by (unfold uint; lia).
  rewrite (wrap_small 16 (_ * 8)), (wrap_small 16 (_ + j)) by (unfold uint; lia).
  rewrite land_bit_testbit by lia. set (b := Z.of_nat bfe * 8 + j).
  assert (is_set f b = Z.testbit (f !!! (length f - 1 - bfe)%nat) j) as Hset.
  { unfold is_set. assert (b / 8 = Z.of_nat bfe) as ->
      by (unfold b; rewrite Z.div_add_l, Z.div_small by lia; lia).
    assert (b mod 8 = j) as -> by (unfold b; rewrite Z.add_comm, Z_mod_plus_full, Z.mod_small; lia).
    rewrite Nat2Z.id, (proj2 (Nat.leb_gt _ _)) by lia. by rewrite land_bit_testbit by lia. }
  rewrite <- Hset. unfold offending.
  destruct (Z.eqb_spec (b mod 2) 0), (is_set f b) eqn:Hs; simpl.
  1: case_bool_decide; simpl.
  all: split; [try by intros [= <-]|]; intros [-> (He & Hb & Hk)]; congruence || done.
Qed.

Lemma in_bits j : j ∈ [0;1;2;3;4;5;6;7] <-> 0 <= j < 8.
Proof. rewrite !elem_of_cons, elem_of_nil. lia. Qed.

Lemma is_set_range f bit : is_set f bit = true -> 0 <= bit -> bit / 8 < Z.of_nat (length f).
Proof.
  unfold is_set. destruct (Nat.leb_spec (length f) (Z.to_nat (bit / 8))); [done|]. lia.
Qed.

Lemma unknown_None_sound f known bit :
  bytes_ok f -> Z.of_nat (length f) <= 8192 -> 0 <= bit ->
  unknown_required_bits f known = None -> ~ offending f known bit.
Proof.
  intros Hf Hlen Hbit HN Hoff. unfold unknown_required_bits in HN.
  apply first_some_None in HN. rewrite Forall_forall in HN.
  pose proof (is_set_range f bit (proj1 (proj2 Hoff)) Hbit).
  assert (0 <= bit / 8) by (apply Z.div_pos; lia).
  pose proof (Z.mod_pos_bound bit 8 ltac:(lia)) as Hm.
  assert (Z.to_nat (bit / 8) ∈ seq 0 (length f)) as Hin
    by (apply list_elem_of_In, in_seq; lia).
  specialize (HN _ Hin). apply first_some_None in HN. rewrite Forall_forall in HN.
  specialize (HN (bit mod 8) (proj2 (in_bits _) Hm)).
  assert (bit_offends known (f !!! (length f - 1 - Z.to_nat (bit / 8))%nat)
    (Z.of_nat (Z.to_nat (bit / 8))) (bit mod 8) = Some bit) as Hs; [|congruence].
  apply bit_offends_Some; [done|done|lia|done|]. split; [|done].
  rewrite Z2Nat.id by done. rewrite (Z.div_mod bit 8) at 1; lia.
Qed.

Lemma seq_split n pre (a : nat) post :
  seq 0 n = pre ++ (a :: post) -> pre = seq 0 a /\ (a < n)%nat.
Proof.
  intros H. assert (a = length pre) as ->.
  { assert (seq 0 n !! length pre = Some a) as Ha by (rewrite H; by apply list_lookup_middle).
    apply lookup_seq in Ha. lia. }
  assert (length (seq 0 n) = (length pre + S (length post))%nat) as Hl
    by (rewrite H, length_app; done).
  rewrite length_seq in Hl. split; [|lia].
  replace n with (length pre + S (length post))%nat in H by lia. rewrite seq_app in H.
  apply app_inj_1 in H as [-> _]; [done|]. by rewrite length_seq.
Qed.

Lemma bits_split pre (j : Z) post :
  [0;1;2;3;4;5;6;7] = pre ++ (j :: post) ->
  0 <= j < 8 /\ forall j', 0 <= j' < j -> j' ∈ pre.
Proof.
  intros H.
  destruct pre as [|? [|? [|? [|? [|? [|? [|? [|? pre]]]]]]]]; simplify_eq/=;
    [..|by destruct pre]; (split; [lia|]); intros j' ?; rewrite ?elem_of_cons; lia.
Qed.

Lemma unknown_Some_sound f known bit :
  bytes_ok f -> Z.of_nat (length f) <= 8192 ->
  unknown_required_bits f known = Some bit ->
  0 <= bit /\ offending f known bit /\
  forall bit', 0 <= bit' -> offending f known bit' -> bit <= bit'.
Proof.
  intros Hf Hlen. unfold unknown_required_bits. rewrite first_some_Some.
  intros (pre & i & post & Hseq & Hpre & Hi). apply seq_split in Hseq as [-> Hi'].
  apply first_some_Some in Hi as (jpre & j & jpost & Hj & Hjpre & Hbit).
  destruct (bits_split _ _ _ Hj) as [Hjr Hjlow].
  apply bit_offends_Some in Hbit as [-> Hoff]; [|done..].
  split; [lia|]. split; [done|]. intros bit' Hbit' Hoff'.
  apply Z.le_ngt. intros Hlt.
  pose proof (Z.mod_pos_bound bit' 8 ltac:(lia)) as Hm.
  pose proof (Z.div_mod bit' 8 ltac:(lia)) as Hdm.
  assert (0 <= bit' / 8) by (apply Z.div_pos; lia).
  assert (bit_offends known (f !!! (length f - 1 - Z.to_nat (bit' / 8))%nat)
    (Z.of_nat (Z.to_nat (bit' / 8))) (bit' mod 8) = Some bit') as Hs.
  { apply bit_offends_Some; [done|done|lia|done|]. split; [lia|done]. }
  destruct (decide (Z.to_nat (bit' / 8) = i)) as [<-|Hne].
  - rewrite Forall_forall in Hjpre. rewrite Hjpre in Hs; [done|]. apply Hjlow. lia.
  - rewrite Forall_forall in Hpre.
    assert (Z.to_nat (bit' / 8) ∈ seq 0 i) as Hin by (apply list_elem_of_In, in_seq; lia).
    specialize (Hpre _ Hin). apply first_some_None in Hpre. rewrite Forall_forall in Hpre.
    by rewrite Hpre in Hs by by apply in_bits.
Qed.

(** On vectors of at most 8192 bytes (every 16-bit feature bit),
    [unknown_required_bits] answers [None] exactly when every even bit set is
    known, and otherwise the smallest unknown even bit. *)
Theorem unknown_required_bits_spec f known
    (Hf : bytes_ok f) (Hlen : Z.of_nat (length f) <= 8192) :
  (unknown_required_bits f known = None <-> forall bit, 0 <= bit -> ~ offending f known bit) /\
  (forall bit, unknown_required_bits f known = Some bit ->
     0 <= bit /\ offending f known bit /\
     forall bit', 0 <= bit' -> offending f known bit' -> bit <= bit').
Proof.
  split; [split|].
  - intros HN bit Hb. by apply unknown_None_sound.
  - intros HN. destruct (unknown_required_bits f known) as [bit|] eqn:Hu; [|done].
    apply unknown_Some_sound in Hu as (Hb & Hoff & _); [|done..]. by destruct (HN bit Hb).
  - intros bit. by apply unknown_Some_sound.
Qed.

Lemma unknown_required_bits_spec_witness :
  (unknown_required_bits [1; 0] known_even_bits = None <->
     forall bit, 0 <= bit -> ~ offending [1; 0] known_even_bits bit) /\
  (forall bit, unknown_required_bits [1; 0] known_even_bits = Some bit ->
     0 <= bit /\ offending [1; 0] known_even_bits bit /\
     forall bit', 0 <= bit' -> offending [1; 0] known_even_bits bit' -> bit <= bit').
Proof. apply unknown_required_bits_spec; [repeat constructor; unfold uint; lia|simpl; lia]. Defined.

Lemma bit_offends_zero known bfe j : 0 <= j -> bit_offends known 0 bfe j = None.
Proof. intros. unfold bit_offends. rewrite Z.land_0_l. simpl. by rewrite andb_false_r. Qed.

(** The 8192-byte bound is needed: the loop computes the bit number in
    16 bits, so the required bit 65540 of an 8193-byte vector is taken for
    bit 4, which is known, and the vector is accepted. *)
Theorem unknown_required_bits_wraps :
  exists f, bytes_ok f /\ Z.of_nat (length f) = 8193 /\
    Z.testbit (of_be f) 65540 = true /\ (65540 ∉ known_even_bits) /\
    unknown_required_bits f known_even_bits = None.
Proof.
  set (n := Z.to_nat 8192). assert (Z.of_nat n = 8192) as Hn by done.
  assert (bytes_ok (16 :: replicate n 0)) as Hok.
  { constructor; [unfold uint; lia|]. apply Forall_replicate. by unfold uint. }
  assert (length (16 :: replicate n 0) = S n) as Hl
    by (cbn [length]; by rewrite length_replicate).
  exists (16 :: replicate n 0). clearbody n. rewrite Hl. split; [done|]. split; [lia|].
  split; [|split; [unfold known_even_bits; rewrite !elem_of_cons, elem_of_nil; lia|]].
  - rewrite of_be_testbit by done. unfold byte_at. rewrite Hl.
    change (65540 / 8) with 8192. rewrite <- Hn, Nat2Z.id.
    rewrite (proj2 (Nat.leb_le _ _)) by lia.
    replace (S n - (1 + n))%nat with 0%nat by lia. done.
  - unfold unknown_required_bits. apply first_some_None, Forall_forall.
    intros i Hi%list_elem_of_In%in_seq. rewrite Hl in *. apply first_some_None, Forall_forall.
    intros j Hj%in_bits.
    destruct (decide (i = n)) as [->|Hne].
    + replace (S n - 1 - n)%nat with 0%nat by lia. rewrite Hn.
      assert (j = 0 \/ j = 1 \/ j = 2 \/ j = 3 \/ j = 4 \/ j = 5 \/ j = 6 \/ j = 7) as Hc by lia.
      by destruct_or! Hc; subst j.
    + replace (S n - 1 - i)%nat with (S (n - 1 - i)) by lia.
      change ((16 :: replicate n 0) !!! S (n - 1 - i)) with (replicate n 0 !!! (n - 1 - i)%nat).
      rewrite lookup_total_replicate_2 by lia. apply bit_offends_zero. lia.
Qed.
