(* ===== verification/Hex.v ===== *)
(** * Hex: hexadecimal text (src/src/util/hex.rs)

    Text is the list of its bytes, as [str::as_bytes] gives it. *)
From S2P Require Import Prelude.
From Stdlib Require Ascii String.

(** The bytes of a string literal of the source. *)
Definition str (s : string) : bytes :=
  map (fun c => Z.of_nat (Ascii.nat_of_ascii c)) (String.list_ascii_of_string s).

Inductive HexError : Type := OddLength | BadLength | BadChar (c : Z).

Definition TABLE : bytes := str "0123456789abcdef".

Fixpoint encode (b : bytes) : bytes :=
  match b with
  | [] => []
  | x :: b =>
    TABLE !!! Z.to_nat (Z.shiftr x 4) :: TABLE !!! Z.to_nat (Z.land x 0x0f) :: encode b
  end.

Definition val (c : Z) : result HexError Z :=
  if (48 <=? c) && (c <=? 57) then Ok (c - 48)
  else if (97 <=? c) && (c <=? 102) then Ok (c - 97 + 10)
  else if (65 <=? c) && (c <=? 70) then Ok (c - 65 + 10)
  else Err (BadChar c).

(** The loop over [chunks_exact(2)]. *)
Fixpoint decode_pairs (s : bytes) : result HexError bytes :=
  match s with
  | a :: b :: s =>
    hi ← val a; lo ← val b; out ← decode_pairs s;
    Ok (Z.lor (wrap 8 (Z.shiftl hi 4)) lo :: out)
  | _ => Ok []
  end.

Definition decode (s : bytes) : result HexError bytes :=
  _ ← fail_if (negb (length s mod 2 =? 0)%nat) OddLength;
  decode_pairs s.

Definition decode_array (n : nat) (s : bytes) : result HexError bytes :=
  v ← decode s;
  if (length v =? n)%nat then Ok v else Err BadLength.

(** ASCII lower-casing of the hexadecimal letters. *)
Definition lower (c : Z) : Z := if (65 <=? c) && (c <=? 70) then c + 32 else c.

Lemma byte_split x : u8 x ->
  exists hi lo, 0 <= hi < 16 /\ 0 <= lo < 16 /\ x = hi * 16 + lo /\
    Z.shiftr x 4 = hi /\ Z.land x 0x0f = lo.
Proof.
  intros Hx. unfold uint in Hx. exists (x / 16), (x mod 16).
  change 0x0f with (Z.ones 4). rewrite Z.land_ones, Z.shiftr_div_pow2 by lia.
  pose proof (Z.div_mod x 16 ltac:(lia)). pose proof (Z.mod_pos_bound x 16 ltac:(lia)).
  repeat split; try lia. all: change (2 ^ 4) with 16; lia.
Qed.

Lemma table_val n : 0 <= n < 16 -> val (TABLE !!! Z.to_nat n) = Ok n.
Proof.
  intros Hn. rewrite <- (Z2Nat.id n) at 2 by lia.
  assert (Hk : (Z.to_nat n < 16)%nat) by lia. revert Hk.
  generalize (Z.to_nat n) as k. clear. intros k Hk.
  do 16 (destruct k as [|k]; [reflexivity|]). lia.
Qed.

Lemma val_table c n : val c = Ok n -> 0 <= n < 16 /\ TABLE !!! Z.to_nat n = lower c.
Proof.
  unfold val, lower. intros H.
  destruct (Z.leb_spec 48 c), (Z.leb_spec c 57), (Z.leb_spec 97 c), (Z.leb_spec c 102),
    (Z.leb_spec 65 c), (Z.leb_spec c 70); simplify_eq/=; try lia; (split; [lia|]).
  - assert (exists k, (k < 10)%nat /\ c = 48 + Z.of_nat k) as (k & Hk & ->)
      by (exists (Z.to_nat (c - 48)); lia).
    replace (Z.to_nat (48 + Z.of_nat k - 48)) with k by lia.
    do 10 (destruct k as [|k]; [done|]). lia.
  - assert (exists k, (k < 6)%nat /\ c = 97 + Z.of_nat k) as (k & Hk & ->)
      by (exists (Z.to_nat (c - 97)); lia).
    replace (Z.to_nat (97 + Z.of_nat k - 97 + 10)) with (10 + k)%nat by lia.
    do 6 (destruct k as [|k]; [done|]). lia.
  - assert (exists k, (k < 6)%nat /\ c = 65 + Z.of_nat k) as (k & Hk & ->)
      by (exists (Z.to_nat (c - 65)); lia).
    replace (Z.to_nat (65 + Z.of_nat k - 65 + 10)) with (10 + k)%nat by lia.
    do 6 (destruct k as [|k]; [done|]). lia.
Qed.

Lemma pair_byte hi lo : 0 <= hi < 16 -> 0 <= lo < 16 ->
  Z.lor (wrap 8 (Z.shiftl hi 4)) lo = hi * 16 + lo.
Proof.
  intros. rewrite wrap_small.
  - by rewrite lor_shiftl_add.
  - unfold uint. rewrite Z.shiftl_mul_pow2 by lia. lia.
Qed.

Lemma decode_pairs_encode b : bytes_ok b -> decode_pairs (encode b) = Ok b.
Proof.
  induction 1 as [|x b Hx Hb IH]; [done|]. cbn [encode decode_pairs].
  destruct (byte_split x Hx) as (hi & lo & Hhi & Hlo & -> & -> & ->).
  rewrite !table_val by done. simpl. rewrite IH. simpl. by rewrite pair_byte.
Qed.

Lemma encode_even b : (length (encode b) = 2 * length b)%nat.
Proof. induction b; simpl; lia. Qed.

Lemma encode_decode_pairs n : forall s b,
  (length s <= n)%nat -> (length s mod 2 = 0)%nat ->
  decode_pairs s = Ok b -> encode b = map lower s.
Proof.
  induction n as [|n IH]; intros [|x [|y s]] b Hn Hm; cbn [length] in Hn, Hm; try lia;
    try by intros [= <-]. cbn [decode_pairs].
  intros (hi & Hhi & H)%bind_Ok. apply bind_Ok in H as (lo & Hlo & H).
  apply bind_Ok in H as (out & Hout & [= <-]).
  apply val_table in Hhi as [Hhi Hx], Hlo as [Hlo Hy].
  rewrite pair_byte by done. cbn [encode map].
  destruct (byte_split (hi * 16 + lo)) as (hi' & lo' & ? & ? & ? & -> & ->);
    [unfold uint; lia|].
  assert (hi' = hi /\ lo' = lo) as [-> ->] by lia. rewrite Hx, Hy.
  rewrite (IH s out); [done|lia| |done].
  replace (S (S (length s))) with (length s + 1 * 2)%nat in Hm by lia.
  by rewrite Nat.Div0.mod_add in Hm.
Qed.

(** Hexadecimal text: decoding what [encode] wrote gives the bytes back,
    and decoding any text then encoding gives the same text in lower case, so
    each text denotes one byte string. *)
Theorem hex_roundtrip :
  (forall b, bytes_ok b -> decode (encode b) = Ok b) /\
  (forall s b, decode s = Ok b -> encode b = map lower s).
Proof.
  unfold decode. split.
  - intros b Hb. rewrite encode_even, Nat.mul_comm, Nat.Div0.mod_mul. simpl.
    by apply decode_pairs_encode.
  - intros s b (? & Hm%fail_if_Ok & H)%bind_Ok.
    apply negb_false_iff, Nat.eqb_eq in Hm. by eapply encode_decode_pairs.
Qed.

Lemma hex_roundtrip_witness :
  decode (encode [0; 0xab; 0xff]) = Ok [0; 0xab; 0xff] /\
  encode [0xab] = map lower (str "Ab").
Proof.
  split; [apply (proj1 hex_roundtrip)|apply (proj2 hex_roundtrip); reflexivity].
  repeat constructor; unfold uint; lia.
Defined.
