(* ===== verification/Types.v ===== *)
(** * Types: the protocol newtypes (src/src/types.rs)

    [Msat], [FeeRatePerKw], [ShortChannelId] and the 32-byte identifiers are
    newtypes over integers and byte arrays; they are modelled by the integer
    or the byte list they wrap. *)
From S2P Require Import Prelude Hex.

(** ** Millisatoshis *)
Definition msat_from_sat (sat : Z) : Z := wrap 64 (sat * 1000).
Definition to_sat_floor (m : Z) : Z := m / 1000.
Definition msat_checked_add (a b : Z) : option Z :=
  if a + b <=? u64_max then Some (a + b) else None.
Definition msat_checked_sub (a b : Z) : option Z :=
  if b <=? a then Some (a - b) else None.
Definition msat_saturating_sub (a b : Z) : Z := sat_sub a b.
Definition msat_add (a b : Z) : Z := wrap 64 (a + b).
Definition msat_sub (a b : Z) : Z := wrap 64 (a - b).
Definition msat_sum (l : list Z) : Z := foldl msat_add 0 l.

(** ** Short channel ids *)
Definition scid_new (block tx_index vout : Z) : Z :=
  Z.lor (Z.lor (wrap 64 (Z.shiftl block 40)) (wrap 64 (Z.shiftl tx_index 16))) vout.
Definition scid_block (s : Z) : Z := wrap 32 (Z.shiftr s 40).
Definition scid_tx_index (s : Z) : Z := wrap 32 (Z.land (Z.shiftr s 16) 0xffffff).
Definition scid_vout (s : Z) : Z := wrap 16 (Z.land s 0xffff).

(** ** Networks *)
Inductive Network : Type := Bitcoin | Testnet | Signet | Regtest.

Definition chain_hash_hex (n : Network) : bytes :=
  match n with
  | Bitcoin => str "6fe28c0ab6f1b372c1a6a246ae63f74f931e8365e15a089c68d6190000000000"
  | Testnet => str "43497fd7f826957108f4a30fd9cec3aeba79972084e90ead01ea330900000000"
  | Signet => str "f61eee3b63a380a477a063af32b2bbc97c9ff9f01f2c4225e973988108000000"
  | Regtest => str "06226e46111a0b59caaf126043eb5bbf28c34f3a5e332a1fc7b2b73cf188910f"
  end.

(** [hex::decode_array(hex).expect("static hex")]: [chain_hash_decodes] shows
    the [expect] never fails, so the default below is never used. *)
Definition chain_hash (n : Network) : bytes :=
  match decode_array 32 (chain_hash_hex n) with Ok h => h | _ => [] end.

Definition invoice_hrp (n : Network) : bytes :=
  match n with
  | Bitcoin => str "bc" | Testnet => str "tb" | Signet => str "tbs" | Regtest => str "bcrt"
  end.

(** ** Feerates *)
Definition fee_for_weight (feerate weight : Z) : Z := wrap 64 (feerate * weight) / 1000.

Lemma chain_hash_decodes n :
  decode_array 32 (chain_hash_hex n) = Ok (chain_hash n) /\ length (chain_hash n) = 32%nat.
Proof. by destruct n. Qed.

Lemma fee_for_weight_exact feerate weight :
  u32 feerate -> u32 weight -> fee_for_weight feerate weight = feerate * weight / 1000.
Proof.
  unfold uint, fee_for_weight. intros [??] [??]. rewrite wrap_small; [done|].
  unfold uint. nia.
Qed.

Lemma scid_new_value block tx_index vout :
  uint 24 block -> uint 24 tx_index -> u16 vout ->
  scid_new block tx_index vout = block * 2 ^ 40 + tx_index * 2 ^ 16 + vout.
Proof.
  unfold uint, scid_new. intros Hb Ht Hv.
  rewrite !wrap_small by (unfold uint; rewrite Z.shiftl_mul_pow2 by lia; lia).
  rewrite <- Z.lor_assoc, (lor_shiftl_add tx_index vout 16) by lia.
  rewrite lor_shiftl_add by lia. lia.
Qed.

Lemma scid_parts s : u64 s ->
  scid_block s = s / 2 ^ 40 /\ scid_tx_index s = s / 2 ^ 16 mod 2 ^ 24 /\
  scid_vout s = s mod 2 ^ 16.
Proof.
  unfold scid_block, scid_tx_index, scid_vout. intros Hs.
  change 0xffffff with (Z.ones 24). change 0xffff with (Z.ones 16).
  rewrite !Z.land_ones, !Z.shiftr_div_pow2 by lia.
  assert (0 <= s / 2 ^ 40 < 2 ^ 24).
  { split; [apply Z.div_pos; unfold uint in Hs; lia|].
    apply Z.div_lt_upper_bound; unfold uint in Hs; lia. }
  pose proof (Z.mod_pos_bound (s / 2 ^ 16) (2 ^ 24) ltac:(lia)).
  pose proof (Z.mod_pos_bound s (2 ^ 16) ltac:(lia)).
  rewrite !wrap_small by (unfold uint; lia). done.
Qed.

(** A short channel id packs block height, transaction index and output
    index without loss: the three accessors invert [new] on 24/24/16-bit
    fields, and [new] inverts them on every 64-bit id. *)
Theorem scid_roundtrip :
  (forall b t v, uint 24 b -> uint 24 t -> u16 v ->
     u64 (scid_new b t v) /\ scid_block (scid_new b t v) = b /\
     scid_tx_index (scid_new b t v) = t /\ scid_vout (scid_new b t v) = v) /\
  (forall s, u64 s -> scid_new (scid_block s) (scid_tx_index s) (scid_vout s) = s).
Proof.
  split.
  - intros b t v Hb Ht Hv. rewrite scid_new_value by done. unfold uint in *.
    assert (u64 (b * 2 ^ 40 + t * 2 ^ 16 + v)) as Hs by (unfold uint; lia).
    split; [done|]. destruct (scid_parts _ Hs) as (-> & -> & ->).
    assert ((b * 2 ^ 40 + t * 2 ^ 16 + v) / 2 ^ 40 = b) as -> by (symmetry;
      apply (Z.div_unique _ _ _ (t * 2 ^ 16 + v)); lia).
    assert ((b * 2 ^ 40 + t * 2 ^ 16 + v) mod 2 ^ 16 = v) as -> by (symmetry;
      apply (Z.mod_unique _ _ (b * 2 ^ 24 + t)); lia).
    assert ((b * 2 ^ 40 + t * 2 ^ 16 + v) / 2 ^ 16 = b * 2 ^ 24 + t) as -> by (symmetry;
      apply (Z.div_unique _ _ _ v); lia).
    split; [done|]. split; [|done]. symmetry. apply (Z.mod_unique _ _ b); lia.
  - intros s Hs. destruct (scid_parts s Hs) as (-> & -> & ->).
    unfold uint in Hs.
    pose proof (Z.mod_pos_bound (s / 2 ^ 16) (2 ^ 24) ltac:(lia)).
    pose proof (Z.mod_pos_bound s (2 ^ 16) ltac:(lia)).
    assert (uint 24 (s / 2 ^ 40)) by (split; [apply Z.div_pos; lia|
      apply Z.div_lt_upper_bound; lia]).
    rewrite scid_new_value by (done || unfold uint; lia).
    pose proof (Z.div_mod s (2 ^ 16) ltac:(lia)).
    pose proof (Z.div_mod (s / 2 ^ 16) (2 ^ 24) ltac:(lia)) as Hd.
    rewrite Z.div_div in Hd by lia. change (2 ^ 16 * 2 ^ 24) with (2 ^ 40) in Hd. lia.
Qed.

Lemma scid_roundtrip_witness :
  scid_tx_index (scid_new 840000 1234 1) = 1234 /\
  scid_new (scid_block 923589767331971073) (scid_tx_index 923589767331971073)
    (scid_vout 923589767331971073) = 923589767331971073.
Proof.
  split; [|apply (proj2 scid_roundtrip); unfold uint; lia].
  apply (proj1 scid_roundtrip 840000 1234 1); unfold uint; lia.
Defined.
