(* ===== verification/Msgs.v ===== *)
(** * Msgs: the typed BOLT 1/2/7 messages (src/src/wire/msgs.rs)

    One record per message struct with the source's fields (prefixed, since
    record fields share a name space), its writer, its reader, and the
    dispatch [encode]/[decode].  The main theorem is the round trip of every
    message whose integers fit their width and whose arrays have their
    length. *)
From S2P Require Import Prelude Codec Secp Ser Bigsize Tlv Features.

(** ** Message type numbers *)
Definition WARNING : Z := 1.
Definition INIT : Z := 16.
Definition ERROR : Z := 17.
Definition PING : Z := 18.
Definition PONG : Z := 19.
Definition OPEN_CHANNEL : Z := 32.
Definition ACCEPT_CHANNEL : Z := 33.
Definition FUNDING_CREATED : Z := 34.
Definition FUNDING_SIGNED : Z := 35.
Definition CHANNEL_READY : Z := 36.
Definition SHUTDOWN : Z := 38.
Definition CLOSING_SIGNED : Z := 39.
Definition UPDATE_ADD_HTLC : Z := 128.
Definition UPDATE_FULFILL_HTLC : Z := 130.
Definition UPDATE_FAIL_HTLC : Z := 131.
Definition COMMITMENT_SIGNED : Z := 132.
Definition REVOKE_AND_ACK : Z := 133.
Definition UPDATE_FEE : Z := 134.
Definition UPDATE_FAIL_MALFORMED_HTLC : Z := 135.
Definition CHANNEL_REESTABLISH : Z := 136.
Definition CHANNEL_ANNOUNCEMENT : Z := 256.
Definition NODE_ANNOUNCEMENT : Z := 257.
Definition CHANNEL_UPDATE : Z := 258.
Definition ANNOUNCEMENT_SIGNATURES : Z := 259.
Definition GOSSIP_TIMESTAMP_FILTER : Z := 265.
Definition ONION_PACKET_LEN : Z := 1366.

(** Messages that carry no key or signature. *)
Record Init := {
  init_global_features : bytes;
  init_features : bytes;
  init_networks : option (list bytes);
}.
Record ErrorMsg := { err_channel_id : bytes; err_data : bytes }.
Record WarningMsg := { warn_channel_id : bytes; warn_data : bytes }.
Record Ping := { num_pong_bytes : Z; ping_ignored : bytes }.
Record Pong := { pong_ignored : bytes }.
Record Shutdown := { sd_channel_id : bytes; sd_scriptpubkey : bytes }.
Record ClosingSignedFeeRange := { min_fee_satoshis : Z; max_fee_satoshis : Z }.
Record UpdateAddHtlc := {
  add_channel_id : bytes;
  add_id : Z;
  add_amount_msat : Z;
  add_payment_hash : bytes;
  add_cltv_expiry : Z;
  add_onion_routing_packet : bytes;
}.
Record UpdateFulfillHtlc := {
  ful_channel_id : bytes; ful_id : Z; ful_payment_preimage : bytes }.
Record UpdateFailHtlc := { fail_channel_id : bytes; fail_id : Z; fail_reason : bytes }.
Record UpdateFailMalformedHtlc := {
  mal_channel_id : bytes; mal_id : Z; mal_sha256_of_onion : bytes; mal_failure_code : Z }.
Record UpdateFee := { fee_channel_id : bytes; fee_feerate_per_kw : Z }.
Inductive NetAddress : Type :=
  | V4 (addr : bytes) (port : Z)
  | V6 (addr : bytes) (port : Z)
  | TorV3 (ed25519_pubkey : bytes) (checksum version port : Z)
  | Hostname (hostname : bytes) (port : Z).
Record GossipTimestampFilter := {
  gtf_chain_hash : bytes; gtf_first_timestamp : Z; gtf_timestamp_range : Z }.

Definition combined_features (m : Init) : bytes :=
  Features.or (init_global_features m) (init_features m).

Definition init_write (m : Init) : bytes :=
  write_bytes_u16 (init_global_features m) ++
  write_bytes_u16 (init_features m) ++
  match init_networks m with
  | Some nets => write_record 1 (concat nets)
  | None => []
  end.

(** The loop of [Init::read] over the records. *)
Fixpoint init_networks_of (records : list TlvRecord) (networks : option (list bytes))
    : result WireError (option (list bytes)) :=
  match records with
  | [] => Ok networks
  | rec :: records =>
    if typ rec =? 1 then
      _ ← fail_if (negb (length (value rec) mod 32 =? 0)%nat)
            (BadFormat "init networks length");
      init_networks_of records
        (Some (chunks (S (length (value rec))) 32 (value rec)))
    else init_networks_of records networks
  end.

Definition init_read : reader WireError Init :=
  global_features ← read_bytes_u16;
  features ← read_bytes_u16;
  rest ← read_rest;
  records ← rlift (parse_stream rest);
  _ ← rlift (check_unknown_even records []);
  networks ← rlift (init_networks_of records None);
  mret {| init_global_features := global_features; init_features := features;
          init_networks := networks |}.

Definition open_accept_tlvs (records : list TlvRecord) : option bytes * option bytes :=
  foldl (fun '(shutdown, ctype) rec =>
    if typ rec =? 0 then (Some (value rec), ctype)
    else if typ rec =? 1 then (shutdown, Some (value rec))
    else (shutdown, ctype)) (None, None) records.

Definition address_write (a : NetAddress) : bytes :=
  match a with
  | V4 addr port => write_u8 1 ++ write_bytes addr ++ write_u16 port
  | V6 addr port => write_u8 2 ++ write_bytes addr ++ write_u16 port
  | TorV3 key checksum version port =>
    write_u8 4 ++ write_bytes key ++ write_u16 checksum ++ write_u8 version ++ write_u16 port
  | Hostname hostname port =>
    write_u8 5 ++ write_u8 (wrap 8 (Z.of_nat (length hostname))) ++
    write_bytes hostname ++ write_u16 port
  end.

(** The [while !r.is_empty()] loop of [read_addresses]. *)
Fixpoint read_addresses (fuel : nat) (r : bytes) : result WireError (list NetAddress) :=
  match fuel with
  | O => Panic
  | S fuel =>
    match r with
    | [] => Ok []
    | _ =>
      '(tag, r) ← read_u8 r;
      if tag =? 1 then
        '(a, r) ← (addr ← read_array 4; port ← read_u16; mret (V4 addr port)) r;
        l ← read_addresses fuel r; Ok (a :: l)
      else if tag =? 2 then
        '(a, r) ← (addr ← read_array 16; port ← read_u16; mret (V6 addr port)) r;
        l ← read_addresses fuel r; Ok (a :: l)
      else if tag =? 3 then
        '(_, r) ← read_take 12 r; read_addresses fuel r
      else if tag =? 4 then
        '(a, r) ← (key ← read_array 32; checksum ← read_u16; version ← read_u8;
                   port ← read_u16; mret (TorV3 key checksum version port)) r;
        l ← read_addresses fuel r; Ok (a :: l)
      else if tag =? 5 then
        '(a, r) ← (len ← read_u8; hostname ← read_take (Z.to_nat len);
                   port ← read_u16; mret (Hostname hostname port)) r;
        l ← read_addresses fuel r; Ok (a :: l)
      else Ok []
    end
  end.

Section Messages.
Context `{HS : Secp}.

Record ChannelBasepoints := {
  bp_funding_pubkey : PublicKey;
  bp_revocation : PublicKey;
  bp_payment : PublicKey;
  bp_delayed_payment : PublicKey;
  bp_htlc : PublicKey;
}.
Record OpenChannel := {
  oc_chain_hash : bytes;
  oc_temporary_channel_id : bytes;
  oc_funding_satoshis : Z;
  oc_push_msat : Z;
  oc_dust_limit_satoshis : Z;
  oc_max_htlc_value_in_flight_msat : Z;
  oc_channel_reserve_satoshis : Z;
  oc_htlc_minimum_msat : Z;
  oc_feerate_per_kw : Z;
  oc_to_self_delay : Z;
  oc_max_accepted_htlcs : Z;
  oc_basepoints : ChannelBasepoints;
  oc_first_per_commitment_point : PublicKey;
  oc_channel_flags : Z;
  oc_upfront_shutdown_script : option bytes;
  oc_channel_type : option bytes;
}.
Record AcceptChannel := {
  ac_temporary_channel_id : bytes;
  ac_dust_limit_satoshis : Z;
  ac_max_htlc_value_in_flight_msat : Z;
  ac_channel_reserve_satoshis : Z;
  ac_htlc_minimum_msat : Z;
  ac_minimum_depth : Z;
  ac_to_self_delay : Z;
  ac_max_accepted_htlcs : Z;
  ac_basepoints : ChannelBasepoints;
  ac_first_per_commitment_point : PublicKey;
  ac_upfront_shutdown_script : option bytes;
  ac_channel_type : option bytes;
}.
Record FundingCreated := {
  fc_temporary_channel_id : bytes;
  fc_funding_txid : bytes;
  fc_funding_output_index : Z;
  fc_signature : Signature;
}.
Record FundingSigned := { fs_channel_id : bytes; fs_signature : Signature }.
Record ChannelReady := {
  cr_channel_id : bytes;
  cr_second_per_commitment_point : PublicKey;
  cr_short_channel_id_alias : option Z;
}.
Record ClosingSigned := {
  cls_channel_id : bytes;
  cls_fee_satoshis : Z;
  cls_signature : Signature;
  cls_fee_range : option ClosingSignedFeeRange;
}.
Record CommitmentSigned := {
  cs_channel_id : bytes;
  cs_signature : Signature;
  cs_htlc_signatures : list Signature;
}.
Record RevokeAndAck := {
  raa_channel_id : bytes;
  raa_per_commitment_secret : bytes;
  raa_next_per_commitment_point : PublicKey;
}.
Record ChannelReestablish := {
  re_channel_id : bytes;
  re_next_commitment_number : Z;
  re_next_revocation_number : Z;
  re_your_last_per_commitment_secret : bytes;
  re_my_current_per_commitment_point : PublicKey;
}.
Record AnnouncementSignatures := {
  as_channel_id : bytes;
  as_short_channel_id : Z;
  as_node_signature : Signature;
  as_bitcoin_signature : Signature;
}.
Record ChannelAnnouncement := {
  ca_node_signature_1 : Signature;
  ca_node_signature_2 : Signature;
  ca_bitcoin_signature_1 : Signature;
  ca_bitcoin_signature_2 : Signature;
  ca_features : bytes;
  ca_chain_hash : bytes;
  ca_short_channel_id : Z;
  ca_node_id_1 : PublicKey;
  ca_node_id_2 : PublicKey;
  ca_bitcoin_key_1 : PublicKey;
  ca_bitcoin_key_2 : PublicKey;
}.
Record NodeAnnouncement := {
  na_signature : Signature;
  na_features : bytes;
  na_timestamp : Z;
  na_node_id : PublicKey;
  na_rgb_color : bytes;
  na_alias : bytes;
  na_addresses : list NetAddress;
}.
Record ChannelUpdate := {
  cu_signature : Signature;
  cu_chain_hash : bytes;
  cu_short_channel_id : Z;
  cu_timestamp : Z;
  cu_message_flags : Z;
  cu_channel_flags : Z;
  cu_cltv_expiry_delta : Z;
  cu_htlc_minimum_msat : Z;
  cu_fee_base_msat : Z;
  cu_fee_proportional_millionths : Z;
  cu_htlc_maximum_msat : Z;
}.

Inductive Message : Type :=
  | MWarning (m : WarningMsg)
  | MInit (m : Init)
  | MError (m : ErrorMsg)
  | MPing (m : Ping)
  | MPong (m : Pong)
  | MOpenChannel (m : OpenChannel)
  | MAcceptChannel (m : AcceptChannel)
  | MFundingCreated (m : FundingCreated)
  | MFundingSigned (m : FundingSigned)
  | MChannelReady (m : ChannelReady)
  | MShutdown (m : Shutdown)
  | MClosingSigned (m : ClosingSigned)
  | MUpdateAddHtlc (m : UpdateAddHtlc)
  | MUpdateFulfillHtlc (m : UpdateFulfillHtlc)
  | MUpdateFailHtlc (m : UpdateFailHtlc)
  | MUpdateFailMalformedHtlc (m : UpdateFailMalformedHtlc)
  | MCommitmentSigned (m : CommitmentSigned)
  | MRevokeAndAck (m : RevokeAndAck)
  | MUpdateFee (m : UpdateFee)
  | MChannelReestablish (m : ChannelReestablish)
  | MAnnouncementSignatures (m : AnnouncementSignatures)
  | MChannelAnnouncement (m : ChannelAnnouncement)
  | MNodeAnnouncement (m : NodeAnnouncement)
  | MChannelUpdate (m : ChannelUpdate)
  | MGossipTimestampFilter (m : GossipTimestampFilter)
  | MUnknown (t : Z) (payload : bytes).

Definition basepoints_write (b : ChannelBasepoints) : bytes :=
  write_pubkey (bp_funding_pubkey b) ++
  write_pubkey (bp_revocation b) ++
  write_pubkey (bp_payment b) ++
  write_pubkey (bp_delayed_payment b) ++
  write_pubkey (bp_htlc b).

Definition basepoints_read : reader WireError ChannelBasepoints :=
  funding_pubkey ← read_pubkey;
  revocation ← read_pubkey;
  payment ← read_pubkey;
  delayed_payment ← read_pubkey;
  htlc ← read_pubkey;
  mret {| bp_funding_pubkey := funding_pubkey; bp_revocation := revocation;
          bp_payment := payment; bp_delayed_payment := delayed_payment; bp_htlc := htlc |}.

(** The two optional TLVs shared by [open_channel] and [accept_channel]. *)
Definition open_accept_write (shutdown ctype : option bytes) : bytes :=
  (match shutdown with Some s => write_record 0 s | None => [] end) ++
  (match ctype with Some t => write_record 1 t | None => [] end).

Definition open_channel_write (m : OpenChannel) : bytes :=
  write_bytes (oc_chain_hash m) ++
  write_bytes (oc_temporary_channel_id m) ++
  write_u64 (oc_funding_satoshis m) ++
  write_u64 (oc_push_msat m) ++
  write_u64 (oc_dust_limit_satoshis m) ++
  write_u64 (oc_max_htlc_value_in_flight_msat m) ++
  write_u64 (oc_channel_reserve_satoshis m) ++
  write_u64 (oc_htlc_minimum_msat m) ++
  write_u32 (oc_feerate_per_kw m) ++
  write_u16 (oc_to_self_delay m) ++
  write_u16 (oc_max_accepted_htlcs m) ++
  basepoints_write (oc_basepoints m) ++
  write_pubkey (oc_first_per_commitment_point m) ++
  write_u8 (oc_channel_flags m) ++
  open_accept_write (oc_upfront_shutdown_script m) (oc_channel_type m).

Definition open_channel_read : reader WireError OpenChannel :=
  chain_hash ← read_array 32;
  temporary_channel_id ← read_array 32;
  funding_satoshis ← read_u64;
  push_msat ← read_u64;
  dust_limit_satoshis ← read_u64;
  max_htlc_value_in_flight_msat ← read_u64;
  channel_reserve_satoshis ← read_u64;
  htlc_minimum_msat ← read_u64;
  feerate_per_kw ← read_u32;
  to_self_delay ← read_u16;
  max_accepted_htlcs ← read_u16;
  basepoints ← basepoints_read;
  first_per_commitment_point ← read_pubkey;
  channel_flags ← read_u8;
  rest ← read_rest;
  records ← rlift (parse_stream rest);
  _ ← rlift (check_unknown_even records [0]);
  let '(upfront_shutdown_script, channel_type) := open_accept_tlvs records in
  mret {| oc_chain_hash := chain_hash;
          oc_temporary_channel_id := temporary_channel_id;
          oc_funding_satoshis := funding_satoshis;
          oc_push_msat := push_msat;
          oc_dust_limit_satoshis := dust_limit_satoshis;
          oc_max_htlc_value_in_flight_msat := max_htlc_value_in_flight_msat;
          oc_channel_reserve_satoshis := channel_reserve_satoshis;
          oc_htlc_minimum_msat := htlc_minimum_msat;
          oc_feerate_per_kw := feerate_per_kw;
          oc_to_self_delay := to_self_delay;
          oc_max_accepted_htlcs := max_accepted_htlcs;
          oc_basepoints := basepoints;
          oc_first_per_commitment_point := first_per_commitment_point;
          oc_channel_flags := channel_flags;
          oc_upfront_shutdown_script := upfront_shutdown_script;
          oc_channel_type := channel_type |}.

Definition accept_channel_write (m : AcceptChannel) : bytes :=
  write_bytes (ac_temporary_channel_id m) ++
  write_u64 (ac_dust_limit_satoshis m) ++
  write_u64 (ac_max_htlc_value_in_flight_msat m) ++
  write_u64 (ac_channel_reserve_satoshis m) ++
  write_u64 (ac_htlc_minimum_msat m) ++
  write_u32 (ac_minimum_depth m) ++
  write_u16 (ac_to_self_delay m) ++
  write_u16 (ac_max_accepted_htlcs m) ++
  basepoints_write (ac_basepoints m) ++
  write_pubkey (ac_first_per_commitment_point m) ++
  open_accept_write (ac_upfront_shutdown_script m) (ac_channel_type m).

Definition accept_channel_read : reader WireError AcceptChannel :=
  temporary_channel_id ← read_array 32;
  dust_limit_satoshis ← read_u64;
  max_htlc_value_in_flight_msat ← read_u64;
  channel_reserve_satoshis ← read_u64;
  htlc_minimum_msat ← read_u64;
  minimum_depth ← read_u32;
  to_self_delay ← read_u16;
  max_accepted_htlcs ← read_u16;
  basepoints ← basepoints_read;
  first_per_commitment_point ← read_pubkey;
  rest ← read_rest;
  records ← rlift (parse_stream rest);
  _ ← rlift (check_unknown_even records [0]);
  let '(upfront_shutdown_script, channel_type) := open_accept_tlvs records in
  mret {| ac_temporary_channel_id := temporary_channel_id;
          ac_dust_limit_satoshis := dust_limit_satoshis;
          ac_max_htlc_value_in_flight_msat := max_htlc_value_in_flight_msat;
          ac_channel_reserve_satoshis := channel_reserve_satoshis;
          ac_htlc_minimum_msat := htlc_minimum_msat;
          ac_minimum_depth := minimum_depth;
          ac_to_self_delay := to_self_delay;
          ac_max_accepted_htlcs := max_accepted_htlcs;
          ac_basepoints := basepoints;
          ac_first_per_commitment_point := first_per_commitment_point;
          ac_upfront_shutdown_script := upfront_shutdown_script;
          ac_channel_type := channel_type |}.

Definition channel_announcement_payload (m : ChannelAnnouncement) : bytes :=
  write_bytes_u16 (ca_features m) ++
  write_bytes (ca_chain_hash m) ++
  write_u64 (ca_short_channel_id m) ++
  write_pubkey (ca_node_id_1 m) ++
  write_pubkey (ca_node_id_2 m) ++
  write_pubkey (ca_bitcoin_key_1 m) ++
  write_pubkey (ca_bitcoin_key_2 m).

Definition node_announcement_payload (m : NodeAnnouncement) : bytes :=
  write_bytes_u16 (na_features m) ++
  write_u32 (na_timestamp m) ++
  write_pubkey (na_node_id m) ++
  write_bytes (na_rgb_color m) ++
  write_bytes (na_alias m) ++
  write_bytes_u16 (concat (map address_write (na_addresses m))).

Definition channel_update_payload (m : ChannelUpdate) : bytes :=
  write_bytes (cu_chain_hash m) ++
  write_u64 (cu_short_channel_id m) ++
  write_u32 (cu_timestamp m) ++
  write_u8 (cu_message_flags m) ++
  write_u8 (cu_channel_flags m) ++
  write_u16 (cu_cltv_expiry_delta m) ++
  write_u64 (cu_htlc_minimum_msat m) ++
  write_u32 (cu_fee_base_msat m) ++
  write_u32 (cu_fee_proportional_millionths m) ++
  write_u64 (cu_htlc_maximum_msat m).

Definition cu_direction (m : ChannelUpdate) : Z := Z.land (cu_channel_flags m) 1.
Definition cu_is_disabled (m : ChannelUpdate) : bool :=
  negb (Z.land (cu_channel_flags m) 2 =? 0).

Definition msg_type (m : Message) : Z :=
  match m with
  | MWarning _ => WARNING
  | MInit _ => INIT
  | MError _ => ERROR
  | MPing _ => PING
  | MPong _ => PONG
  | MOpenChannel _ => OPEN_CHANNEL
  | MAcceptChannel _ => ACCEPT_CHANNEL
  | MFundingCreated _ => FUNDING_CREATED
  | MFundingSigned _ => FUNDING_SIGNED
  | MChannelReady _ => CHANNEL_READY
  | MShutdown _ => SHUTDOWN
  | MClosingSigned _ => CLOSING_SIGNED
  | MUpdateAddHtlc _ => UPDATE_ADD_HTLC
  | MUpdateFulfillHtlc _ => UPDATE_FULFILL_HTLC
  | MUpdateFailHtlc _ => UPDATE_FAIL_HTLC
  | MUpdateFailMalformedHtlc _ => UPDATE_FAIL_MALFORMED_HTLC
  | MCommitmentSigned _ => COMMITMENT_SIGNED
  | MRevokeAndAck _ => REVOKE_AND_ACK
  | MUpdateFee _ => UPDATE_FEE
  | MChannelReestablish _ => CHANNEL_REESTABLISH
  | MAnnouncementSignatures _ => ANNOUNCEMENT_SIGNATURES
  | MChannelAnnouncement _ => CHANNEL_ANNOUNCEMENT
  | MNodeAnnouncement _ => NODE_ANNOUNCEMENT
  | MChannelUpdate _ => CHANNEL_UPDATE
  | MGossipTimestampFilter _ => GOSSIP_TIMESTAMP_FILTER
  | MUnknown t _ => t
  end.

(** The [match self] of [Message::encode]. *)
Definition encode_body (m : Message) : bytes :=
  match m with
  | MWarning m => write_bytes (warn_channel_id m) ++ write_bytes_u16 (warn_data m)
  | MInit m => init_write m
  | MError m => write_bytes (err_channel_id m) ++ write_bytes_u16 (err_data m)
  | MPing m => write_u16 (num_pong_bytes m) ++ write_bytes_u16 (ping_ignored m)
  | MPong m => write_bytes_u16 (pong_ignored m)
  | MOpenChannel m => open_channel_write m
  | MAcceptChannel m => accept_channel_write m
  | MFundingCreated m =>
    write_bytes (fc_temporary_channel_id m) ++ write_bytes (fc_funding_txid m) ++
    write_u16 (fc_funding_output_index m) ++ write_signature (fc_signature m)
  | MFundingSigned m => write_bytes (fs_channel_id m) ++ write_signature (fs_signature m)
  | MChannelReady m =>
    write_bytes (cr_channel_id m) ++ write_pubkey (cr_second_per_commitment_point m) ++
    match cr_short_channel_id_alias m with
    | Some alias => write_record 1 (write_u64 alias)
    | None => []
    end
  | MShutdown m => write_bytes (sd_channel_id m) ++ write_bytes_u16 (sd_scriptpubkey m)
  | MClosingSigned m =>
    write_bytes (cls_channel_id m) ++ write_u64 (cls_fee_satoshis m) ++
    write_signature (cls_signature m) ++
    match cls_fee_range m with
    | Some range =>
      write_record 1 (write_u64 (min_fee_satoshis range) ++ write_u64 (max_fee_satoshis range))
    | None => []
    end
  | MUpdateAddHtlc m =>
    write_bytes (add_channel_id m) ++ write_u64 (add_id m) ++ write_u64 (add_amount_msat m) ++
    write_bytes (add_payment_hash m) ++ write_u32 (add_cltv_expiry m) ++
    write_bytes (add_onion_routing_packet m)
  | MUpdateFulfillHtlc m =>
    write_bytes (ful_channel_id m) ++ write_u64 (ful_id m) ++
    write_bytes (ful_payment_preimage m)
  | MUpdateFailHtlc m =>
    write_bytes (fail_channel_id m) ++ write_u64 (fail_id m) ++ write_bytes_u16 (fail_reason m)
  | MUpdateFailMalformedHtlc m =>
    write_bytes (mal_channel_id m) ++ write_u64 (mal_id m) ++
    write_bytes (mal_sha256_of_onion m) ++ write_u16 (mal_failure_code m)
  | MCommitmentSigned m =>
    write_bytes (cs_channel_id m) ++ write_signature (cs_signature m) ++
    write_u16 (wrap 16 (Z.of_nat (length (cs_htlc_signatures m)))) ++
    concat (map write_signature (cs_htlc_signatures m))
  | MRevokeAndAck m =>
    write_bytes (raa_channel_id m) ++ write_bytes (raa_per_commitment_secret m) ++
    write_pubkey (raa_next_per_commitment_point m)
  | MUpdateFee m => write_bytes (fee_channel_id m) ++ write_u32 (fee_feerate_per_kw m)
  | MChannelReestablish m =>
    write_bytes (re_channel_id m) ++ write_u64 (re_next_commitment_number m) ++
    write_u64 (re_next_revocation_number m) ++
    write_bytes (re_your_last_per_commitment_secret m) ++
    write_pubkey (re_my_current_per_commitment_point m)
  | MAnnouncementSignatures m =>
    write_bytes (as_channel_id m) ++ write_u64 (as_short_channel_id m) ++
    write_signature (as_node_signature m) ++ write_signature (as_bitcoin_signature m)
  | MChannelAnnouncement m =>
    write_signature (ca_node_signature_1 m) ++ write_signature (ca_node_signature_2 m) ++
    write_signature (ca_bitcoin_signature_1 m) ++ write_signature (ca_bitcoin_signature_2 m) ++
    write_bytes (channel_announcement_payload m)
  | MNodeAnnouncement m => write_signature (na_signature m) ++ node_announcement_payload m
  | MChannelUpdate m => write_signature (cu_signature m) ++ channel_update_payload m
  | MGossipTimestampFilter m =>
    write_bytes (gtf_chain_hash m) ++ write_u32 (gtf_first_timestamp m) ++
    write_u32 (gtf_timestamp_range m)
  | MUnknown _ payload => write_bytes payload
  end.

Definition encode (m : Message) : bytes := write_u16 (msg_type m) ++ encode_body m.

(** The record loops of [channel_ready] and [closing_signed]. *)
Definition alias_of (records : list TlvRecord) : option Z :=
  foldl (fun alias rec =>
    if (typ rec =? 1) && (length (value rec) =? 8)%nat then Some (of_be (value rec))
    else alias) None records.

Fixpoint fee_range_of (records : list TlvRecord) (fee_range : option ClosingSignedFeeRange)
    : result WireError (option ClosingSignedFeeRange) :=
  match records with
  | [] => Ok fee_range
  | rec :: records =>
    if (typ rec =? 1) && (length (value rec) =? 16)%nat then
      '(range, _) ← (mn ← read_u64; mx ← read_u64;
                     mret {| min_fee_satoshis := mn; max_fee_satoshis := mx |}) (value rec);
      fee_range_of records (Some range)
    else fee_range_of records fee_range
  end.

Definition decode_body (t : Z) : reader WireError Message :=
  if t =? WARNING then
    channel_id ← read_array 32; data ← read_bytes_u16;
    mret (MWarning {| warn_channel_id := channel_id; warn_data := data |})
  else if t =? INIT then m ← init_read; mret (MInit m)
  else if t =? ERROR then
    channel_id ← read_array 32; data ← read_bytes_u16;
    mret (MError {| err_channel_id := channel_id; err_data := data |})
  else if t =? PING then
    n ← read_u16; ignored ← read_bytes_u16;
    mret (MPing {| num_pong_bytes := n; ping_ignored := ignored |})
  else if t =? PONG then
    ignored ← read_bytes_u16; mret (MPong {| pong_ignored := ignored |})
  else if t =? OPEN_CHANNEL then m ← open_channel_read; mret (MOpenChannel m)
  else if t =? ACCEPT_CHANNEL then m ← accept_channel_read; mret (MAcceptChannel m)
  else if t =? FUNDING_CREATED then
    temporary_channel_id ← read_array 32; funding_txid ← read_array 32;
    funding_output_index ← read_u16; signature ← read_signature;
    mret (MFundingCreated {| fc_temporary_channel_id := temporary_channel_id;
      fc_funding_txid := funding_txid; fc_funding_output_index := funding_output_index;
      fc_signature := signature |})
  else if t =? FUNDING_SIGNED then
    channel_id ← read_array 32; signature ← read_signature;
    mret (MFundingSigned {| fs_channel_id := channel_id; fs_signature := signature |})
  else if t =? CHANNEL_READY then
    channel_id ← read_array 32; point ← read_pubkey;
    rest ← read_rest; records ← rlift (parse_stream rest);
    _ ← rlift (check_unknown_even records []);
    mret (MChannelReady {| cr_channel_id := channel_id;
      cr_second_per_commitment_point := point;
      cr_short_channel_id_alias := alias_of records |})
  else if t =? SHUTDOWN then
    channel_id ← read_array 32; scriptpubkey ← read_bytes_u16;
    mret (MShutdown {| sd_channel_id := channel_id; sd_scriptpubkey := scriptpubkey |})
  else if t =? CLOSING_SIGNED then
    channel_id ← read_array 32; fee_satoshis ← read_u64; signature ← read_signature;
    rest ← read_rest; records ← rlift (parse_stream rest);
    _ ← rlift (check_unknown_even records []);
    fee_range ← rlift (fee_range_of records None);
    mret (MClosingSigned {| cls_channel_id := channel_id; cls_fee_satoshis := fee_satoshis;
      cls_signature := signature; cls_fee_range := fee_range |})
  else if t =? UPDATE_ADD_HTLC then
    channel_id ← read_array 32; id ← read_u64; amount_msat ← read_u64;
    payment_hash ← read_array 32; cltv_expiry ← read_u32;
    onion ← read_take (Z.to_nat ONION_PACKET_LEN);
    mret (MUpdateAddHtlc {| add_channel_id := channel_id; add_id := id;
      add_amount_msat := amount_msat; add_payment_hash := payment_hash;
      add_cltv_expiry := cltv_expiry; add_onion_routing_packet := onion |})
  else if t =? UPDATE_FULFILL_HTLC then
    channel_id ← read_array 32; id ← read_u64; preimage ← read_array 32;
    mret (MUpdateFulfillHtlc {| ful_channel_id := channel_id; ful_id := id;
      ful_payment_preimage := preimage |})
  else if t =? UPDATE_FAIL_HTLC then
    channel_id ← read_array 32; id ← read_u64; reason ← read_bytes_u16;
    mret (MUpdateFailHtlc {| fail_channel_id := channel_id; fail_id := id;
      fail_reason := reason |})
  else if t =? UPDATE_FAIL_MALFORMED_HTLC then
    channel_id ← read_array 32; id ← read_u64; sha ← read_array 32; code ← read_u16;
    mret (MUpdateFailMalformedHtlc {| mal_channel_id := channel_id; mal_id := id;
      mal_sha256_of_onion := sha; mal_failure_code := code |})
  else if t =? COMMITMENT_SIGNED then
    channel_id ← read_array 32; signature ← read_signature; count ← read_u16;
    htlc_signatures ← read_n (Z.to_nat count) read_signature;
    mret (MCommitmentSigned {| cs_channel_id := channel_id; cs_signature := signature;
      cs_htlc_signatures := htlc_signatures |})
  else if t =? REVOKE_AND_ACK then
    channel_id ← read_array 32; secret ← read_array 32; point ← read_pubkey;
    mret (MRevokeAndAck {| raa_channel_id := channel_id; raa_per_commitment_secret := secret;
      raa_next_per_commitment_point := point |})
  else if t =? UPDATE_FEE then
    channel_id ← read_array 32; feerate ← read_u32;
    mret (MUpdateFee {| fee_channel_id := channel_id; fee_feerate_per_kw := feerate |})
  else if t =? CHANNEL_REESTABLISH then
    channel_id ← read_array 32; next_commitment ← read_u64; next_revocation ← read_u64;
    secret ← read_array 32; point ← read_pubkey;
    mret (MChannelReestablish {| re_channel_id := channel_id;
      re_next_commitment_number := next_commitment;
      re_next_revocation_number := next_revocation;
      re_your_last_per_commitment_secret := secret;
      re_my_current_per_commitment_point := point |})
  else if t =? ANNOUNCEMENT_SIGNATURES then
    channel_id ← read_array 32; scid ← read_u64; node_signature ← read_signature;
    bitcoin_signature ← read_signature;
    mret (MAnnouncementSignatures {| as_channel_id := channel_id;
      as_short_channel_id := scid; as_node_signature := node_signature;
      as_bitcoin_signature := bitcoin_signature |})
  else if t =? CHANNEL_ANNOUNCEMENT then
    ns1 ← read_signature; ns2 ← read_signature; bs1 ← read_signature; bs2 ← read_signature;
    features ← read_bytes_u16; chain_hash ← read_array 32; scid ← read_u64;
    n1 ← read_pubkey; n2 ← read_pubkey; b1 ← read_pubkey; b2 ← read_pubkey;
    mret (MChannelAnnouncement {| ca_node_signature_1 := ns1; ca_node_signature_2 := ns2;
      ca_bitcoin_signature_1 := bs1; ca_bitcoin_signature_2 := bs2; ca_features := features;
      ca_chain_hash := chain_hash; ca_short_channel_id := scid; ca_node_id_1 := n1;
      ca_node_id_2 := n2; ca_bitcoin_key_1 := b1; ca_bitcoin_key_2 := b2 |})
  else if t =? NODE_ANNOUNCEMENT then
    signature ← read_signature; features ← read_bytes_u16; timestamp ← read_u32;
    node_id ← read_pubkey; rgb_color ← read_array 3; alias ← read_array 32;
    addr_bytes ← read_bytes_u16;
    addresses ← rlift (read_addresses (S (length addr_bytes)) addr_bytes);
    mret (MNodeAnnouncement {| na_signature := signature; na_features := features;
      na_timestamp := timestamp; na_node_id := node_id; na_rgb_color := rgb_color;
      na_alias := alias; na_addresses := addresses |})
  else if t =? CHANNEL_UPDATE then
    signature ← read_signature; chain_hash ← read_array 32; scid ← read_u64;
    timestamp ← read_u32; message_flags ← read_u8; channel_flags ← read_u8;
    cltv ← read_u16; hmin ← read_u64; fbase ← read_u32; fprop ← read_u32; hmax ← read_u64;
    mret (MChannelUpdate {| cu_signature := signature; cu_chain_hash := chain_hash;
      cu_short_channel_id := scid; cu_timestamp := timestamp;
      cu_message_flags := message_flags; cu_channel_flags := channel_flags;
      cu_cltv_expiry_delta := cltv; cu_htlc_minimum_msat := hmin; cu_fee_base_msat := fbase;
      cu_fee_proportional_millionths := fprop; cu_htlc_maximum_msat := hmax |})
  else if t =? GOSSIP_TIMESTAMP_FILTER then
    chain_hash ← read_array 32; first ← read_u32; range ← read_u32;
    mret (MGossipTimestampFilter {| gtf_chain_hash := chain_hash;
      gtf_first_timestamp := first; gtf_timestamp_range := range |})
  else if t mod 2 =? 1 then payload ← read_rest; mret (MUnknown t payload)
  else rfail (UnknownMessageType t).

(** Leftover bytes of a decoded message are tolerated. *)
Definition decode (data : bytes) : result WireError Message :=
  match (t ← read_u16; decode_body t) data with
  | Ok (msg, _) => Ok msg
  | Err e => Err e
  | Panic => Panic
  end.

Definition known_types : list Z :=
  [WARNING; INIT; ERROR; PING; PONG; OPEN_CHANNEL; ACCEPT_CHANNEL; FUNDING_CREATED;
   FUNDING_SIGNED; CHANNEL_READY; SHUTDOWN; CLOSING_SIGNED; UPDATE_ADD_HTLC;
   UPDATE_FULFILL_HTLC; UPDATE_FAIL_HTLC; COMMITMENT_SIGNED; REVOKE_AND_ACK; UPDATE_FEE;
   UPDATE_FAIL_MALFORMED_HTLC; CHANNEL_REESTABLISH; CHANNEL_ANNOUNCEMENT;
   NODE_ANNOUNCEMENT; CHANNEL_UPDATE; ANNOUNCEMENT_SIGNATURES; GOSSIP_TIMESTAMP_FILTER].

(** ** Well-formed messages: what the Rust types guarantee *)
Definition blob16 (b : bytes) : Prop := u16 (Z.of_nat (length b)).
Definition opt_blob (o : option bytes) : Prop :=
  match o with Some b => u64 (Z.of_nat (length b)) | None => True end.

Definition wf_address (a : NetAddress) : Prop :=
  match a with
  | V4 addr port => length addr = 4%nat /\ u16 port
  | V6 addr port => length addr = 16%nat /\ u16 port
  | TorV3 key checksum version port =>
    length key = 32%nat /\ u16 checksum /\ u8 version /\ u16 port
  | Hostname hostname port => u8 (Z.of_nat (length hostname)) /\ u16 port
  end.

Definition wf_open_channel (m : OpenChannel) : Prop :=
  length (oc_chain_hash m) = 32%nat /\ length (oc_temporary_channel_id m) = 32%nat /\
  u64 (oc_funding_satoshis m) /\ u64 (oc_push_msat m) /\ u64 (oc_dust_limit_satoshis m) /\
  u64 (oc_max_htlc_value_in_flight_msat m) /\ u64 (oc_channel_reserve_satoshis m) /\
  u64 (oc_htlc_minimum_msat m) /\ u32 (oc_feerate_per_kw m) /\ u16 (oc_to_self_delay m) /\
  u16 (oc_max_accepted_htlcs m) /\ u8 (oc_channel_flags m) /\
  opt_blob (oc_upfront_shutdown_script m) /\ opt_blob (oc_channel_type m).

Definition wf_accept_channel (m : AcceptChannel) : Prop :=
  length (ac_temporary_channel_id m) = 32%nat /\ u64 (ac_dust_limit_satoshis m) /\
  u64 (ac_max_htlc_value_in_flight_msat m) /\ u64 (ac_channel_reserve_satoshis m) /\
  u64 (ac_htlc_minimum_msat m) /\ u32 (ac_minimum_depth m) /\ u16 (ac_to_self_delay m) /\
  u16 (ac_max_accepted_htlcs m) /\
  opt_blob (ac_upfront_shutdown_script m) /\ opt_blob (ac_channel_type m).

Definition wf (m : Message) : Prop :=
  match m with
  | MWarning m => length (warn_channel_id m) = 32%nat /\ blob16 (warn_data m)
  | MInit m => blob16 (init_global_features m) /\ blob16 (init_features m) /\
      match init_networks m with
      | Some nets => Forall (fun n => length n = 32%nat) nets /\
                     u64 (Z.of_nat (length (concat nets)))
      | None => True
      end
  | MError m => length (err_channel_id m) = 32%nat /\ blob16 (err_data m)
  | MPing m => u16 (num_pong_bytes m) /\ blob16 (ping_ignored m)
  | MPong m => blob16 (pong_ignored m)
  | MOpenChannel m => wf_open_channel m
  | MAcceptChannel m => wf_accept_channel m
  | MFundingCreated m => length (fc_temporary_channel_id m) = 32%nat /\
      length (fc_funding_txid m) = 32%nat /\ u16 (fc_funding_output_index m)
  | MFundingSigned m => length (fs_channel_id m) = 32%nat
  | MChannelReady m => length (cr_channel_id m) = 32%nat /\
      match cr_short_channel_id_alias m with Some a => u64 a | None => True end
  | MShutdown m => length (sd_channel_id m) = 32%nat /\ blob16 (sd_scriptpubkey m)
  | MClosingSigned m => length (cls_channel_id m) = 32%nat /\ u64 (cls_fee_satoshis m) /\
      match cls_fee_range m with
      | Some r => u64 (min_fee_satoshis r) /\ u64 (max_fee_satoshis r)
      | None => True
      end
  | MUpdateAddHtlc m => length (add_channel_id m) = 32%nat /\ u64 (add_id m) /\
      u64 (add_amount_msat m) /\ length (add_payment_hash m) = 32%nat /\
      u32 (add_cltv_expiry m) /\
      length (add_onion_routing_packet m) = Z.to_nat ONION_PACKET_LEN
  | MUpdateFulfillHtlc m => length (ful_channel_id m) = 32%nat /\ u64 (ful_id m) /\
      length (ful_payment_preimage m) = 32%nat
  | MUpdateFailHtlc m => length (fail_channel_id m) = 32%nat /\ u64 (fail_id m) /\
      blob16 (fail_reason m)
  | MUpdateFailMalformedHtlc m => length (mal_channel_id m) = 32%nat /\ u64 (mal_id m) /\
      length (mal_sha256_of_onion m) = 32%nat /\ u16 (mal_failure_code m)
  | MCommitmentSigned m => length (cs_channel_id m) = 32%nat /\
      u16 (Z.of_nat (length (cs_htlc_signatures m)))
  | MRevokeAndAck m => length (raa_channel_id m) = 32%nat /\
      length (raa_per_commitment_secret m) = 32%nat
  | MUpdateFee m => length (fee_channel_id m) = 32%nat /\ u32 (fee_feerate_per_kw m)
  | MChannelReestablish m => length (re_channel_id m) = 32%nat /\
      u64 (re_next_commitment_number m) /\ u64 (re_next_revocation_number m) /\
      length (re_your_last_per_commitment_secret m) = 32%nat
  | MAnnouncementSignatures m => length (as_channel_id m) = 32%nat /\
      u64 (as_short_channel_id m)
  | MChannelAnnouncement m => blob16 (ca_features m) /\ length (ca_chain_hash m) = 32%nat /\
      u64 (ca_short_channel_id m)
  | MNodeAnnouncement m => blob16 (na_features m) /\ u32 (na_timestamp m) /\
      length (na_rgb_color m) = 3%nat /\ length (na_alias m) = 32%nat /\
      Forall wf_address (na_addresses m) /\ blob16 (concat (map address_write (na_addresses m)))
  | MChannelUpdate m => length (cu_chain_hash m) = 32%nat /\ u64 (cu_short_channel_id m) /\
      u32 (cu_timestamp m) /\ u8 (cu_message_flags m) /\ u8 (cu_channel_flags m) /\
      u16 (cu_cltv_expiry_delta m) /\ u64 (cu_htlc_minimum_msat m) /\
      u32 (cu_fee_base_msat m) /\ u32 (cu_fee_proportional_millionths m) /\
      u64 (cu_htlc_maximum_msat m)
  | MGossipTimestampFilter m => length (gtf_chain_hash m) = 32%nat /\
      u32 (gtf_first_timestamp m) /\ u32 (gtf_timestamp_range m)
  | MUnknown t _ => u16 t /\ t mod 2 = 1 /\ (t ∉ known_types)
  end.

(** ** Round trips *)
Context {HL : SecpLaws HS}.

(** Read field by field along [++], the last field in front of [mret]. *)
Ltac solve_fields :=
  unfold write_bytes;
  repeat (eapply reads_bind; [solve [eauto with codec]|]);
  eapply reads_bind_ret; eauto with codec.

Ltac solve_fields_all :=
  unfold write_bytes; repeat (eapply reads_all_bind; [solve [eauto with codec]|]).

Lemma reads_basepoints b : reads basepoints_read (basepoints_write b) b.
Proof.
  eapply reads_val; [unfold basepoints_write, basepoints_read; solve_fields|by destruct b].
Qed.
#[local] Hint Resolve reads_basepoints : codec.

Lemma parse_stream_encode records :
  ascending None records -> parse_stream (encode_stream records) = Ok records.
Proof. intros. apply parse_loop_encode; [done|lia]. Qed.

Lemma reads_all_tlvs {A} records (f : list TlvRecord -> reader WireError A) w a :
  w = encode_stream records -> ascending None records ->
  f records [] = Ok (a, []) ->
  reads_all (rest ← read_rest; records ← rlift (parse_stream rest); f records) w a.
Proof.
  intros -> Hasc Hf. unfold reads_all, mbind, reader_bind, read_rest, rlift.
  by rewrite parse_stream_encode.
Qed.

Lemma encode_stream_single t v : encode_stream [{| typ := t; value := v |}] = write_record t v.
Proof. unfold encode_stream. simpl. by rewrite app_nil_r. Qed.

(** The records behind the two optional TLVs. *)
Definition opt_record (t : Z) (o : option bytes) : list TlvRecord :=
  match o with Some v => [{| typ := t; value := v |}] | None => [] end.

Lemma opt_record_encode t o :
  match o with Some v => write_record t v | None => [] end = encode_stream (opt_record t o).
Proof. destruct o; [by rewrite <- encode_stream_single|done]. Qed.

Lemma encode_stream_app l1 l2 :
  encode_stream (l1 ++ l2) = encode_stream l1 ++ encode_stream l2.
Proof. unfold encode_stream. by rewrite map_app, concat_app. Qed.

Lemma open_accept_records s t :
  opt_blob s -> opt_blob t ->
  let records := opt_record 0 s ++ opt_record 1 t in
  open_accept_write s t = encode_stream records /\ ascending None records /\
  check_unknown_even records [0] = Ok tt /\ open_accept_tlvs records = (s, t).
Proof.
  intros Hs Ht. simpl. split; [|destruct s, t; simpl in *; repeat split; try done;
    unfold uint in *; lia].
  unfold open_accept_write. by rewrite !opt_record_encode, encode_stream_app.
Qed.

Lemma open_channel_roundtrip m :
  wf_open_channel m -> reads_all open_channel_read (open_channel_write m) m.
Proof.
  unfold wf_open_channel, open_channel_read, open_channel_write. intros. destruct_conj.
  solve_fields_all.
  destruct (open_accept_records (oc_upfront_shutdown_script m) (oc_channel_type m))
    as (Hw & Hasc & Hchk & Htlv); [done..|].
  eapply reads_all_tlvs; [exact Hw|done|]. unfold mbind, reader_bind, rlift.
  rewrite Hchk, Htlv. by destruct m.
Qed.

Lemma accept_channel_roundtrip m :
  wf_accept_channel m -> reads_all accept_channel_read (accept_channel_write m) m.
Proof.
  unfold wf_accept_channel, accept_channel_read, accept_channel_write. intros. destruct_conj.
  solve_fields_all.
  destruct (open_accept_records (ac_upfront_shutdown_script m) (ac_channel_type m))
    as (Hw & Hasc & Hchk & Htlv); [done..|].
  eapply reads_all_tlvs; [exact Hw|done|]. unfold mbind, reader_bind, rlift.
  rewrite Hchk, Htlv. by destruct m.
Qed.

Lemma length_concat_32 (nets : list bytes) :
  Forall (fun n => length n = 32%nat) nets -> length (concat nets) = (32 * length nets)%nat.
Proof. induction 1; simpl; rewrite ?length_app; lia. Qed.

Lemma init_networks_opt nets :
  match nets with Some l => Forall (fun n => length n = 32%nat) l | None => True end ->
  init_networks_of (opt_record 1 (@concat Z <$> nets)) None = Ok nets.
Proof.
  destruct nets as [l|]; [|done]. intros Hl.
  change (opt_record 1 (@concat Z <$> Some l)) with [{| typ := 1; value := concat l |}].
  cbn [init_networks_of typ value]. change (1 =? 1) with true. cbv iota.
  rewrite chunks_concat; [|lia|done|rewrite length_concat_32 by done; lia].
  by rewrite length_concat_32, Nat.mul_comm, Nat.Div0.mod_mul by done.
Qed.

Lemma init_roundtrip m : wf (MInit m) -> reads_all init_read (init_write m) m.
Proof.
  intros (Hgf & Hf & Hn). unfold init_write, init_read. solve_fields_all.
  eapply (reads_all_tlvs (opt_record 1 (@concat Z <$> init_networks m))).
  - rewrite <- opt_record_encode. by destruct (init_networks m).
  - destruct (init_networks m); simpl; [|done]. destruct Hn as [_ Hu]. unfold uint in *. lia.
  - unfold mbind, reader_bind, rlift. rewrite init_networks_opt by by destruct (init_networks m); [apply Hn|].
    by destruct m as [gf f [nets|]].
Qed.

Lemma read_addresses_cons fuel tag r :
  read_addresses (S fuel) (tag :: r) =
    (if tag =? 1 then
       '(a, r) ← (addr ← read_array 4; port ← read_u16; mret (V4 addr port)) r;
       l ← read_addresses fuel r; Ok (a :: l)
     else if tag =? 2 then
       '(a, r) ← (addr ← read_array 16; port ← read_u16; mret (V6 addr port)) r;
       l ← read_addresses fuel r; Ok (a :: l)
     else if tag =? 3 then
       '(_, r) ← read_take 12 r; read_addresses fuel r
     else if tag =? 4 then
       '(a, r) ← (key ← read_array 32; checksum ← read_u16; version ← read_u8;
                  port ← read_u16; mret (TorV3 key checksum version port)) r;
       l ← read_addresses fuel r; Ok (a :: l)
     else if tag =? 5 then
       '(a, r) ← (len ← read_u8; hostname ← read_take (Z.to_nat len);
                  port ← read_u16; mret (Hostname hostname port)) r;
       l ← read_addresses fuel r; Ok (a :: l)
     else Ok []).
Proof.
  change (read_addresses (S fuel) (tag :: r)) with
    ('(tag, r) ← read_u8 (tag :: r);
      if tag =? 1 then
        '(a, r) ← (addr ← read_array 4; port ← read_u16; mret (V4 addr port)) r;
        l ← read_addresses fuel r; Ok (a :: l)
      else if tag =? 2 then
        '(a, r) ← (addr ← read_array 16; port ← read_u16; mret (V6 addr port)) r;
        l ← read_addresses fuel r; Ok (a :: l)
      else if tag =? 3 then
        '(_, r) ← read_take 12 r; read_addresses fuel r
      else if tag =? 4 then
        '(a, r) ← (key ← read_array 32; checksum ← read_u16; version ← read_u8;
                   port ← read_u16; mret (TorV3 key checksum version port)) r;
        l ← read_addresses fuel r; Ok (a :: l)
      else if tag =? 5 then
        '(a, r) ← (len ← read_u8; hostname ← read_take (Z.to_nat len);
                   port ← read_u16; mret (Hostname hostname port)) r;
        l ← read_addresses fuel r; Ok (a :: l)
      else Ok []).
  by rewrite (reads_u8 tag r : read_u8 (tag :: r) = _).
Qed.

Lemma reads_address_bind {A B} (p : reader WireError A) w v rest (f : A * bytes -> result WireError B) :
  reads p w v -> (p (w ++ rest) ≫= f) = f (v, rest).
Proof. intros Hp. by rewrite Hp. Qed.

Lemma read_addresses_step a fuel rest : wf_address a ->
  read_addresses (S fuel) (address_write a ++ rest) =
    (l ← read_addresses fuel rest; Ok (a :: l)).
Proof.
  destruct a as [addr port|addr port|key checksum version port|hostname port]; simpl wf_address;
    intros; destruct_conj; unfold address_write, write_bytes; rewrite <- ?app_assoc.
  - change (write_u8 1 ++ addr ++ write_u16 port ++ rest)
      with (1 :: (addr ++ write_u16 port ++ rest)).
    rewrite read_addresses_cons, app_assoc.
    apply (reads_address_bind _ (addr ++ write_u16 port) (V4 addr port)). solve_fields.
  - change (write_u8 2 ++ addr ++ write_u16 port ++ rest)
      with (2 :: (addr ++ write_u16 port ++ rest)).
    rewrite read_addresses_cons, app_assoc.
    apply (reads_address_bind _ (addr ++ write_u16 port) (V6 addr port)). solve_fields.
  - change (write_u8 4 ++ key ++ write_u16 checksum ++ write_u8 version ++ write_u16 port ++ rest)
      with (4 :: (key ++ write_u16 checksum ++ write_u8 version ++ write_u16 port ++ rest)).
    rewrite read_addresses_cons.
    replace (key ++ write_u16 checksum ++ write_u8 version ++ write_u16 port ++ rest)
      with ((key ++ write_u16 checksum ++ write_u8 version ++ write_u16 port) ++ rest)
      by (by rewrite <- !app_assoc).
    apply (reads_address_bind _ (key ++ write_u16 checksum ++ write_u8 version ++ write_u16 port)
      (TorV3 key checksum version port)). solve_fields.
  - rewrite wrap_small by done.
    change (write_u8 5 ++ write_u8 (Z.of_nat (length hostname)) ++ hostname ++ write_u16 port ++ rest)
      with (5 :: (write_u8 (Z.of_nat (length hostname)) ++ hostname ++ write_u16 port ++ rest)).
    rewrite read_addresses_cons.
    replace (write_u8 (Z.of_nat (length hostname)) ++ hostname ++ write_u16 port ++ rest)
      with ((write_u8 (Z.of_nat (length hostname)) ++ hostname ++ write_u16 port) ++ rest)
      by (by rewrite <- !app_assoc).
    apply (reads_address_bind _ (write_u8 (Z.of_nat (length hostname)) ++ hostname ++ write_u16 port)
      (Hostname hostname port)). eapply reads_bind; [eauto with codec|].
    rewrite Nat2Z.id. eapply reads_bind; [by apply reads_take|].
    eapply reads_bind_ret; eauto with codec.
Qed.

Lemma address_write_length a : (1 <= length (address_write a))%nat.
Proof. destruct a; unfold address_write; rewrite length_app; simpl; lia. Qed.

Lemma read_addresses_roundtrip l : forall fuel,
  Forall wf_address l -> (length (concat (map address_write l)) < fuel)%nat ->
  read_addresses fuel (concat (map address_write l)) = Ok l.
Proof.
  induction l as [|a l IH]; intros [|fuel] Hl Hf; [lia|done|lia|].
  apply Forall_cons in Hl as [Ha Hl].
  change (concat (map address_write (a :: l)))
    with (address_write a ++ concat (map address_write l)) in *.
  rewrite length_app in Hf. pose proof (address_write_length a).
  rewrite read_addresses_step by done. by rewrite IH by (done || lia).
Qed.

(** From reading the body to decoding the message. *)
Lemma decode_reads m :
  u16 (msg_type m) -> reads (decode_body (msg_type m)) (encode_body m) m ->
  decode (encode m) = Ok m.
Proof.
  intros Ht Hb. unfold decode, encode.
  rewrite <- (app_nil_r (encode_body m)). unfold mbind, reader_bind.
  by rewrite (reads_u16 _ Ht), Hb.
Qed.

Lemma decode_reads_all m :
  u16 (msg_type m) -> reads_all (decode_body (msg_type m)) (encode_body m) m ->
  decode (encode m) = Ok m.
Proof.
  intros Ht Hb. unfold decode, encode, mbind, reader_bind.
  by rewrite (reads_u16 _ Ht), Hb.
Qed.

Lemma reads_all_bind_mret {A B} (p : reader WireError A) (f : A -> B) w v :
  reads_all p w v -> reads_all (a ← p; mret (f a)) w (f v).
Proof. intros Hp. unfold reads_all, mbind, reader_bind. by rewrite Hp. Qed.

(** Reduce the dispatch on a literal message type. *)
Ltac dispatch :=
  lazy beta iota delta [msg_type encode_body decode_body Z.eqb Pos.eqb
    WARNING INIT ERROR PING PONG OPEN_CHANNEL ACCEPT_CHANNEL FUNDING_CREATED FUNDING_SIGNED
    CHANNEL_READY SHUTDOWN CLOSING_SIGNED UPDATE_ADD_HTLC UPDATE_FULFILL_HTLC UPDATE_FAIL_HTLC
    UPDATE_FAIL_MALFORMED_HTLC COMMITMENT_SIGNED REVOKE_AND_ACK UPDATE_FEE CHANNEL_REESTABLISH
    ANNOUNCEMENT_SIGNATURES CHANNEL_ANNOUNCEMENT NODE_ANNOUNCEMENT CHANNEL_UPDATE
    GOSSIP_TIMESTAMP_FILTER].

Ltac simple_message m :=
  intros; destruct_conj; apply decode_reads; [by vm_compute|dispatch];
  eapply reads_val; [solve_fields|by destruct m].

Lemma ascending_opt_record o : opt_blob o -> ascending None (opt_record 1 o).
Proof. destruct o; [|done]. intros. repeat split; try done; apply H. Qed.

Lemma check_opt_record o known : check_unknown_even (opt_record 1 o) known = Ok tt.
Proof. by destruct o. Qed.

Lemma length_write_u64 v : length (write_u64 v) = 8%nat.
Proof. apply length_be_bytes. Qed.

Lemma alias_of_opt o :
  match o with Some a => u64 a | None => True end ->
  alias_of (opt_record 1 (write_u64 <$> o)) = o.
Proof.
  destruct o as [a|]; [|done]. intros Ha.
  unfold alias_of, opt_record. cbn [fmap option_fmap option_map foldl typ value].
  rewrite length_write_u64. cbn. f_equal. by apply (of_be_be_bytes_id 8 64).
Qed.

Definition range_bytes (r : ClosingSignedFeeRange) : bytes :=
  write_u64 (min_fee_satoshis r) ++ write_u64 (max_fee_satoshis r).

Lemma length_range_bytes r : length (range_bytes r) = 16%nat.
Proof. unfold range_bytes. by rewrite length_app, !length_write_u64. Qed.

Lemma fee_range_of_opt o :
  match o with Some r => u64 (min_fee_satoshis r) /\ u64 (max_fee_satoshis r) | None => True end ->
  fee_range_of (opt_record 1 (range_bytes <$> o)) None = Ok o.
Proof.
  destruct o as [[mn mx]|]; [|done]. intros [Hmn Hmx].
  unfold opt_record. cbn [fmap option_fmap option_map fee_range_of typ value].
  rewrite length_range_bytes. change ((1 =? 1) && (16 =? 16)%nat) with true. cbv iota.
  rewrite <- (app_nil_r (range_bytes _)).
  rewrite (reads_address_bind _ _ {| min_fee_satoshis := mn; max_fee_satoshis := mx |});
    [done|]. unfold range_bytes. simpl in Hmn, Hmx. solve_fields.
Qed.

Lemma channel_ready_roundtrip m :
  wf (MChannelReady m) -> decode (encode (MChannelReady m)) = Ok (MChannelReady m).
Proof.
  intros [Hid Ha]. apply decode_reads_all; [by vm_compute|dispatch]. solve_fields_all.
  eapply (reads_all_tlvs (opt_record 1 (write_u64 <$> cr_short_channel_id_alias m))).
  - rewrite <- opt_record_encode. by destruct (cr_short_channel_id_alias m).
  - apply ascending_opt_record. destruct (cr_short_channel_id_alias m); [|done].
    unfold opt_blob. cbn [fmap option_fmap option_map]. by rewrite length_write_u64.
  - unfold mbind, reader_bind, rlift. rewrite check_opt_record, alias_of_opt by done.
    by destruct m.
Qed.

Lemma closing_signed_roundtrip m :
  wf (MClosingSigned m) -> decode (encode (MClosingSigned m)) = Ok (MClosingSigned m).
Proof.
  intros (Hid & Hfee & Hr). apply decode_reads_all; [by vm_compute|dispatch]. solve_fields_all.
  eapply (reads_all_tlvs (opt_record 1 (range_bytes <$> cls_fee_range m))).
  - rewrite <- opt_record_encode. by destruct (cls_fee_range m).
  - apply ascending_opt_record. destruct (cls_fee_range m); [|done].
    unfold opt_blob. cbn [fmap option_fmap option_map]. by rewrite length_range_bytes.
  - unfold mbind, reader_bind, rlift. rewrite check_opt_record, fee_range_of_opt by done.
    by destruct m.
Qed.

Lemma commitment_signed_roundtrip m :
  wf (MCommitmentSigned m) -> decode (encode (MCommitmentSigned m)) = Ok (MCommitmentSigned m).
Proof.
  intros [Hid Hn]. apply decode_reads; [by vm_compute|dispatch]. rewrite wrap_small by done.
  eapply reads_val; [|instantiate (1 := MCommitmentSigned {| cs_channel_id := cs_channel_id m;
    cs_signature := cs_signature m; cs_htlc_signatures := cs_htlc_signatures m |}); by destruct m].
  unfold write_bytes. do 3 (eapply reads_bind; [solve [eauto with codec]|]).
  apply (reads_bind_ret _ (fun l => MCommitmentSigned {| cs_channel_id := cs_channel_id m;
    cs_signature := cs_signature m; cs_htlc_signatures := l |})).
  rewrite Nat2Z.id. apply reads_read_n. apply Forall_forall. intros. apply reads_signature.
Qed.

Lemma node_announcement_roundtrip m :
  wf (MNodeAnnouncement m) -> decode (encode (MNodeAnnouncement m)) = Ok (MNodeAnnouncement m).
Proof.
  intros Hwf. simpl in Hwf. destruct_conj. apply decode_reads; [by vm_compute|dispatch].
  unfold node_announcement_payload.
  eapply reads_val; [|instantiate (1 := MNodeAnnouncement {| na_signature := na_signature m;
    na_features := na_features m; na_timestamp := na_timestamp m; na_node_id := na_node_id m;
    na_rgb_color := na_rgb_color m; na_alias := na_alias m; na_addresses := na_addresses m |});
    by destruct m].
  unfold write_bytes. do 6 (eapply reads_bind; [solve [eauto with codec]|]).
  rewrite <- (app_nil_r (write_bytes_u16 _)). eapply reads_bind; [by apply reads_bytes_u16|].
  intros rest. unfold mbind, reader_bind, rlift.
  by rewrite read_addresses_roundtrip by (done || lia).
Qed.

Lemma unknown_roundtrip t p : wf (MUnknown t p) -> decode (encode (MUnknown t p)) = Ok (MUnknown t p).
Proof.
  intros (Ht & Hodd & Hk). apply decode_reads_all; [done|].
  unfold known_types in Hk. rewrite !not_elem_of_cons in Hk. destruct_conj.
  unfold decode_body. simpl msg_type. simpl encode_body.
  rewrite !(proj2 (Z.eqb_neq _ _)) by done.
  by rewrite Hodd.
Qed.

Lemma decode_encode_wf m : wf m -> decode (encode m) = Ok m.
Proof.
  destruct m as [m|m|m|m|m|m|m|m|m|m|m|m|m|m|m|m|m|m|m|m|m|m|m|m|m|t p]; simpl wf.
  - simple_message m.
  - intros. apply decode_reads_all; [by vm_compute|dispatch].
    apply (reads_all_bind_mret _ MInit). by apply init_roundtrip.
  - simple_message m.
  - simple_message m.
  - simple_message m.
  - intros. apply decode_reads_all; [by vm_compute|dispatch].
    apply (reads_all_bind_mret _ MOpenChannel). by apply open_channel_roundtrip.
  - intros. apply decode_reads_all; [by vm_compute|dispatch].
    apply (reads_all_bind_mret _ MAcceptChannel). by apply accept_channel_roundtrip.
  - simple_message m.
  - simple_message m.
  - apply channel_ready_roundtrip.
  - simple_message m.
  - apply closing_signed_roundtrip.
  - simple_message m.
  - simple_message m.
  - simple_message m.
  - simple_message m.
  - apply commitment_signed_roundtrip.
  - simple_message m.
  - simple_message m.
  - simple_message m.
  - simple_message m.
  - simple_message m.
  - apply node_announcement_roundtrip.
  - simple_message m.
  - simple_message m.
  - apply unknown_roundtrip.
Qed.

(** [C39] Every BOLT message survives the wire: decoding the encoding of a
    message whose fields have their Rust widths and lengths gives the message
    back, for all 25 known message types and for tolerated unknown ones. *)
Theorem decode_encode m : wf m -> decode (encode m) = Ok m.
Proof. apply decode_encode_wf. Qed.

(** Unknown message types follow "it's OK to be odd": whatever the body
    is, an unknown odd type decodes to [Unknown] with its payload kept, and an
    unknown even type is an error that names the type. *)
Theorem decode_unknown t body :
  u16 t -> (t ∉ known_types) ->
  decode (write_u16 t ++ body) =
    if Z.odd t then Ok (MUnknown t body) else Err (UnknownMessageType t).
Proof.
  intros Ht Hk. unfold known_types in Hk. rewrite !not_elem_of_cons in Hk. destruct_conj.
  unfold decode, mbind, reader_bind. rewrite (reads_u16 t Ht). unfold decode_body.
  rewrite !(proj2 (Z.eqb_neq _ _)) by done. rewrite Zmod_odd.
  by destruct (Z.odd t).
Qed.
End Messages.

Lemma decode_encode_witness :
  decode (encode (MChannelReady {| cr_channel_id := replicate 32 7;
      cr_second_per_commitment_point := toy_of 9; cr_short_channel_id_alias := Some 77 |})) =
  Ok (MChannelReady {| cr_channel_id := replicate 32 7;
      cr_second_per_commitment_point := toy_of 9; cr_short_channel_id_alias := Some 77 |}).
Proof. apply decode_encode. split; [done|]. by vm_compute. Defined.

Lemma decode_unknown_witness :
  decode (write_u16 40001 ++ [1; 2]) = Ok (MUnknown 40001 [1; 2]) /\
  decode (write_u16 40002 ++ [1; 2]) = Err (UnknownMessageType 40002).
Proof.
  split; [rewrite (decode_unknown 40001)|rewrite (decode_unknown 40002)];
    try done; try (by vm_compute); by apply (bool_decide_unpack _).
Defined.
