(* ===== verification/MdHash.v ===== *)
(** * MdHash: the buffered hasher shared by SHA-256 and RIPEMD-160

    src/src/crypto/sha256.rs and src/src/crypto/ripemd160.rs have the same
    incremental structure (a 64-byte buffer, its fill level, a running total,
    Merkle-Damgard padding) around different compression functions and
    byte orders.  It is modelled once, over the compression function and the
    two encodings; [md_spec] pads the whole message and folds the compression
    function over its blocks, and [updates_spec] shows that any sequence of
    [update]s followed by [finalize] computes it. *)
From S2P Require Import Prelude.

Record t := mk { state : list Z; buf : bytes; buf_len : nat; total : Z }.

Section MdHash.
Context (compress : list Z -> bytes -> list Z) (iv : list Z).
Context (enc_len enc_word : Z -> bytes).

Definition new : t := mk iv (replicate 64 0) 0 0.

Definition compress_block (h : t) (block : bytes) : t :=
  mk (compress (state h) block) (buf h) (buf_len h) (total h).

(** The part of [update] after a partial block has been completed. *)
Definition update_blocks (h : t) (data : bytes) : t :=
  let h := foldl compress_block h (chunks_exact 64 data) in
  let rem := remainder 64 data in
  mk (state h) (splice 0 rem (buf h)) (length rem) (total h).

Definition update (h : t) (data : bytes) : t :=
  let total' := wrap 64 (total h + wrap 64 (Z.of_nat (length data))) in
  if (0 <? buf_len h)%nat then
    let k := Nat.min (64 - buf_len h) (length data) in
    let buf' := splice (buf_len h) (take k data) (buf h) in
    let len' := (buf_len h + k)%nat in
    if (len' <? 64)%nat then mk (state h) buf' len' total'
    else update_blocks (mk (compress (state h) buf') buf' 0 total') (drop k data)
  else update_blocks (mk (state h) (buf h) (buf_len h) total') data.

(** [while self.buf_len != 56 { self.update(&[0]) }]. *)
Fixpoint pad_loop (fuel : nat) (h : t) : t :=
  match fuel with
  | O => h
  | S fuel => if (buf_len h =? 56)%nat then h else pad_loop fuel (update h [0])
  end.

Definition finalize (h : t) : bytes :=
  let bit_len := wrap 64 (total h * 8) in
  let h := pad_loop 64 (update h [0x80]) in
  let block := splice 56 (enc_len bit_len) (buf h) in
  concat (map enc_word (compress (state h) block)).

Definition digest (data : bytes) : bytes := finalize (update new data).

(** ** The specification: pad, split into blocks, fold *)
Definition md_pad (msg : bytes) : bytes :=
  let len := Z.of_nat (length msg) in
  msg ++ [0x80] ++ replicate (Z.to_nat ((55 - len) mod 64)) 0 ++ enc_len (wrap 64 (8 * len)).

Definition md_spec (msg : bytes) : bytes :=
  concat (map enc_word (foldl compress iv (chunks_exact 64 (md_pad msg)))).

(** ** The buffer invariant

    [holds h msg]: the chaining value is the fold over the full blocks of
    [msg] and the buffer starts with the rest of it. *)
Definition holds (h : t) (msg : bytes) : Prop :=
  exists ls tl,
    msg = concat ls ++ tl /\ Forall (fun l => length l = 64%nat) ls /\
    (length tl < 64)%nat /\ state h = foldl compress iv ls /\
    buf_len h = length tl /\ take (length tl) (buf h) = tl /\
    length (buf h) = 64%nat.

Lemma foldl_compress_block ls h :
  foldl compress_block h ls =
  mk (foldl compress (state h) ls) (buf h)
    (buf_len h) (total h).
Proof. revert h; induction ls as [|l ls IH]; intros h; [by destruct h|]. simpl. by rewrite IH. Qed.

Lemma update_blocks_total h d : total (update_blocks h d) = total h.
Proof. unfold update_blocks. by rewrite foldl_compress_block. Qed.

Lemma update_blocks_holds h msg d :
  holds h msg -> buf_len h = 0%nat -> holds (update_blocks h d) (msg ++ d).
Proof.
  intros (ls & tl & -> & Hls & Htl & Hst & Hlen & Hbuf & Hb64) H0.
  assert (tl = []) as -> by (apply nil_length_inv; congruence).
  destruct (blocks_exist 64 ltac:(lia) d) as (ls' & tl' & -> & Hls' & Htl').
  unfold update_blocks.
  rewrite chunks_exact_blocks, remainder_blocks by (done || lia).
  rewrite foldl_compress_block. simpl.
  exists (ls ++ ls'), tl'. simpl. rewrite app_nil_r, concat_app, foldl_app, Hst.
  rewrite <- app_assoc. split; [done|]. split; [by apply Forall_app|].
  split; [done|]. split; [done|]. split; [done|].
  split; [apply (take_splice 0); lia|by rewrite length_splice by lia].
Qed.

Lemma update_holds h msg d : holds h msg -> holds (update h d) (msg ++ d).
Proof.
  intros Hh. pose proof Hh as (ls & tl & -> & Hls & Htl & Hst & Hlen & Hbuf & Hb64).
  unfold update. destruct (Nat.ltb_spec 0 (buf_len h)) as [Hpos|Hpos].
  2: { apply update_blocks_holds; [|simpl; lia]. by exists ls, tl. }
  set (k := Nat.min (64 - buf_len h) (length d)).
  set (b' := splice _ _ _).
  assert (Hk : length (take k d) = k) by (rewrite length_take; lia).
  assert (Hb' : length b' = 64%nat) by (unfold b'; rewrite length_splice; lia).
  assert (Htk : take (length tl + k) b' = tl ++ take k d).
  { unfold b'. rewrite <- Hk at 1. rewrite Hlen, take_splice, Hbuf by lia. done. }
  destruct (Nat.ltb_spec (buf_len h + k) 64) as [Hshort|Hfull].
  - assert (take k d = d) as Hd by (apply take_ge; lia). rewrite Hd in *.
    exists ls, (tl ++ d). rewrite length_app. simpl.
    rewrite <- app_assoc, Hk. repeat split; try done; lia.
  - replace ((concat ls ++ tl) ++ d) with ((concat ls ++ tl ++ take k d) ++ drop k d)
      by (by rewrite <- !app_assoc, take_drop).
    rewrite <- Htk.
    assert (take (length tl + k) b' = b') as Hfb by (apply take_ge; lia).
    apply update_blocks_holds; [|done]. rewrite Hfb.
    exists (ls ++ [b']), []. simpl. rewrite concat_app, foldl_app, Hst. simpl.
    rewrite !app_nil_r. repeat split; try done; [|lia].
    apply Forall_app_2; [done|]. by constructor.
Qed.

Lemma update_total h d :
  total (update h d) = wrap 64 (total h + Z.of_nat (length d)).
Proof.
  assert (wrap 64 (total h + wrap 64 (Z.of_nat (length d))) =
          wrap 64 (total h + Z.of_nat (length d))) as <-.
  { unfold wrap. by rewrite Zplus_mod_idemp_r. }
  unfold update. repeat case_match; try rewrite update_blocks_total; done.
Qed.

Lemma holds_buf_len h msg :
  holds h msg -> Z.of_nat (buf_len h) = Z.of_nat (length msg) mod 64.
Proof.
  intros (ls & tl & -> & Hls & Htl & _ & -> & _).
  rewrite length_app, (length_concat_blocks 64 ls Hls).
  apply (Z.mod_unique _ _ (Z.of_nat (length ls))); lia.
Qed.

(** The padding loop stops: at most 64 zero bytes reach 56 mod 64. *)
Lemma pad_loop_holds fuel h msg k :
  holds h msg -> k = Z.to_nat ((56 - Z.of_nat (length msg)) mod 64) -> (k < fuel)%nat ->
  holds (pad_loop fuel h) (msg ++ replicate k 0) /\
  buf_len (pad_loop fuel h) = 56%nat.
Proof.
  revert h msg k; induction fuel as [|fuel IH]; intros h msg k Hh Hk Hf; [lia|].
  simpl. pose proof (holds_buf_len _ _ Hh) as Hl.
  destruct (Nat.eqb_spec (buf_len h) 56) as [H56|H56].
  - assert (k = 0%nat) as -> by mod_lia. by rewrite app_nil_r.
  - destruct k as [|k]; [mod_lia|]. simpl.
    rewrite cons_middle, app_assoc. apply IH; [by apply update_holds| |lia].
    rewrite length_app. simpl. mod_lia.
Qed.

Context (Hlen8 : forall z, length (enc_len z) = 8%nat).

Lemma finalize_spec h msg :
  holds h msg -> total h = wrap 64 (Z.of_nat (length msg)) ->
  finalize h = md_spec msg.
Proof.
  intros Hh Ht. unfold finalize, md_spec, md_pad. f_equal. f_equal.
  set (k := Z.to_nat ((55 - Z.of_nat (length msg)) mod 64)).
  destruct (pad_loop_holds 64 _ (msg ++ [0x80]) k (update_holds _ _ [0x80] Hh))
    as [(ls & tl & Hmsg & Hls & Htl & Hst & Hlen & Hbuf & Hb64) H56].
  { rewrite length_app. simpl. mod_lia. }
  { mod_lia. }
  rewrite Ht. assert (wrap 64 (wrap 64 (Z.of_nat (length msg)) * 8) =
    wrap 64 (8 * Z.of_nat (length msg))) as ->.
  { unfold wrap. rewrite Zmult_mod_idemp_l. f_equal. lia. }
  set (bl := enc_len _). assert (length bl = 8%nat) by apply Hlen8.
  rewrite !app_assoc, Hmsg, <- app_assoc.
  assert (length (tl ++ bl) = 64%nat) by (rewrite length_app; lia).
  rewrite <- (app_nil_r (concat ls ++ _)).
  assert (concat ls ++ tl ++ bl = concat (ls ++ [tl ++ bl])) as ->.
  { rewrite concat_app. simpl. by rewrite app_nil_r. }
  rewrite chunks_exact_blocks;
    [|lia|apply Forall_app_2; [done|by constructor]|simpl; lia].
  rewrite foldl_app, Hst. cbn [foldl]. f_equal.
  unfold splice. rewrite <- Hlen, H56 in Hbuf. rewrite Hbuf.
  rewrite drop_ge, app_nil_r by lia. done.
Qed.

Lemma new_holds : holds new [].
Proof. exists [], []. simpl. repeat split; (done || lia). Qed.

Lemma updates_holds parts h msg :
  holds h msg -> total h = wrap 64 (Z.of_nat (length msg)) ->
  holds (foldl update h parts) (msg ++ concat parts) /\
  total (foldl update h parts) =
    wrap 64 (Z.of_nat (length (msg ++ concat parts))).
Proof.
  revert h msg; induction parts as [|d parts IH]; intros h msg Hh Ht; simpl.
  { by rewrite app_nil_r. }
  rewrite app_assoc. apply IH; [by apply update_holds|].
  rewrite update_total, Ht, length_app, Nat2Z.inj_add. unfold wrap.
  by rewrite Zplus_mod_idemp_l.
Qed.

Lemma updates_spec parts :
  finalize (foldl update new parts) = md_spec (concat parts).
Proof.
  destruct (updates_holds parts new [] new_holds eq_refl). by apply finalize_spec.
Qed.

End MdHash.
