(* ===== verification/Sha256.v ===== *)
(** * Sha256: SHA-256 (src/src/crypto/sha256.rs)

    The compression function, and the hasher of MdHash around it with
    big-endian words.  [sha256_spec] is FIPS 180-4 (pad the whole message,
    fold the compression function over its blocks); the main theorem is that
    any sequence of [update]s followed by [finalize] computes it. *)
From S2P Require Import Prelude MdHash.

(** ** The hasher *)
Module Sha256.
(** The table, one line of the source per list. *)
Definition K : list Z :=
  [0x428a2f98; 0x71374491; 0xb5c0fbcf; 0xe9b5dba5; 0x3956c25b; 0x59f111f1; 0x923f82a4; 0xab1c5ed5] ++
  [0xd807aa98; 0x12835b01; 0x243185be; 0x550c7dc3; 0x72be5d74; 0x80deb1fe; 0x9bdc06a7; 0xc19bf174] ++
  [0xe49b69c1; 0xefbe4786; 0x0fc19dc6; 0x240ca1cc; 0x2de92c6f; 0x4a7484aa; 0x5cb0a9dc; 0x76f988da] ++
  [0x983e5152; 0xa831c66d; 0xb00327c8; 0xbf597fc7; 0xc6e00bf3; 0xd5a79147; 0x06ca6351; 0x14292967] ++
  [0x27b70a85; 0x2e1b2138; 0x4d2c6dfc; 0x53380d13; 0x650a7354; 0x766a0abb; 0x81c2c92e; 0x92722c85] ++
  [0xa2bfe8a1; 0xa81a664b; 0xc24b8b70; 0xc76c51a3; 0xd192e819; 0xd6990624; 0xf40e3585; 0x106aa070] ++
  [0x19a4c116; 0x1e376c08; 0x2748774c; 0x34b0bcb5; 0x391c0cb3; 0x4ed8aa4a; 0x5b9cca4f; 0x682e6ff3] ++
  [0x748f82ee; 0x78a5636f; 0x84c87814; 0x8cc70208; 0x90befffa; 0xa4506ceb; 0xbef9a3f7; 0xc67178f2].

Definition H0 : list Z :=
 [0x6a09e667; 0xbb67ae85; 0x3c6ef372; 0xa54ff53a; 0x510e527f; 0x9b05688c; 0x1f83d9ab; 0x5be0cd19].

(** [u32::rotate_right], [wrapping_add], [!]. *)
Definition rotr (x n : Z) : Z := Z.lor (Z.shiftr x n) (wrap 32 (Z.shiftl x (32 - n))).
Definition add32 (x y : Z) : Z := wrap 32 (x + y).
Definition not32 (x : Z) : Z := Z.lxor x 0xffffffff.

(** The message schedule: sixteen words of the block, then the recurrence. *)
Definition schedule_step (w : list Z) (i : nat) : list Z :=
  let w15 := w !!! (i - 15)%nat in
  let w2 := w !!! (i - 2)%nat in
  let s0 := Z.lxor (Z.lxor (rotr w15 7) (rotr w15 18)) (Z.shiftr w15 3) in
  let s1 := Z.lxor (Z.lxor (rotr w2 17) (rotr w2 19)) (Z.shiftr w2 10) in
  <[i := add32 (add32 (add32 (w !!! (i - 16)%nat) s0) (w !!! (i - 7)%nat)) s1]> w.
Definition schedule (block : bytes) : list Z :=
  foldl schedule_step
    (map of_be (chunks_exact 4 block) ++ replicate 48 0) (seq 16 48).

Definition round (w : list Z) (v : Z * Z * Z * Z * Z * Z * Z * Z) (i : nat)
    : Z * Z * Z * Z * Z * Z * Z * Z :=
  let '(a, b, c, d, e, f, g, h) := v in
  let s1 := Z.lxor (Z.lxor (rotr e 6) (rotr e 11)) (rotr e 25) in
  let ch := Z.lxor (Z.land e f) (Z.land (not32 e) g) in
  let t1 := add32 (add32 (add32 (add32 h s1) ch) (K !!! i)) (w !!! i) in
  let s0 := Z.lxor (Z.lxor (rotr a 2) (rotr a 13)) (rotr a 22) in
  let maj := Z.lxor (Z.lxor (Z.land a b) (Z.land a c)) (Z.land b c) in
  let t2 := add32 s0 maj in
  (add32 t1 t2, a, b, c, add32 d t1, e, f, g).

(** [compress] on the chaining value ([self.state]). *)
Definition compress (st : list Z) (block : bytes) : list Z :=
  match st with
  | [a0; b0; c0; d0; e0; f0; g0; h0] =>
    let w := schedule block in
    let '(a, b, c, d, e, f, g, h) :=
      foldl (round w) (a0, b0, c0, d0, e0, f0, g0, h0) (seq 0 64) in
    [add32 a0 a; add32 b0 b; add32 c0 c; add32 d0 d;
     add32 e0 e; add32 f0 f; add32 g0 g; add32 h0 h]
  | _ => st (* not a [u32; 8] *)
  end.

Definition new : MdHash.t := MdHash.new H0.
Definition update : MdHash.t -> bytes -> MdHash.t := MdHash.update compress.
Definition finalize : MdHash.t -> bytes :=
  MdHash.finalize compress (be_bytes 8) (be_bytes 4).
Definition digest (data : bytes) : bytes := finalize (update new data).
#[global] Arguments compress : simpl never.
End Sha256.

(** FIPS 180-4. *)
Definition sha256_spec : bytes -> bytes :=
  MdHash.md_spec Sha256.compress Sha256.H0 (be_bytes 8) (be_bytes 4).

(** [crate::crypto::sha256]. *)
Definition sha256 (data : bytes) : bytes := Sha256.digest data.

Example sha256_empty : of_be (sha256 []) =
  0xe3b0c44298fc1c149afbf4c8996fb92427ae41e4649b934ca495991b7852b855.
Proof. by vm_compute. Qed.
Example sha256_abc : of_be (sha256 [97; 98; 99]) =
  0xba7816bf8f01cfea414140de5dae2223b00361a396177a9cb410ff61f20015ad.
Proof. by vm_compute. Qed.

Lemma sha256_updates parts :
  Sha256.finalize (foldl Sha256.update Sha256.new parts) = sha256_spec (concat parts).
Proof. apply MdHash.updates_spec. apply length_be_bytes. Qed.

Lemma sha256_eq_spec data : sha256 data = sha256_spec data.
Proof.
  unfold sha256, Sha256.digest. pose proof (sha256_updates [data]) as H. simpl in H.
  by rewrite app_nil_r in H.
Qed.

(** Digests are 32 bytes. *)
Lemma length_compress st b : length (Sha256.compress st b) = length st.
Proof.
  unfold Sha256.compress. do 8 (destruct st as [|? st]; [done|]). destruct st; [|done].
  by destruct (foldl _ _ _) as [[[[[[[? ?] ?] ?] ?] ?] ?] ?].
Qed.

Lemma length_foldl_compress ls st : length (foldl Sha256.compress st ls) = length st.
Proof. revert st; induction ls as [|l ls IH]; intros; [done|]. simpl. by rewrite IH, length_compress. Qed.

Lemma length_words ws : length (concat (map (be_bytes 4) ws)) = (4 * length ws)%nat.
Proof. induction ws as [|w ws IH]; [done|]. cbn [map concat length]. rewrite length_app, length_be_bytes, IH. lia. Qed.

Lemma length_sha256 data : length (sha256 data) = 32%nat.
Proof. rewrite sha256_eq_spec. unfold sha256_spec, MdHash.md_spec. by rewrite length_words, length_foldl_compress. Qed.

Lemma sha256_bytes_ok data : bytes_ok (sha256 data).
Proof.
  rewrite sha256_eq_spec. apply Forall_concat, Forall_map, Forall_true. intros. apply be_bytes_ok.
Qed.

(** Incremental hashing is SHA-256: however the input is split into
    [update] calls, [finalize] returns the FIPS 180-4 digest of the whole
    message (the padding loop terminates within its 64 steps), 32 bytes. *)
Theorem sha256_incremental parts :
  let out := Sha256.finalize (foldl Sha256.update Sha256.new parts) in
  out = sha256_spec (concat parts) /\ length out = 32%nat /\ bytes_ok out.
Proof.
  cbv zeta. rewrite sha256_updates, <- sha256_eq_spec.
  auto using length_sha256, sha256_bytes_ok.
Qed.

(** Digests are only ever computed by [vm_compute]. *)
#[global] Opaque Sha256.compress Sha256.update Sha256.finalize.
