(* ===== verification/Ripemd160.v ===== *)
(** * Ripemd160: RIPEMD-160, HASH160 and constant-time equality

    src/src/crypto/ripemd160.rs and src/src/crypto/mod.rs.  The hasher is the
    one of MdHash with little-endian words. *)
From S2P Require Import Prelude MdHash Sha256.

Module Ripemd160.
Definition R_LEFT : list nat :=
  [0; 1; 2; 3; 4; 5; 6; 7; 8; 9; 10; 11; 12; 13; 14; 15;
   7; 4; 13; 1; 10; 6; 15; 3; 12; 0; 9; 5; 2; 14; 11; 8;
   3; 10; 14; 4; 9; 15; 8; 1; 2; 7; 0; 6; 13; 11; 5; 12;
   1; 9; 11; 10; 0; 8; 12; 4; 13; 3; 7; 15; 14; 5; 6; 2;
   4; 0; 5; 9; 7; 12; 2; 10; 14; 1; 3; 8; 11; 6; 15; 13]%nat.
Definition R_RIGHT : list nat :=
  [5; 14; 7; 0; 9; 2; 11; 4; 13; 6; 15; 8; 1; 10; 3; 12;
   6; 11; 3; 7; 0; 13; 5; 10; 14; 15; 8; 12; 4; 9; 1; 2;
   15; 5; 1; 3; 7; 14; 6; 9; 11; 8; 12; 2; 10; 0; 4; 13;
   8; 6; 4; 1; 3; 11; 15; 0; 5; 12; 2; 13; 9; 7; 10; 14;
   12; 15; 10; 4; 1; 5; 8; 7; 6; 2; 13; 14; 0; 3; 9; 11]%nat.
Definition S_LEFT : list Z :=
  [11; 14; 15; 12; 5; 8; 7; 9; 11; 13; 14; 15; 6; 7; 9; 8;
   7; 6; 8; 13; 11; 9; 7; 15; 7; 12; 15; 9; 11; 7; 13; 12;
   11; 13; 6; 7; 14; 9; 13; 15; 14; 8; 13; 6; 5; 12; 7; 5;
   11; 12; 14; 15; 14; 15; 9; 8; 9; 14; 5; 6; 8; 6; 5; 12;
   9; 15; 5; 11; 6; 8; 13; 12; 5; 12; 13; 14; 11; 8; 5; 6].
Definition S_RIGHT : list Z :=
  [8; 9; 9; 11; 13; 15; 15; 5; 7; 7; 8; 11; 14; 14; 12; 6;
   9; 13; 15; 7; 12; 8; 9; 11; 7; 7; 12; 7; 6; 15; 13; 11;
   9; 7; 15; 11; 8; 6; 6; 14; 12; 13; 5; 14; 13; 13; 7; 5;
   15; 5; 8; 11; 14; 14; 6; 14; 6; 9; 12; 9; 12; 5; 15; 8;
   8; 5; 12; 9; 12; 5; 14; 6; 8; 13; 6; 5; 15; 13; 11; 11].
Definition K_LEFT : list Z :=
  [0x00000000; 0x5a827999; 0x6ed9eba1; 0x8f1bbcdc; 0xa953fd4e].
Definition K_RIGHT : list Z :=
  [0x50a28be6; 0x5c4dd124; 0x6d703ef3; 0x7a6d76e9; 0x00000000].

Definition add32 (x y : Z) : Z := wrap 32 (x + y).
Definition not32 (x : Z) : Z := Z.lxor x 0xffffffff.
Definition rotl (x n : Z) : Z := Z.lor (wrap 32 (Z.shiftl x n)) (Z.shiftr x (32 - n)).

Definition f (round : nat) (x y z : Z) : Z :=
  match round with
  | 0%nat => Z.lxor (Z.lxor x y) z
  | 1%nat => Z.lor (Z.land x y) (Z.land (not32 x) z)
  | 2%nat => Z.lxor (Z.lor x (not32 y)) z
  | 3%nat => Z.lor (Z.land x z) (Z.land y (not32 z))
  | 4%nat => Z.lxor x (Z.lor y (not32 z))
  | _ => 0 (* unreachable!() *)
  end.

(** One line of the loop body: the left line uses [f round], the right line
    [f (4 - round)]. *)
Definition line (x : list Z) (fr : nat) (r : nat) (k s : Z) (v : Z * Z * Z * Z * Z)
    : Z * Z * Z * Z * Z :=
  let '(a, b, c, d, e) := v in
  let t := add32 (rotl (add32 (add32 (add32 a (f fr b c d)) (x !!! r)) k) s) e in
  (e, t, b, rotl c 10, d).

Definition step (x : list Z) (v : (Z * Z * Z * Z * Z) * (Z * Z * Z * Z * Z)) (j : nat)
    : (Z * Z * Z * Z * Z) * (Z * Z * Z * Z * Z) :=
  let '(l, r) := v in
  let round := (j / 16)%nat in
  (line x round (R_LEFT !!! j) (K_LEFT !!! round) (S_LEFT !!! j) l,
   line x (4 - round) (R_RIGHT !!! j) (K_RIGHT !!! round) (S_RIGHT !!! j) r).

Definition compress (st : list Z) (block : bytes) : list Z :=
  match st with
  | [s0; s1; s2; s3; s4] =>
    let x := map of_le (chunks_exact 4 block) in
    let '((al, bl, cl, dl, el), (ar, br, cr, dr, er)) :=
      foldl (step x) ((s0, s1, s2, s3, s4), (s0, s1, s2, s3, s4)) (seq 0 80) in
    [add32 (add32 s1 cl) dr; add32 (add32 s2 dl) er; add32 (add32 s3 el) ar;
     add32 (add32 s4 al) br; add32 (add32 s0 bl) cr]
  | _ => st (* not a [u32; 5] *)
  end.

Definition H0 : list Z :=
  [0x67452301; 0xefcdab89; 0x98badcfe; 0x10325476; 0xc3d2e1f0].

Definition new : MdHash.t := MdHash.new H0.
Definition update : MdHash.t -> bytes -> MdHash.t := MdHash.update compress.
Definition finalize : MdHash.t -> bytes :=
  MdHash.finalize compress (le_bytes 8) (le_bytes 4).
Definition digest (data : bytes) : bytes := finalize (update new data).
#[global] Arguments compress : simpl never.
End Ripemd160.

Definition ripemd160_spec : bytes -> bytes :=
  MdHash.md_spec Ripemd160.compress Ripemd160.H0 (le_bytes 8) (le_bytes 4).

Definition hash160 (data : bytes) : bytes := Ripemd160.digest (sha256 data).

(** [for (x, y) in a.iter().zip(b) { acc |= x ^ y }]. *)
Definition ct_eq (a b : bytes) : bool :=
  if negb (length a =? length b)%nat then false
  else foldl (fun acc '(x, y) => Z.lor acc (Z.lxor x y)) 0 (combine a b) =? 0.

Example ripemd160_abc : of_be (Ripemd160.digest [97; 98; 99]) =
  0x8eb208f7e05d987a9b044a8e98c6b087f15a0bfc.
Proof. by vm_compute. Qed.

Lemma ripemd160_updates parts :
  Ripemd160.finalize (foldl Ripemd160.update Ripemd160.new parts) =
  ripemd160_spec (concat parts).
Proof. apply MdHash.updates_spec. apply length_le_bytes. Qed.

Lemma length_ripemd160 data : length (Ripemd160.digest data) = 20%nat.
Proof.
  pose proof (ripemd160_updates [data]) as H. cbn [foldl concat] in H.
  unfold Ripemd160.digest. rewrite H. unfold ripemd160_spec, MdHash.md_spec.
  assert (forall ws, length (concat (map (le_bytes 4) ws)) = (4 * length ws)%nat) as ->.
  { induction ws as [|w ws IH]; [done|]. cbn [map concat length].
    rewrite length_app, length_le_bytes, IH. lia. }
  assert (forall ls st, length (foldl Ripemd160.compress st ls) = length st) as ->; [|done].
  clear. induction ls as [|l ls IH]; intros st; [done|]. cbn [foldl]. rewrite IH.
  unfold Ripemd160.compress. do 5 (destruct st as [|? st]; [done|]). destruct st; [|done].
  by destruct (foldl _ _ _) as [[[[[? ?] ?] ?] ?] [[[[? ?] ?] ?] ?]].
Qed.

Lemma length_hash160 data : length (hash160 data) = 20%nat.
Proof. apply length_ripemd160. Qed.

Lemma ct_fold_zero l acc :
  foldl (fun acc '(x, y) => Z.lor acc (Z.lxor x y)) acc l = 0 <->
  acc = 0 /\ Forall (fun '(x, y) => x = y) l.
Proof.
  revert acc; induction l as [|[x y] l IH]; intros acc; simpl.
  - split; [by intros|by intros []].
  - rewrite IH, Z.lor_eq_0_iff, Z.lxor_eq_0_iff, Forall_cons. tauto.
Qed.

(** The constant-time comparison of MACs and secrets decides equality:
    no early exit, yet [true] exactly on equal slices. *)
Theorem ct_eq_spec a b : ct_eq a b = true <-> a = b.
Proof.
  unfold ct_eq. destruct (Nat.eqb_spec (length a) (length b)) as [Hl|Hl]; simpl.
  2: { split; [done|]. by intros ->. }
  rewrite Z.eqb_eq, ct_fold_zero. split.
  - intros [_ H]. revert b Hl H. induction a as [|x a IH]; intros [|y b] Hl H; try done.
    simpl in *. apply Forall_cons in H as [-> H]. f_equal. apply IH; [lia|done].
  - intros ->. split; [done|]. clear. induction b; simpl; by constructor.
Qed.

#[global] Opaque Ripemd160.compress Ripemd160.update Ripemd160.finalize.
