(* ===== verification/Hmac.v ===== *)
(** * Hmac: HMAC-SHA256 and HKDF (src/src/crypto/hmac.rs, hkdf.rs)

    [HmacSha256] is the incremental MAC over the hasher of Sha256; [expand]
    is the block loop of HKDF with its [u8] counter.  The theorems relate them
    to RFC 2104 and RFC 5869. *)
From S2P Require Import Prelude MdHash Sha256.

(** ** HMAC *)
Record HmacSha256 := { inner : MdHash.t; opad : bytes }.

(** The key block: the key, or its digest when longer than a block, padded
    with zeros to 64 bytes. *)
Definition hmac_key_block (key : bytes) : bytes :=
  let k := replicate 64 0 in
  if (64 <? length key)%nat then splice 0 (Sha256.digest key) k else splice 0 key k.

Definition hmac_new (key : bytes) : HmacSha256 :=
  let k := hmac_key_block key in
  let ipad := map (fun b => Z.lxor b 0x36) k in
  let opad := map (fun b => Z.lxor b 0x5c) k in
  {| inner := Sha256.update Sha256.new ipad; opad := opad |}.

Definition hmac_update (h : HmacSha256) (data : bytes) : HmacSha256 :=
  {| inner := Sha256.update (inner h) data; opad := opad h |}.

Definition hmac_finalize (h : HmacSha256) : bytes :=
  let inner_digest := Sha256.finalize (inner h) in
  let outer := Sha256.update Sha256.new (opad h) in
  let outer := Sha256.update outer inner_digest in
  Sha256.finalize outer.

Definition hmac_sha256 (key data : bytes) : bytes :=
  hmac_finalize (hmac_update (hmac_new key) data).

(** ** HKDF *)
Definition extract (salt ikm : bytes) : bytes := hmac_sha256 salt ikm.

(** One pass of the loop of [expand] computes [block]. *)
Definition expand_block (prk info t : bytes) (counter : Z) : bytes :=
  let h := hmac_new prk in
  let h := hmac_update h t in
  let h := hmac_update h info in
  let h := hmac_update h [counter] in
  hmac_finalize h.

Fixpoint expand_loop (fuel : nat) (prk info : bytes) (out : bytes) (t : bytes)
    (counter : Z) (written : nat) : result unit bytes :=
  match fuel with
  | O => Panic
  | S fuel =>
    if (written <? length out)%nat then
      let block := expand_block prk info t counter in
      let k := Nat.min (length out - written) 32 in
      let out := splice written (take k block) out in
      let written := (written + k)%nat in
      (* [counter.checked_add(1).expect(..)] *)
      counter ← expect (if counter + 1 <=? 255 then Some (counter + 1) else None);
      expand_loop fuel prk info out block counter written
    else Ok out
  end.

(** [out] is the caller's buffer, overwritten in place; [assert!] panics. *)
Definition expand (prk info out : bytes) : result unit bytes :=
  if (Z.to_nat (255 * 32) <? length out)%nat then Panic
  else expand_loop (S (length out)) prk info out [] 1 0.

Definition hkdf_two_keys (salt ikm : bytes) : result unit (bytes * bytes) :=
  let prk := extract salt ikm in
  okm ← expand prk [] (replicate 64 0);
  mret (take 32 okm, drop 32 okm).

(** ** RFC 2104 and RFC 5869 *)
Definition hmac_spec (key msg : bytes) : bytes :=
  let k0 := if (64 <? length key)%nat then sha256_spec key else key in
  let k := k0 ++ replicate (64 - length k0) 0 in
  sha256_spec (map (fun b => Z.lxor b 0x5c) k ++
    sha256_spec (map (fun b => Z.lxor b 0x36) k ++ msg)).

(** [hkdf_T n] is T(n), with T(0) empty. *)
Fixpoint hkdf_T (prk info : bytes) (n : nat) : bytes :=
  match n with
  | O => []
  | S m => hmac_spec prk (hkdf_T prk info m ++ info ++ [Z.of_nat (S m)])
  end.

Definition hkdf_okm (prk info : bytes) (n : nat) : bytes :=
  concat (map (hkdf_T prk info) (seq 1 n)).

Definition hkdf_expand_spec (prk info : bytes) (len : nat) : bytes :=
  take len (hkdf_okm prk info (S (len / 32))).

(** ** HMAC is RFC 2104, however the message is split *)
Lemma hmac_key_block_eq key :
  hmac_key_block key =
    (let k0 := if (64 <? length key)%nat then sha256_spec key else key in
     k0 ++ replicate (64 - length k0) 0).
Proof.
  unfold hmac_key_block. rewrite !splice_0. change (Sha256.digest key) with (sha256 key).
  destruct (Nat.ltb_spec 64 (length key)); cbv zeta.
  - by rewrite drop_replicate, sha256_eq_spec.
  - by rewrite drop_replicate.
Qed.

Lemma hmac_updates key parts :
  hmac_finalize (foldl hmac_update (hmac_new key) parts) = hmac_spec key (concat parts).
Proof.
  assert (forall h, foldl hmac_update h parts =
    {| inner := foldl Sha256.update (inner h) parts; opad := opad h |}) as ->.
  { induction parts as [|p ps IH]; intros h; [by destruct h|]. simpl. by rewrite IH. }
  unfold hmac_new, hmac_finalize, hmac_spec. cbn [inner opad].
  rewrite hmac_key_block_eq. cbv zeta. set (k := _ ++ _).
  pose proof (sha256_updates (map (fun b => Z.lxor b 0x36) k :: parts)) as Hi.
  cbn [foldl concat] in Hi. rewrite Hi.
  set (d := sha256_spec (_ ++ concat parts)).
  pose proof (sha256_updates [map (fun b => Z.lxor b 0x5c) k; d]) as Ho.
  cbn [foldl concat] in Ho. by rewrite app_nil_r in Ho.
Qed.

Lemma hmac_eq_spec key data : hmac_sha256 key data = hmac_spec key data.
Proof.
  pose proof (hmac_updates key [data]) as H. cbn [foldl concat] in H.
  by rewrite app_nil_r in H.
Qed.

Lemma length_hmac_spec key msg : length (hmac_spec key msg) = 32%nat.
Proof. unfold hmac_spec. rewrite <- sha256_eq_spec. apply length_sha256. Qed.

Lemma expand_block_spec prk info n :
  expand_block prk info (hkdf_T prk info n) (Z.of_nat (S n)) = hkdf_T prk info (S n).
Proof.
  pose proof (hmac_updates prk [hkdf_T prk info n; info; [Z.of_nat (S n)]]) as H.
  cbn [foldl concat] in H. rewrite app_nil_r in H. exact H.
Qed.

Lemma length_hkdf_T prk info n : length (hkdf_T prk info (S n)) = 32%nat.
Proof. apply length_hmac_spec. Qed.

Lemma hkdf_okm_S prk info n :
  hkdf_okm prk info (S n) = hkdf_okm prk info n ++ hkdf_T prk info (S n).
Proof.
  unfold hkdf_okm. rewrite seq_S, map_app, concat_app. cbn [map concat].
  by rewrite app_nil_r.
Qed.

Lemma length_hkdf_okm prk info n : length (hkdf_okm prk info n) = (32 * n)%nat.
Proof.
  induction n as [|n IH]; [done|].
  rewrite hkdf_okm_S, length_app, IH, length_hkdf_T. lia.
Qed.

(** ** The block loop of HKDF *)
Lemma splice_prefix {A} i (src dst : list A) (w : list A) :
  (i + length src <= length dst)%nat -> take i dst = w ->
  take (i + length src) (splice i src dst) = w ++ src.
Proof. intros ? <-. by apply take_splice. Qed.

(** After [n] full blocks the loop is at counter [n + 1]; it finishes when
    fewer than 255 blocks are needed. *)
Lemma expand_loop_ok fuel prk info out n :
  (32 * n <= length out)%nat -> (length out <= 254 * 32)%nat ->
  take (32 * n) out = hkdf_okm prk info n -> (length out - 32 * n < fuel)%nat ->
  expand_loop fuel prk info out (hkdf_T prk info n) (Z.of_nat (S n)) (32 * n) =
    Ok (hkdf_expand_spec prk info (length out)).
Proof.
  revert out n; induction fuel as [|fuel IH]; intros out n Hn Hmax Hout Hf; [lia|].
  cbn [expand_loop]. destruct (Nat.ltb_spec (32 * n) (length out)) as [Hlt|Hge].
  2: { f_equal. assert (length out = 32 * n)%nat as Hl by lia.
       rewrite <- Hl, take_ge in Hout by lia. unfold hkdf_expand_spec.
       rewrite Hl, Nat.mul_comm, Nat.div_mul, Nat.mul_comm, hkdf_okm_S by lia.
       rewrite <- (length_hkdf_okm prk info n), take_app_length. done. }
  rewrite expand_block_spec.
  rewrite (proj2 (Z.leb_le _ _)) by lia. cbn [expect mbind result_bind].
  set (k := Nat.min (length out - 32 * n) 32).
  assert (Hk : length (take k (hkdf_T prk info (S n))) = k)
    by (rewrite length_take, length_hkdf_T; lia).
  set (out' := splice _ _ _).
  assert (Hl' : length out' = length out) by (apply length_splice; lia).
  assert (Ht : take (32 * n + k) out' =
    hkdf_okm prk info n ++ take k (hkdf_T prk info (S n))).
  { unfold out'. rewrite <- Hk at 1. apply splice_prefix; [lia|done]. }
  destruct (decide (k = 32%nat)) as [Hk32|Hk32].
  - replace (32 * n + k)%nat with (32 * S n)%nat in * by lia.
    replace (Z.of_nat (S n) + 1) with (Z.of_nat (S (S n))) by lia.
    rewrite IH; rewrite ?Hl'; try done; try lia.
    rewrite Ht, hkdf_okm_S, Hk32. f_equal. apply take_ge. rewrite length_hkdf_T. lia.
  - replace (32 * n + k)%nat with (length out) in * by lia.
    destruct fuel as [|fuel]; [lia|]. cbn [expand_loop].
    rewrite Hl', Nat.ltb_irrefl. f_equal. rewrite take_ge in Ht by lia. rewrite Ht.
    unfold hkdf_expand_spec.
    assert (length out / 32 = n)%nat as ->.
    { symmetry. apply (Nat.div_unique _ _ _ (length out - 32 * n)); lia. }
    rewrite hkdf_okm_S, take_app, length_hkdf_okm, (take_ge (hkdf_okm _ _ _))
      by (rewrite length_hkdf_okm; lia).
    do 2 f_equal. lia.
Qed.

(** Past 254 blocks the counter overflows before the loop can finish. *)
Lemma expand_loop_overflow fuel prk info out t n :
  (length t <= 32)%nat -> (n <= 254)%nat -> (254 * 32 < length out)%nat ->
  expand_loop fuel prk info out t (Z.of_nat (S n)) (32 * n) = Panic.
Proof.
  revert out t n; induction fuel as [|fuel IH]; intros out t n Ht Hn Hout; [done|].
  cbn [expand_loop]. rewrite (proj2 (Nat.ltb_lt _ _)) by lia.
  destruct (Z.leb_spec (Z.of_nat (S n) + 1) 255) as [Hle|Hle]; [|done].
  cbn [expect mbind result_bind].
  assert (Hb : length (expand_block prk info t (Z.of_nat (S n))) = 32%nat).
  { unfold expand_block.
    pose proof (hmac_updates prk [t; info; [Z.of_nat (S n)]]) as H.
    cbn [foldl] in H. rewrite H. apply length_hmac_spec. }
  replace (Z.of_nat (S n) + 1) with (Z.of_nat (S (S n))) by lia.
  replace (32 * n + Nat.min (length out - 32 * n) 32)%nat with (32 * S n)%nat by lia.
  apply IH; [lia|lia|]. rewrite length_splice; [done|]. rewrite length_take. lia.
Qed.

Lemma expand_ok prk info out :
  (length out <= 254 * 32)%nat ->
  expand prk info out = Ok (hkdf_expand_spec prk info (length out)).
Proof.
  intros H. unfold expand. rewrite (proj2 (Nat.ltb_ge _ _)) by lia.
  apply (expand_loop_ok _ prk info out 0); [lia..|done|lia].
Qed.

(** HMAC-SHA256 is RFC 2104 for every key length and every way the
    message is split into [update] calls, and its tag has 32 bytes. *)
Theorem hmac_incremental key parts :
  let tag := hmac_finalize (foldl hmac_update (hmac_new key) parts) in
  tag = hmac_spec key (concat parts) /\ length tag = 32%nat.
Proof. cbv zeta. rewrite hmac_updates. auto using length_hmac_spec. Qed.

(** HKDF-Expand fills the buffer with the RFC 5869 output for every
    length up to 254 blocks, and panics for every longer one: the [u8] counter
    is incremented once more after the last block, so the 255th block, which
    the [assert!] and the RFC allow, hits the [expect]. *)
Theorem hkdf_expand_correct prk info out :
  expand prk info out =
    if decide (length out <= 254 * 32)%nat
    then Ok (hkdf_expand_spec prk info (length out)) else Panic.
Proof.
  case_decide as H; [by apply expand_ok|].
  unfold expand. case_match; [done|].
  apply (expand_loop_overflow _ prk info out [] 0); simpl; lia.
Qed.

(** The BOLT 8 shape never panics: two 32-byte keys. *)
Lemma hkdf_two_keys_ok salt ikm :
  exists a b, hkdf_two_keys salt ikm = Ok (a, b) /\ length a = 32%nat /\ length b = 32%nat /\
    a ++ b = hkdf_expand_spec (extract salt ikm) [] 64.
Proof.
  unfold hkdf_two_keys. rewrite expand_ok by by apply (bool_decide_unpack _).
  rewrite length_replicate. set (o := hkdf_expand_spec _ _ _).
  assert (length o = 64%nat) by (unfold o, hkdf_expand_spec;
    rewrite length_take, length_hkdf_okm; by apply (bool_decide_unpack _)).
  exists (take 32 o), (drop 32 o). rewrite take_drop, length_take, length_drop. split_and!; try done; lia.
Qed.

Example rfc4231_case2 : of_be (hmac_sha256 [74; 101; 102; 101]
    [119; 104; 97; 116; 32; 100; 111; 32; 121; 97; 32; 119; 97; 110; 116; 32; 102; 111; 114;
     32; 110; 111; 116; 104; 105; 110; 103; 63]) =
  0x5bdcc146bf60754e6a042426089575c75a003f089d2739839dec58b964ec3843.
Proof. by vm_compute. Qed.
