(* ===== verification/Chacha20.v ===== *)
(** * Chacha20: the stream cipher (src/src/crypto/chacha20.rs)

    The block function on sixteen 32-bit words and the keystream that is
    xored into data, 64 bytes at a time with a wrapping 32-bit counter. *)
From S2P Require Import Prelude.

Definition SIGMA : list Z := [0x61707865; 0x3320646e; 0x79622d32; 0x6b206574].

Record ChaCha20 := MkChaCha20 { cc_state : list Z }.

(** [u32::from_le_bytes] of each four bytes. *)
Definition le_words (bs : bytes) : list Z := map of_le (chunks_exact 4 bs).

Definition chacha20_new (key nonce : bytes) (counter : Z) : ChaCha20 :=
  MkChaCha20 (SIGMA ++ le_words key ++ [counter] ++ le_words nonce).

Definition wrapping_add (a b : Z) : Z := wrap 32 (a + b).
Definition rotate_left (x n : Z) : Z := Z.lor (wrap 32 (Z.shiftl x n)) (Z.shiftr x (32 - n)).

(** [x[a] = x[a].wrapping_add(x[b]); x[d] = (x[d] ^ x[a]).rotate_left(n)]. *)
Definition half_quarter (a b d : nat) (n : Z) (x : list Z) : list Z :=
  let x := <[a := wrapping_add (x !!! a) (x !!! b)]> x in
  <[d := rotate_left (Z.lxor (x !!! d) (x !!! a)) n]> x.

Definition quarter (a b c d : nat) (x : list Z) : list Z :=
  let x := half_quarter a b d 16 x in
  let x := half_quarter c d b 12 x in
  let x := half_quarter a b d 8 x in
  half_quarter c d b 7 x.

(** Column rounds, then diagonal rounds. *)
Definition double_round (x : list Z) : list Z :=
  let x := quarter 0 4 8 12 x in
  let x := quarter 1 5 9 13 x in
  let x := quarter 2 6 10 14 x in
  let x := quarter 3 7 11 15 x in
  let x := quarter 0 5 10 15 x in
  let x := quarter 1 6 11 12 x in
  let x := quarter 2 7 8 13 x in
  quarter 3 4 9 14 x.

Definition chacha20_block (c : ChaCha20) (counter : Z) : bytes :=
  let input := <[12%nat := counter]> (cc_state c) in
  let x := Nat.iter 10 double_round input in
  concat (map (fun '(a, b) => le_bytes 4 (wrapping_add a b)) (combine x input)).

(** [for (b, k) in chunk.iter_mut().zip(ks.iter()) { *b ^= k }]. *)
Fixpoint xor_into (chunk ks : bytes) : bytes :=
  match chunk, ks with
  | b :: chunk, k :: ks => Z.lxor b k :: xor_into chunk ks
  | _, _ => chunk
  end.

Fixpoint xor_chunks (c : ChaCha20) (counter : Z) (l : list bytes) : list bytes :=
  match l with
  | [] => []
  | chunk :: l =>
    xor_into chunk (chacha20_block c counter) :: xor_chunks c (wrap 32 (counter + 1)) l
  end.

Definition chacha20_xor (c : ChaCha20) (data : bytes) : bytes :=
  concat (xor_chunks c (cc_state c !!! 12%nat) (chunks_mut 64 data)).

Definition keystream (key nonce : bytes) (counter : Z) (len : nat) : bytes :=
  chacha20_xor (chacha20_new key nonce counter) (replicate len 0).

(** RFC 8439, 2.3.2. *)
Example rfc8439_block :
  of_be (take 16 (chacha20_block
    (chacha20_new (map Z.of_nat (seq 0 32)) [0;0;0;9;0;0;0;0x4a;0;0;0;0] 1) 1)) =
  0x10f1e7e4d13b5915500fdd1fa32071c4.
Proof. by vm_compute. Qed.

#[global] Arguments chacha20_block : simpl never.

(** ** Xor is an involution on any data *)
Lemma xor_into_involutive a k : xor_into (xor_into a k) k = a.
Proof.
  revert k; induction a as [|b a IH]; intros [|x k]; cbn; [done..|].
  by rewrite Z.lxor_assoc, Z.lxor_nilpotent, Z.lxor_0_r, IH.
Qed.

Lemma length_xor_into a k : length (xor_into a k) = length a.
Proof. revert k; induction a as [|b a IH]; intros [|x k]; cbn; auto. Qed.

Lemma xor_into_ok a k : bytes_ok a -> bytes_ok k -> bytes_ok (xor_into a k).
Proof.
  intros Ha. revert k. induction Ha as [|b a Hb Ha IH]; intros k Hk; [done|].
  destruct Hk as [|x k Hx Hk]; cbn; [by constructor|].
  constructor; [by apply lxor_uint|]. by apply IH.
Qed.

Lemma xor_chunks_involutive c n l : xor_chunks c n (xor_chunks c n l) = l.
Proof.
  revert n; induction l as [|a l IH]; intros n; cbn [xor_chunks]; [done|].
  by rewrite xor_into_involutive, IH.
Qed.

Lemma xor_chunks_lengths c n l : map length (xor_chunks c n l) = map length l.
Proof. revert n; induction l as [|a l IH]; intros n; cbn [xor_chunks map]; [done|].
  by rewrite length_xor_into, IH. Qed.

Lemma chacha20_xor_involutive c data : chacha20_xor c (chacha20_xor c data) = data.
Proof.
  unfold chacha20_xor. rewrite (chunks_mut_same 64 data); [|lia|apply xor_chunks_lengths].
  rewrite xor_chunks_involutive. apply chunks_mut_concat. lia.
Qed.

Lemma length_concat_map {A B} (l : list (list A)) (l' : list (list B)) :
  map length l = map length l' -> length (concat l) = length (concat l').
Proof.
  revert l'; induction l as [|a l IH]; intros [|b l'] E; try done. cbn in E.
  injection E as E1 E2. cbn. rewrite !length_app. f_equal; [done|auto].
Qed.

Lemma length_chacha20_xor c data : length (chacha20_xor c data) = length data.
Proof.
  unfold chacha20_xor. rewrite (length_concat_map _ _ (xor_chunks_lengths c _ _)).
  by rewrite chunks_mut_concat by lia.
Qed.

Lemma chacha20_block_ok c n : bytes_ok (chacha20_block c n).
Proof.
  unfold chacha20_block. apply Forall_concat, Forall_map, Forall_true. intros [a b]. apply le_bytes_ok.
Qed.

Lemma chacha20_xor_ok c data : bytes_ok data -> bytes_ok (chacha20_xor c data).
Proof.
  intros Hd. unfold chacha20_xor. apply Forall_concat.
  rewrite <- (chunks_mut_concat 64 data), Forall_concat in Hd by lia.
  revert Hd. generalize (cc_state c !!! 12%nat). induction (chunks_mut 64 data) as [|a l IH];
    intros n Hd; cbn [xor_chunks]; [constructor|].
  inversion Hd; subst. constructor; [|by apply IH]. apply xor_into_ok; [done|apply chacha20_block_ok].
Qed.

(** ** The first block *)
Lemma xor_zeros n k : (n <= length k)%nat -> xor_into (replicate n 0) k = take n k.
Proof.
  revert k; induction n as [|n IH]; intros [|x k] Hn; cbn in *; try (done || lia).
  f_equal. apply IH. lia.
Qed.

Lemma length_quarter a b c d x : length (quarter a b c d x) = length x.
Proof.
  assert (H : forall a b d n x, length (half_quarter a b d n x) = length x).
  { intros. unfold half_quarter. cbv zeta. by rewrite !length_insert. }
  unfold quarter. cbv zeta. by rewrite !H.
Qed.

Lemma length_chacha20_block c n : length (cc_state c) = 16%nat -> length (chacha20_block c n) = 64%nat.
Proof.
  intros Hc. unfold chacha20_block. set (i := <[12%nat := n]> (cc_state c)).
  assert (Hi : length i = 16%nat) by (unfold i; by rewrite length_insert).
  assert (Hx : length (Nat.iter 10 double_round i) = 16%nat).
  { assert (Hd : forall x, length x = 16%nat -> length (double_round x) = 16%nat).
    { intros x Hx. unfold double_round. cbv zeta. by rewrite !length_quarter. }
    assert (Hit : forall k, length (Nat.iter k double_round i) = 16%nat); [|apply Hit].
    induction k as [|k IHk]; [exact Hi|exact (Hd _ IHk)]. }
  assert (Hlen : forall l : list (Z * Z), length (concat (map (fun '(a, b) =>
    le_bytes 4 (wrapping_add a b)) l)) = (4 * length l)%nat).
  { induction l as [|[a b] l IH]; [done|]. cbn [map concat length]. rewrite length_app, length_le_bytes. lia. }
  rewrite Hlen, length_combine, Hx, Hi. done.
Qed.

Lemma length_le_words bs n : length bs = (4 * n)%nat -> length (le_words bs) = n.
Proof.
  intros Hl. unfold le_words. rewrite length_map.
  destruct (blocks_exist 4 ltac:(lia) bs) as (ls & t & -> & Hls & Ht).
  rewrite chunks_exact_blocks by (done || lia).
  rewrite length_app, (length_concat_blocks 4) in Hl by done. lia.
Qed.

Lemma chacha20_new_state key nonce n : length key = 32%nat -> length nonce = 12%nat ->
  length (cc_state (chacha20_new key nonce n)) = 16%nat /\
  cc_state (chacha20_new key nonce n) !!! 12%nat = n.
Proof.
  intros Hk Hn. pose proof (length_le_words key 8 Hk) as H8. pose proof (length_le_words nonce 3 Hn) as H3.
  unfold chacha20_new. cbn [cc_state]. split.
  - rewrite !length_app, H8, H3. done.
  - rewrite !list_lookup_total_alt. rewrite lookup_app_r by (cbn; lia). cbn [length SIGMA].
    rewrite lookup_app_r by (rewrite H8; lia). by rewrite H8.
Qed.

Lemma chacha20_xor_zeros c n : length (cc_state c) = 16%nat -> (0 < n < 64)%nat ->
  chacha20_xor c (replicate n 0) = take n (chacha20_block c (cc_state c !!! 12%nat)).
Proof.
  intros Hs Hn. unfold chacha20_xor.
  assert (chunks_mut 64 (replicate n 0) = [replicate n 0]) as ->.
  { pose proof (chunks_mut_blocks 64 [] (replicate n 0)) as H. cbn [concat app] in H.
    rewrite H; [|lia|constructor|rewrite length_replicate; lia]. destruct n; [lia|done]. }
  cbn [xor_chunks concat]. rewrite app_nil_r. apply xor_zeros.
  rewrite length_chacha20_block by done. lia.
Qed.

(** ** The cipher as one stream *)
Fixpoint stream (c : ChaCha20) (counter : Z) (n : nat) : bytes :=
  match n with
  | O => []
  | S n => chacha20_block c counter ++ stream c (wrap 32 (counter + 1)) n
  end.

Lemma length_stream c ctr n : length (cc_state c) = 16%nat -> length (stream c ctr n) = (64 * n)%nat.
Proof.
  intros Hc. revert ctr; induction n as [|n IH]; intros ctr; cbn [stream]; [done|].
  rewrite length_app, length_chacha20_block, IH by done. lia.
Qed.

Lemma stream_ok c ctr n : bytes_ok (stream c ctr n).
Proof.
  revert ctr; induction n as [|n IH]; intros ctr; cbn [stream]; [constructor|].
  apply Forall_app. split; [apply chacha20_block_ok|apply IH].
Qed.

Lemma xor_into_app a b k l : length a = length k ->
  xor_into (a ++ b) (k ++ l) = xor_into a k ++ xor_into b l.
Proof.
  revert k; induction a as [|x a IH]; intros [|y k] Hl; try done. cbn in *.
  by rewrite IH by lia.
Qed.

Lemma xor_into_app_r a k l : (length a <= length k)%nat -> xor_into a (k ++ l) = xor_into a k.
Proof.
  revert k; induction a as [|x a IH]; intros [|y k] Hl; cbn in *; try done; [lia|].
  by rewrite IH by lia.
Qed.

Lemma chunks_mut_cons {A} n (a b : list A) : (0 < n)%nat -> length a = n ->
  chunks_mut n (a ++ b) = a :: chunks_mut n b.
Proof.
  intros Hn Ha. destruct (blocks_exist n Hn b) as (ls & t & -> & Hls & Ht).
  rewrite (chunks_mut_blocks n ls t) by done.
  rewrite (app_assoc a). change (a ++ concat ls) with (concat (a :: ls)).
  by rewrite chunks_mut_blocks by (done || by constructor).
Qed.

Lemma xor_chunks_stream c ctr data n : length (cc_state c) = 16%nat ->
  (length data <= 64 * n)%nat ->
  concat (xor_chunks c ctr (chunks_mut 64 data)) = xor_into data (stream c ctr n).
Proof.
  intros Hc. revert ctr data; induction n as [|n IH]; intros ctr data Hl.
  { by destruct data; [|cbn in Hl; lia]. }
  destruct (decide (length data < 64)%nat) as [Hs|Hs].
  - pose proof (chunks_mut_blocks 64 [] data ltac:(lia) ltac:(constructor) Hs) as E.
    cbn [concat app] in E. rewrite E. cbn [stream].
    rewrite xor_into_app_r by (rewrite length_chacha20_block by done; lia).
    destruct data; [done|]. cbn [xor_chunks concat]. by rewrite app_nil_r.
  - rewrite <- (take_drop 64 data).
    rewrite chunks_mut_cons by (rewrite ?length_take; lia). cbn [xor_chunks concat stream].
    rewrite xor_into_app by (rewrite length_take, length_chacha20_block by done; lia).
    rewrite IH by (rewrite length_drop; lia). done.
Qed.

Lemma keystream_stream key nonce ctr len n : length key = 32%nat -> length nonce = 12%nat ->
  (len <= 64 * n)%nat ->
  keystream key nonce ctr len = take len (stream (chacha20_new key nonce ctr) ctr n).
Proof.
  intros Hk Hn Hl. destruct (chacha20_new_state key nonce ctr Hk Hn) as [Hs Hc].
  unfold keystream, chacha20_xor. rewrite Hc.
  rewrite (xor_chunks_stream _ _ _ n Hs) by by rewrite length_replicate.
  apply xor_zeros. by rewrite length_stream.
Qed.

(** A shorter keystream is a prefix of a longer one. *)
Lemma keystream_prefix key nonce ctr m len : length key = 32%nat -> length nonce = 12%nat ->
  (m <= len)%nat -> take m (keystream key nonce ctr len) = keystream key nonce ctr m.
Proof.
  intros Hk Hn Hm.
  rewrite !(keystream_stream key nonce ctr _ (len + 1)) by (done || lia).
  rewrite take_take. f_equal. lia.
Qed.

Lemma length_keystream key nonce ctr len : length (keystream key nonce ctr len) = len.
Proof. unfold keystream. by rewrite length_chacha20_xor, length_replicate. Qed.

Lemma keystream_ok key nonce ctr len : bytes_ok (keystream key nonce ctr len).
Proof. apply chacha20_xor_ok, Forall_replicate. by unfold uint; lia. Qed.

#[global] Opaque chacha20_block chacha20_xor keystream.
