(* ===== verification/Poly1305.v ===== *)
(** * Poly1305: the one-time authenticator (src/src/crypto/poly1305.rs)

    The accumulator and the key are five limbs of 26 bits in 32-bit words,
    multiplied with 64-bit products and partial carries; the definitions keep
    every width of the code.  [poly_spec] is the RFC 8439 definition over the
    integers modulo 2^130 - 5, and the two are equal for every way of splitting
    the message into updates. *)
From S2P Require Import Prelude.

Definition Limbs : Type := Z * Z * Z * Z * Z.

Record Poly1305 := MkPoly1305 {
  p_r : Limbs;
  p_h : Limbs;
  p_pad : Z * Z * Z * Z;
  p_buf : bytes;
  p_buf_len : nat;
}.

(** [u32::from_le_bytes(bs[i..i + 4])]. *)
Definition le_at (bs : bytes) (i : nat) : Z := of_le (take 4 (drop i bs)).
Definition MASK26 : Z := 0x03ffffff.

Definition add32 (a b : Z) : Z := wrap 32 (a + b).
Definition mul32 (a b : Z) : Z := wrap 32 (a * b).
Definition shl32 (a n : Z) : Z := wrap 32 (Z.shiftl a n).
Definition add64 (a b : Z) : Z := wrap 64 (a + b).
Definition mul64 (a b : Z) : Z := wrap 64 (a * b).

Definition poly_new (key : bytes) : Poly1305 :=
  let le := le_at key in
  MkPoly1305
    (Z.land (le 0%nat) 0x03ffffff, Z.land (Z.shiftr (le 3%nat) 2) 0x03ffff03,
     Z.land (Z.shiftr (le 6%nat) 4) 0x03ffc0ff, Z.land (Z.shiftr (le 9%nat) 6) 0x03f03fff,
     Z.land (Z.shiftr (le 12%nat) 8) 0x000fffff)
    (0, 0, 0, 0, 0) (le 16%nat, le 20%nat, le 24%nat, le 28%nat) (replicate 16 0) 0.

(** [h += m]: the limbs of a block. *)
Definition block_limbs (m : bytes) (hibit : Z) : Limbs :=
  let le := le_at m in
  (Z.land (le 0%nat) MASK26, Z.land (Z.shiftr (le 3%nat) 2) MASK26,
   Z.land (Z.shiftr (le 6%nat) 4) MASK26, Z.land (Z.shiftr (le 9%nat) 6) MASK26,
   Z.lor (Z.shiftr (le 12%nat) 8) hibit).

Definition limbs_add (h m : Limbs) : Limbs :=
  let '(h0, h1, h2, h3, h4) := h in
  let '(m0, m1, m2, m3, m4) := m in
  (add32 h0 m0, add32 h1 m1, add32 h2 m2, add32 h3 m3, add32 h4 m4).

(** [h *= r (mod 2^130 - 5)]: the five 64-bit sums of products. *)
Definition limbs_mul (h r : Limbs) : Limbs :=
  let '(h0, h1, h2, h3, h4) := h in
  let '(r0, r1, r2, r3, r4) := r in
  let s1 := mul32 r1 5 in let s2 := mul32 r2 5 in
  let s3 := mul32 r3 5 in let s4 := mul32 r4 5 in
  let m := mul64 in
  let sum5 a b c d e := add64 (add64 (add64 (add64 a b) c) d) e in
  (sum5 (m h0 r0) (m h1 s4) (m h2 s3) (m h3 s2) (m h4 s1),
   sum5 (m h0 r1) (m h1 r0) (m h2 s4) (m h3 s3) (m h4 s2),
   sum5 (m h0 r2) (m h1 r1) (m h2 r0) (m h3 s4) (m h4 s3),
   sum5 (m h0 r3) (m h1 r2) (m h2 r1) (m h3 r0) (m h4 s4),
   sum5 (m h0 r4) (m h1 r3) (m h2 r2) (m h3 r1) (m h4 r0)).

(** Partial carry propagation; [as u32] truncates. *)
Definition limbs_carry (d : Limbs) : Limbs :=
  let '(d0, d1, d2, d3, d4) := d in
  let lo x := wrap 32 (Z.land x MASK26) in
  let c := Z.shiftr d0 26 in let h0 := lo d0 in
  let d1 := add64 d1 c in let c := Z.shiftr d1 26 in let h1 := lo d1 in
  let d2 := add64 d2 c in let c := Z.shiftr d2 26 in let h2 := lo d2 in
  let d3 := add64 d3 c in let c := Z.shiftr d3 26 in let h3 := lo d3 in
  let d4 := add64 d4 c in let c := Z.shiftr d4 26 in let h4 := lo d4 in
  let h0 := add32 h0 (mul32 (wrap 32 c) 5) in
  let c := Z.shiftr h0 26 in
  let h0 := Z.land h0 MASK26 in
  (h0, add32 h1 c, h2, h3, h4).

Definition poly_block (p : Poly1305) (m : bytes) (hibit : Z) : Poly1305 :=
  MkPoly1305 (p_r p) (limbs_carry (limbs_mul (limbs_add (p_h p) (block_limbs m hibit)) (p_r p)))
    (p_pad p) (p_buf p) (p_buf_len p).

(** The part of [update] after a partial block has been completed. *)
Definition poly_update_blocks (p : Poly1305) (data : bytes) : Poly1305 :=
  let p := foldl (fun p b => poly_block p b (2 ^ 24)) p (chunks_exact 16 data) in
  let rem := remainder 16 data in
  MkPoly1305 (p_r p) (p_h p) (p_pad p) (splice 0 rem (p_buf p)) (length rem).

Definition poly_update (p : Poly1305) (data : bytes) : Poly1305 :=
  if (0 <? p_buf_len p)%nat then
    let take_ := Nat.min (16 - p_buf_len p) (length data) in
    let p := MkPoly1305 (p_r p) (p_h p) (p_pad p)
      (splice (p_buf_len p) (take take_ data) (p_buf p)) (p_buf_len p + take_) in
    if (p_buf_len p <? 16)%nat then p
    else
      let p := poly_block p (p_buf p) (2 ^ 24) in
      poly_update_blocks (MkPoly1305 (p_r p) (p_h p) (p_pad p) (p_buf p) 0) (drop take_ data)
  else poly_update_blocks p data.

(** The full carry of [finalize]. *)
Definition full_carry (h : Limbs) : Limbs :=
  let '(h0, h1, h2, h3, h4) := h in
  let c := Z.shiftr h1 26 in let h1 := Z.land h1 MASK26 in
  let h2 := add32 h2 c in let c := Z.shiftr h2 26 in let h2 := Z.land h2 MASK26 in
  let h3 := add32 h3 c in let c := Z.shiftr h3 26 in let h3 := Z.land h3 MASK26 in
  let h4 := add32 h4 c in let c := Z.shiftr h4 26 in let h4 := Z.land h4 MASK26 in
  let h0 := add32 h0 (mul32 c 5) in let c := Z.shiftr h0 26 in let h0 := Z.land h0 MASK26 in
  (h0, add32 h1 c, h2, h3, h4).

(** [h + -p], and the constant-time choice of it when [h >= p]. *)
Definition select (h : Limbs) : Limbs :=
  let '(h0, h1, h2, h3, h4) := h in
  let g0 := add32 h0 5 in let c := Z.shiftr g0 26 in let g0 := Z.land g0 MASK26 in
  let g1 := add32 h1 c in let c := Z.shiftr g1 26 in let g1 := Z.land g1 MASK26 in
  let g2 := add32 h2 c in let c := Z.shiftr g2 26 in let g2 := Z.land g2 MASK26 in
  let g3 := add32 h3 c in let c := Z.shiftr g3 26 in let g3 := Z.land g3 MASK26 in
  let g4 := wrap 32 (add32 h4 c - 2 ^ 26) in
  let take_g := wrap 32 (Z.shiftr g4 31 - 1) in
  let keep_h := Z.lxor take_g 0xffffffff in
  let pick h g := Z.lor (Z.land h keep_h) (Z.land g take_g) in
  (pick h0 g0, pick h1 g1, pick h2 g2, pick h3 g3, pick h4 g4).

(** Four 32-bit words, mod 2^128. *)
Definition repack (h : Limbs) : Z * Z * Z * Z :=
  let '(h0, h1, h2, h3, h4) := h in
  (Z.lor h0 (shl32 h1 26), Z.lor (Z.shiftr h1 6) (shl32 h2 20),
   Z.lor (Z.shiftr h2 12) (shl32 h3 14), Z.lor (Z.shiftr h3 18) (shl32 h4 8)).

(** [tag = (h + pad) mod 2^128]. *)
Definition add_pad (w pad : Z * Z * Z * Z) : bytes :=
  let '(w0, w1, w2, w3) := w in
  let '(p0, p1, p2, p3) := pad in
  let f := add64 w0 p0 in let t0 := wrap 32 f in
  let f := add64 (add64 w1 p1) (Z.shiftr f 32) in let t1 := wrap 32 f in
  let f := add64 (add64 w2 p2) (Z.shiftr f 32) in let t2 := wrap 32 f in
  let f := add64 (add64 w3 p3) (Z.shiftr f 32) in let t3 := wrap 32 f in
  le_bytes 4 t0 ++ le_bytes 4 t1 ++ le_bytes 4 t2 ++ le_bytes 4 t3.

Definition poly_finalize (p : Poly1305) : bytes :=
  let p :=
    if (0 <? p_buf_len p)%nat then
      let block := <[p_buf_len p := 1]>
        (splice 0 (take (p_buf_len p) (p_buf p)) (replicate 16 0)) in
      poly_block p block 0
    else p in
  add_pad (repack (select (full_carry (p_h p)))) (p_pad p).

Definition poly_mac (key data : bytes) : bytes := poly_finalize (poly_update (poly_new key) data).

(** RFC 8439, 2.5.2. *)
Example rfc8439_mac :
  of_be (poly_mac
    (be_bytes 32 0x85d6be7857556d337f4452fe42d506a80103808afb0db2fd4abff6af4149f51b)
    (be_bytes 34 0x43727970746f6772617068696320466f72756d2052657365617263682047726f7570)) =
  0xa8061dc1305136c6c22b8baf0c0127a9.
Proof. by vm_compute. Qed.

(** ** RFC 8439 over the integers *)
Definition P1305 : Z := 2 ^ 130 - 5.
Definition CLAMP : Z := 0x0ffffffc0ffffffc0ffffffc0fffffff.

Definition poly_spec (key msg : bytes) : bytes :=
  let r := Z.land (of_le (take 16 key)) CLAMP in
  let s := of_le (take 16 (drop 16 key)) in
  let acc := foldl (fun acc b => (acc + of_le (b ++ [1])) * r mod P1305) 0 (chunks_mut 16 msg) in
  le_bytes 16 ((acc + s) mod 2 ^ 128).

(** ** Limbs *)
Definition val (h : Limbs) : Z :=
  let '(h0, h1, h2, h3, h4) := h in
  h0 + 2 ^ 26 * h1 + 2 ^ 52 * h2 + 2 ^ 78 * h3 + 2 ^ 104 * h4.

Definition each (B0 B1 B2 B3 B4 : Z) (h : Limbs) : Prop :=
  let '(h0, h1, h2, h3, h4) := h in
  (0 <= h0 < B0) /\ (0 <= h1 < B1) /\ (0 <= h2 < B2) /\ (0 <= h3 < B3) /\ (0 <= h4 < B4).
(** What [block] leaves, and what it multiplies. *)
Definition reduced : Limbs -> Prop := each (2 ^ 26) (2 ^ 26 + 64) (2 ^ 26) (2 ^ 26) (2 ^ 26).
Definition small : Limbs -> Prop := each (2 ^ 26) (2 ^ 26) (2 ^ 26) (2 ^ 26) (2 ^ 26).
Definition summed : Limbs -> Prop :=
  each (2 ^ 27) (2 ^ 27 + 64) (2 ^ 27) (2 ^ 27) (2 ^ 27).

Lemma poly_land_mask x : Z.land x MASK26 = x mod 2 ^ 26.
Proof. apply (Z.land_ones x 26). lia. Qed.
Lemma shr x n : 0 <= n -> Z.shiftr x n = x / 2 ^ n.
Proof. intros. by apply Z.shiftr_div_pow2. Qed.

Ltac small_wrap := rewrite wrap_small by (unfold uint; lia).

Lemma mul_bound a b A B : 0 <= a < A -> 0 <= b < B -> 0 <= a * b <= (A - 1) * (B - 1).
Proof. intros. split; [lia|]. apply Z.mul_le_mono_nonneg; lia. Qed.

Lemma limbs_add_exact h m : reduced h -> small m ->
  val (limbs_add h m) = val h + val m /\ summed (limbs_add h m).
Proof.
  destruct h as [[[[h0 h1] h2] h3] h4], m as [[[[m0 m1] m2] m3] m4].
  unfold reduced, small, summed, each, limbs_add, add32, val. intros.
  destruct_conj. repeat small_wrap. lia.
Qed.

(** The sums of products, without widths. *)
Definition products (a r : Limbs) : Limbs :=
  let '(a0, a1, a2, a3, a4) := a in
  let '(r0, r1, r2, r3, r4) := r in
  (a0 * r0 + a1 * (r4 * 5) + a2 * (r3 * 5) + a3 * (r2 * 5) + a4 * (r1 * 5),
   a0 * r1 + a1 * r0 + a2 * (r4 * 5) + a3 * (r3 * 5) + a4 * (r2 * 5),
   a0 * r2 + a1 * r1 + a2 * r0 + a3 * (r4 * 5) + a4 * (r3 * 5),
   a0 * r3 + a1 * r2 + a2 * r1 + a3 * r0 + a4 * (r4 * 5),
   a0 * r4 + a1 * r3 + a2 * r2 + a3 * r1 + a4 * r0).

Lemma products_val a r : exists q, val (products a r) = val a * val r - q * P1305.
Proof.
  destruct a as [[[[a0 a1] a2] a3] a4], r as [[[[r0 r1] r2] r3] r4].
  exists (a1 * r4 + a2 * r3 + a3 * r2 + a4 * r1 + 2 ^ 26 * (a2 * r4 + a3 * r3 + a4 * r2) +
          2 ^ 52 * (a3 * r4 + a4 * r3) + 2 ^ 78 * (a4 * r4)).
  unfold val, products, P1305. ring.
Qed.

(** One product of at most 2^27 + 63 by at most five times 2^26 - 1. *)
Definition fac (k a r : Z) : Prop := 0 <= a < 2 ^ 27 + 64 /\ 0 <= r < k * 2 ^ 26.

Lemma fac_bound k a r : 1 <= k <= 5 -> fac k a r ->
  mul64 a r = a * r /\ 0 <= a * r < k * (2 ^ 53 + 2 ^ 32).
Proof.
  intros Hk [Ha Hr]. pose proof (mul_bound a r _ _ Ha Hr).
  assert (0 <= a * r < k * (2 ^ 53 + 2 ^ 32)) by lia. split; [|done].
  unfold mul64. small_wrap. done.
Qed.

Lemma sum5_exact a b c d e :
  0 <= a < 2 ^ 60 -> 0 <= b < 2 ^ 60 -> 0 <= c < 2 ^ 60 -> 0 <= d < 2 ^ 60 -> 0 <= e < 2 ^ 60 ->
  add64 (add64 (add64 (add64 a b) c) d) e = a + b + c + d + e.
Proof.
  intros. unfold add64. rewrite (wrap_small 64 (a + b)) by (unfold uint; lia).
  rewrite (wrap_small 64 (a + b + c)) by (unfold uint; lia).
  rewrite (wrap_small 64 (a + b + c + d)) by (unfold uint; lia).
  rewrite wrap_small by (unfold uint; lia). done.
Qed.

Lemma sum5_products ka kb kc kd ke a b c d e r0 r1 r2 r3 r4 :
  1 <= ka <= 5 -> 1 <= kb <= 5 -> 1 <= kc <= 5 -> 1 <= kd <= 5 -> 1 <= ke <= 5 ->
  fac ka a r0 -> fac kb b r1 -> fac kc c r2 -> fac kd d r3 -> fac ke e r4 ->
  add64 (add64 (add64 (add64 (mul64 a r0) (mul64 b r1)) (mul64 c r2)) (mul64 d r3)) (mul64 e r4) =
    a * r0 + b * r1 + c * r2 + d * r3 + e * r4 /\
  0 <= a * r0 + b * r1 + c * r2 + d * r3 + e * r4 < (ka + kb + kc + kd + ke) * (2 ^ 53 + 2 ^ 32).
Proof.
  intros Hka Hkb Hkc Hkd Hke Ha Hb Hc Hd He.
  destruct (fac_bound _ _ _ Hka Ha) as [-> ?], (fac_bound _ _ _ Hkb Hb) as [-> ?],
    (fac_bound _ _ _ Hkc Hc) as [-> ?], (fac_bound _ _ _ Hkd Hd) as [-> ?],
    (fac_bound _ _ _ Hke He) as [-> ?]. clear Ha Hb Hc Hd He.
  generalize dependent (a * r0). generalize dependent (b * r1). generalize dependent (c * r2).
  generalize dependent (d * r3). generalize dependent (e * r4). intros.
  split; [apply sum5_exact; lia|lia].
Qed.

Lemma limbs_mul_exact a r : summed a -> small r ->
  limbs_mul a r = products a r /\
  each (2 ^ 58) (2 ^ 58) (2 ^ 58) (2 ^ 58) (5 * (2 ^ 53 + 2 ^ 32)) (products a r).
Proof.
  destruct a as [[[[a0 a1] a2] a3] a4], r as [[[[r0 r1] r2] r3] r4].
  unfold summed, small, each. intros (A0 & A1 & A2 & A3 & A4) (R0 & R1 & R2 & R3 & R4).
  assert (F1 : forall a r, 0 <= a < 2 ^ 27 + 64 -> 0 <= r < 2 ^ 26 -> fac 1 a r) by (unfold fac; lia).
  assert (F5 : forall a r, 0 <= a < 2 ^ 27 + 64 -> 0 <= r < 2 ^ 26 -> fac 5 a (r * 5))
    by (unfold fac; lia).
  assert (A0' : 0 <= a0 < 2 ^ 27 + 64) by lia. assert (A2' : 0 <= a2 < 2 ^ 27 + 64) by lia.
  assert (A3' : 0 <= a3 < 2 ^ 27 + 64) by lia. assert (A4' : 0 <= a4 < 2 ^ 27 + 64) by lia.
  clear A0 A2 A3 A4. unfold limbs_mul, products. cbv zeta.
  assert (E : forall r, 0 <= r < 2 ^ 26 -> mul32 r 5 = r * 5) by (intros; unfold mul32; small_wrap; done).
  rewrite (E r1), (E r2), (E r3), (E r4) by done. clear E.
  destruct (sum5_products 1 5 5 5 5 a0 a1 a2 a3 a4 r0 (r4 * 5) (r3 * 5) (r2 * 5) (r1 * 5)) as [-> D0]; auto with lia.
  destruct (sum5_products 1 1 5 5 5 a0 a1 a2 a3 a4 r1 r0 (r4 * 5) (r3 * 5) (r2 * 5)) as [-> D1]; auto with lia.
  destruct (sum5_products 1 1 1 5 5 a0 a1 a2 a3 a4 r2 r1 r0 (r4 * 5) (r3 * 5)) as [-> D2]; auto with lia.
  destruct (sum5_products 1 1 1 1 5 a0 a1 a2 a3 a4 r3 r2 r1 r0 (r4 * 5)) as [-> D3]; auto with lia.
  destruct (sum5_products 1 1 1 1 1 a0 a1 a2 a3 a4 r4 r3 r2 r1 r0) as [-> D4]; auto with lia.
Qed.

(** ** Carries *)
Lemma limbs_carry_exact d :
  each (2 ^ 58) (2 ^ 58) (2 ^ 58) (2 ^ 58) (5 * (2 ^ 53 + 2 ^ 32)) d ->
  (exists q, val (limbs_carry d) = val d - q * P1305) /\ reduced (limbs_carry d).
Proof.
  destruct d as [[[[d0 d1] d2] d3] d4]. unfold each. intros (D0 & D1 & D2 & D3 & D4).
  unfold limbs_carry, add64, add32, mul32. cbv zeta. rewrite !poly_land_mask, !shr by lia.
  pose proof (Z.div_mod d0 (2 ^ 26) ltac:(lia)). pose proof (Z.mod_pos_bound d0 (2 ^ 26) ltac:(lia)).
  set (c0 := d0 / 2 ^ 26) in *. set (l0 := d0 mod 2 ^ 26) in *.
  rewrite (wrap_small 64 (d1 + c0)) by (unfold uint; lia).
  pose proof (Z.div_mod (d1 + c0) (2 ^ 26) ltac:(lia)).
  pose proof (Z.mod_pos_bound (d1 + c0) (2 ^ 26) ltac:(lia)).
  set (c1 := (d1 + c0) / 2 ^ 26) in *. set (l1 := (d1 + c0) mod 2 ^ 26) in *.
  rewrite (wrap_small 64 (d2 + c1)) by (unfold uint; lia).
  pose proof (Z.div_mod (d2 + c1) (2 ^ 26) ltac:(lia)).
  pose proof (Z.mod_pos_bound (d2 + c1) (2 ^ 26) ltac:(lia)).
  set (c2 := (d2 + c1) / 2 ^ 26) in *. set (l2 := (d2 + c1) mod 2 ^ 26) in *.
  rewrite (wrap_small 64 (d3 + c2)) by (unfold uint; lia).
  pose proof (Z.div_mod (d3 + c2) (2 ^ 26) ltac:(lia)).
  pose proof (Z.mod_pos_bound (d3 + c2) (2 ^ 26) ltac:(lia)).
  set (c3 := (d3 + c2) / 2 ^ 26) in *. set (l3 := (d3 + c2) mod 2 ^ 26) in *.
  rewrite (wrap_small 64 (d4 + c3)) by (unfold uint; lia).
  pose proof (Z.div_mod (d4 + c3) (2 ^ 26) ltac:(lia)).
  pose proof (Z.mod_pos_bound (d4 + c3) (2 ^ 26) ltac:(lia)).
  set (c4 := (d4 + c3) / 2 ^ 26) in *. set (l4 := (d4 + c3) mod 2 ^ 26) in *.
  assert (C4 : 0 <= c4 < 5 * 2 ^ 27 + 2 ^ 10) by lia.
  rewrite (wrap_small 32 c4) by (unfold uint; lia).
  rewrite (wrap_small 32 (c4 * 5)) by (unfold uint; lia).
  rewrite (wrap_small 32 l0), (wrap_small 32 l1), (wrap_small 32 l2), (wrap_small 32 l3),
    (wrap_small 32 l4) by (unfold uint; lia).
  rewrite (wrap_small 32 (l0 + c4 * 5)) by (unfold uint; lia).
  pose proof (Z.div_mod (l0 + c4 * 5) (2 ^ 26) ltac:(lia)).
  pose proof (Z.mod_pos_bound (l0 + c4 * 5) (2 ^ 26) ltac:(lia)).
  set (c5 := (l0 + c4 * 5) / 2 ^ 26) in *. set (l5 := (l0 + c4 * 5) mod 2 ^ 26) in *.
  assert (C5 : 0 <= c5 < 64) by lia.
  rewrite (wrap_small 32 (l1 + c5)) by (unfold uint; lia).
  split; [exists c4; unfold val, P1305; lia|unfold reduced, each; lia].
Qed.

(** One block: multiply-accumulate modulo 2^130 - 5. *)
Lemma mac_step h m r : reduced h -> small m -> small r ->
  val (limbs_carry (limbs_mul (limbs_add h m) r)) mod P1305 = (val h + val m) * val r mod P1305 /\
  reduced (limbs_carry (limbs_mul (limbs_add h m) r)).
Proof.
  intros Hh Hm Hr. destruct (limbs_add_exact h m Hh Hm) as [E1 B1].
  destruct (limbs_mul_exact _ r B1 Hr) as [E2 B2].
  destruct (limbs_carry_exact _ B2) as [[q E3] B3]. rewrite E2. split; [|done].
  rewrite E3. destruct (products_val (limbs_add h m) r) as [q' E4]. rewrite E4, E1.
  replace ((val h + val m) * val r - q' * P1305 - q * P1305)
    with ((val h + val m) * val r + (- q' - q) * P1305) by ring.
  apply Z_mod_plus_full.
Qed.

(** ** Bytes to limbs *)
Lemma of_le_app a b : of_le (a ++ b) = of_le a + 256 ^ Z.of_nat (length a) * of_le b.
Proof.
  induction a as [|x a IH]; cbn [app of_le length]; [lia|].
  rewrite IH, Nat2Z.inj_succ, Z.pow_succ_r by lia. ring.
Qed.

Lemma of_le_drop i l : bytes_ok l -> of_le (drop i l) = of_le l / 256 ^ Z.of_nat i.
Proof.
  intros Hl. destruct (decide (i <= length l)%nat) as [Hi|Hi].
  - rewrite <- (take_drop i l) at 2. rewrite of_le_app, length_take_le by done.
    pose proof (of_le_bound (take i l) (Forall_take _ _ _ Hl)) as Hb. rewrite length_take_le in Hb by done.
    rewrite Z.mul_comm, Z.div_add by lia. rewrite Z.div_small by lia. lia.
  - rewrite drop_ge by lia. symmetry. apply Z.div_small.
    pose proof (of_le_bound l Hl). pose proof (Z.pow_le_mono_r 256 (Z.of_nat (length l)) (Z.of_nat i)). lia.
Qed.

Lemma of_le_take n l : bytes_ok l -> of_le (take n l) = of_le l mod 256 ^ Z.of_nat n.
Proof.
  intros Hl. destruct (decide (n <= length l)%nat) as [Hi|Hi].
  - rewrite <- (take_drop n l) at 2. rewrite of_le_app, length_take_le by done.
    pose proof (of_le_bound (take n l) (Forall_take _ _ _ Hl)) as Hb. rewrite length_take_le in Hb by done.
    rewrite Z.mul_comm, Z_mod_plus_full. by rewrite Z.mod_small.
  - rewrite take_ge by lia. symmetry. apply Z.mod_small.
    pose proof (of_le_bound l Hl). pose proof (Z.pow_le_mono_r 256 (Z.of_nat (length l)) (Z.of_nat n)). lia.
Qed.

Lemma le_at_val bs i : bytes_ok bs -> le_at bs i = of_le bs / 2 ^ (8 * Z.of_nat i) mod 2 ^ 32.
Proof.
  intros Hb. unfold le_at. rewrite of_le_take by by apply Forall_drop.
  rewrite of_le_drop by done. by rewrite Z.pow_mul_r by lia.
Qed.

(** The five 26-bit digits of a number below 2^130. *)
Definition digits (x : Z) : Limbs :=
  (x mod 2 ^ 26, x / 2 ^ 26 mod 2 ^ 26, x / 2 ^ 52 mod 2 ^ 26, x / 2 ^ 78 mod 2 ^ 26, x / 2 ^ 104).

Lemma digits_val x : 0 <= x < 2 ^ 130 -> val (digits x) = x /\ small (digits x).
Proof.
  intros Hx. unfold digits, val, small, each.
  replace (x / 2 ^ 52) with (x / 2 ^ 26 / 2 ^ 26) by (by rewrite Z.div_div by lia).
  replace (x / 2 ^ 78) with (x / 2 ^ 26 / 2 ^ 26 / 2 ^ 26) by (by rewrite !Z.div_div by lia).
  replace (x / 2 ^ 104) with (x / 2 ^ 26 / 2 ^ 26 / 2 ^ 26 / 2 ^ 26) by (by rewrite !Z.div_div by lia).
  mod_lia.
Qed.

Lemma lor_hibit x b : 0 <= x < 2 ^ 24 -> b = 0 \/ b = 2 ^ 24 -> Z.lor x b = x + b.
Proof.
  intros Hx [->| ->]; [rewrite Z.lor_0_r; lia|].
  rewrite Z.lor_comm. change (2 ^ 24) with (Z.shiftl 1 24) at 1. rewrite lor_shiftl_add by lia. lia.
Qed.

Lemma div_of_mod x a b : 0 < a -> 0 < b -> x mod (a * b) / a = x / a mod b.
Proof.
  intros Ha Hb. rewrite Z.rem_mul_r by lia. rewrite Z.add_comm, Z.mul_comm, Z.div_add_l by lia.
  rewrite (Z.div_small (x mod a)) by (apply Z.mod_pos_bound; lia). lia.
Qed.

(** A field of the words of [bs] is part of its value. *)
Lemma field bs i k : bytes_ok bs -> 0 <= k <= 8 ->
  Z.shiftr (le_at bs i) k = of_le bs / 2 ^ (8 * Z.of_nat i + k) mod 2 ^ (32 - k).
Proof.
  intros Hb Hk. rewrite le_at_val, shr by (done || lia).
  rewrite Z.pow_add_r, <- Z.div_div by lia. set (x := of_le bs / _).
  replace (2 ^ 32) with (2 ^ k * 2 ^ (32 - k)) by (rewrite <- Z.pow_add_r by lia; f_equal; lia).
  apply div_of_mod; lia.
Qed.

Lemma mod_mod_le x a b : 0 <= a <= b -> x mod 2 ^ b mod 2 ^ a = x mod 2 ^ a.
Proof.
  intros H. replace (2 ^ b) with (2 ^ a * 2 ^ (b - a)) by (rewrite <- Z.pow_add_r by lia; f_equal; lia).
  rewrite Z.rem_mul_r by lia. rewrite Z.mul_comm, Z_mod_plus_full, Z.mod_mod by lia. done.
Qed.

Lemma block_limbs_digits m b : length m = 16%nat -> bytes_ok m -> b = 0 \/ b = 2 ^ 24 ->
  block_limbs m b = digits (of_le m + 2 ^ 104 * b).
Proof.
  intros Hlen Hm Hb. pose proof (of_le_bound m Hm) as HM. rewrite Hlen in HM.
  change (256 ^ Z.of_nat 16) with (2 ^ 128) in HM.
  unfold block_limbs. rewrite !poly_land_mask, !field by (done || lia).
  rewrite le_at_val by done.
  change (8 * Z.of_nat 0) with 0. change (8 * Z.of_nat 3 + 2) with 26.
  change (8 * Z.of_nat 6 + 4) with 52. change (8 * Z.of_nat 9 + 6) with 78.
  change (8 * Z.of_nat 12 + 8) with 104. rewrite !mod_mod_le by lia. rewrite Z.div_1_r.
  set (M := of_le m) in *.
  rewrite (Z.mod_small (M / 2 ^ 104)) by (change (32 - 8) with 24; split;
    [apply Z.div_pos; lia|apply Z.div_lt_upper_bound; lia]).
  rewrite lor_hibit; [|split; [apply Z.div_pos; lia|apply Z.div_lt_upper_bound; lia]|done].
  unfold digits. rewrite (Z.mul_comm (2 ^ 104)), Z.div_add by lia.
  assert (E : forall k, 0 <= k <= 78 -> (M + b * 2 ^ 104) / 2 ^ k mod 2 ^ 26 = M / 2 ^ k mod 2 ^ 26).
  { intros k Hk. replace (2 ^ 104) with (2 ^ (104 - k - 26) * 2 ^ 26 * 2 ^ k)
      by (rewrite <- !Z.pow_add_r by lia; f_equal; lia).
    rewrite !Z.mul_assoc, Z.div_add by lia. by rewrite Z_mod_plus_full. }
  pose proof (E 0 ltac:(lia)) as E0. rewrite !Z.div_1_r in E0.
  by rewrite <- E0, <- (E 26), <- (E 52), <- (E 78) by lia.
Qed.

Lemma block_limbs_exact m b : length m = 16%nat -> bytes_ok m -> b = 0 \/ b = 2 ^ 24 ->
  val (block_limbs m b) = of_le m + 2 ^ 104 * b /\ small (block_limbs m b).
Proof.
  intros Hlen Hm Hb. rewrite block_limbs_digits by done. apply digits_val.
  pose proof (of_le_bound m Hm) as HM. rewrite Hlen in HM.
  change (256 ^ Z.of_nat 16) with (2 ^ 128) in HM. lia.
Qed.

(** ** The clamped key *)
Lemma land_split n a b m m' : 0 <= n -> 0 <= a < 2 ^ n -> 0 <= m < 2 ^ n ->
  Z.land (a + 2 ^ n * b) (m + 2 ^ n * m') = Z.land a m + 2 ^ n * Z.land b m'.
Proof.
  intros Hn Ha Hm. apply Z.bits_inj'. intros k Hk.
  assert (Hlm : 0 <= Z.land a m < 2 ^ n) by (apply land_uint; done).
  assert (Hbit : forall x y, 0 <= x < 2 ^ n ->
    Z.testbit (x + 2 ^ n * y) k = if k <? n then Z.testbit x k else Z.testbit y (k - n)).
  { intros x y Hx. rewrite Z.add_comm, Z.mul_comm, <- lor_shiftl_add by done.
    rewrite Z.lor_spec. destruct (Z.ltb_spec k n).
    - by rewrite Z.shiftl_spec_low by done.
    - rewrite Z.shiftl_spec_high by lia. by rewrite (uint_testbit_high n x), orb_false_r. }
  rewrite Z.land_spec, !Hbit by done. destruct (k <? n); by rewrite Z.land_spec.
Qed.

Lemma land_low n x m : 0 <= n -> 0 <= m < 2 ^ n -> Z.land x m = Z.land (x mod 2 ^ n) m.
Proof.
  intros Hn Hm. rewrite (Z.div_mod x (2 ^ n)) at 1 by lia. rewrite Z.add_comm.
  replace m with (m + 2 ^ n * 0) at 1 by lia.
  rewrite land_split, Z.land_0_r; [lia|done|apply Z.mod_pos_bound; lia|done].
Qed.

Lemma clamp_exact key : (16 <= length key)%nat -> bytes_ok key ->
  val (p_r (poly_new key)) = Z.land (of_le (take 16 key)) CLAMP /\ small (p_r (poly_new key)).
Proof.
  intros Hlen Hk. unfold poly_new. cbn [p_r]. set (K := of_le (take 16 key)).
  assert (HK : 0 <= K < 2 ^ 128).
  { pose proof (of_le_bound (take 16 key) (Forall_take _ _ _ Hk)) as H.
    rewrite length_take_le in H by done. exact H. }
  assert (Hle : forall i k, 0 <= k <= 8 -> (i <= 12)%nat ->
    Z.shiftr (le_at key i) k = K / 2 ^ (8 * Z.of_nat i + k) mod 2 ^ (32 - k)).
  { intros i k Hk' Hi. unfold K. rewrite <- field by (done || by apply Forall_take). f_equal.
    unfold le_at. f_equal. rewrite <- (take_drop 16 key) at 1.
    rewrite drop_app_le, take_app_le; [done|rewrite length_drop, length_take_le by done; lia|
      rewrite length_take_le by done; lia]. }
  rewrite !Hle by lia. pose proof (Hle 0%nat 0 ltac:(lia) ltac:(lia)) as H0.
  rewrite Z.shiftr_0_r in H0. rewrite H0.
  change (8 * Z.of_nat 0 + 0) with 0. change (8 * Z.of_nat 3 + 2) with 26.
  change (8 * Z.of_nat 6 + 4) with 52. change (8 * Z.of_nat 9 + 6) with 78.
  change (8 * Z.of_nat 12 + 8) with 104. rewrite Z.div_1_r.
  rewrite (land_low 26 (K mod _)), (land_low 26 (K / 2 ^ 26 mod _)), (land_low 26 (K / 2 ^ 52 mod _)),
    (land_low 26 (K / 2 ^ 78 mod _)) by lia. rewrite !mod_mod_le by lia.
  rewrite (Z.mod_small (K / 2 ^ 104)) by (change (32 - 8) with 24; split;
    [apply Z.div_pos; lia|apply Z.div_lt_upper_bound; lia]).
  destruct (digits_val K ltac:(lia)) as [EK SK]. unfold digits, val, small, each in EK, SK.
  set (d0 := K mod 2 ^ 26) in *. set (d1 := K / 2 ^ 26 mod 2 ^ 26) in *.
  set (d2 := K / 2 ^ 52 mod 2 ^ 26) in *. set (d3 := K / 2 ^ 78 mod 2 ^ 26) in *.
  set (d4 := K / 2 ^ 104) in *. destruct SK as (S0 & S1 & S2 & S3 & S4).
  split.
  - assert (EK' : K = d0 + 2 ^ 26 * (d1 + 2 ^ 26 * (d2 + 2 ^ 26 * (d3 + 2 ^ 26 * d4)))) by lia.
    change CLAMP with (0x03ffffff + 2 ^ 26 * (0x03ffff03 + 2 ^ 26 * (0x03ffc0ff +
      2 ^ 26 * (0x03f03fff + 2 ^ 26 * 0x000fffff)))).
    rewrite EK' at 1. rewrite !land_split by lia. unfold val. lia.
  - assert (L : forall x m, 0 <= m < 2 ^ 26 -> 0 <= Z.land x m < 2 ^ 26) by (intros; by apply land_uint).
    unfold small, each. split_and!; apply L; lia.
Qed.

(** ** Finalization *)
Ltac split_div x :=
  let q := fresh "q" in let l := fresh "l" in
  pose proof (Z.div_mod x (2 ^ 26) ltac:(lia)); pose proof (Z.mod_pos_bound x (2 ^ 26) ltac:(lia));
  set (q := x / 2 ^ 26) in *; set (l := x mod 2 ^ 26) in *.

Lemma full_carry_exact h : reduced h ->
  val (full_carry h) mod P1305 = val h mod P1305 /\ small (full_carry h).
Proof.
  destruct h as [[[[h0 h1] h2] h3] h4]. unfold reduced, each. intros (H0 & H1 & H2 & H3 & H4).
  unfold full_carry, add32, mul32. cbv zeta. rewrite !poly_land_mask, !shr by lia.
  split_div h1. rewrite (wrap_small 32 (h2 + q)) by (unfold uint; lia).
  split_div (h2 + q). rewrite (wrap_small 32 (h3 + q0)) by (unfold uint; lia).
  split_div (h3 + q0). rewrite (wrap_small 32 (h4 + q1)) by (unfold uint; lia).
  split_div (h4 + q1). rewrite (wrap_small 32 (q2 * 5)) by (unfold uint; lia).
  rewrite (wrap_small 32 (h0 + q2 * 5)) by (unfold uint; lia).
  split_div (h0 + q2 * 5). rewrite (wrap_small 32 (l + q3)) by (unfold uint; lia).
  split.
  - transitivity ((val (h0, h1, h2, h3, h4) + (- q2) * P1305) mod P1305); [|apply Z_mod_plus_full].
    f_equal. unfold val, P1305. lia.
  - unfold small, each. lia.
Qed.

Lemma pick_keep h g : u32 h -> Z.lor (Z.land h 0xffffffff) (Z.land g 0) = h.
Proof.
  intros Hh. rewrite Z.land_0_r, Z.lor_0_r. change 0xffffffff with (Z.ones 32).
  rewrite Z.land_ones by lia. by apply Z.mod_small.
Qed.
Lemma pick_take h g : u32 g -> Z.lor (Z.land h 0) (Z.land g 0xffffffff) = g.
Proof. intros Hg. rewrite Z.lor_comm. by apply pick_keep. Qed.

Lemma select_exact h : small h -> val (select h) = val h mod P1305 /\ small (select h).
Proof.
  destruct h as [[[[h0 h1] h2] h3] h4]. unfold small at 1, each. intros (H0 & H1 & H2 & H3 & H4).
  unfold select, add32. cbv zeta. rewrite !poly_land_mask, !(shr _ 26) by lia.
  rewrite (wrap_small 32 (h0 + 5)) by (unfold uint; lia). split_div (h0 + 5).
  rewrite (wrap_small 32 (h1 + q)) by (unfold uint; lia). split_div (h1 + q).
  rewrite (wrap_small 32 (h2 + q0)) by (unfold uint; lia). split_div (h2 + q0).
  rewrite (wrap_small 32 (h3 + q1)) by (unfold uint; lia). split_div (h3 + q1).
  rewrite (wrap_small 32 (h4 + q2)) by (unfold uint; lia).
  assert (E : val (h0, h1, h2, h3, h4) + 5 = val (l, l0, l1, l2, h4 + q2)) by (unfold val; lia).
  destruct (Z.ltb_spec (h4 + q2) (2 ^ 26)) as [Hlt|Hge].
  - replace (wrap 32 (h4 + q2 - 2 ^ 26)) with (h4 + q2 - 2 ^ 26 + 2 ^ 32).
    2: { unfold wrap. rewrite <- (Z_mod_plus_full _ 1). symmetry. rewrite Z.mul_1_l. apply Z.mod_small. lia. }
    assert (Z.shiftr (h4 + q2 - 2 ^ 26 + 2 ^ 32) 31 = 1) as ->.
    { rewrite shr by lia. symmetry. apply (Z.div_unique _ _ _ (h4 + q2 - 2 ^ 26 + 2 ^ 31)); lia. }
    change (wrap 32 (1 - 1)) with 0. change (Z.lxor 0 0xffffffff) with 0xffffffff.
    rewrite !pick_keep by (unfold uint; lia). split; [|unfold small, each; lia].
    symmetry. apply Z.mod_small. unfold val, P1305 in *. lia.
  - rewrite (wrap_small 32 (h4 + q2 - 2 ^ 26)) by (unfold uint; lia).
    assert (Z.shiftr (h4 + q2 - 2 ^ 26) 31 = 0) as ->.
    { rewrite shr by lia. apply Z.div_small. lia. }
    change (wrap 32 (0 - 1)) with 0xffffffff. change (Z.lxor 0xffffffff 0xffffffff) with 0.
    rewrite !pick_take by (unfold uint; lia). split; [|unfold small, each; lia].
    apply (Z.mod_unique _ _ 1); unfold val, P1305 in *; lia.
Qed.

Definition words (w : Z * Z * Z * Z) : Z :=
  let '(w0, w1, w2, w3) := w in w0 + 2 ^ 32 * w1 + 2 ^ 64 * w2 + 2 ^ 96 * w3.
Definition words_ok (w : Z * Z * Z * Z) : Prop :=
  let '(w0, w1, w2, w3) := w in u32 w0 /\ u32 w1 /\ u32 w2 /\ u32 w3.

Lemma lor_shl32 a b n : 0 < n < 32 -> 0 <= a < 2 ^ n ->
  Z.lor a (shl32 b n) = a + 2 ^ n * (b mod 2 ^ (32 - n)).
Proof.
  intros Hn Ha. unfold shl32, wrap. rewrite Z.shiftl_mul_pow2 by lia.
  replace (2 ^ 32) with (2 ^ (32 - n) * 2 ^ n) by (rewrite <- Z.pow_add_r by lia; f_equal; lia).
  rewrite Zmult_mod_distr_r, Z.lor_comm, <- Z.shiftl_mul_pow2, lor_shiftl_add by lia. lia.
Qed.

Lemma repack_exact h : small h -> words (repack h) = val h mod 2 ^ 128 /\ words_ok (repack h).
Proof.
  destruct h as [[[[h0 h1] h2] h3] h4]. unfold small, each. intros (H0 & H1 & H2 & H3 & H4).
  unfold repack. rewrite !shr by lia.
  assert (D : forall x a b, 0 <= x < 2 ^ (a + b) -> 0 <= a -> 0 <= b -> 0 <= x / 2 ^ a < 2 ^ b).
  { intros x a b Hx Ha Hb. rewrite Z.pow_add_r in Hx by done.
    split; [apply Z.div_pos; lia|apply Z.div_lt_upper_bound; lia]. }
  rewrite (lor_shl32 h0), (lor_shl32 (h1 / _)), (lor_shl32 (h2 / _)), (lor_shl32 (h3 / _))
    by first [lia | by apply D; (lia || done)].
  change (32 - 26) with 6. change (32 - 20) with 12. change (32 - 14) with 18. change (32 - 8) with 24.
  pose proof (Z.div_mod h1 (2 ^ 6) ltac:(lia)). pose proof (Z.mod_pos_bound h1 (2 ^ 6) ltac:(lia)).
  pose proof (Z.div_mod h2 (2 ^ 12) ltac:(lia)). pose proof (Z.mod_pos_bound h2 (2 ^ 12) ltac:(lia)).
  pose proof (Z.div_mod h3 (2 ^ 18) ltac:(lia)). pose proof (Z.mod_pos_bound h3 (2 ^ 18) ltac:(lia)).
  pose proof (Z.div_mod h4 (2 ^ 24) ltac:(lia)). pose proof (Z.mod_pos_bound h4 (2 ^ 24) ltac:(lia)).
  split; [|unfold words_ok, uint; lia].
  apply (Z.mod_unique _ _ (h4 / 2 ^ 24)); unfold words, val; lia.
Qed.

Lemma le_bytes_add n m z : le_bytes (n + m) z = le_bytes n z ++ le_bytes m (z / 256 ^ Z.of_nat n).
Proof.
  revert z; induction n as [|n IH]; intros z; cbn [Nat.add le_bytes app].
  - by rewrite Z.div_1_r.
  - rewrite IH, Nat2Z.inj_succ, Z.pow_succ_r, Z.div_div by lia. done.
Qed.

Lemma le_bytes_wrap n z : le_bytes n (z mod 256 ^ Z.of_nat n) = le_bytes n z.
Proof.
  rewrite <- of_le_le_bytes. rewrite <- (length_le_bytes n z) at 1.
  by rewrite le_bytes_of_le by apply le_bytes_ok.
Qed.

Lemma add_pad_exact w pad : words_ok w -> words_ok pad ->
  add_pad w pad = le_bytes 16 ((words w + words pad) mod 2 ^ 128).
Proof.
  destruct w as [[[w0 w1] w2] w3], pad as [[[p0 p1] p2] p3]. unfold words_ok, uint.
  intros (W0 & W1 & W2 & W3) (Q0 & Q1 & Q2 & Q3).
  change (2 ^ 128) with (256 ^ Z.of_nat 16). rewrite le_bytes_wrap.
  unfold add_pad, add64. cbv zeta. rewrite !shr by lia.
  rewrite (wrap_small 64 (w0 + p0)), (wrap_small 64 (w1 + p1)), (wrap_small 64 (w2 + p2)),
    (wrap_small 64 (w3 + p3)) by (unfold uint; lia).
  set (f0 := w0 + p0). set (c0 := f0 / 2 ^ 32).
  assert (C0 : f0 = 2 ^ 32 * c0 + f0 mod 2 ^ 32) by (apply Z.div_mod; lia).
  pose proof (Z.mod_pos_bound f0 (2 ^ 32) ltac:(lia)).
  rewrite (wrap_small 64 (w1 + p1 + c0)) by (unfold uint; lia).
  set (f1 := w1 + p1 + c0) in *. set (c1 := f1 / 2 ^ 32) in *.
  assert (C1 : f1 = 2 ^ 32 * c1 + f1 mod 2 ^ 32) by (apply Z.div_mod; lia).
  pose proof (Z.mod_pos_bound f1 (2 ^ 32) ltac:(lia)).
  rewrite (wrap_small 64 (w2 + p2 + c1)) by (unfold uint; lia).
  set (f2 := w2 + p2 + c1) in *. set (c2 := f2 / 2 ^ 32) in *.
  assert (C2 : f2 = 2 ^ 32 * c2 + f2 mod 2 ^ 32) by (apply Z.div_mod; lia).
  pose proof (Z.mod_pos_bound f2 (2 ^ 32) ltac:(lia)).
  rewrite (wrap_small 64 (w3 + p3 + c2)) by (unfold uint; lia).
  set (f3 := w3 + p3 + c2) in *.
  assert (E : words (w0, w1, w2, w3) + words (p0, p1, p2, p3) =
    f0 mod 2 ^ 32 + 2 ^ 32 * (f1 mod 2 ^ 32 + 2 ^ 32 * (f2 mod 2 ^ 32 + 2 ^ 32 * f3)))
    by (unfold words; lia).
  rewrite E. change 16%nat with (4 + (4 + (4 + 4)))%nat. rewrite !le_bytes_add.
  change (256 ^ Z.of_nat 4) with (2 ^ 32).
  assert (L : forall a b, 0 <= a < 2 ^ 32 -> le_bytes 4 (a + 2 ^ 32 * b) = le_bytes 4 a /\
    (a + 2 ^ 32 * b) / 2 ^ 32 = b).
  { intros a b Ha. split.
    - rewrite <- (le_bytes_wrap 4 (a + _)). change (256 ^ Z.of_nat 4) with (2 ^ 32).
      rewrite Z.mul_comm, Z_mod_plus_full, Z.mod_small by lia. done.
    - rewrite Z.mul_comm, Z.div_add, Z.div_small by lia. lia. }
  destruct (L (f0 mod 2 ^ 32) (f1 mod 2 ^ 32 + 2 ^ 32 * (f2 mod 2 ^ 32 + 2 ^ 32 * f3))) as [-> ->]; [done|].
  destruct (L (f1 mod 2 ^ 32) (f2 mod 2 ^ 32 + 2 ^ 32 * f3)) as [-> ->]; [done|].
  destruct (L (f2 mod 2 ^ 32) f3) as [-> ->]; [done|].
  rewrite <- (le_bytes_wrap 4 f3). unfold wrap. reflexivity.
Qed.

(** ** The message *)
Definition acc_of (r : Z) (ls : list bytes) : Z :=
  foldl (fun acc b => (acc + of_le (b ++ [1])) * r mod P1305) 0 ls.

Record holds (key : bytes) (p : Poly1305) (msg : bytes) : Prop := {
  ho_split : exists ls tl, msg = concat ls ++ tl /\ Forall (fun l => length l = 16%nat) ls /\
    (length tl < 16)%nat /\ val (p_h p) mod P1305 = acc_of (val (p_r p)) ls /\
    p_buf_len p = length tl /\ take (length tl) (p_buf p) = tl;
  ho_reduced : reduced (p_h p);
  ho_key : p_r p = p_r (poly_new key) /\ p_pad p = p_pad (poly_new key);
  ho_buf : length (p_buf p) = 16%nat;
  ho_msg : bytes_ok msg;
}.

Lemma mul_acc_mod a m r : (a + m) * r mod P1305 = (a mod P1305 + m) * r mod P1305.
Proof. by rewrite <- (Zmult_mod_idemp_l (a + m)), <- (Zplus_mod_idemp_l a), Zmult_mod_idemp_l. Qed.

Lemma poly_block_step p b bit : reduced (p_h p) -> small (p_r p) -> length b = 16%nat -> bytes_ok b ->
  bit = 0 \/ bit = 2 ^ 24 ->
  val (p_h (poly_block p b bit)) mod P1305 =
    (val (p_h p) mod P1305 + (of_le b + 2 ^ 104 * bit)) * val (p_r p) mod P1305 /\
  reduced (p_h (poly_block p b bit)).
Proof.
  intros Hh Hr Hl Hb Hbit. destruct (block_limbs_exact b bit Hl Hb Hbit) as [E S].
  destruct (mac_step (p_h p) (block_limbs b bit) (p_r p) Hh S Hr) as [E' R]. split; [|exact R].
  cbn [p_h poly_block]. rewrite E', E. apply mul_acc_mod.
Qed.

Lemma full_block b : length b = 16%nat -> of_le b + 2 ^ 104 * 2 ^ 24 = of_le (b ++ [1]).
Proof. intros Hl. rewrite of_le_app, Hl. cbn [of_le]. lia. Qed.

(** Absorbing whole blocks. *)
Lemma poly_blocks_fold ls p : reduced (p_h p) -> small (p_r p) ->
  Forall (fun l => length l = 16%nat) ls -> bytes_ok (concat ls) ->
  let p' := foldl (fun p b => poly_block p b (2 ^ 24)) p ls in
  val (p_h p') mod P1305 =
    foldl (fun acc b => (acc + of_le (b ++ [1])) * val (p_r p) mod P1305) (val (p_h p) mod P1305) ls /\
  reduced (p_h p') /\ p_r p' = p_r p /\ p_pad p' = p_pad p /\ p_buf p' = p_buf p /\
  p_buf_len p' = p_buf_len p.
Proof.
  intros Hh Hr Hls. revert p Hh Hr. induction Hls as [|b ls Hb Hls IH]; intros p Hh Hr Hok; [by cbn|].
  cbn [concat] in Hok. apply Forall_app in Hok as [Hb' Hok]. cbn [foldl].
  destruct (poly_block_step p b (2 ^ 24) Hh Hr Hb Hb') as [E R]; [by right|].
  destruct (IH (poly_block p b (2 ^ 24)) R Hr Hok) as (E' & Hrest). split; [|exact Hrest].
  rewrite E', E, full_block by done. reflexivity.
Qed.

Lemma key_small key : length key = 32%nat -> bytes_ok key -> small (p_r (poly_new key)).
Proof. intros Hl Hk. apply clamp_exact; [lia|done]. Qed.

Lemma of_le_zeros n : of_le (replicate n 0) = 0.
Proof. induction n as [|n IH]; cbn; lia. Qed.

Lemma last_block tl buf : (0 < length tl < 16)%nat -> bytes_ok tl -> length buf = 16%nat ->
  take (length tl) buf = tl ->
  let block := <[length tl := 1]> (splice 0 (take (length tl) buf) (replicate 16 0)) in
  of_le block = of_le (tl ++ [1]) /\ length block = 16%nat /\ bytes_ok block.
Proof.
  intros Hl Hok Hb Ht. cbv zeta. rewrite Ht, splice_0, drop_replicate.
  rewrite insert_app_r_alt, Nat.sub_diag by lia.
  destruct (16 - length tl)%nat as [|n] eqn:En; [lia|]. cbn [replicate insert list_insert].
  change (1 :: replicate n 0) with ([1] ++ replicate n 0). split_and!.
  - rewrite app_assoc, of_le_app, of_le_zeros. lia.
  - rewrite length_app. cbn [app length]. rewrite length_replicate. lia.
  - apply Forall_app. split; [done|]. constructor; [by unfold uint; lia|].
    apply Forall_replicate. by unfold uint; lia.
Qed.

Section Message.
Context (key : bytes) (Hlen : length key = 32%nat) (Hkey : bytes_ok key).

Lemma poly_new_holds : holds key (poly_new key) [].
Proof.
  split; try done. exists [], []. split_and!; first [done | cbn; lia].
Qed.

Lemma poly_update_blocks_holds p msg d : holds key p msg -> p_buf_len p = 0%nat -> bytes_ok d ->
  holds key (poly_update_blocks p d) (msg ++ d).
Proof.
  intros [(ls & tl & -> & Hls & Htl & Hacc & Hbl & Hbuf) Hred [Hr Hp] Hb Hok] H0 Hd.
  assert (tl = []) as -> by (apply nil_length_inv; congruence).
  destruct (blocks_exist 16 ltac:(lia) d) as (ls' & tl' & -> & Hls' & Htl').
  apply Forall_app in Hd as [Hd1 Hd2]. unfold poly_update_blocks.
  rewrite chunks_exact_blocks, remainder_blocks by (done || lia).
  assert (Hs : small (p_r p)) by (rewrite Hr; by apply key_small).
  destruct (poly_blocks_fold ls' p Hred Hs Hls' Hd1) as (E & R & Er & Ep & Eb & _). split.
  - exists (ls ++ ls'), tl'. cbn [p_h p_r p_buf p_buf_len]. rewrite app_nil_r, concat_app, <- app_assoc.
    split_and!; try done; [by apply Forall_app| |].
    + rewrite E, Er, Hacc. unfold acc_of. by rewrite foldl_app.
    + rewrite Eb. apply (take_splice 0). lia.
  - exact R.
  - cbn [p_r p_pad]. by rewrite Er, Ep.
  - cbn [p_buf]. rewrite Eb, length_splice; [done|lia].
  - rewrite app_nil_r in *. rewrite app_assoc. apply Forall_app. split; [|done]. by apply Forall_app.
Qed.

Lemma poly_update_holds p msg d : holds key p msg -> bytes_ok d -> holds key (poly_update p d) (msg ++ d).
Proof.
  intros H Hd. pose proof H as [(ls & tl & -> & Hls & Htl & Hacc & Hbl & Hbuf) Hred [Hr Hp] Hb Hok].
  unfold poly_update. destruct (Nat.ltb_spec 0 (p_buf_len p)) as [Hpos|Hpos].
  2: { apply poly_update_blocks_holds; [done|lia|done]. }
  cbv zeta. cbn [p_buf_len p_buf]. set (k := Nat.min (16 - p_buf_len p) (length d)).
  set (b' := splice _ _ _).
  assert (Hk : length (take k d) = k) by (rewrite length_take; lia).
  assert (Hb' : length b' = 16%nat) by (unfold b'; rewrite length_splice; lia).
  assert (Htk : take (length tl + k) b' = tl ++ take k d).
  { unfold b'. rewrite <- Hk at 1. rewrite Hbl, take_splice, Hbuf by lia. done. }
  apply Forall_app in Hok as [Hok1 Hok2].
  destruct (Nat.ltb_spec (p_buf_len p + k) 16) as [Hshort|Hfull].
  - assert (take k d = d) as Hd' by (apply take_ge; lia). rewrite Hd' in *. split; try done.
    + exists ls, (tl ++ d). cbn [p_h p_r p_buf p_buf_len]. rewrite app_assoc, length_app.
      split_and!; try done; [lia|lia|]. by rewrite <- Hk in Htk.
    + rewrite <- app_assoc. by repeat (apply Forall_app; split).
  - assert (Hblk : b' = tl ++ take k d).
    { rewrite <- Htk. symmetry. apply take_ge. lia. }
    assert (Hbok : bytes_ok b') by (rewrite Hblk; apply Forall_app; split; [done|by apply Forall_take]).
    assert (Hs : small (p_r p)) by (rewrite Hr; by apply key_small).
    replace ((concat ls ++ tl) ++ d) with ((concat ls ++ b') ++ drop k d)
      by (by rewrite Hblk, <- !app_assoc, take_drop).
    apply poly_update_blocks_holds; [|done|by apply Forall_drop].
    destruct (poly_block_step (MkPoly1305 (p_r p) (p_h p) (p_pad p) b' (p_buf_len p + k)) b' (2 ^ 24)
      Hred Hs Hb' Hbok) as [E R]; [by right|]. split; try done.
    + exists (ls ++ [b']), []. cbn [p_h p_r p_buf p_buf_len length take poly_block].
      split_and!; try done.
      * rewrite concat_app. cbn. by rewrite !app_nil_r.
      * apply Forall_app. split; [done|]. by constructor.
      * cbn; lia.
      * unfold acc_of in *. rewrite foldl_app. cbn [foldl].
        cbn [p_h p_r poly_block] in E. rewrite E, Hacc, full_block by done. reflexivity.
    + apply Forall_app. by split.
Qed.

Lemma poly_updates_holds parts p msg : holds key p msg -> bytes_ok (concat parts) ->
  holds key (foldl poly_update p parts) (msg ++ concat parts).
Proof.
  revert p msg; induction parts as [|d parts IH]; intros p msg H Hok; cbn [foldl concat].
  { by rewrite app_nil_r. }
  cbn [concat] in Hok. apply Forall_app in Hok as [Hd Hok]. rewrite app_assoc.
  apply IH; [by apply poly_update_holds|done].
Qed.

(** The padding word and the final, shorter block. *)
Lemma pad_exact : words (p_pad (poly_new key)) = of_le (take 16 (drop 16 key)) /\
  words_ok (p_pad (poly_new key)).
Proof using Hlen Hkey.
  cbn [poly_new p_pad]. set (s := take 16 (drop 16 key)).
  assert (Hs : length s = 16%nat) by (unfold s; rewrite length_take, length_drop; lia).
  assert (Hok : bytes_ok s) by (by apply Forall_take, Forall_drop).
  assert (Hle : forall i, (i <= 12)%nat -> le_at key (16 + i) = of_le s / 2 ^ (8 * Z.of_nat i) mod 2 ^ 32).
  { intros i Hi. rewrite <- le_at_val by done. unfold le_at. f_equal. rewrite <- drop_drop.
    unfold s. rewrite <- (take_drop 16 (drop 16 key)) at 1.
    rewrite drop_app_le, take_app_le;
      [done|rewrite !length_drop, length_take, length_drop; lia|rewrite length_take, length_drop; lia]. }
  pose proof (Hle 0%nat ltac:(lia)) as E0. pose proof (Hle 4%nat ltac:(lia)) as E1.
  pose proof (Hle 8%nat ltac:(lia)) as E2. pose proof (Hle 12%nat ltac:(lia)) as E3.
  cbn [Nat.add] in E0, E1, E2, E3. rewrite E0, E1, E2, E3.
  pose proof (of_le_bound s Hok) as HS. rewrite Hs in HS. change (256 ^ Z.of_nat 16) with (2 ^ 128) in HS.
  set (x := of_le s) in *. change (8 * Z.of_nat 0) with 0. change (8 * Z.of_nat 4) with 32.
  change (8 * Z.of_nat 8) with 64. change (8 * Z.of_nat 12) with 96. rewrite Z.div_1_r.
  split; [|unfold words_ok; split_and!; by apply (wrap_uint 32)].
  unfold words.
  replace (x / 2 ^ 64) with (x / 2 ^ 32 / 2 ^ 32) by (by rewrite Z.div_div by lia).
  replace (x / 2 ^ 96) with (x / 2 ^ 32 / 2 ^ 32 / 2 ^ 32) by (by rewrite !Z.div_div by lia).
  mod_lia.
Qed.

Lemma poly_finalize_spec p msg : holds key p msg -> poly_finalize p = poly_spec key msg.
Proof using Hlen Hkey.
  intros [(ls & tl & -> & Hls & Htl & Hacc & Hbl & Hbuf) Hred [Hr Hp] Hb Hok].
  assert (Hs : small (p_r p)) by (rewrite Hr; by apply key_small).
  destruct (clamp_exact key ltac:(lia) Hkey) as [Er _]. rewrite <- Hr in Er.
  destruct pad_exact as [Epad Hpad].
  unfold poly_spec. cbv zeta. rewrite <- Er, chunks_mut_blocks by (done || lia).
  assert (Htag : forall h, reduced h -> add_pad (repack (select (full_carry h))) (p_pad p) =
    le_bytes 16 ((val h mod P1305 + of_le (take 16 (drop 16 key))) mod 2 ^ 128)).
  { intros h Hh. destruct (full_carry_exact h Hh) as [E1 S1], (select_exact _ S1) as [E2 S2],
      (repack_exact _ S2) as [E3 S3].
    rewrite Hp, add_pad_exact, E3, E2, E1, Epad by done. by rewrite Zplus_mod_idemp_l. }
  apply Forall_app in Hok as [_ Hok]. unfold poly_finalize. cbv zeta. rewrite Hbl.
  destruct tl as [|x tl']; cbn [length Nat.ltb Nat.leb].
  - rewrite app_nil_r, Htag, Hacc by done. reflexivity.
  - set (tl := x :: tl') in *. change (S (length tl')) with (length tl).
    destruct (last_block tl (p_buf p)) as (Eb & Lb & Ob); [cbn in *; lia|done|done|done|].
    set (block := <[length tl := 1]> _) in *.
    destruct (poly_block_step p block 0 Hred Hs Lb Ob) as [E R]; [by left|].
    change (p_pad (poly_block p block 0)) with (p_pad p). rewrite (Htag _ R), E, Hacc, Eb. unfold acc_of. rewrite foldl_app. cbn [foldl].
    by rewrite Z.mul_0_r, Z.add_0_r.
Qed.
End Message.

Lemma poly_updates_spec key parts :
  length key = 32%nat -> bytes_ok key -> bytes_ok (concat parts) ->
  poly_finalize (foldl poly_update (poly_new key) parts) = poly_spec key (concat parts).
Proof.
  intros Hl Hk Hok. apply poly_finalize_spec; [done..|].
  apply (poly_updates_holds key Hl Hk parts _ []); [|done]. by apply poly_new_holds.
Qed.

(** [C22] The limb arithmetic computes Poly1305: for every key, and every way of
    splitting the message into updates, the tag is that of RFC 8439 over the
    integers modulo 2^130 - 5; no 32- or 64-bit operation loses a carry. *)
Theorem poly1305_correct key parts :
  length key = 32%nat -> bytes_ok key -> bytes_ok (concat parts) ->
  poly_finalize (foldl poly_update (poly_new key) parts) = poly_spec key (concat parts).
Proof. apply poly_updates_spec. Qed.

Lemma poly1305_correct_witness :
  poly_finalize (foldl poly_update (poly_new (replicate 32 255)) [[1; 2; 3]; replicate 30 255]) =
  poly_spec (replicate 32 255) ([1; 2; 3] ++ replicate 30 255).
Proof.
  apply (poly1305_correct (replicate 32 255) [[1; 2; 3]; replicate 30 255]);
    [reflexivity|by apply (bool_decide_unpack _)|by apply (bool_decide_unpack _)].
Defined.

Lemma length_poly_finalize p : length (poly_finalize p) = 16%nat.
Proof.
  unfold poly_finalize. generalize (repack (select (full_carry
    (p_h (if (0 <? p_buf_len p)%nat then poly_block p (<[p_buf_len p := 1]>
      (splice 0 (take (p_buf_len p) (p_buf p)) (replicate 16 0))) 0 else p))))).
  intros [[[w0 w1] w2] w3]. cbv zeta. destruct (p_pad _) as [[[p0 p1] p2] p3].
  unfold add_pad. cbv zeta. by rewrite !length_app, !length_le_bytes.
Qed.

Lemma poly_finalize_ok p : bytes_ok (poly_finalize p).
Proof.
  unfold poly_finalize. cbv zeta. generalize (if (0 <? p_buf_len p)%nat then poly_block p (<[p_buf_len p := 1]>
      (splice 0 (take (p_buf_len p) (p_buf p)) (replicate 16 0))) 0 else p). intros q.
  destruct (repack _) as [[[w0 w1] w2] w3], (p_pad q) as [[[p0 p1] p2] p3].
  unfold add_pad. cbv zeta. repeat (apply Forall_app; split); apply le_bytes_ok.
Qed.

#[global] Opaque poly_new poly_update poly_finalize.
