(* ===== verification/Aead.v ===== *)
(** * Aead: ChaCha20-Poly1305 (src/src/crypto/aead.rs) *)
From S2P Require Import Prelude Ripemd160 Chacha20 Poly1305.

Definition TAG_LEN : nat := 16.

Inductive DecryptError : Type := DecryptErr.

(** [&[0u8; 16][..(16 - n % 16) % 16]]. *)
Definition pad16 (n : nat) : bytes := replicate ((16 - n mod 16) mod 16) 0.
Definition len64 (l : bytes) : bytes := le_bytes 8 (wrap 64 (Z.of_nat (length l))).

Definition poly_key (key nonce : bytes) : bytes :=
  chacha20_xor (chacha20_new key nonce 0) (replicate 32 0).

Definition mac (key nonce aad ciphertext : bytes) : bytes :=
  let p := poly_new (poly_key key nonce) in
  let p := poly_update p aad in
  let p := poly_update p (pad16 (length aad)) in
  let p := poly_update p ciphertext in
  let p := poly_update p (pad16 (length ciphertext)) in
  let p := poly_update p (len64 aad) in
  let p := poly_update p (len64 ciphertext) in
  poly_finalize p.

Definition aead_encrypt (key nonce aad plaintext : bytes) : bytes :=
  let out := chacha20_xor (chacha20_new key nonce 1) plaintext in
  out ++ mac key nonce aad out.

Definition aead_decrypt (key nonce aad ciphertext_and_tag : bytes) : result DecryptError bytes :=
  _ ← fail_if (length ciphertext_and_tag <? TAG_LEN)%nat DecryptErr;
  let n := (length ciphertext_and_tag - TAG_LEN)%nat in
  let ct := take n ciphertext_and_tag in
  let tag := drop n ciphertext_and_tag in
  _ ← fail_if (negb (ct_eq (mac key nonce aad ct) tag)) DecryptErr;
  Ok (chacha20_xor (chacha20_new key nonce 1) ct).

Definition nonce_from_counter (n : Z) : bytes := replicate 4 0 ++ le_bytes 8 n.

(** RFC 8439, 2.8.2 (the tag). *)
Example rfc8439_aead :
  of_be (drop 114 (aead_encrypt (map (fun i => 0x80 + Z.of_nat i) (seq 0 32))
    [7;0;0;0;0x40;0x41;0x42;0x43;0x44;0x45;0x46;0x47]
    [0x50;0x51;0x52;0x53;0xc0;0xc1;0xc2;0xc3;0xc4;0xc5;0xc6;0xc7]
    (be_bytes 114 0x4c616469657320616e642047656e746c656d656e206f662074686520636c617373206f66202739393a204966204920636f756c64206f6666657220796f75206f6e6c79206f6e652074697020666f7220746865206675747572652c2073756e73637265656e20776f756c642062652069742e))) =
  0x1ae10b594f09e26a7e902ecbd0600691.
Proof. by vm_compute. Qed.

Lemma length_mac key nonce aad ct : length (mac key nonce aad ct) = 16%nat.
Proof. apply length_poly_finalize. Qed.

Lemma length_aead_encrypt key nonce aad pt :
  length (aead_encrypt key nonce aad pt) = (length pt + 16)%nat.
Proof. unfold aead_encrypt. by rewrite length_app, length_chacha20_xor, length_mac. Qed.

Lemma aead_encrypt_ok key nonce aad pt : bytes_ok pt -> bytes_ok (aead_encrypt key nonce aad pt).
Proof.
  intros H. unfold aead_encrypt. apply Forall_app. split; [by apply chacha20_xor_ok|apply poly_finalize_ok].
Qed.

Lemma poly_key_block key nonce : length key = 32%nat -> length nonce = 12%nat ->
  poly_key key nonce = take 32 (chacha20_block (chacha20_new key nonce 0) 0).
Proof.
  intros Hk Hn. destruct (chacha20_new_state key nonce 0 Hk Hn) as [Hs Hc].
  unfold poly_key. rewrite chacha20_xor_zeros by (done || lia). by rewrite Hc.
Qed.

Lemma mac_spec key nonce aad c :
  length key = 32%nat -> length nonce = 12%nat -> bytes_ok aad -> bytes_ok c ->
  mac key nonce aad c = poly_spec (take 32 (chacha20_block (chacha20_new key nonce 0) 0))
    (aad ++ pad16 (length aad) ++ c ++ pad16 (length c) ++ len64 aad ++ len64 c).
Proof.
  intros Hk Hn Ha Hc.
  pose proof (poly_updates_spec (poly_key key nonce)
    [aad; pad16 (length aad); c; pad16 (length c); len64 aad; len64 c]) as H.
  cbn [foldl concat] in H. unfold mac. cbv zeta. rewrite H; clear H.
  - rewrite poly_key_block by done. by rewrite app_nil_r.
  - unfold poly_key. by rewrite length_chacha20_xor.
  - apply chacha20_xor_ok, Forall_replicate. by unfold uint; lia.
  - repeat (apply Forall_app; split); try done; try apply le_bytes_ok;
      apply Forall_replicate; by unfold uint; lia.
Qed.

#[global] Opaque mac.

Lemma aead_decrypt_split key nonce aad ct tag : length tag = 16%nat ->
  aead_decrypt key nonce aad (ct ++ tag) =
    if ct_eq (mac key nonce aad ct) tag then Ok (chacha20_xor (chacha20_new key nonce 1) ct)
    else Err DecryptErr.
Proof.
  intros Ht. unfold aead_decrypt, TAG_LEN.
  assert (En : (length (ct ++ tag) - 16)%nat = length ct) by (rewrite length_app; lia).
  assert (Eb : (length (ct ++ tag) <? 16)%nat = false) by (apply Nat.ltb_ge; rewrite length_app; lia).
  rewrite Eb, En, take_app_length, drop_app_length. cbv zeta.
  generalize (ct_eq (mac key nonce aad ct) tag). intros []; reflexivity.
Qed.
Lemma decrypt_encrypt key nonce aad p :
  aead_decrypt key nonce aad (aead_encrypt key nonce aad p) = Ok p.
Proof.
  unfold aead_encrypt. rewrite aead_decrypt_split by apply length_mac.
  rewrite (proj2 (ct_eq_spec _ _)) by reflexivity. by rewrite chacha20_xor_involutive.
Qed.

Lemma aead_decrypt_short key nonce aad c : (length c < 16)%nat ->
  aead_decrypt key nonce aad c = Err DecryptErr.
Proof. intros Hs. unfold aead_decrypt, TAG_LEN. rewrite (proj2 (Nat.ltb_lt _ _) Hs). reflexivity.
Qed.
Lemma aead_decrypt_sound key nonce aad ct tag p : length tag = 16%nat ->
  aead_decrypt key nonce aad (ct ++ tag) = Ok p -> aead_encrypt key nonce aad p = ct ++ tag.
Proof.
  intros Hl. rewrite aead_decrypt_split by done.
  destruct (ct_eq _ tag) eqn:E; [|discriminate]. apply ct_eq_spec in E. intros H. injection H as <-.
  unfold aead_encrypt. rewrite chacha20_xor_involutive. rewrite E. reflexivity.
Qed.

Lemma decrypt_not_panic key nonce aad c : aead_decrypt key nonce aad c <> Panic.
Proof.
  unfold aead_decrypt. destruct (length c <? TAG_LEN)%nat; [discriminate|].
  cbv zeta. destruct (ct_eq _ _); discriminate.
Qed.

Lemma aead_decrypt_ok key nonce aad c p : bytes_ok c ->
  aead_decrypt key nonce aad c = Ok p -> bytes_ok p.
Proof.
  intros Hc. unfold aead_decrypt. destruct (length c <? TAG_LEN)%nat; [discriminate|].
  cbv zeta. destruct (ct_eq _ _); [|discriminate]. cbn [negb fail_if mbind result_bind].
  intros H. injection H as <-. by apply chacha20_xor_ok, Forall_take.
Qed.

#[global] Opaque aead_encrypt aead_decrypt.

(** Decryption accepts exactly what encryption makes. *)
Lemma decrypt_encrypt_iff key nonce aad c p :
  aead_decrypt key nonce aad c = Ok p <-> aead_encrypt key nonce aad p = c.
Proof.
  split; [|intros <-; apply decrypt_encrypt]. intros H.
  destruct (decide (length c < 16)%nat) as [Hs|Hl].
  { by rewrite aead_decrypt_short in H. }
  assert (E : exists ct tag, c = ct ++ tag /\ length tag = 16%nat).
  { exists (take (length c - 16) c), (drop (length c - 16) c).
    rewrite take_drop, length_drop. split; [done|lia]. }
  destruct E as (ct & tag & -> & Ht). by apply aead_decrypt_sound.
Qed.


(** [C21] The cipher is the AEAD of RFC 8439: a ciphertext is accepted exactly
    when it is the encryption of the returned plaintext under the same key,
    nonce and associated data, so anything else is [DecryptError]; and the tag
    is Poly1305 over the padded data and the two lengths. *)
Theorem aead_correct key nonce aad c p :
  (aead_decrypt key nonce aad c = Ok p <-> aead_encrypt key nonce aad p = c) /\
  (aead_decrypt key nonce aad c = Err DecryptErr <->
     forall p, aead_encrypt key nonce aad p <> c) /\
  (length key = 32%nat -> length nonce = 12%nat -> bytes_ok aad -> bytes_ok c ->
   mac key nonce aad c = poly_spec (take 32 (chacha20_block (chacha20_new key nonce 0) 0))
     (aad ++ pad16 (length aad) ++ c ++ pad16 (length c) ++ len64 aad ++ len64 c)).
Proof.
  split; [apply decrypt_encrypt_iff|]. split.
  - split.
    + intros H q <-. by rewrite decrypt_encrypt in H.
    + intros H. destruct (aead_decrypt key nonce aad c) as [q|[]|] eqn:E; [|done|].
      * apply decrypt_encrypt_iff in E. by destruct (H q).
      * by apply decrypt_not_panic in E.
  - apply mac_spec.
Qed.
