(* ===== verification/Noise.v ===== *)
(** * Noise: the BOLT 8 transport (src/src/noise/mod.rs)

    The three-act handshake and the framed cipher stream.  A [&mut self]
    method is an [stm] computation, which keeps the mutations made before an
    error; HKDF's [expect] is the only panic, and the theorems show it is not
    reached.  The first group of theorems is about the handshake (an honest
    run makes the two ends mirror images; an act is accepted only when it is
    what the peer's keys produce), the second about the stream. *)
From S2P Require Import Prelude Secp Sha256 Hmac Chacha20 Poly1305 Aead.

Definition ACT_ONE_LEN : nat := 50.
Definition ACT_TWO_LEN : nat := 50.
Definition ACT_THREE_LEN : nat := 66.
Definition MAX_MSG_LEN : Z := 65535.
Definition KEY_ROTATION_INTERVAL : Z := 1000.

Inductive NoiseError : Type :=
  | BadVersion (v : Z) | BadPubkey | BadTag | WrongState | MessageTooLong.

(** [b"Noise_XK_secp256k1_ChaChaPoly_SHA256"] and [b"lightning"]. *)
Definition PROTOCOL_NAME : bytes :=
  [78; 111; 105; 115; 101; 95; 88; 75; 95; 115; 101; 99; 112; 50; 53; 54; 107; 49; 95;
   67; 104; 97; 67; 104; 97; 80; 111; 108; 121; 95; 83; 72; 65; 50; 53; 54].
Definition PROLOGUE : bytes := [108; 105; 103; 104; 116; 110; 105; 110; 103].

(** ** The cipher of one direction *)
Record CipherState := { cs_key : bytes; cs_ck : bytes; cs_nonce : Z }.
#[export] Instance eta_CipherState : Eta CipherState := fun s =>
  {| cs_key := cs_key s; cs_ck := cs_ck s; cs_nonce := cs_nonce s |}.

Definition rotate (s : CipherState) : result NoiseError CipherState :=
  if cs_nonce s =? KEY_ROTATION_INTERVAL then
    '(ck, key) ← or_panic (hkdf_two_keys (cs_ck s) (cs_key s));
    Ok {| cs_key := key; cs_ck := ck; cs_nonce := 0 |}
  else Ok s.

(** [process] returns the key and nonce to use, and the next state. *)
Definition process (s : CipherState) : result NoiseError (bytes * bytes * CipherState) :=
  s ← rotate s;
  let n := nonce_from_counter (cs_nonce s) in
  Ok (cs_key s, n, s <| cs_nonce := wrap 64 (cs_nonce s + 1) |>).

Record Transport := {
  t_send : CipherState;
  t_recv : CipherState;
  t_buffer : bytes;
  t_pending_len : option nat;
}.
#[export] Instance eta_Transport : Eta Transport := fun s =>
  {| t_send := t_send s; t_recv := t_recv s; t_buffer := t_buffer s;
     t_pending_len := t_pending_len s |}.

Definition transport_new (ck sk rk : bytes) : Transport := {|
  t_send := {| cs_key := sk; cs_ck := ck; cs_nonce := 0 |};
  t_recv := {| cs_key := rk; cs_ck := ck; cs_nonce := 0 |};
  t_buffer := [];
  t_pending_len := None;
|}.

(** [self.send.process()] and [self.recv.process()]. *)
Definition send_process : stm Transport NoiseError (bytes * bytes) := fun t =>
  match process (t_send t) with
  | Ok (k, n, s) => (Ok (k, n), t <| t_send := s |>)
  | Err e => (Err e, t)
  | Panic => (Panic, t)
  end.
Definition recv_process : stm Transport NoiseError (bytes * bytes) := fun t =>
  match process (t_recv t) with
  | Ok (k, n, s) => (Ok (k, n), t <| t_recv := s |>)
  | Err e => (Err e, t)
  | Panic => (Panic, t)
  end.

Definition encrypt_message (msg : bytes) : stm Transport NoiseError bytes :=
  _ ← throw_if (fun _ => MAX_MSG_LEN <? Z.of_nat (length msg)) MessageTooLong;
  '(k, n) ← send_process;
  let out := aead_encrypt k n [] (be_bytes 2 (wrap 16 (Z.of_nat (length msg)))) in
  '(k, n) ← send_process;
  mret (out ++ aead_encrypt k n [] msg).

Definition read_input (data : bytes) (t : Transport) : Transport :=
  t <| t_buffer := t_buffer t ++ data |>.

(** [self.buffer.drain(..n)]. *)
Definition drain_buffer (n : nat) : stm Transport NoiseError unit :=
  modify (fun t => t <| t_buffer := drop n (t_buffer t) |>).

Definition decrypt_buffer (k n : bytes) (len : nat) : stm Transport NoiseError bytes :=
  reads_self (fun t => map_err (fun _ => BadTag) (aead_decrypt k n [] (take len (t_buffer t)))).

(** [next_message] from [let body_len = ..] on. *)
Definition next_body : stm Transport NoiseError (option bytes) :=
  body_len ← reads_self (fun t => expect (t_pending_len t));
  short ← gets (fun t => (length (t_buffer t) <? body_len + 16)%nat);
  if (short : bool) then mret None
  else
    '(k, n) ← recv_process;
    msg ← decrypt_buffer k n (body_len + 16);
    _ ← drain_buffer (body_len + 16);
    _ ← modify (fun t => t <| t_pending_len := None |>);
    mret (Some msg).

Definition next_message : stm Transport NoiseError (option bytes) :=
  pending ← gets t_pending_len;
  match pending with
  | Some _ => next_body
  | None =>
    short ← gets (fun t => (length (t_buffer t) <? 18)%nat);
    if (short : bool) then mret None
    else
      '(k, n) ← recv_process;
      len_bytes ← decrypt_buffer k n 18;
      _ ← drain_buffer 18;
      len_bytes ← reads_self (fun _ => expect (if decide (length len_bytes = 2%nat)
                                                then Some len_bytes else None));
      _ ← modify (fun t => t <| t_pending_len := Some (Z.to_nat (of_be len_bytes)) |>);
      next_body
  end.

(** ** The handshake *)
Section Handshake.
Context `{S : Secp}.

Record SymmetricState := { ss_h : bytes; ss_ck : bytes }.

Definition mix_hash (st : SymmetricState) (data : bytes) : SymmetricState :=
  let h := Sha256.new in
  let h := Sha256.update h (ss_h st) in
  let h := Sha256.update h data in
  {| ss_h := Sha256.finalize h; ss_ck := ss_ck st |}.

Definition mix_key (st : SymmetricState) (input : bytes)
    : result NoiseError (bytes * SymmetricState) :=
  '(ck, k) ← or_panic (hkdf_two_keys (ss_ck st) input);
  Ok (k, {| ss_h := ss_h st; ss_ck := ck |}).

Definition ss_new (responder_static : PublicKey) : SymmetricState :=
  let proto := Sha256.digest PROTOCOL_NAME in
  let h := Sha256.new in
  let h := Sha256.update h proto in
  let h := Sha256.update h PROLOGUE in
  let st := {| ss_h := Sha256.finalize h; ss_ck := proto |} in
  mix_hash st (pk_serialize responder_static).

Record Initiator := {
  i_st : SymmetricState;
  i_local_static : SecretKey;
  i_ephemeral : SecretKey;
  i_remote_static : PublicKey;
  i_temp_k2 : option bytes;
  i_done : bool;
}.
#[export] Instance eta_Initiator : Eta Initiator := fun s =>
  {| i_st := i_st s; i_local_static := i_local_static s; i_ephemeral := i_ephemeral s;
     i_remote_static := i_remote_static s; i_temp_k2 := i_temp_k2 s; i_done := i_done s |}.

Definition initiator_new (local_static : SecretKey) (remote_static : PublicKey)
    (ephemeral : SecretKey) : Initiator := {|
  i_st := ss_new remote_static;
  i_local_static := local_static;
  i_ephemeral := ephemeral;
  i_remote_static := remote_static;
  i_temp_k2 := None;
  i_done := false;
|}.

(** [self.st.mix_hash(..)] and [self.st.mix_key(..)]. *)
Definition i_mix_hash (data : bytes) : stm Initiator NoiseError unit :=
  modify (fun s => s <| i_st := mix_hash (i_st s) data |>).
Definition i_mix_key (input : bytes) : stm Initiator NoiseError bytes := fun s =>
  match mix_key (i_st s) input with
  | Ok (k, st) => (Ok k, s <| i_st := st |>)
  | Err e => (Err e, s)
  | Panic => (Panic, s)
  end.

Definition i_act_one : stm Initiator NoiseError bytes :=
  eph ← gets i_ephemeral;
  let e_pub := sk_public_key eph in
  _ ← i_mix_hash (pk_serialize e_pub);
  rs ← gets i_remote_static;
  temp_k1 ← i_mix_key (ecdh rs eph);
  h ← gets (fun s => ss_h (i_st s));
  let c := aead_encrypt temp_k1 (nonce_from_counter 0) h [] in
  _ ← i_mix_hash c;
  mret ([0] ++ pk_serialize e_pub ++ c).

(** The checks at the start of an act: the version byte and the key. *)
Definition read_version (act : bytes) : result NoiseError unit :=
  fail_if (negb (act !!! 0%nat =? 0)) (BadVersion (act !!! 0%nat)).
Definition read_pubkey (bs : bytes) : result NoiseError PublicKey :=
  ok_or (pk_from_slice bs) BadPubkey.

(** [aead::decrypt(..).map_err(|_| BadTag)?]. *)
Definition open (k : bytes) (counter : Z) (h c : bytes) : result NoiseError bytes :=
  map_err (fun _ => BadTag) (aead_decrypt k (nonce_from_counter counter) h c).

Definition i_act_two (act2 : bytes) : stm Initiator NoiseError bytes :=
  _ ← reads_self (fun _ => read_version act2);
  re ← reads_self (fun _ => read_pubkey (take 33 (drop 1 act2)));
  let c := drop 34 act2 in
  _ ← i_mix_hash (pk_serialize re);
  eph ← gets i_ephemeral;
  temp_k2 ← i_mix_key (ecdh re eph);
  _ ← reads_self (fun s => open temp_k2 0 (ss_h (i_st s)) c);
  _ ← i_mix_hash c;
  _ ← modify (fun s => s <| i_temp_k2 := Some temp_k2 |>);
  ls ← gets i_local_static;
  let s_pub := sk_public_key ls in
  h ← gets (fun s => ss_h (i_st s));
  let c3 := aead_encrypt temp_k2 (nonce_from_counter 1) h (pk_serialize s_pub) in
  _ ← i_mix_hash c3;
  temp_k3 ← i_mix_key (ecdh re ls);
  h ← gets (fun s => ss_h (i_st s));
  let t := aead_encrypt temp_k3 (nonce_from_counter 0) h [] in
  _ ← modify (fun s => s <| i_done := true |>);
  mret ([0] ++ c3 ++ t).

Definition into_transport (i : Initiator) : result NoiseError Transport :=
  _ ← fail_if (negb (i_done i)) WrongState;
  '(sk, rk) ← or_panic (hkdf_two_keys (ss_ck (i_st i)) []);
  Ok (transport_new (ss_ck (i_st i)) sk rk).

Record Responder := {
  r_st : SymmetricState;
  r_local_static : SecretKey;
  r_ephemeral : SecretKey;
  r_remote_ephemeral : option PublicKey;
  r_temp_k2 : option bytes;
}.
#[export] Instance eta_Responder : Eta Responder := fun s =>
  {| r_st := r_st s; r_local_static := r_local_static s; r_ephemeral := r_ephemeral s;
     r_remote_ephemeral := r_remote_ephemeral s; r_temp_k2 := r_temp_k2 s |}.

Definition responder_new (local_static ephemeral : SecretKey) : Responder := {|
  r_st := ss_new (sk_public_key local_static);
  r_local_static := local_static;
  r_ephemeral := ephemeral;
  r_remote_ephemeral := None;
  r_temp_k2 := None;
|}.

Definition acted_one (r : Responder) : bool := bool_decide (is_Some (r_remote_ephemeral r)).

Definition r_mix_hash (data : bytes) : stm Responder NoiseError unit :=
  modify (fun s => s <| r_st := mix_hash (r_st s) data |>).
Definition r_mix_key (input : bytes) : stm Responder NoiseError bytes := fun s =>
  match mix_key (r_st s) input with
  | Ok (k, st) => (Ok k, s <| r_st := st |>)
  | Err e => (Err e, s)
  | Panic => (Panic, s)
  end.

Definition r_act_one (act1 : bytes) : stm Responder NoiseError bytes :=
  _ ← reads_self (fun _ => read_version act1);
  re ← reads_self (fun _ => read_pubkey (take 33 (drop 1 act1)));
  let c := drop 34 act1 in
  _ ← r_mix_hash (pk_serialize re);
  ls ← gets r_local_static;
  temp_k1 ← r_mix_key (ecdh re ls);
  _ ← reads_self (fun s => open temp_k1 0 (ss_h (r_st s)) c);
  _ ← r_mix_hash c;
  _ ← modify (fun s => s <| r_remote_ephemeral := Some re |>);
  eph ← gets r_ephemeral;
  let e_pub := sk_public_key eph in
  _ ← r_mix_hash (pk_serialize e_pub);
  temp_k2 ← r_mix_key (ecdh re eph);
  h ← gets (fun s => ss_h (r_st s));
  let c2 := aead_encrypt temp_k2 (nonce_from_counter 0) h [] in
  _ ← r_mix_hash c2;
  _ ← modify (fun s => s <| r_temp_k2 := Some temp_k2 |>);
  mret ([0] ++ pk_serialize e_pub ++ c2).

(** [act_three] consumes the responder. *)
Definition r_act_three (r : Responder) (act3 : bytes)
    : result NoiseError (PublicKey * Transport) :=
  temp_k2 ← ok_or (r_temp_k2 r) WrongState;
  _ ← read_version act3;
  let c := take 49 (drop 1 act3) in
  let t := drop 50 act3 in
  rs_bytes ← open temp_k2 1 (ss_h (r_st r)) c;
  rs ← read_pubkey rs_bytes;
  let st := mix_hash (r_st r) c in
  '(temp_k3, st) ← mix_key st (ecdh rs (r_ephemeral r));
  _ ← open temp_k3 0 (ss_h st) t;
  '(rk, sk) ← or_panic (hkdf_two_keys (ss_ck st) []);
  Ok (rs, transport_new (ss_ck st) sk rk).

End Handshake.

(** ** Key derivation never panics *)
Definition two_keys (salt ikm : bytes) : bytes * bytes :=
  match hkdf_two_keys salt ikm with Ok p => p | _ => ([], []) end.

Lemma hkdf_two_keys_eq salt ikm : hkdf_two_keys salt ikm = Ok (two_keys salt ikm).
Proof.
  unfold two_keys. destruct (hkdf_two_keys_ok salt ikm) as (a & b & E & _).
  by rewrite E.
Qed.

Lemma length_two_keys salt ikm :
  length (two_keys salt ikm).1 = 32%nat /\ length (two_keys salt ikm).2 = 32%nat.
Proof.
  unfold two_keys. destruct (hkdf_two_keys_ok salt ikm) as (a & b & E & Ha & Hb & _).
  by rewrite E.
Qed.

#[global] Opaque hkdf_two_keys two_keys.

Definition rotated (s : CipherState) : CipherState :=
  if cs_nonce s =? KEY_ROTATION_INTERVAL then
    {| cs_key := (two_keys (cs_ck s) (cs_key s)).2;
       cs_ck := (two_keys (cs_ck s) (cs_key s)).1; cs_nonce := 0 |}
  else s.
Definition advance (s : CipherState) : CipherState :=
  (rotated s) <| cs_nonce := wrap 64 (cs_nonce (rotated s) + 1) |>.
Definition cur_key (s : CipherState) : bytes := cs_key (rotated s).
Definition cur_nonce (s : CipherState) : bytes := nonce_from_counter (cs_nonce (rotated s)).

Lemma process_eq s : process s = Ok (cur_key s, cur_nonce s, advance s).
Proof.
  unfold process, rotate, cur_key, cur_nonce, advance, rotated.
  rewrite hkdf_two_keys_eq. destruct (two_keys _ _) as [a b].
  by destruct (cs_nonce s =? KEY_ROTATION_INTERVAL).
Qed.

Section HandshakeProofs.
Context `{S : Secp} {L : SecpLaws S}.

Lemma mix_key_eq st input :
  mix_key st input =
    Ok ((two_keys (ss_ck st) input).2,
        {| ss_h := ss_h st; ss_ck := (two_keys (ss_ck st) input).1 |}).
Proof. unfold mix_key. rewrite hkdf_two_keys_eq. by destruct (two_keys _ _). Qed.

Lemma open_encrypt k n h p : open k n h (aead_encrypt k (nonce_from_counter n) h p) = Ok p.
Proof. unfold open. by rewrite decrypt_encrypt. Qed.

Lemma open_Ok k n h c p :
  open k n h c = Ok p <-> aead_encrypt k (nonce_from_counter n) h p = c.
Proof.
  unfold open. rewrite <- decrypt_encrypt_iff.
  destruct (aead_decrypt _ _ _ _); cbn; split; intros E; try done; by injection E as ->.
Qed.

(** The steps the two ends share: mix in a key and a shared secret, then a
    sealed box whose ciphertext is mixed in too. *)
Definition kdf (st : SymmetricState) (ss : bytes) : bytes * SymmetricState :=
  ((two_keys (ss_ck st) ss).2, {| ss_h := ss_h st; ss_ck := (two_keys (ss_ck st) ss).1 |}).
Definition exchange (st : SymmetricState) (e : PublicKey) (ss : bytes) :=
  kdf (mix_hash st (pk_serialize e)) ss.
Definition sealed (k : bytes) (n : Z) (st : SymmetricState) (p : bytes) : bytes :=
  aead_encrypt k (nonce_from_counter n) (ss_h st) p.
Definition absorb (st : SymmetricState) (k : bytes) (n : Z) (p : bytes) : SymmetricState :=
  mix_hash st (sealed k n st p).

(** An act with a key in the clear and an empty box. *)
Definition act_msg (e : PublicKey) (kst : bytes * SymmetricState) : bytes :=
  [0] ++ pk_serialize e ++ sealed kst.1 0 kst.2 [].
Definition after_act (kst : bytes * SymmetricState) : SymmetricState :=
  absorb kst.2 kst.1 0 [].

(** Act three: the initiator's static key in a box, then an empty box. *)
Definition act_three_kst (st : SymmetricState) (k2 : bytes) (s : PublicKey) (ss : bytes) :=
  kdf (absorb st k2 1 (pk_serialize s)) ss.
Definition act_three_msg (st : SymmetricState) (k2 : bytes) (s : PublicKey) (ss : bytes) : bytes :=
  [0] ++ sealed k2 1 st (pk_serialize s) ++
    sealed (act_three_kst st k2 s ss).1 0 (act_three_kst st k2 s ss).2 [].

Lemma length_sealed k n st p : length (sealed k n st p) = (length p + 16)%nat.
Proof. apply length_aead_encrypt. Qed.

Lemma open_sealed k n st p : open k n (ss_h st) (sealed k n st p) = Ok p.
Proof. apply open_encrypt. Qed.

Lemma length_act_msg e kst : length (act_msg e kst) = ACT_ONE_LEN.
Proof using L.
  unfold act_msg. rewrite !length_app, pk_serialize_length, length_sealed. done.
Qed.

Lemma length_act_three st k2 s ss : length (act_three_msg st k2 s ss) = ACT_THREE_LEN.
Proof using L.
  unfold act_three_msg. rewrite !length_app, !length_sealed, pk_serialize_length. done.
Qed.

#[local] Opaque mix_hash nonce_from_counter.

Lemma i_act_one_eq i :
  let e := sk_public_key (i_ephemeral i) in
  let kst := exchange (i_st i) e (ecdh (i_remote_static i) (i_ephemeral i)) in
  i_act_one i = (Ok (act_msg e kst), i <| i_st := after_act kst |>).
Proof.
  destruct i. unfold i_act_one, mbind, stm_bind, gets, i_mix_hash, i_mix_key, modify, upd.
  cbn. rewrite mix_key_eq. reflexivity.
Qed.

(** What the reader of an act makes of its bytes. *)
Lemma act_version_key (act : bytes) re :
  length act = 50%nat ->
  (read_version act = Ok tt /\ read_pubkey (take 33 (drop 1 act)) = Ok re) <->
  exists c, act = [0] ++ pk_serialize re ++ c /\ length c = 16%nat.
Proof using L.
  intros Hl. unfold read_version, read_pubkey. rewrite fail_if_Ok, ok_or_Ok. split.
  - intros [Hv Hp]. destruct act as [|v act]; [done|]. cbn [drop] in Hp. rewrite drop_0 in Hp.
    change ((v :: act) !!! 0%nat) with v in Hv. apply negb_false_iff, Z.eqb_eq in Hv as ->.
    exists (drop 33 act). cbn in Hl.
    apply pk_serialize_from in Hp; [|rewrite length_take; lia].
    rewrite Hp, take_drop, length_drop. split; [done|lia].
  - intros (c & -> & _). split; [done|]. cbn [app drop]. rewrite drop_0.
    rewrite <- (pk_serialize_length re), take_app_length. apply pk_from_serialize.
Qed.

Lemma act_msg_parts e (c : bytes) :
  drop 34 ([0] ++ pk_serialize e ++ c) = c.
Proof using L.
  cbn [app drop].
  rewrite <- (pk_serialize_length e). apply drop_app_length.
Qed.

(** Reading an act: the version, the key, the box, in this order. *)
Definition act_reader (act : bytes) (kst : PublicKey -> bytes * SymmetricState)
    : result NoiseError PublicKey :=
  _ ← read_version act;
  re ← read_pubkey (take 33 (drop 1 act));
  _ ← open (kst re).1 0 (ss_h (kst re).2) (drop 34 act);
  Ok re.

(** An act is accepted exactly when it is the act made with a key [re]. *)
Lemma act_reader_Ok act kst re : length act = 50%nat ->
  act_reader act kst = Ok re <->
  act = act_msg re (kst re).
Proof using L.
  intros Hl. unfold act_reader, act_msg. split.
  - intros H. apply bind_Ok in H as ([] & Hv & H). apply bind_Ok in H as (re' & Hp & H).
    apply bind_Ok in H as (p & Ho & H). injection H as ->. apply open_Ok in Ho.
    destruct (proj1 (act_version_key act re Hl) (conj Hv Hp)) as (c & -> & Hc).
    rewrite act_msg_parts in Ho.
    assert (p = []) as ->.
    { apply nil_length_inv. apply (f_equal length) in Ho.
      rewrite length_aead_encrypt in Ho. lia. }
    unfold sealed. by rewrite Ho.
  - intros ->.
    assert (E : length (sealed (kst re).1 0 (kst re).2 []) = 16%nat) by apply length_sealed.
    destruct (proj2 (act_version_key _ re Hl)) as [-> ->]; [by eexists|].
    cbn [mbind result_bind]. rewrite act_msg_parts. unfold sealed. by rewrite open_encrypt.
Qed.

(** ** Each act, as the shared steps *)
Definition r_kst1 (r : Responder) (re : PublicKey) :=
  exchange (r_st r) re (ecdh re (r_local_static r)).
Definition r_kst2 (r : Responder) (re : PublicKey) :=
  exchange (after_act (r_kst1 r re)) (sk_public_key (r_ephemeral r)) (ecdh re (r_ephemeral r)).

Definition acted (r : Responder) (re : PublicKey) : Responder := {|
  r_st := after_act (r_kst2 r re);
  r_local_static := r_local_static r;
  r_ephemeral := r_ephemeral r;
  r_remote_ephemeral := Some re;
  r_temp_k2 := Some (r_kst2 r re).1;
|}.

Ltac run_act :=
  unfold mbind, result_bind, stm_bind, mret, stm_ret, gets, reads_self, modify, upd.

(** Forget what the primitives compute before running an act. *)
Ltac hide_crypto :=
  let Hmk := fresh "Hmk" in pose proof mix_key_eq as Hmk; revert Hmk;
  generalize mix_key, mix_hash, two_keys, aead_encrypt, nonce_from_counter;
  let op := fresh "op" in set (op := open); clearbody op;
  intros mk mh tk enc nn Hmk.

Lemma r_act_one_result r act :
  (r_act_one act r).1 =
    (re ← act_reader act (r_kst1 r);
     Ok (act_msg (sk_public_key (r_ephemeral r)) (exchange
       (mix_hash (r_kst1 r re).2 (drop 34 act)) (sk_public_key (r_ephemeral r))
       (ecdh re (r_ephemeral r))))) /\
  (forall re, act_reader act (r_kst1 r) = Ok re ->
     (r_act_one act r).2 =
       let kst2 := exchange (mix_hash (r_kst1 r re).2 (drop 34 act))
         (sk_public_key (r_ephemeral r)) (ecdh re (r_ephemeral r)) in
       {| r_st := after_act kst2; r_local_static := r_local_static r;
          r_ephemeral := r_ephemeral r; r_remote_ephemeral := Some re;
          r_temp_k2 := Some kst2.1 |}) /\
  (is_ok (act_reader act (r_kst1 r)) = false -> acted_one (r_act_one act r).2 = acted_one r).
Proof.
  destruct r as [st ls e oe k2].
  unfold r_act_one, act_reader, r_kst1, r_mix_hash, r_mix_key, act_msg, after_act, absorb,
    sealed, exchange, kdf.
  hide_crypto. run_act. destruct (read_version act) as [[]|v|]; [|done|done].
  destruct (read_pubkey _) as [re| |]; [|done|done].
  cbn. rewrite Hmk. cbn.
  match goal with |- context [op ?k 0 ?h ?c] => destruct (op k 0 h c); [|done|done] end.
  rewrite Hmk. cbn. split; [done|]. split; [|done]. by intros re' [= <-].
Qed.

Definition i_kst2 (i : Initiator) (re : PublicKey) :=
  exchange (i_st i) re (ecdh re (i_ephemeral i)).

Lemma i_act_two_result i act :
  let st re := mix_hash (i_kst2 i re).2 (drop 34 act) in
  let ls := i_local_static i in
  (i_act_two act i).1 =
    (re ← act_reader act (i_kst2 i);
     Ok (act_three_msg (st re) (i_kst2 i re).1 (sk_public_key ls) (ecdh re ls))) /\
  (forall re, act_reader act (i_kst2 i) = Ok re ->
     (i_act_two act i).2 =
       {| i_st := (act_three_kst (st re) (i_kst2 i re).1 (sk_public_key ls) (ecdh re ls)).2;
          i_local_static := ls; i_ephemeral := i_ephemeral i;
          i_remote_static := i_remote_static i;
          i_temp_k2 := Some (i_kst2 i re).1; i_done := true |}) /\
  (is_ok (act_reader act (i_kst2 i)) = false -> i_done (i_act_two act i).2 = i_done i).
Proof.
  destruct i as [st ls e rs k2 d].
  unfold i_act_two, act_reader, i_kst2, i_mix_hash, i_mix_key, act_three_msg, act_three_kst, absorb,
    sealed, exchange, kdf.
  hide_crypto. run_act. destruct (read_version act) as [[]|v|]; [|done|done].
  destruct (read_pubkey _) as [re| |]; [|done|done].
  cbn. rewrite Hmk. cbn.
  match goal with |- context [op ?k 0 ?h ?c] => destruct (op k 0 h c); [|done|done] end.
  rewrite Hmk. cbn. split; [done|]. split; [|done]. by intros re' [= <-].
Qed.

(** The transports: the two ends read HKDF's output in opposite orders. *)
Definition initiator_transport (st : SymmetricState) : Transport :=
  transport_new (ss_ck st) (two_keys (ss_ck st) []).1 (two_keys (ss_ck st) []).2.
Definition responder_transport (st : SymmetricState) : Transport :=
  transport_new (ss_ck st) (two_keys (ss_ck st) []).2 (two_keys (ss_ck st) []).1.

Lemma into_transport_eq i :
  into_transport i = if i_done i then Ok (initiator_transport (i_st i)) else Err WrongState.
Proof.
  unfold into_transport, initiator_transport. destruct (i_done i); [|done].
  rewrite hkdf_two_keys_eq. by destruct (two_keys _ _).
Qed.

Lemma act_three_parts (c t : bytes) : length c = 49%nat ->
  take 49 (drop 1 ([0] ++ c ++ t)) = c /\ drop 50 ([0] ++ c ++ t) = t.
Proof using Type.
  intros Hc. cbn [app drop]. rewrite drop_0.
  by rewrite take_app_length', drop_app_length' by done.
Qed.

(** Act three is accepted exactly when it is the act the holder of the static
    key [rs] makes from the same transcript. *)
Definition act_three_of (r : Responder) (k2 : bytes) (rs : PublicKey) : bytes :=
  act_three_msg (r_st r) k2 rs (ecdh rs (r_ephemeral r)).
Definition transport_of (r : Responder) (k2 : bytes) (rs : PublicKey) : Transport :=
  responder_transport (act_three_kst (r_st r) k2 rs (ecdh rs (r_ephemeral r))).2.

Lemma r_act_three_complete r k2 rs : r_temp_k2 r = Some k2 ->
  r_act_three r (act_three_of r k2 rs) = Ok (rs, transport_of r k2 rs).
Proof using L.
  intros Hk. unfold transport_of, act_three_of, responder_transport, act_three_msg,
    act_three_kst, absorb, sealed, kdf, r_act_three.
  pose proof open_encrypt as Hop. pose proof hkdf_two_keys_eq as Hkd.
  pose proof length_aead_encrypt as Hlen. revert Hop Hkd Hlen.
  generalize hkdf_two_keys. hide_crypto. intros hk Hop Hkd Hlen.
  rewrite Hk. cbn [ok_or mbind result_bind snd fst ss_h ss_ck].
  match goal with |- context [[0] ++ ?c ++ ?t] =>
    destruct (act_three_parts c t) as [-> ->]; [by rewrite Hlen, pk_serialize_length|] end.
  change (read_version _) with (Ok (E := NoiseError) tt).
  cbn [mbind result_bind]. rewrite Hop. cbn [mbind result_bind].
  unfold read_pubkey. rewrite pk_from_serialize. cbn [ok_or mbind result_bind].
  rewrite Hmk. cbn. rewrite Hop. cbn. rewrite Hkd. cbn. by destruct (tk _ []).
Qed.

Lemma r_act_three_sound r act rs t : length act = ACT_THREE_LEN ->
  r_act_three r act = Ok (rs, t) ->
  exists k2, r_temp_k2 r = Some k2 /\ act = act_three_of r k2 rs /\ t = transport_of r k2 rs.
Proof using L.
  intros Hl. unfold r_act_three.
  - intros H. apply bind_Ok in H as (k2 & Hk & H). apply ok_or_Ok in Hk. exists k2.
    split; [done|]. apply bind_Ok in H as ([] & Hv & H).
    apply bind_Ok in H as (rb & Hc & H). apply open_Ok in Hc.
    apply bind_Ok in H as (rs' & Hp & H). apply ok_or_Ok in Hp.
    rewrite mix_key_eq in H. cbn [mbind result_bind] in H.
    apply bind_Ok in H as (p & Ht & H). apply open_Ok in Ht.
    rewrite hkdf_two_keys_eq in H. cbn [or_panic] in H.
    assert (Hrb : length rb = 33%nat).
    { apply (f_equal length) in Hc. rewrite length_aead_encrypt, length_take, length_drop in Hc.
      unfold ACT_THREE_LEN in Hl. lia. }
    apply pk_serialize_from in Hp; [|done]. subst rb.
    assert (p = []) as ->.
    { apply nil_length_inv. apply (f_equal length) in Ht.
      rewrite length_aead_encrypt, length_drop in Ht. unfold ACT_THREE_LEN in Hl. lia. }
    assert (Hact : act = [0] ++ take 49 (drop 1 act) ++ drop 50 act).
    { unfold read_version in Hv. apply fail_if_Ok in Hv.
      destruct act as [|v act]; [done|]. change ((v :: act) !!! 0%nat) with v in Hv.
      apply negb_false_iff, Z.eqb_eq in Hv as ->. cbn [drop app].
      by rewrite drop_0, take_drop. }
    rewrite (surjective_pairing (two_keys _ [])) in H. cbn [mbind result_bind] in H.
    assert (Hst : absorb (r_st r) k2 1 (pk_serialize rs') = mix_hash (r_st r) (take 49 (drop 1 act)))
      by (unfold absorb, sealed; by rewrite Hc).
    rewrite <- Hst in H, Ht.
    apply Ok_inj, pair_equal_spec in H as [-> <-].
    split; [|reflexivity]. rewrite Hact at 1. rewrite <- Hc, <- Ht. reflexivity.
Qed.

Lemma act_msg_after act re kst : act = act_msg re kst ->
  mix_hash kst.2 (drop 34 act) = after_act kst.
Proof using L. intros ->. unfold act_msg. by rewrite act_msg_parts. Qed.

(** Every outcome of reading an act. *)
Lemma act_reader_cases act kst : length act = 50%nat ->
  act_reader act kst =
    if decide (act !!! 0%nat = 0) then
      match pk_from_slice (take 33 (drop 1 act)) with
      | Some re => if decide (act = act_msg re (kst re)) then Ok re else Err BadTag
      | None => Err BadPubkey
      end
    else Err (BadVersion (act !!! 0%nat)).
Proof using L.
  intros Hl. case_decide as Hv.
  2: { unfold act_reader, read_version. by rewrite (proj2 (Z.eqb_neq _ _) Hv). }
  destruct (pk_from_slice _) as [re|] eqn:Ep.
  2: { unfold act_reader, read_version, read_pubkey. by rewrite Hv, Ep. }
  case_decide as Ha; [by apply act_reader_Ok|].
  destruct (act_reader act kst) as [re'|e|] eqn:E.
  - exfalso. apply act_reader_Ok in E as E'; [|done]. apply Ha.
    unfold act_reader, read_pubkey in E. rewrite Ep in E.
    apply bind_Ok in E as ([] & _ & E). cbn [ok_or] in E.
    apply bind_Ok in E as (re'' & Er & E). apply Ok_inj in Er as ->.
    apply bind_Ok in E as (p & _ & E). by apply Ok_inj in E as ->.
  - unfold act_reader, read_version, read_pubkey, open in E. rewrite Hv, Ep in E.
    cbn [fail_if negb Z.eqb ok_or mbind result_bind] in E.
    destruct (aead_decrypt _ _ _ _); cbn in E; congruence.
  - exfalso. unfold act_reader, read_version, read_pubkey, open in E. rewrite Hv, Ep in E.
    cbn [fail_if negb Z.eqb ok_or mbind result_bind] in E.
    destruct (aead_decrypt _ _ _ _) eqn:Ed; cbn in E; try congruence.
    by apply decrypt_not_panic in Ed.
Qed.

(** What a box holds, if it is one sealed under this key at this transcript. *)
Definition unsealed (k : bytes) (n : Z) (st : SymmetricState) (c : bytes) : option bytes :=
  match open k n (ss_h st) c with Ok p => Some p | _ => None end.

Lemma unsealed_iff k n st c p : unsealed k n st c = Some p <-> c = sealed k n st p.
Proof.
  assert (E : unsealed k n st c = Some p <-> open k n (ss_h st) c = Ok p).
  { unfold unsealed. destruct (open _ _ _ _); split; intros H; congruence. }
  rewrite E, open_Ok. unfold sealed. by split.
Qed.

Lemma open_cases k n h c : (exists p, open k n h c = Ok p) \/ open k n h c = Err BadTag.
Proof.
  unfold open. destruct (aead_decrypt _ _ _ _) as [p|e|] eqn:E; [left; by exists p|by right|].
  by apply decrypt_not_panic in E.
Qed.

(** Act three up to its first box, and after it. *)
Lemma r_act_three_refused r act k2 : r_temp_k2 r = Some k2 ->
  (act !!! 0%nat <> 0 -> r_act_three r act = Err (BadVersion (act !!! 0%nat))) /\
  (act !!! 0%nat = 0 -> open k2 1 (ss_h (r_st r)) (take 49 (drop 1 act)) = Err BadTag ->
   r_act_three r act = Err BadTag) /\
  (forall kb, act !!! 0%nat = 0 -> open k2 1 (ss_h (r_st r)) (take 49 (drop 1 act)) = Ok kb ->
   pk_from_slice kb = None -> r_act_three r act = Err BadPubkey).
Proof.
  intros Hk. unfold r_act_three, read_version, read_pubkey. rewrite Hk. hide_crypto.
  generalize hkdf_two_keys. intros hk. split_and!.
  - intros Hv. by rewrite (proj2 (Z.eqb_neq _ _) Hv).
  - intros -> Ho. cbn. by rewrite Ho.
  - intros kb -> Ho Hp. cbn. rewrite Ho. cbn. by rewrite Hp.
Qed.

Lemma r_act_three_last r act k2 kb rs : r_temp_k2 r = Some k2 -> act !!! 0%nat = 0 ->
  open k2 1 (ss_h (r_st r)) (take 49 (drop 1 act)) = Ok kb -> pk_from_slice kb = Some rs ->
  (exists x, r_act_three r act = Ok x) \/ r_act_three r act = Err BadTag.
Proof.
  unfold r_act_three, read_version, read_pubkey. intros Hk Hv Ho Hp. rewrite Hk, Hv. revert Ho.
  pose proof open_cases as Hop. pose proof hkdf_two_keys_eq as Hkd. revert Hop Hkd.
  generalize hkdf_two_keys. hide_crypto. intros hk Hop Hkd Ho.
  cbn. rewrite Ho. cbn. rewrite Hp. cbn. rewrite Hmk. cbn.
  match goal with |- context [op ?k 0 ?h ?t] =>
    destruct (Hop k 0 h t) as [[p Et]|Et]; rewrite Et end; [left|by right].
  cbn. rewrite Hkd. cbn. destruct (tk _ []). cbn. by eexists.
Qed.

(** What act three holds when it is accepted is what its first box holds. *)
Lemma r_act_three_accepted r act k2 kb rs x : length act = ACT_THREE_LEN ->
  r_temp_k2 r = Some k2 -> open k2 1 (ss_h (r_st r)) (take 49 (drop 1 act)) = Ok kb ->
  pk_from_slice kb = Some rs -> r_act_three r act = Ok x -> act = act_three_of r k2 rs.
Proof using L.
  destruct x as [rs' t]. intros Hl Hk Ho Hp Hx.
  destruct (r_act_three_sound r act rs' t Hl Hx) as (k & Hk' & Hact & _).
  assert (E : k = k2) by congruence. subst k. clear Hx Hk Hk'.
  assert (Hbox : take 49 (drop 1 act) = sealed k2 1 (r_st r) (pk_serialize rs')).
  { rewrite Hact. unfold act_three_of, act_three_msg. apply act_three_parts.
    rewrite length_sealed, pk_serialize_length. reflexivity. }
  rewrite Hbox, open_sealed in Ho. apply Ok_inj in Ho. rewrite <- Ho, pk_from_serialize in Hp.
  injection Hp as Hp. rewrite <- Hp. exact Hact.
Qed.

(** Every outcome of act three. *)
Lemma r_act_three_cases r act : length act = ACT_THREE_LEN ->
  r_act_three r act =
    match r_temp_k2 r with
    | None => Err WrongState
    | Some k2 =>
      if decide (act !!! 0%nat = 0) then
        match unsealed k2 1 (r_st r) (take 49 (drop 1 act)) with
        | None => Err BadTag
        | Some kb =>
          match pk_from_slice kb with
          | None => Err BadPubkey
          | Some rs =>
            if decide (act = act_three_of r k2 rs) then Ok (rs, transport_of r k2 rs)
            else Err BadTag
          end
        end
      else Err (BadVersion (act !!! 0%nat))
    end.
Proof using L.
  intros Hl. destruct (r_temp_k2 r) as [k2|] eqn:Ek; [|by unfold r_act_three; rewrite Ek].
  destruct (r_act_three_refused r act k2 Ek) as (H1 & H2 & H3).
  case_decide as Hv; [|exact (H1 Hv)]. unfold unsealed.
  destruct (open_cases k2 1 (ss_h (r_st r)) (take 49 (drop 1 act))) as [[kb Eo]|Eo]; rewrite Eo;
    [|exact (H2 Hv Eo)].
  destruct (pk_from_slice kb) as [rs|] eqn:Ep; [|exact (H3 kb Hv Eo Ep)].
  case_decide as Ha.
  - rewrite Ha at 1. exact (r_act_three_complete r k2 rs Ek).
  - destruct (r_act_three_last r act k2 kb rs Ek Hv Eo Ep) as [[x E]|E]; [|exact E].
    destruct (Ha (r_act_three_accepted r act k2 kb rs x Hl Ek Eo Ep E)).
Qed.

(** [C19] A handshake act of 50 bytes (one and two) is accepted exactly when it
    carries version 0, a valid key [re] and the empty box sealed under the
    secret shared with [re] at this point of the transcript; the three checks
    fail in this order with their own errors.  Act three (66 bytes) is accepted
    exactly when it is the act that the holder of the static key [rs] makes
    from this transcript, and then the peer is [rs]; otherwise, in this order:
    no act one yet, a version that is not 0, a first box not sealed under the
    key of act two, a box whose content is no key, and a last box that does not
    prove possession of that key.  Nothing panics.  After a rejected act one
    the responder has not "acted one", after a rejected act two the initiator
    is not done and has no transport, and a rejected act three yields none. *)
Theorem handshake_acts_checked r i act act3 :
  length act = ACT_ONE_LEN -> length act3 = ACT_THREE_LEN ->
  let check {A} (kst : PublicKey -> bytes * SymmetricState) (f : PublicKey -> A) :=
    if decide (act !!! 0%nat = 0) then
      match pk_from_slice (take 33 (drop 1 act)) with
      | Some re => if decide (act = act_msg re (kst re)) then Ok (f re) else Err BadTag
      | None => Err BadPubkey
      end
    else Err (BadVersion (act !!! 0%nat)) in
  (r_act_one act r).1 = check (r_kst1 r) (fun re =>
    act_msg (sk_public_key (r_ephemeral r)) (r_kst2 r re)) /\
  (i_act_two act i).1 = check (i_kst2 i) (fun re =>
    act_three_msg (after_act (i_kst2 i re)) (i_kst2 i re).1 (sk_public_key (i_local_static i))
      (ecdh re (i_local_static i))) /\
  (is_ok (r_act_one act r).1 = false -> acted_one (r_act_one act r).2 = acted_one r) /\
  (is_ok (i_act_two act i).1 = false -> i_done i = false ->
     into_transport (i_act_two act i).2 = Err WrongState) /\
  r_act_three r act3 =
    match r_temp_k2 r with
    | None => Err WrongState
    | Some k2 =>
      if decide (act3 !!! 0%nat = 0) then
        match unsealed k2 1 (r_st r) (take 49 (drop 1 act3)) with
        | None => Err BadTag
        | Some kb =>
          match pk_from_slice kb with
          | None => Err BadPubkey
          | Some rs =>
            if decide (act3 = act_three_of r k2 rs) then Ok (rs, transport_of r k2 rs)
            else Err BadTag
          end
        end
      else Err (BadVersion (act3 !!! 0%nat))
    end /\
  (forall k2 kb, unsealed k2 1 (r_st r) (take 49 (drop 1 act3)) = Some kb <->
     take 49 (drop 1 act3) = sealed k2 1 (r_st r) kb).
Proof using L.
  intros Hl Hl3. cbv zeta.
  destruct (r_act_one_result r act) as (Er & _ & Hr).
  destruct (i_act_two_result i act) as (Ei & _ & Hi). cbv zeta in Ei.
  rewrite Er, Ei. split_and!.
  - rewrite act_reader_cases by done. case_decide; [|reflexivity].
    destruct (pk_from_slice _) as [re|]; [|reflexivity]. case_decide as Ha; [|reflexivity].
    cbn [mbind result_bind]. unfold r_kst2. rewrite (act_msg_after _ _ _ Ha). reflexivity.
  - rewrite act_reader_cases by done. case_decide; [|reflexivity].
    destruct (pk_from_slice _) as [re|]; [|reflexivity]. case_decide as Ha; [|reflexivity].
    cbn [mbind result_bind]. rewrite (act_msg_after _ _ _ Ha). reflexivity.
  - intros H. apply Hr. by rewrite is_ok_bind in H.
  - intros H Hd. rewrite into_transport_eq, Hi, Hd; [done|]. by rewrite is_ok_bind in H.
  - rewrite (r_act_three_cases r act3 Hl3). destruct (r_temp_k2 r); reflexivity.
  - intros k2 kb. apply unsealed_iff.
Qed.

(** No act panics. *)
Lemma act_reader_not_panic act kst : act_reader act kst <> Panic.
Proof.
  unfold act_reader, read_version, read_pubkey, open.
  destruct (negb _); [done|]. cbn [fail_if mbind result_bind].
  destruct (pk_from_slice _); [|done]. cbn [ok_or mbind result_bind].
  destruct (aead_decrypt _ _ _ _) eqn:E; [done|done|by apply decrypt_not_panic in E].
Qed.

Lemma r_act_one_not_panic r act : (r_act_one act r).1 <> Panic.
Proof.
  destruct (r_act_one_result r act) as [-> _]. pose proof (act_reader_not_panic act (r_kst1 r)).
  by destruct (act_reader _ _).
Qed.

Lemma i_act_two_not_panic i act : (i_act_two act i).1 <> Panic.
Proof.
  destruct (i_act_two_result i act) as [-> _]. pose proof (act_reader_not_panic act (i_kst2 i)).
  by destruct (act_reader _ _).
Qed.

Lemma open_not_panic k n h c : open k n h c <> Panic.
Proof.
  unfold open. destruct (aead_decrypt _ _ _ _) eqn:E; [done|done|by apply decrypt_not_panic in E].
Qed.

Lemma r_act_three_not_panic r act : r_act_three r act <> Panic.
Proof.
  unfold r_act_three. pose proof open_not_panic as Hop. pose proof hkdf_two_keys_eq as Hkd.
  revert Hop Hkd. generalize hkdf_two_keys. hide_crypto. intros hk Hop Hkd.
  destruct (r_temp_k2 r) as [k2|]; [|done]. cbn [ok_or mbind result_bind].
  unfold read_version, read_pubkey. destruct (negb _); [done|]. cbn [fail_if mbind result_bind].
  destruct (op k2 _ _ _) eqn:E; [|done|by apply Hop in E]. cbn [mbind result_bind].
  destruct (pk_from_slice _); [|done]. cbn [ok_or mbind result_bind]. rewrite Hmk.
  cbn [mbind result_bind].
  match goal with |- context [op ?k ?n ?h ?c] => destruct (op k n h c) eqn:E2 end;
    [|done|by apply Hop in E2].
  cbn [mbind result_bind]. rewrite Hkd. by destruct (tk _ []).
Qed.

(** The accepting runs. *)
Lemma r_act_one_accepts r re :
  r_act_one (act_msg re (r_kst1 r re)) r =
    (Ok (act_msg (sk_public_key (r_ephemeral r)) (r_kst2 r re)), acted r re).
Proof using L.
  destruct (r_act_one_result r (act_msg re (r_kst1 r re))) as (E1 & E2 & _).
  assert (Ha : act_reader (act_msg re (r_kst1 r re)) (r_kst1 r) = Ok re)
    by (apply act_reader_Ok; [apply length_act_msg|reflexivity]).
  specialize (E2 _ Ha). rewrite Ha in E1. cbv zeta in E2. cbn [mbind result_bind] in E1.
  rewrite (act_msg_after _ re (r_kst1 r re)) in E1, E2 by reflexivity.
  rewrite (surjective_pairing (r_act_one _ _)), E1, E2. reflexivity.
Qed.

Definition twoed (i : Initiator) (re : PublicKey) : Initiator := {|
  i_st := (act_three_kst (after_act (i_kst2 i re)) (i_kst2 i re).1
    (sk_public_key (i_local_static i)) (ecdh re (i_local_static i))).2;
  i_local_static := i_local_static i;
  i_ephemeral := i_ephemeral i;
  i_remote_static := i_remote_static i;
  i_temp_k2 := Some (i_kst2 i re).1;
  i_done := true;
|}.

Lemma i_act_two_accepts i re :
  i_act_two (act_msg re (i_kst2 i re)) i =
    (Ok (act_three_msg (after_act (i_kst2 i re)) (i_kst2 i re).1
       (sk_public_key (i_local_static i)) (ecdh re (i_local_static i))), twoed i re).
Proof using L.
  destruct (i_act_two_result i (act_msg re (i_kst2 i re))) as (E1 & E2 & _).
  assert (Ha : act_reader (act_msg re (i_kst2 i re)) (i_kst2 i) = Ok re)
    by (apply act_reader_Ok; [apply length_act_msg|reflexivity]).
  specialize (E2 _ Ha). rewrite Ha in E1. cbv zeta in E1, E2. cbn [mbind result_bind] in E1.
  rewrite (act_msg_after _ re (i_kst2 i re)) in E1, E2 by reflexivity.
  rewrite (surjective_pairing (i_act_two _ _)), E1, E2. reflexivity.
Qed.

(** Two ends of one connection: each sends with what the other receives. *)
Definition mirrored (a b : Transport) : Prop :=
  t_send a = t_recv b /\ t_recv a = t_send b.

Lemma handshake_run ls rs ie re :
  exists act1 act2 act3 i1 i2 r1 ti tr,
    i_act_one (initiator_new ls (sk_public_key rs) ie) = (Ok act1, i1) /\
    r_act_one act1 (responder_new rs re) = (Ok act2, r1) /\ acted_one r1 = true /\
    i_act_two act2 i1 = (Ok act3, i2) /\ into_transport i2 = Ok ti /\
    r_act_three r1 act3 = Ok (sk_public_key ls, tr) /\
    length act1 = ACT_ONE_LEN /\ length act2 = ACT_TWO_LEN /\ length act3 = ACT_THREE_LEN /\
    mirrored ti tr /\ t_buffer ti = [] /\ t_buffer tr = [] /\
    t_pending_len ti = None /\ t_pending_len tr = None.
Proof using L.
  set (i0 := initiator_new _ _ _). set (r0 := responder_new _ _).
  set (e := sk_public_key ie). set (e2 := sk_public_key re).
  assert (E1 : i_act_one i0 = (Ok (act_msg e (r_kst1 r0 e)), i0 <| i_st := after_act (r_kst1 r0 e) |>)).
  { rewrite i_act_one_eq. cbv zeta. unfold r_kst1, i0, r0, e.
    cbn [initiator_new responder_new i_ephemeral i_st i_remote_static r_st r_local_static].
    rewrite (ecdh_sym rs ie). reflexivity. }
  set (i1 := i0 <| i_st := after_act (r_kst1 r0 e) |>) in E1.
  assert (Ek : r_kst2 r0 e = i_kst2 i1 e2).
  { unfold r_kst2, i_kst2, e2. change (r_ephemeral r0) with re.
    unfold e. rewrite (ecdh_sym ie re). reflexivity. }
  pose proof (r_act_one_accepts r0 e) as E2. change (r_ephemeral r0) with re in E2.
  fold e2 in E2. rewrite Ek in E2.
  pose proof (i_act_two_accepts i1 e2) as E3.
  pose proof (r_act_three_complete (acted r0 e) (r_kst2 r0 e).1 (sk_public_key ls) eq_refl) as E4.
  assert (Ea : act_three_of (acted r0 e) (r_kst2 r0 e).1 (sk_public_key ls) =
    act_three_msg (after_act (i_kst2 i1 e2)) (i_kst2 i1 e2).1 (sk_public_key ls) (ecdh e2 ls)).
  { unfold act_three_of, acted. cbn [r_st r_ephemeral]. change (r_ephemeral r0) with re.
    unfold e2. rewrite (ecdh_sym re ls), Ek. reflexivity. }
  assert (Et : transport_of (acted r0 e) (r_kst2 r0 e).1 (sk_public_key ls) =
    responder_transport (i_st (twoed i1 e2))).
  { unfold transport_of, acted, twoed. cbn [r_st r_ephemeral i_st].
    change (r_ephemeral r0) with re. change (i_local_static i1) with ls.
    unfold e2. rewrite (ecdh_sym re ls), Ek. reflexivity. }
  rewrite Ea, Et in E4.
  do 8 eexists. split; [exact E1|]. split; [exact E2|]. split; [reflexivity|].
  split; [exact E3|]. split; [exact (into_transport_eq (twoed i1 e2))|]. split; [exact E4|].
  split_and!; try apply length_act_msg; try apply length_act_three; try reflexivity.
  split; reflexivity.
Qed.

(** Two honest ends complete the handshake, whatever their keys: each act
    is accepted, the acts have their BOLT 8 lengths, the responder learns the
    initiator's static key, and the two transports are mirror images with
    nothing buffered. *)
Theorem handshake_agreement ls rs ie re :
  exists act1 act2 act3 i1 i2 r1 ti tr,
    i_act_one (initiator_new ls (sk_public_key rs) ie) = (Ok act1, i1) /\
    r_act_one act1 (responder_new rs re) = (Ok act2, r1) /\ acted_one r1 = true /\
    i_act_two act2 i1 = (Ok act3, i2) /\ into_transport i2 = Ok ti /\
    r_act_three r1 act3 = Ok (sk_public_key ls, tr) /\
    length act1 = ACT_ONE_LEN /\ length act2 = ACT_TWO_LEN /\ length act3 = ACT_THREE_LEN /\
    mirrored ti tr /\ t_buffer ti = [] /\ t_buffer tr = [] /\
    t_pending_len ti = None /\ t_pending_len tr = None.
Proof using L. apply handshake_run. Qed.
End HandshakeProofs.

(** The two theorems at the toy curve. *)
Lemma handshake_agreement_witness :
  exists act1 i1, i_act_one (initiator_new (S := toy_secp) (toy_of 3)
    (sk_public_key (Secp := toy_secp) (toy_of 5)) (toy_of 7)) = (Ok act1, i1).
Proof.
  destruct (handshake_agreement (S := toy_secp) (toy_of 3) (toy_of 5) (toy_of 7) (toy_of 9))
    as (act1 & _ & _ & i1 & _ & _ & _ & _ & E & _).
  by exists act1, i1.
Defined.

(** An act of version 1 is refused by both sides, and so is act three before
    act one. *)
Lemma handshake_acts_checked_witness :
  let act := [1] ++ replicate 49 0 in
  let r := responder_new (S := toy_secp) (toy_of 5) (toy_of 9) in
  length act = ACT_ONE_LEN /\ (r_act_one act r).1 = Err (BadVersion 1) /\
  r_act_three r (replicate 66 0) = Err WrongState.
Proof.
  cbv zeta. split; [reflexivity|].
  pose proof (handshake_acts_checked (S := toy_secp) (responder_new (toy_of 5) (toy_of 9))
    (initiator_new (toy_of 3) (toy_of 5) (toy_of 7)) ([1] ++ replicate 49 0) (replicate 66 0)
    eq_refl eq_refl) as H.
  destruct H as (E1 & _ & _ & _ & E3 & _).
  split; [rewrite E1; reflexivity|rewrite E3; reflexivity].
Defined.

(** BOLT 8, appendix A: the first message, and the first after a rotation. *)
Definition vector_transport (n : Z) : Transport := {|
  t_send := {|
    cs_key := be_bytes 32 0x969ab31b4d288cedf6218839b27a3e2140827047f2c0f01bf5c04435d43511a9;
    cs_ck := be_bytes 32 0x919219dbb2920afa8db80f9a51787a840bcf111ed8d588caf9ab4be716e42b01;
    cs_nonce := n |};
  t_recv := {| cs_key := []; cs_ck := []; cs_nonce := 0 |};
  t_buffer := []; t_pending_len := None |}.
Example bolt8_messages :
  (encrypt_message [104; 101; 108; 108; 111] (vector_transport 0)).1 =
    Ok (be_bytes 39 0xcf2b30ddf0cf3f80e7c35a6e6730b59fe802473180f396d88a8fb0db8cbcf25d2f214cf9ea1d95) /\
  (encrypt_message [104; 101; 108; 108; 111] (vector_transport 1000)).1 =
    Ok (be_bytes 39 0x178cb9d7387190fa34db9c2d50027d21793c9bc2d40b1e14dcf30ebeeeb220f48364f7a4c68bf8).
Proof. split; by vm_compute. Qed.

(** ** The stream *)
Definition frame (s : CipherState) (m : bytes) : bytes :=
  aead_encrypt (cur_key s) (cur_nonce s) [] (be_bytes 2 (Z.of_nat (length m))) ++
  aead_encrypt (cur_key (advance s)) (cur_nonce (advance s)) [] m.
Definition after_frame (s : CipherState) : CipherState := advance (advance s).
Fixpoint frames (s : CipherState) (ms : list bytes) : bytes :=
  match ms with
  | [] => []
  | m :: ms => frame s m ++ frames (after_frame s) ms
  end.
Definition after_frames (s : CipherState) (ms : list bytes) : CipherState :=
  foldl (fun s _ => after_frame s) s ms.

Definition sendable (m : bytes) : Prop := Z.of_nat (length m) <= MAX_MSG_LEN.

#[local] Opaque advance cur_key cur_nonce nonce_from_counter.

Lemma encrypt_message_eq m t :
  encrypt_message m t =
    if decide (sendable m) then (Ok (frame (t_send t) m), t <| t_send := after_frame (t_send t) |>)
    else (Err MessageTooLong, t).
Proof.
  unfold encrypt_message, throw_if, send_process, mbind, stm_bind, mret, stm_ret, sendable, MAX_MSG_LEN.
  case_decide as Hm.
  - rewrite (proj2 (Z.ltb_ge _ _)) by lia. cbn [fail_if]. rewrite process_eq.
    cbn [upd t_send]. rewrite process_eq. unfold frame.
    rewrite wrap_small by (unfold uint; lia). reflexivity.
  - rewrite (proj2 (Z.ltb_lt _ _)) by lia. reflexivity.
Qed.

Lemma length_frame s m : length (frame s m) = (length m + 34)%nat.
Proof.
  unfold frame. rewrite length_app, !length_aead_encrypt, length_be_bytes. lia.
Qed.

(** [next_body] on every state with a pending length. *)
Lemma next_body_short t n : t_pending_len t = Some n -> (length (t_buffer t) < n + 16)%nat ->
  next_body t = (Ok None, t).
Proof.
  intros Hp Hs. unfold next_body, reads_self, gets, mbind, stm_bind, mret, stm_ret.
  rewrite Hp. cbn [expect]. by rewrite (proj2 (Nat.ltb_lt _ _)) by lia.
Qed.

Lemma next_body_full t n : t_pending_len t = Some n -> (n + 16 <= length (t_buffer t))%nat ->
  next_body t =
    match aead_decrypt (cur_key (t_recv t)) (cur_nonce (t_recv t)) [] (take (n + 16) (t_buffer t)) with
    | Ok m => (Ok (Some m), {| t_send := t_send t; t_recv := advance (t_recv t);
        t_buffer := drop (n + 16) (t_buffer t); t_pending_len := None |})
    | Err _ => (Err BadTag, t <| t_recv := advance (t_recv t) |>)
    | Panic => (Panic, t <| t_recv := advance (t_recv t) |>)
    end.
Proof.
  intros Hp Hs. unfold next_body, reads_self, gets, mbind, stm_bind, mret, stm_ret, decrypt_buffer,
    recv_process, drain_buffer, modify, reads_self.
  rewrite Hp. cbn [expect]. rewrite (proj2 (Nat.ltb_ge _ _)) by lia. rewrite process_eq.
  destruct t. cbn. by destruct (aead_decrypt _ _ _ _).
Qed.

Lemma next_message_pending t n : t_pending_len t = Some n -> next_message t = next_body t.
Proof.
  intros Hp. unfold next_message, gets, mbind, stm_bind. by rewrite Hp.
Qed.

Lemma next_message_short t : t_pending_len t = None -> (length (t_buffer t) < 18)%nat ->
  next_message t = (Ok None, t).
Proof.
  intros Hp Hs. unfold next_message, gets, mbind, stm_bind. rewrite Hp.
  by rewrite (proj2 (Nat.ltb_lt _ _)) by lia.
Qed.

Lemma next_message_full t : t_pending_len t = None -> (18 <= length (t_buffer t))%nat ->
  next_message t =
    match aead_decrypt (cur_key (t_recv t)) (cur_nonce (t_recv t)) [] (take 18 (t_buffer t)) with
    | Ok lb => next_body {| t_send := t_send t; t_recv := advance (t_recv t);
        t_buffer := drop 18 (t_buffer t); t_pending_len := Some (Z.to_nat (of_be lb)) |}
    | Err _ => (Err BadTag, t <| t_recv := advance (t_recv t) |>)
    | Panic => (Panic, t <| t_recv := advance (t_recv t) |>)
    end.
Proof.
  intros Hp Hs. unfold next_message, gets, mbind, stm_bind. rewrite Hp.
  rewrite (proj2 (Nat.ltb_ge _ _)) by lia.
  unfold recv_process, decrypt_buffer, drain_buffer, reads_self, modify. rewrite process_eq.
  destruct t as [sd rc buf pd]. unfold upd. cbn. destruct (aead_decrypt _ _ _ _) as [lb| |] eqn:E; cbn; try done.
  apply decrypt_encrypt_iff, (f_equal length) in E. rewrite length_aead_encrypt, length_take in E.
  cbn in Hs.
  rewrite decide_True by lia. done.
Qed.

(** What the receiver still expects, given what is in its buffer and what is
    still on the wire. *)
Definition awaits (t : Transport) (rest : bytes) (ms : list bytes) : Prop :=
  match t_pending_len t with
  | None => t_buffer t ++ rest = frames (t_recv t) ms
  | Some n => exists m ms', ms = m :: ms' /\ length m = n /\
      t_buffer t ++ rest = aead_encrypt (cur_key (t_recv t)) (cur_nonce (t_recv t)) [] m ++
        frames (advance (t_recv t)) ms'
  end.

Lemma awaits_read t data rest ms :
  awaits t (data ++ rest) ms -> awaits (read_input data t) rest ms.
Proof.
  unfold awaits, read_input. destruct t. unfold upd. cbn. destruct t_pending_len0; [|by rewrite app_assoc].
  intros (m & ms' & ? & ? & ?). exists m, ms'. by rewrite <- app_assoc.
Qed.

Lemma app_split {A} (a b c d : list A) : a ++ b = c ++ d -> (length c <= length a)%nat ->
  take (length c) a = c /\ drop (length c) a ++ b = d.
Proof.
  intros E Hl. pose proof (f_equal (take (length c)) E) as E1.
  pose proof (f_equal (drop (length c)) E) as E2.
  rewrite take_app_le, take_app_length in E1 by done.
  rewrite drop_app_le, drop_app_length in E2 by done. done.
Qed.

(** What [next_message] may answer: nothing, when the wire is not drained, or
    the next message. *)
Definition pops (r : result NoiseError (option bytes) * Transport) (sd : CipherState)
    (rest : bytes) (ms : list bytes) : Prop :=
  t_send r.2 = sd /\
  match r.1 with
  | Ok None => awaits r.2 rest ms /\ (rest = [] -> ms = [])
  | Ok (Some m) => exists ms', ms = m :: ms' /\ awaits r.2 rest ms'
  | _ => False
  end.

Lemma next_body_pops t n rest ms :
  t_pending_len t = Some n -> awaits t rest ms -> pops (next_body t) (t_send t) rest ms.
Proof.
  intros Hp Ha. pose proof Ha as Ha'. unfold awaits in Ha. rewrite Hp in Ha.
  destruct Ha as (m & ms' & -> & Hm & E).
  pose proof (length_aead_encrypt (cur_key (t_recv t)) (cur_nonce (t_recv t)) [] m) as Hl.
  destruct (decide (length (t_buffer t) < n + 16)%nat) as [Hs|Hs].
  - rewrite (next_body_short _ n) by done. split; [done|]. split; [done|]. intros ->.
    rewrite app_nil_r in E. rewrite E, length_app, Hl in Hs. lia.
  - rewrite (next_body_full _ n) by (done || lia).
    apply app_split in E as [E1 E2]; [|lia]. rewrite Hl, Hm in E1, E2.
    rewrite E1, decrypt_encrypt. split; [done|]. exists ms'. split; [done|].
    unfold awaits. cbn. exact E2.
Qed.

Lemma next_message_pops t rest ms :
  Forall sendable ms -> awaits t rest ms -> pops (next_message t) (t_send t) rest ms.
Proof.
  intros Hms Ha. destruct (t_pending_len t) as [n|] eqn:Hp.
  { rewrite (next_message_pending _ _ Hp). by apply (next_body_pops _ n). }
  pose proof Ha as Ha'. unfold awaits in Ha. rewrite Hp in Ha.
  destruct (decide (length (t_buffer t) < 18)%nat) as [Hs|Hs].
  - rewrite next_message_short by done. split; [done|]. split; [done|]. intros ->.
    destruct ms as [|m ms]; [done|]. rewrite app_nil_r in Ha. cbn [frames] in Ha.
    rewrite Ha, length_app, length_frame in Hs. lia.
  - destruct ms as [|m ms].
    { cbn in Ha. apply app_eq_nil in Ha as [Ha _]. rewrite Ha in Hs. cbn in Hs. lia. }
    apply Forall_cons in Hms as [Hm Hms]. unfold sendable, MAX_MSG_LEN in Hm.
    rewrite next_message_full by first [lia | assumption].
    cbn [frames] in Ha. unfold frame in Ha. rewrite <- !app_assoc in Ha.
    pose proof (length_aead_encrypt (cur_key (t_recv t)) (cur_nonce (t_recv t)) []
      (be_bytes 2 (Z.of_nat (length m)))) as Hl. rewrite length_be_bytes in Hl. cbn [Nat.add] in Hl.
    apply app_split in Ha as [E1 E2]; [|lia]. rewrite Hl in E1, E2.
    rewrite E1, decrypt_encrypt.
    assert (Hb : Z.to_nat (of_be (be_bytes 2 (Z.of_nat (length m)))) = length m).
    { rewrite (of_be_be_bytes_id 2 16); [lia|reflexivity|unfold uint; lia]. }
    rewrite Hb.
    match goal with |- pops (next_body ?t') _ _ _ =>
      apply (next_body_pops t' (length m)); [done|] end.
    exists m, ms. split; [reflexivity|]. split; [reflexivity|]. exact E2.
Qed.

(** On any input: no panic, and a message uses up at least 16 bytes. *)
Lemma next_message_progress t :
  match next_message t with
  | (Ok (Some _), t') => (length (t_buffer t') + 16 <= length (t_buffer t))%nat
  | (Panic, _) => False
  | _ => True
  end.
Proof.
  assert (Hb : forall t n, t_pending_len t = Some n ->
    match next_body t with
    | (Ok (Some _), t') => (length (t_buffer t') + 16 <= length (t_buffer t))%nat
    | (Panic, _) => False
    | _ => True
    end).
  { intros t' n Hp. destruct (decide (length (t_buffer t') < n + 16)%nat).
    - by rewrite (next_body_short _ n).
    - rewrite (next_body_full _ n) by (done || lia).
      destruct (aead_decrypt _ _ _ _) eqn:E; [|done|by apply decrypt_not_panic in E].
      cbn. rewrite length_drop. lia. }
  destruct (t_pending_len t) as [n|] eqn:Hp.
  { rewrite (next_message_pending _ _ Hp). by apply (Hb _ n). }
  destruct (decide (length (t_buffer t) < 18)%nat); [by rewrite next_message_short|].
  rewrite next_message_full by first [lia | assumption].
  destruct (aead_decrypt _ _ _ _) as [lb| |] eqn:E; [|done|by apply decrypt_not_panic in E].
  pose proof (Hb {| t_send := t_send t; t_recv := advance (t_recv t);
    t_buffer := drop 18 (t_buffer t); t_pending_len := Some (Z.to_nat (of_be lb)) |} _ eq_refl) as H.
  destruct (next_body _) as [[[m|]| |] t']; try done.
  cbn [t_buffer] in H. rewrite length_drop in H. lia.
Qed.

Lemma next_message_frame t m rest :
  t_pending_len t = None -> t_buffer t = frame (t_recv t) m ++ rest -> sendable m ->
  next_message t = (Ok (Some m), {| t_send := t_send t; t_recv := after_frame (t_recv t);
    t_buffer := rest; t_pending_len := None |}).
Proof.
  intros Hp Hb Hm. unfold sendable, MAX_MSG_LEN in Hm. unfold frame in Hb.
  rewrite <- app_assoc in Hb.
  pose proof (length_aead_encrypt (cur_key (t_recv t)) (cur_nonce (t_recv t)) []
    (be_bytes 2 (Z.of_nat (length m)))) as Hl1. rewrite length_be_bytes in Hl1.
  pose proof (length_aead_encrypt (cur_key (advance (t_recv t))) (cur_nonce (advance (t_recv t))) [] m)
    as Hl2.
  rewrite next_message_full; [|done|].
  2: { rewrite Hb, !length_app, Hl1. lia. }
  rewrite Hb, take_app_length', drop_app_length' by done. rewrite decrypt_encrypt.
  rewrite (of_be_be_bytes_id 2 16) by first [reflexivity | unfold uint; lia]. rewrite Nat2Z.id.
  rewrite (next_body_full _ (length m)); [|reflexivity|cbn [t_buffer]; rewrite length_app, Hl2; lia].
  cbn [t_buffer t_recv t_send]. rewrite take_app_length', drop_app_length' by done.
  rewrite decrypt_encrypt. reflexivity.
Qed.

(** [C18] [next_message] returns a message exactly when the buffer starts with
    the frame its sender makes for that message in the current cipher state:
    18 bytes of sealed length and the sealed body.  The frame leaves the
    buffer and the receiving cipher moves on by its two operations, so a
    frame cannot be replayed, reordered or altered. *)
Theorem next_message_authentic t m t' :
  t_pending_len t = None -> bytes_ok (t_buffer t) ->
  next_message t = (Ok (Some m), t') <->
  exists rest, t_buffer t = frame (t_recv t) m ++ rest /\ sendable m /\
    t' = {| t_send := t_send t; t_recv := after_frame (t_recv t);
            t_buffer := rest; t_pending_len := None |}.
Proof.
  intros Hp Hok. split.
  - intros H. destruct (decide (length (t_buffer t) < 18)%nat) as [Hs|Hs].
    { by rewrite next_message_short in H. }
    rewrite next_message_full in H by (done || lia).
    destruct (aead_decrypt _ _ _ _) as [lb| |] eqn:E; [|done|done].
    assert (Hlb : bytes_ok lb) by (eapply aead_decrypt_ok, E; by apply Forall_take).
    apply decrypt_encrypt_iff in E.
    assert (Hl2 : length lb = 2%nat).
    { apply (f_equal length) in E. rewrite length_aead_encrypt, length_take in E. lia. }
    pose proof (of_be_uint 2 16 lb eq_refl Hl2 Hlb) as Hu.
    set (n := Z.to_nat (of_be lb)) in *.
    match type of H with next_body ?s = _ => set (t1 := s) in H end.
    destruct (decide (length (t_buffer t1) < n + 16)%nat) as [Hs'|Hs'].
    { by rewrite (next_body_short t1 n) in H. }
    rewrite (next_body_full t1 n) in H by (done || lia).
    destruct (aead_decrypt _ _ _ _) as [m'| |] eqn:E2; [|done|done].
    apply decrypt_encrypt_iff in E2.
    apply pair_equal_spec in H as [Hm <-]. apply Ok_inj in Hm. injection Hm as ->.
    assert (Hlm : length m = n).
    { apply (f_equal length) in E2. rewrite length_aead_encrypt, length_take in E2. lia. }
    exists (drop (n + 16) (t_buffer t1)). split_and!.
    + assert (En : Z.of_nat n = of_be lb) by (unfold n; rewrite Z2Nat.id; unfold uint in Hu; lia).
      unfold frame. rewrite Hlm, En.
      assert (El : be_bytes 2 (of_be lb) = lb) by (rewrite <- Hl2 at 1; by apply be_bytes_of_be).
      rewrite El, E, <- app_assoc.
      change (cur_key (advance (t_recv t))) with (cur_key (t_recv t1)).
      change (cur_nonce (advance (t_recv t))) with (cur_nonce (t_recv t1)).
      rewrite E2, take_drop. cbn [t1 t_buffer]. by rewrite take_drop.
    + unfold sendable, MAX_MSG_LEN. rewrite Hlm. unfold n, uint in *. lia.
    + reflexivity.
  - intros (rest & Hb & Hm & ->).
    by apply next_message_frame.
Qed.

(** ** Key rotation *)
Fixpoint epoch (k : nat) (s : CipherState) : bytes * bytes :=
  match k with
  | O => (cs_ck s, cs_key s)
  | S k => two_keys (epoch k s).1 (epoch k s).2
  end.

Fixpoint advances (n : nat) (s : CipherState) : CipherState :=
  match n with O => s | S n => advance (advances n s) end.

#[local] Transparent advance cur_key cur_nonce nonce_from_counter.

Lemma rotated_advances n s : cs_nonce s = 0 ->
  rotated (advances n s) = {| cs_key := (epoch (n / 1000) s).2; cs_ck := (epoch (n / 1000) s).1;
    cs_nonce := Z.of_nat (n mod 1000) |}.
Proof.
  intros H0. induction n as [|n IH].
  { unfold rotated. cbn [advances]. rewrite H0. destruct s. cbn in H0 |- *. by rewrite H0. }
  cbn [advances]. unfold advance. rewrite IH. unfold upd. cbn -[Nat.div Nat.modulo].
  pose proof (Nat.mod_upper_bound n 1000). pose proof (Nat.div_mod_eq n 1000).
  rewrite wrap_small by (unfold uint; lia). unfold rotated, KEY_ROTATION_INTERVAL.
  cbn [cs_nonce cs_key cs_ck].
  destruct (Z.eqb_spec (Z.of_nat (n mod 1000) + 1) 1000) as [Hr|Hr].
  - assert (S n / 1000 = S (n / 1000))%nat as -> by (symmetry; apply (Nat.div_unique _ _ _ 0); lia).
    assert (S n mod 1000 = 0)%nat as -> by (symmetry; apply (Nat.mod_unique _ _ (S (n / 1000))); lia).
    reflexivity.
  - assert (S n / 1000 = n / 1000)%nat as ->
      by (symmetry; apply (Nat.div_unique _ _ _ (S (n mod 1000))); lia).
    assert (S n mod 1000 = S (n mod 1000))%nat as ->
      by (symmetry; apply (Nat.mod_unique _ _ (n / 1000)); lia).
    f_equal. lia.
Qed.

Lemma le_bytes_inj n a b : 0 <= a < 256 ^ Z.of_nat n -> 0 <= b < 256 ^ Z.of_nat n ->
  le_bytes n a = le_bytes n b -> a = b.
Proof.
  intros Ha Hb E. apply (f_equal of_le) in E. rewrite !of_le_le_bytes in E.
  by rewrite !Z.mod_small in E by lia.
Qed.

(** [C20] The key schedule of one direction: the [n]th cipher operation uses
    nonce [n mod 1000] under the key of epoch [n / 1000], each epoch's chaining
    key and key being HKDF of the previous ones; so two operations of the same
    epoch never share a nonce, and the counter is far from wrapping. *)
Theorem key_schedule s n : cs_nonce s = 0 ->
  process (advances n s) =
    Ok ((epoch (n / 1000) s).2, nonce_from_counter (Z.of_nat (n mod 1000)), advances (S n) s) /\
  (forall m, (n / 1000 = m / 1000)%nat ->
     nonce_from_counter (Z.of_nat (n mod 1000)) = nonce_from_counter (Z.of_nat (m mod 1000)) ->
     n = m).
Proof.
  intros H0. split.
  - rewrite process_eq. unfold cur_key, cur_nonce. by rewrite rotated_advances.
  - intros m Hd Hn. unfold nonce_from_counter in Hn. apply (inj (app _)) in Hn.
    pose proof (Nat.mod_upper_bound n 1000). pose proof (Nat.mod_upper_bound m 1000).
    apply le_bytes_inj in Hn; [|lia|lia].
    rewrite (Nat.div_mod_eq n 1000), (Nat.div_mod_eq m 1000). lia.
Qed.

Lemma key_schedule_witness :
  exists s, cs_nonce s = 0 /\
    process (advances 1001 s) =
      Ok ((epoch 1 s).2, nonce_from_counter 1, advances 1002 s).
Proof.
  exists {| cs_key := []; cs_ck := []; cs_nonce := 0 |}. split; [reflexivity|].
  exact (proj1 (key_schedule {| cs_key := []; cs_ck := []; cs_nonce := 0 |} 1001 eq_refl)).
Defined.

(** A frame is read back by a mirror image. *)
Lemma next_message_authentic_witness :
  let s := {| cs_key := replicate 32 1; cs_ck := replicate 32 2; cs_nonce := 0 |} in
  let t := {| t_send := s; t_recv := s; t_buffer := frame s [7; 8]; t_pending_len := None |} in
  exists t', next_message t = (Ok (Some [7; 8]), t').
Proof.
  cbv zeta. eexists. apply next_message_authentic; [reflexivity| |].
  - apply Forall_app; split; apply aead_encrypt_ok; [apply be_bytes_ok|].
    by apply (bool_decide_unpack _).
  - exists []. split; [by rewrite app_nil_r|]. split; [by apply Z.leb_le|reflexivity].
Defined.
