(* ===== verification/Peer.v ===== *)
(** * Peer: one connection (src/src/node/peer.rs)

    Drives the handshake of Noise from a byte stream and then hands out whole
    messages.  [input] is the whole method; its loop is given fuel 3, which is
    enough because every pass but the last moves on to [Ready].  The theorem
    composes it with Noise: however the stream is cut into reads, both ends
    finish the handshake and every message arrives once, in order. *)
From S2P Require Import Prelude Secp Features Aead Noise.

(** Bytes to write back, and decrypted messages. *)
Abbreviation PeerInput := (list bytes * list bytes)%type.

Section Peer.
Context `{S : Secp}.

Inductive PeerTransport : Type :=
  | OutboundHandshake (i : Initiator)
  | InboundHandshake (r : Responder)
  | Ready (t : Transport)
  | Poisoned.

Record Peer := {
  p_transport : PeerTransport;
  p_handshake_buf : bytes;
  p_node_id : option PublicKey;
  p_init_sent : bool;
  p_init_received : bool;
  p_features : bytes;
  p_expected_node_id : option PublicKey;
  p_last_ping_sent_at : Z;
  p_awaiting_pong : bool;
}.
#[export] Instance eta_Peer : Eta Peer := fun p =>
  {| p_transport := p_transport p; p_handshake_buf := p_handshake_buf p;
     p_node_id := p_node_id p; p_init_sent := p_init_sent p;
     p_init_received := p_init_received p; p_features := p_features p;
     p_expected_node_id := p_expected_node_id p;
     p_last_ping_sent_at := p_last_ping_sent_at p; p_awaiting_pong := p_awaiting_pong p |}.

Definition new_outbound (initiator : Initiator) (remote : PublicKey) : Peer := {|
  p_transport := OutboundHandshake initiator;
  p_handshake_buf := [];
  p_node_id := Some remote;
  p_init_sent := false;
  p_init_received := false;
  p_features := Features.empty;
  p_expected_node_id := Some remote;
  p_last_ping_sent_at := 0;
  p_awaiting_pong := false;
|}.

Definition new_inbound (responder : Responder) : Peer := {|
  p_transport := InboundHandshake responder;
  p_handshake_buf := [];
  p_node_id := None;
  p_init_sent := false;
  p_init_received := false;
  p_features := Features.empty;
  p_expected_node_id := None;
  p_last_ping_sent_at := 0;
  p_awaiting_pong := false;
|}.

Definition is_ready (p : Peer) : bool :=
  match p_transport p with Ready _ => true | _ => false end && p_init_sent p && p_init_received p.

Definition handshake_acted_one (p : Peer) : bool :=
  match p_transport p with InboundHandshake r => acted_one r | _ => true end.

(** [while let Some(msg) = transport.next_message()? { messages.push(msg) }]. *)
Fixpoint drain (fuel : nat) (t : Transport) : result NoiseError (list bytes) * Transport :=
  match fuel with
  | O => (Panic, t)
  | Datatypes.S fuel =>
    match next_message t with
    | (Ok (Some msg), t) =>
      match drain fuel t with
      | (Ok msgs, t) => (Ok (msg :: msgs), t)
      | r => r
      end
    | (Ok None, t) => (Ok [], t)
    | (Err e, t) => (Err e, t)
    | (Panic, t) => (Panic, t)
    end
  end.

Definition input_ready (data : bytes) (to_send : list bytes) (t : Transport)
    : stm Peer NoiseError PeerInput := fun p =>
  let t := read_input data t in
  match drain (Datatypes.S (length (t_buffer t))) t with
  | (Ok msgs, t) => (Ok (to_send, msgs), p <| p_transport := Ready t |>)
  | (Err e, t) => (Err e, p <| p_transport := Ready t |>)
  | (Panic, t) => (Panic, p <| p_transport := Ready t |>)
  end.

(** The first [n] bytes of the handshake buffer, and what is left. *)
Definition take_act (n : nat) : stm Peer NoiseError bytes := fun p =>
  (Ok (take n (p_handshake_buf p)), p <| p_handshake_buf := drop n (p_handshake_buf p) |>).
Definition buf_short (n : nat) : stm Peer NoiseError bool :=
  gets (fun p => (length (p_handshake_buf p) <? n)%nat).
Definition set_transport (t : PeerTransport) : stm Peer NoiseError unit :=
  modify (fun p => p <| p_transport := t |>).

Definition input_outbound (again : list bytes -> stm Peer NoiseError PeerInput)
    (to_send : list bytes) (init : Initiator) : stm Peer NoiseError PeerInput :=
  short ← buf_short ACT_TWO_LEN;
  if (short : bool) then mret (to_send, [])
  else
    act2 ← take_act ACT_TWO_LEN;
    rest ← gets p_handshake_buf;
    _ ← modify (fun p => p <| p_handshake_buf := [] |>);
    _ ← set_transport Poisoned;
    let '(r, init) := i_act_two act2 init in
    act3 ← reads_self (fun _ => r);
    transport ← reads_self (fun _ => into_transport init);
    _ ← set_transport (Ready (read_input rest transport));
    again (to_send ++ [act3]).

Definition input_act_three (again : list bytes -> stm Peer NoiseError PeerInput)
    (to_send : list bytes) (resp : Responder) : stm Peer NoiseError PeerInput :=
  short ← buf_short ACT_THREE_LEN;
  if (short : bool) then mret (to_send, [])
  else
    act3 ← take_act ACT_THREE_LEN;
    rest ← gets p_handshake_buf;
    _ ← modify (fun p => p <| p_handshake_buf := [] |>);
    _ ← set_transport Poisoned;
    '(remote_id, transport) ← reads_self (fun _ => r_act_three resp act3);
    _ ← modify (fun p => p <| p_node_id := Some remote_id |>);
    _ ← set_transport (Ready (read_input rest transport));
    again to_send.

Definition input_inbound (again : list bytes -> stm Peer NoiseError PeerInput)
    (to_send : list bytes) (resp : Responder) : stm Peer NoiseError PeerInput :=
  acted ← gets handshake_acted_one;
  if (acted : bool) then input_act_three again to_send resp
  else
    short ← buf_short ACT_ONE_LEN;
    if (short : bool) then mret (to_send, [])
    else
      act1 ← take_act ACT_ONE_LEN;
      _ ← set_transport Poisoned;
      let '(r, resp) := r_act_one act1 resp in
      act2 ← reads_self (fun _ => r);
      _ ← set_transport (InboundHandshake resp);
      input_act_three again (to_send ++ [act2]) resp.

Fixpoint input_loop (fuel : nat) (data : bytes) (to_send : list bytes)
    : stm Peer NoiseError PeerInput :=
  match fuel with
  | O => fun p => (Panic, p)
  | Datatypes.S fuel =>
    transport ← gets p_transport;
    match transport with
    | OutboundHandshake init =>
      _ ← modify (fun p => p <| p_handshake_buf := p_handshake_buf p ++ data |>);
      input_outbound (input_loop fuel []) to_send init
    | InboundHandshake resp =>
      _ ← modify (fun p => p <| p_handshake_buf := p_handshake_buf p ++ data |>);
      input_inbound (input_loop fuel []) to_send resp
    | Ready t => input_ready data to_send t
    | Poisoned => fun p => (Panic, p)
    end
  end.

Definition input (data : bytes) : stm Peer NoiseError PeerInput := input_loop 3 data [].

Definition encrypt (plaintext : bytes) : stm Peer NoiseError bytes := fun p =>
  match p_transport p with
  | Ready t =>
    let '(r, t) := encrypt_message plaintext t in (r, p <| p_transport := Ready t |>)
  | _ => (Err WrongState, p)
  end.

Lemma input_loop_S fuel data sent p :
  input_loop (Datatypes.S fuel) data sent p =
    let q := p <| p_handshake_buf := p_handshake_buf p ++ data |> in
    match p_transport p with
    | OutboundHandshake i => input_outbound (input_loop fuel []) sent i q
    | InboundHandshake r => input_inbound (input_loop fuel []) sent r q
    | Ready t => input_ready data sent t p
    | Poisoned => (Panic, p)
    end.
Proof.
  cbn [input_loop]. unfold gets at 1, mbind at 1, stm_bind at 1. by destruct (p_transport p).
Qed.

(** ** Draining *)
Lemma drain_awaits fuel t rest ms :
  (length (t_buffer t) < fuel)%nat -> Forall sendable ms -> awaits t rest ms ->
  exists ms1 ms2 t', drain fuel t = (Ok ms1, t') /\ ms = ms1 ++ ms2 /\
    awaits t' rest ms2 /\ (rest = [] -> ms2 = []) /\ t_send t' = t_send t.
Proof.
  revert t ms. induction fuel as [|fuel IH]; intros t ms Hf Hms Ha; [lia|].
  pose proof (next_message_progress t) as Hp. pose proof (next_message_pops t rest ms Hms Ha) as [Hsd Hq].
  cbn [drain]. revert Hp Hq Hsd.
  destruct (next_message t) as [[[m|]| |] t']; cbn [fst snd]; intros Hp Hq Hsd; try done.
  - destruct Hq as (ms' & -> & Ha'). apply Forall_cons in Hms as [_ Hms].
    destruct (IH t' ms') as (ms1 & ms2 & t'' & -> & -> & Ha2 & Hr & Hs); [lia|done..|].
    exists (m :: ms1), ms2, t''. by rewrite Hs.
  - destruct Hq as [Ha' Hr]. by exists [], ms, t'.
Qed.

(** ** What a peer is still to receive *)
Definition fresh (t : Transport) (stream : bytes) (ms : list bytes) : Prop :=
  t_buffer t = [] /\ t_pending_len t = None /\ stream = frames (t_recv t) ms.

Lemma fresh_awaits t stream ms : fresh t stream ms -> awaits t stream ms.
Proof. intros (Hb & Hp & ->). unfold awaits. by rewrite Hp, Hb. Qed.

Definition expects_three (r : Responder) (wire : bytes) (id : option PublicKey)
    (sd : CipherState) (ms : list bytes) : Prop :=
  exists act3 pk t stream, length act3 = ACT_THREE_LEN /\ wire = act3 ++ stream /\
    r_act_three r act3 = Ok (pk, t) /\ id = Some pk /\ fresh t stream ms /\ t_send t = sd.

(** [p] with [rest] still on the wire is to write back [ts], hand out [ms]
    and know its peer as [id]. *)
Definition expects (p : Peer) (rest : bytes) (id : option PublicKey)
    (sd : CipherState) (ts ms : list bytes) : Prop :=
  match p_transport p with
  | Ready t => awaits t rest ms /\ ts = [] /\ p_node_id p = id /\ t_send t = sd
  | OutboundHandshake i => exists act2 act3 i' t stream, length act2 = ACT_TWO_LEN /\
      p_handshake_buf p ++ rest = act2 ++ stream /\ i_act_two act2 i = (Ok act3, i') /\
      into_transport i' = Ok t /\ fresh t stream ms /\ ts = [act3] /\
      p_node_id p = id /\ t_send t = sd
  | InboundHandshake r =>
    if acted_one r then expects_three r (p_handshake_buf p ++ rest) id sd ms /\ ts = []
    else exists act1 act2 r' wire, length act1 = ACT_ONE_LEN /\
      p_handshake_buf p ++ rest = act1 ++ wire /\ r_act_one act1 r = (Ok act2, r') /\
      acted_one r' = true /\ expects_three r' wire id sd ms /\ ts = [act2]
  | Poisoned => False
  end.

(** One read: it writes and hands out a prefix, all of it once the wire is
    empty. *)
Definition advances_to (r : result NoiseError PeerInput * Peer) (sent : list bytes)
    (rest : bytes) (id : option PublicKey) (sd : CipherState) (ts ms : list bytes) : Prop :=
  exists ts1 ts2 ms1 ms2, r.1 = Ok (sent ++ ts1, ms1) /\ ts = ts1 ++ ts2 /\ ms = ms1 ++ ms2 /\
    expects r.2 rest id sd ts2 ms2 /\
    (rest = [] -> ts2 = [] /\ ms2 = [] /\ exists t, p_transport r.2 = Ready t).

Ltac run_peer :=
  unfold buf_short, take_act, set_transport, gets, modify, reads_self, mbind, stm_bind, mret, stm_ret.

Section Delivery.
Context (rest : bytes) (id : option PublicKey) (sd : CipherState) (ms : list bytes) (Hms : Forall sendable ms).

Lemma input_ready_advances data sent t p :
  awaits t (data ++ rest) ms -> p_node_id p = id -> t_send t = sd ->
  advances_to (input_ready data sent t p) sent rest id sd [] ms.
Proof using Hms.
  intros Ha Hid Hsd. apply awaits_read in Ha. unfold input_ready.
  destruct (drain_awaits _ _ _ _ (Nat.lt_succ_diag_r _) Hms Ha)
    as (ms1 & ms2 & t' & -> & -> & Ha' & Hr & Hs).
  exists [], [], ms1, ms2. rewrite app_nil_r. split_and!; try done.
  - unfold expects, upd. cbn. split_and!; [done..|]. by rewrite Hs.
  - intros E. split_and!; [done|auto|]. by eexists.
Qed.

(** The loop at [Ready] with the bytes that followed the handshake. *)
Lemma loop_ready_advances fuel sent t buf stream p :
  fresh t stream ms -> stream = buf ++ rest -> p_transport p = Ready (read_input buf t) ->
  p_node_id p = id -> t_send t = sd ->
  advances_to (input_loop (Datatypes.S fuel) [] sent p) sent rest id sd [] ms.
Proof using Hms.
  intros Hf Hs Hp Hid Hsd. cbn [input_loop]. unfold gets at 1, mbind, stm_bind. rewrite Hp.
  apply input_ready_advances; [|done..]. apply awaits_read. cbn [app].
  apply fresh_awaits. by rewrite <- Hs.
Qed.

(** [p ++ rest = act ++ tail] with the whole act in the buffer. *)
Lemma act_arrived (buf act tail : bytes) n : length act = n ->
  buf ++ rest = act ++ tail -> (n <= length buf)%nat ->
  take n buf = act /\ tail = drop n buf ++ rest.
Proof using Type.
  intros <- E Hl. apply app_split in E as [E1 E2]; [|done]. split; [done|congruence].
Qed.
Lemma act_pending (buf act tail : bytes) n : length act = n ->
  buf ++ rest = act ++ tail -> (length buf < n)%nat -> rest <> [].
Proof using Type.
  intros <- E Hl ->. rewrite app_nil_r in E. rewrite E, length_app in Hl. lia.
Qed.

Lemma input_act_three_advances fuel sent r p :
  p_transport p = InboundHandshake r -> acted_one r = true ->
  expects_three r (p_handshake_buf p ++ rest) id sd ms ->
  advances_to (input_act_three (input_loop (Datatypes.S fuel) []) sent r p) sent rest id sd [] ms.
Proof using Hms.
  intros Hp Ha (act3 & pk & t & stream & Hl & E & Hr & Hid & Hf & Hsd).
  unfold input_act_three. run_peer.
  destruct (Nat.ltb_spec (length (p_handshake_buf p)) ACT_THREE_LEN) as [Hs|Hs].
  - exists [], [], [], ms. rewrite app_nil_r. split_and!; try done.
    + unfold expects. cbn [snd]. rewrite Hp, Ha. split; [|done]. by exists act3, pk, t, stream.
    + intros Hn. by eapply act_pending in Hs.
  - destruct (act_arrived _ _ _ _ Hl E Hs) as [-> ->]. rewrite Hr.
    eapply loop_ready_advances; try done. 
Qed.

Lemma input_inbound_advances fuel sent r p ts :
  p_transport p = InboundHandshake r -> expects p rest id sd ts ms ->
  advances_to (input_inbound (input_loop (Datatypes.S fuel) []) sent r p) sent rest id sd ts ms.
Proof using Hms.
  intros Hp He. unfold expects in He. rewrite Hp in He.
  unfold input_inbound, handshake_acted_one, gets at 1, mbind at 1, stm_bind at 1.
  rewrite Hp. destruct (acted_one r) eqn:Ha.
  { destruct He as [He ->]. by apply input_act_three_advances. }
  destruct He as (act1 & act2 & r' & wire & Hl & E & Hr & Ha' & He & ->). run_peer.
  destruct (Nat.ltb_spec (length (p_handshake_buf p)) ACT_ONE_LEN) as [Hs|Hs].
  - exists [], [act2], [], ms. rewrite app_nil_r. split_and!; try done.
    + unfold expects. cbn [snd]. rewrite Hp, Ha. by exists act1, act2, r', wire.
    + intros Hn. by eapply act_pending in Hs.
  - destruct (act_arrived _ _ _ _ Hl E Hs) as [-> ->]. rewrite Hr.
    match goal with |- advances_to (input_act_three _ _ _ ?q) _ _ _ _ _ _ =>
      destruct (input_act_three_advances fuel (sent ++ [act2]) r' q)
        as (ts1 & ts2 & ms1 & ms2 & Er & Et & Em & He' & Hn); [done..|] end.
    symmetry in Et. apply app_eq_nil in Et as [-> ->]. rewrite app_nil_r in Er.
    by exists [act2], [], ms1, ms2.
Qed.

Lemma input_outbound_advances fuel sent i p ts :
  p_transport p = OutboundHandshake i -> expects p rest id sd ts ms ->
  advances_to (input_outbound (input_loop (Datatypes.S fuel) []) sent i p) sent rest id sd ts ms.
Proof using Hms.
  intros Hp He. pose proof He as He'. unfold expects in He. rewrite Hp in He.
  destruct He as (act2 & act3 & i' & t & stream & Hl & E & Hr & Ht & Hf & -> & Hid & Hsd).
  unfold input_outbound. run_peer.
  destruct (Nat.ltb_spec (length (p_handshake_buf p)) ACT_TWO_LEN) as [Hs|Hs].
  - exists [], [act3], [], ms. rewrite app_nil_r. split_and!; try done.
    intros Hn. by eapply act_pending in Hs.
  - destruct (act_arrived _ _ _ _ Hl E Hs) as [-> ->]. rewrite Hr, Ht.
    match goal with |- advances_to (input_loop _ _ _ ?q) _ _ _ _ _ _ =>
      destruct (loop_ready_advances fuel (sent ++ [act3]) t
        (drop ACT_TWO_LEN (p_handshake_buf p)) _ q Hf eq_refl)
        as (ts1 & ts2 & ms1 & ms2 & Er & Et & Em & He2 & Hn); [done..|] end.
    symmetry in Et. apply app_eq_nil in Et as [-> ->]. rewrite app_nil_r in Er.
    by exists [act3], [], ms1, ms2.
Qed.
End Delivery.

Lemma expects_feed p data rest id sd ts ms :
  match p_transport p with Ready _ => False | _ => True end ->
  expects p (data ++ rest) id sd ts ms ->
  expects (p <| p_handshake_buf := p_handshake_buf p ++ data |>) rest id sd ts ms.
Proof.
  destruct p. unfold expects, upd. cbn. destruct p_transport0; try done;
    intros _; by rewrite <- app_assoc.
Qed.

Lemma input_advances p data rest id sd ts ms : Forall sendable ms ->
  expects p (data ++ rest) id sd ts ms ->
  advances_to (input data p) [] rest id sd ts ms.
Proof.
  intros Hms He. unfold input. rewrite input_loop_S.
  destruct (p_transport p) as [i|r|t|] eqn:Hp.
  - apply input_outbound_advances; [done|by destruct p|]. apply expects_feed; [by rewrite Hp|done].
  - apply input_inbound_advances; [done|by destruct p|]. apply expects_feed; [by rewrite Hp|done].
  - unfold expects in He. rewrite Hp in He. destruct He as (Ha & -> & Hid & Hsd).
    by apply input_ready_advances.
  - unfold expects in He. by rewrite Hp in He.
Qed.

(** ** Sessions *)

(** The reads of one connection, in order, up to the first error. *)
Fixpoint feed (chunks : list bytes) (p : Peer) : result NoiseError PeerInput * Peer :=
  match chunks with
  | [] => (Ok ([], []), p)
  | data :: chunks =>
    match input data p with
    | (Ok (ts, ms), p) =>
      match feed chunks p with
      | (Ok (ts', ms'), p) => (Ok (ts ++ ts', ms ++ ms'), p)
      | r => r
      end
    | (Err e, p) => (Err e, p)
    | (Panic, p) => (Panic, p)
    end
  end.

Lemma expects_outbound p i act2 act3 i' t stream rest id sd ms :
  p_transport p = OutboundHandshake i -> length act2 = ACT_TWO_LEN ->
  rest = act2 ++ stream -> i_act_two act2 i = (Ok act3, i') -> into_transport i' = Ok t ->
  fresh t stream ms -> p_handshake_buf p = [] -> p_node_id p = id /\ t_send t = sd ->
  expects p rest id sd [act3] ms.
Proof.
  intros Hp Hl Hr E Et Hf Hb [Hid Hsd]. unfold expects. rewrite Hp, Hb.
  exists act2, act3, i', t, stream. auto 10.
Qed.

Lemma expects_inbound p r act1 act2 r' wire rest id sd ms :
  p_transport p = InboundHandshake r -> acted_one r = false /\ p_handshake_buf p = [] ->
  length act1 = ACT_ONE_LEN -> rest = act1 ++ wire -> r_act_one act1 r = (Ok act2, r') ->
  acted_one r' = true -> expects_three r' wire id sd ms ->
  expects p rest id sd [act2] ms.
Proof.
  intros Hp [Ha Hb] Hl Hr E Ha' He. unfold expects. rewrite Hp, Ha, Hb.
  exists act1, act2, r', wire. auto 10.
Qed.

(** A sender's messages, one [encrypt_message] after the other. *)
Fixpoint encrypt_all (ms : list bytes) : stm Transport NoiseError bytes :=
  match ms with
  | [] => mret []
  | m :: ms => x ← encrypt_message m; y ← encrypt_all ms; mret (x ++ y)
  end.

Lemma encrypt_all_Ok ms t stream t' :
  encrypt_all ms t = (Ok stream, t') -> stream = frames (t_send t) ms /\ Forall sendable ms.
Proof.
  revert t stream t'. induction ms as [|m ms IH]; intros t stream t' H.
  { injection H as <- _. done. }
  cbn [encrypt_all] in H. apply stm_bind_Ok in H as (x & t1 & E & H).
  rewrite encrypt_message_eq in E. case_decide as Hm; [|done].
  apply pair_equal_spec in E as [Ex <-]. apply Ok_inj in Ex as <-.
  apply stm_bind_Ok in H as (y & t2 & E & H). apply IH in E as [-> Hms].
  apply pair_equal_spec in H as [H _]. apply Ok_inj in H as <-.
  split; [|by constructor]. by destruct t.
Qed.

Lemma feed_advances chunks p id sd ts ms : Forall sendable ms -> chunks <> [] ->
  expects p (concat chunks) id sd ts ms ->
  exists p' t, feed chunks p = (Ok (ts, ms), p') /\ p_transport p' = Ready t /\
    p_node_id p' = id /\ t_send t = sd.
Proof.
  revert p ts ms. induction chunks as [|data chunks IH]; intros p ts ms Hms Hne He; [done|].
  destruct (input_advances _ _ _ _ _ _ _ Hms He)
    as (ts1 & ts2 & ms1 & ms2 & Er & -> & -> & He' & Hn).
  cbn [feed]. destruct (input data p) as [r q]. cbn in Er, He', Hn. subst r. cbn [app].
  apply Forall_app in Hms as [_ Hms].
  destruct (decide (chunks = [])) as [->|Hc].
  - destruct (Hn eq_refl) as (-> & -> & t & Ht). unfold expects in He'. rewrite Ht in He'.
    destruct He' as (_ & _ & Hid & Hsd). by exists q, t.
  - destruct (IH q ts2 ms2 Hms Hc He') as (p' & t & -> & Ht & Hid & Hsd). by exists p', t.
Qed.

(** Both ends of a session, from the handshake on. *)
Lemma session_run {L : SecpLaws S} ls rs ie re :
  exists act1 act2 act3 i1 ti tr,
    i_act_one (initiator_new ls (sk_public_key rs) ie) = (Ok act1, i1) /\ mirrored ti tr /\
    (forall ms stream tr' chunks,
       encrypt_all ms tr = (Ok stream, tr') -> concat chunks = act2 ++ stream ->
       exists p t, feed chunks (new_outbound i1 (sk_public_key rs)) = (Ok ([act3], ms), p) /\
         p_transport p = Ready t /\ p_node_id p = Some (sk_public_key rs) /\
         t_send t = t_send ti) /\
    (forall ms stream ti' chunks,
       encrypt_all ms ti = (Ok stream, ti') -> concat chunks = act1 ++ act3 ++ stream ->
       exists p t, feed chunks (new_inbound (responder_new rs re)) = (Ok ([act2], ms), p) /\
         p_transport p = Ready t /\ p_node_id p = Some (sk_public_key ls) /\
         t_send t = t_send tr).
Proof.
  destruct (handshake_run ls rs ie re) as (act1 & act2 & act3 & i1 & i2 & r1 & ti & tr &
    E1 & E2 & Ha & E3 & Et & E4 & L1 & L2 & L3 & [M1 M2] & Bi & Br & Pi & Pr).
  exists act1, act2, act3, i1, ti, tr. split; [exact E1|]. split; [split; [exact M1|exact M2]|]. split.
  - intros ms stream tr' chunks He Hc. apply encrypt_all_Ok in He as [-> Hms].
    apply feed_advances; [exact Hms| |].
    { intros ->. cbn in Hc. destruct act2; [discriminate L2|discriminate Hc]. }
    apply (expects_outbound _ i1 act2 act3 i2 ti (frames (t_send tr) ms));
      [reflexivity|exact L2|exact Hc|exact E3|exact Et| |reflexivity|split; reflexivity].
    split; [exact Bi|]. split; [exact Pi|]. rewrite M2. reflexivity.
  - intros ms stream ti' chunks He Hc. apply encrypt_all_Ok in He as [-> Hms].
    apply feed_advances; [exact Hms| |].
    { intros ->. cbn in Hc. destruct act1; [discriminate L1|discriminate Hc]. }
    apply (expects_inbound _ (responder_new rs re) act1 act2 r1 (act3 ++ frames (t_send ti) ms));
      [reflexivity|split; reflexivity|exact L1|exact Hc|exact E2|exact Ha|].
    exists act3, (sk_public_key ls), tr, (frames (t_send ti) ms).
    split; [exact L3|]. split; [reflexivity|]. split; [exact E4|]. split; [reflexivity|].
    split; [|reflexivity]. split; [exact Br|]. split; [exact Pr|]. rewrite M1. reflexivity.
Qed.

(** [C17] A whole session, for any keys: both ends finish the handshake over
    their byte streams and every message the other side encrypts is handed out
    exactly once and in order, however the bytes are cut into reads (inside
    an act, a length prefix or a body, or several frames at once); each end
    writes exactly its act and ends up [Ready] knowing the peer's key. *)
Theorem session_delivery {L : SecpLaws S} ls rs ie re :
  exists act1 act2 act3 i1 ti tr,
    i_act_one (initiator_new ls (sk_public_key rs) ie) = (Ok act1, i1) /\ mirrored ti tr /\
    (forall ms stream tr' chunks,
       encrypt_all ms tr = (Ok stream, tr') -> concat chunks = act2 ++ stream ->
       exists p t, feed chunks (new_outbound i1 (sk_public_key rs)) = (Ok ([act3], ms), p) /\
         p_transport p = Ready t /\ p_node_id p = Some (sk_public_key rs) /\
         t_send t = t_send ti) /\
    (forall ms stream ti' chunks,
       encrypt_all ms ti = (Ok stream, ti') -> concat chunks = act1 ++ act3 ++ stream ->
       exists p t, feed chunks (new_inbound (responder_new rs re)) = (Ok ([act2], ms), p) /\
         p_transport p = Ready t /\ p_node_id p = Some (sk_public_key ls) /\
         t_send t = t_send tr).
Proof. apply session_run. Qed.
Lemma drain_not_panic fuel t : (length (t_buffer t) < fuel)%nat -> (drain fuel t).1 <> Panic.
Proof using Type.
  revert t. induction fuel as [|fuel IH]; intros t Hf; [lia|].
  cbn [drain]. pose proof (next_message_progress t) as Hp.
  revert Hp. destruct (next_message t) as [[[m|]| |] t']; intros Hp; try done.
  specialize (IH t'). destruct (drain fuel t') as [[ms| |] t'']; try done.
  intros _. apply IH; [lia|done].
Qed.

Lemma input_ready_not_panic data sent t p : (input_ready data sent t p).1 <> Panic.
Proof using Type.
  unfold input_ready.
  pose proof (drain_not_panic _ (read_input data t) (Nat.lt_succ_diag_r _)) as H.
  by destruct (drain _ _) as [[ms| |] t'].
Qed.

(** An error leaves a transport that is [Poisoned], or [Ready] when the
    handshake was over. *)
Definition settled (r : result NoiseError PeerInput * Peer) : Prop :=
  r.1 <> Panic /\
  (is_ok r.1 = false -> p_transport r.2 = Poisoned \/ exists t, p_transport r.2 = Ready t) /\
  (is_ok r.1 = true -> p_transport r.2 <> Poisoned).

Lemma input_ready_settled data sent t p : settled (input_ready data sent t p).
Proof using Type.
  split; [apply input_ready_not_panic|]. unfold input_ready.
  destruct (drain _ _) as [[ms| |] t']; cbn; split; intros; try done; right; by eexists.
Qed.

Lemma loop_ready_settled fuel sent p t :
  p_transport p = Ready t -> settled (input_loop (Datatypes.S fuel) [] sent p).
Proof using Type. intros Hp. rewrite input_loop_S, Hp. apply input_ready_settled. Qed.

Lemma input_act_three_settled fuel sent r p :
  p_transport p = InboundHandshake r ->
  settled (input_act_three (input_loop (Datatypes.S fuel) []) sent r p).
Proof using Type.
  intros Hp. unfold input_act_three. run_peer.
  destruct (Nat.ltb_spec (length (p_handshake_buf p)) ACT_THREE_LEN) as [Hs|Hs].
  { unfold settled. cbn. by rewrite Hp. }
  pose proof (r_act_three_not_panic r (take ACT_THREE_LEN (p_handshake_buf p))) as Hn.
  destruct (r_act_three _ _) as [[pk t]|e|]; [|by split_and!; [|left|]|done].
  by eapply loop_ready_settled.
Qed.

Lemma input_outbound_settled fuel sent i p :
  p_transport p = OutboundHandshake i ->
  settled (input_outbound (input_loop (Datatypes.S fuel) []) sent i p).
Proof using Type.
  intros Hp. unfold input_outbound. run_peer.
  destruct (Nat.ltb_spec (length (p_handshake_buf p)) ACT_TWO_LEN) as [Hs|Hs].
  { unfold settled. cbn. by rewrite Hp. }
  pose proof (i_act_two_not_panic i (take ACT_TWO_LEN (p_handshake_buf p))) as Hn.
  destruct (i_act_two _ i) as [[act3|e|] i']; [|by split_and!; [|left|]|done].
  rewrite into_transport_eq. destruct (i_done i'); [|by split_and!; [|left|]].
  by eapply loop_ready_settled.
Qed.

Lemma input_inbound_settled fuel sent r p :
  p_transport p = InboundHandshake r ->
  settled (input_inbound (input_loop (Datatypes.S fuel) []) sent r p).
Proof using Type.
  intros Hp. unfold input_inbound, handshake_acted_one, gets at 1, mbind at 1, stm_bind at 1.
  rewrite Hp. destruct (acted_one r); [by apply input_act_three_settled|]. run_peer.
  destruct (Nat.ltb_spec (length (p_handshake_buf p)) ACT_ONE_LEN) as [Hs|Hs].
  { unfold settled. cbn. by rewrite Hp. }
  pose proof (r_act_one_not_panic r (take ACT_ONE_LEN (p_handshake_buf p))) as Hn.
  destruct (r_act_one _ r) as [[act2|e|] r']; [|by split_and!; [|left|]|done].
  by apply input_act_three_settled.
Qed.

(** [input] never panics on a live connection, whatever bytes arrive; a
    success leaves it live.  An error in the handshake leaves the transport
    [Poisoned], and feeding that again is the [unreachable!] panic: the caller
    has to drop a peer whose input failed. *)
Theorem input_total p data more :
  match p_transport p with
  | Poisoned => (input data p).1 = Panic
  | _ => (input data p).1 <> Panic /\
      (is_ok (input data p).1 = true -> p_transport (input data p).2 <> Poisoned) /\
      (is_ok (input data p).1 = false ->
         (exists t, p_transport (input data p).2 = Ready t) \/
         (input more (input data p).2).1 = Panic)
  end.
Proof using Type.
  assert (Hs : p_transport p <> Poisoned -> settled (input data p)).
  { intros Hp. unfold input. rewrite input_loop_S. destruct (p_transport p) eqn:E.
    - apply input_outbound_settled. by destruct p.
    - apply input_inbound_settled. by destruct p.
    - apply input_ready_settled.
    - done. }
  assert (Hd : forall q b, p_transport q = Poisoned -> (input b q).1 = Panic).
  { intros q b Hq. unfold input. by rewrite input_loop_S, Hq. }
  destruct (p_transport p) eqn:Hp; [..|by apply Hd].
  all: destruct Hs as (H1 & H2 & H3); [done|]; split_and!; [done|done|];
    intros H; destruct (H2 H) as [Hq|Hq]; [right; by apply Hd|by left].
Qed.
End Peer.

Lemma session_delivery_witness :
  exists act1 i1, i_act_one (initiator_new (S := toy_secp) (toy_of 3)
    (sk_public_key (Secp := toy_secp) (toy_of 5)) (toy_of 7)) = (Ok act1, i1).
Proof.
  destruct (session_delivery (S := toy_secp) (toy_of 3) (toy_of 5) (toy_of 7) (toy_of 9))
    as (act1 & _ & _ & i1 & _ & _ & E & _).
  by exists act1, i1.
Defined.

