(* ===== verification/Payload.v ===== *)
(** * Payload: hop payloads of payment onions (src/src/onion/payload.rs)

    [hop_decode] runs the record parser of Tlv and then the [match] on record
    types, one [set_record] per pass of the loop.  The theorem characterises
    what it accepts: the streams whose records of known types are the ones
    [hop_encode] writes. *)
From S2P Require Import Prelude Codec Ser Bigsize Tlv.

Record PaymentData := { payment_secret : bytes; total_msat : Z }.

Record HopPayload := {
  amt_to_forward : Z;
  outgoing_cltv_value : Z;
  short_channel_id : option Z;
  payment_data : option PaymentData;
  payment_metadata : option bytes;
}.

Definition hop_forward (amt cltv scid : Z) : HopPayload := {|
  amt_to_forward := amt;
  outgoing_cltv_value := cltv;
  short_channel_id := Some scid;
  payment_data := None;
  payment_metadata := None;
|}.

Definition final_hop (amt cltv : Z) (secret : bytes) (total : Z) : HopPayload := {|
  amt_to_forward := amt;
  outgoing_cltv_value := cltv;
  short_channel_id := None;
  payment_data := Some {| payment_secret := secret; total_msat := total |};
  payment_metadata := None;
|}.

Definition payment_data_value (pd : PaymentData) : bytes :=
  payment_secret pd ++ write_tu64 (total_msat pd).

Definition hop_encode (p : HopPayload) : bytes :=
  let w := write_record 2 (write_tu64 (amt_to_forward p)) in
  let w := w ++ write_record 4 (write_tu32 (outgoing_cltv_value p)) in
  let w := match short_channel_id p with
    | Some scid => w ++ write_record 6 (be_bytes 8 scid)
    | None => w
    end in
  let w := match payment_data p with
    | Some pd => w ++ write_record 8 (payment_data_value pd)
    | None => w
    end in
  match payment_metadata p with
  | Some md => w ++ write_record 16 md
  | None => w
  end.

(** The local variables of [decode]. *)
Record HopFields := {
  f_amt : option Z;
  f_cltv : option Z;
  f_scid : option Z;
  f_payment_data : option PaymentData;
  f_payment_metadata : option bytes;
}.
#[export] Instance eta_HopFields : Eta HopFields := fun s =>
  {| f_amt := f_amt s; f_cltv := f_cltv s; f_scid := f_scid s;
     f_payment_data := f_payment_data s; f_payment_metadata := f_payment_metadata s |}.
Definition no_fields : HopFields :=
  {| f_amt := None; f_cltv := None; f_scid := None; f_payment_data := None;
     f_payment_metadata := None |}.

Definition set_record (s : HopFields) (rec : TlvRecord) : result WireError HopFields :=
  let t := typ rec in
  let v := value rec in
  if t =? 2 then x ← read_tu64 v; Ok (s <| f_amt := Some x |>)
  else if t =? 4 then x ← read_tu32 v; Ok (s <| f_cltv := Some x |>)
  else if t =? 6 then
    _ ← fail_if (negb (length v =? 8)%nat) (BadFormat "short_channel_id length");
    Ok (s <| f_scid := Some (of_be v) |>)
  else if t =? 8 then
    _ ← fail_if (length v <? 32)%nat (BadFormat "payment_data too short");
    let secret := take 32 v in
    total ← read_tu64 (drop 32 v);
    Ok (s <| f_payment_data := Some {| payment_secret := secret; total_msat := total |} |>)
  else if t =? 16 then Ok (s <| f_payment_metadata := Some v |>)
  else Ok s.

Fixpoint set_records (s : HopFields) (records : list TlvRecord) : result WireError HopFields :=
  match records with
  | [] => Ok s
  | rec :: records => s ← set_record s rec; set_records s records
  end.

Definition KNOWN : list Z := [2; 4; 6; 8; 16].

Definition hop_decode (payload : bytes) : result WireError HopPayload :=
  records ← parse_stream payload;
  _ ← check_unknown_even records KNOWN;
  s ← set_records no_fields records;
  amt ← ok_or (f_amt s) (BadFormat "missing amt_to_forward");
  cltv ← ok_or (f_cltv s) (BadFormat "missing outgoing_cltv");
  Ok {| amt_to_forward := amt; outgoing_cltv_value := cltv; short_channel_id := f_scid s;
        payment_data := f_payment_data s; payment_metadata := f_payment_metadata s |}.

(** ** Specification: the records of a payload *)
Definition opt_rec {A} (t : Z) (enc : A -> bytes) (o : option A) : list TlvRecord :=
  match o with Some a => [{| typ := t; value := enc a |}] | None => [] end.

Definition fields_records (s : HopFields) : list TlvRecord :=
  opt_rec 2 write_tu64 (f_amt s) ++ opt_rec 4 write_tu32 (f_cltv s) ++
  opt_rec 6 (be_bytes 8) (f_scid s) ++ opt_rec 8 payment_data_value (f_payment_data s) ++
  opt_rec 16 id (f_payment_metadata s).

Definition fields_of (p : HopPayload) : HopFields :=
  {| f_amt := Some (amt_to_forward p); f_cltv := Some (outgoing_cltv_value p);
     f_scid := short_channel_id p; f_payment_data := payment_data p;
     f_payment_metadata := payment_metadata p |}.

Definition hop_records (p : HopPayload) : list TlvRecord := fields_records (fields_of p).

Definition opt_ok {A} (P : A -> Prop) (o : option A) : Prop :=
  match o with Some a => P a | None => True end.
Definition payment_data_ok (pd : PaymentData) : Prop :=
  length (payment_secret pd) = 32%nat /\ bytes_ok (payment_secret pd) /\ u64 (total_msat pd).
Definition metadata_ok (md : bytes) : Prop := bytes_ok md /\ u64 (Z.of_nat (length md)).

Record fields_ok (s : HopFields) : Prop := {
  ok_amt : opt_ok (uint 64) (f_amt s);
  ok_cltv : opt_ok (uint 32) (f_cltv s);
  ok_scid : opt_ok (uint 64) (f_scid s);
  ok_payment_data : opt_ok payment_data_ok (f_payment_data s);
  ok_metadata : opt_ok metadata_ok (f_payment_metadata s);
}.
Definition payload_ok (p : HopPayload) : Prop := fields_ok (fields_of p).

Lemma hop_encode_records p : hop_encode p = encode_stream (hop_records p).
Proof.
  destruct p as [a c [s|] [pd|] [md|]]; unfold hop_encode, encode_stream, hop_records, fields_records;
    cbn [fields_of f_amt f_cltv f_scid f_payment_data f_payment_metadata opt_rec app map concat
         typ value id amt_to_forward outgoing_cltv_value short_channel_id payment_data
         payment_metadata];
    by rewrite ?app_nil_r, <- ?app_assoc.
Qed.

(** ** Records of other types are skipped *)
Definition known (r : TlvRecord) : Prop := typ r ∈ KNOWN.
#[export] Instance known_dec r : Decision (known r).
Proof. unfold known. apply _. Defined.

Lemma set_record_unknown s r : ~ known r -> set_record s r = Ok s.
Proof.
  intros Hk. unfold set_record. cbv zeta.
  assert (Hn : forall t, t ∈ KNOWN -> (typ r =? t) = false).
  { intros t Ht. apply Z.eqb_neq. intros E. apply Hk. unfold known. by rewrite E. }
  rewrite !Hn by (unfold KNOWN; set_solver). done.
Qed.

Lemma set_records_filter s records :
  set_records s records = set_records s (filter known records).
Proof.
  revert s. induction records as [|r records IH]; intros s; [done|].
  rewrite filter_cons. case_decide as Hk; cbn [set_records].
  - by destruct (set_record s r); cbn [mbind result_bind].
  - rewrite set_record_unknown by done. apply IH.
Qed.

Lemma set_records_app s l l' :
  set_records s (l ++ l') = (s ← set_records s l; set_records s l').
Proof.
  revert s. induction l as [|r l IH]; intros s; [done|]. cbn [app set_records].
  destruct (set_record s r); cbn [mbind result_bind]; [apply IH|done|done].
Qed.

(** ** One record read back *)
Lemma read_tu32_write c : u32 c -> read_tu32 (write_tu32 c) = Ok c.
Proof. apply read_tu32_tu16_write. Qed.

Lemma read_tu32_canonical bs c : bytes_ok bs ->
  read_tu32 bs = Ok c -> u32 c /\ bs = write_tu32 c.
Proof.
  intros Hok H. unfold read_tu32 in H. apply bind_Ok in H as (u & Hl & H).
  apply fail_if_Ok, Nat.ltb_ge in Hl. apply bind_Ok in H as (x & Hx & H). injection H as <-.
  apply read_tu64_spec in Hx as [Hx ->]; [|done].
  destruct (write_tu64_parts x Hx) as (Hb & _ & _ & Hv).
  pose proof (of_be_bound _ Hb) as Hbd. rewrite Hv in Hbd.
  assert (256 ^ Z.of_nat (length (write_tu64 x)) <= 256 ^ 4) by (apply Z.pow_le_mono_r; lia).
  assert (u32 x) by (unfold uint in *; lia). by rewrite wrap_small.
Qed.

Lemma read_tu64_write x : u64 x -> read_tu64 (write_tu64 x) = Ok x.
Proof. intros Hx. apply read_tu64_spec; [by apply write_tu64_parts|done]. Qed.

(** Each field, written and read back; [_inv]: what the field accepts. *)
Ltac pick_type := unfold set_record; cbn [typ value Z.eqb Pos.eqb].

Lemma set_amt s x : u64 x ->
  set_record s {| typ := 2; value := write_tu64 x |} = Ok (s <| f_amt := Some x |>).
Proof. intros Hx. pick_type. by rewrite read_tu64_write. Qed.
Lemma set_cltv s x : u32 x ->
  set_record s {| typ := 4; value := write_tu32 x |} = Ok (s <| f_cltv := Some x |>).
Proof. intros Hx. pick_type. by rewrite read_tu32_write. Qed.
Lemma set_scid s x : u64 x ->
  set_record s {| typ := 6; value := be_bytes 8 x |} = Ok (s <| f_scid := Some x |>).
Proof.
  intros Hx. pick_type. rewrite length_be_bytes. cbn. by rewrite (of_be_be_bytes_id 8 64).
Qed.
Lemma set_payment_data s pd : payment_data_ok pd ->
  set_record s {| typ := 8; value := payment_data_value pd |} = Ok (s <| f_payment_data := Some pd |>).
Proof.
  intros (Hl & Hb & Ht). pick_type. unfold payment_data_value.
  rewrite take_app_length', drop_app_length', length_app by done.
  rewrite (proj2 (Nat.ltb_ge _ _)) by lia. cbn [fail_if mbind result_bind].
  rewrite read_tu64_write by done. by destruct pd.
Qed.
Lemma set_metadata s md :
  set_record s {| typ := 16; value := md |} = Ok (s <| f_payment_metadata := Some md |>).
Proof. done. Qed.

(** Reading the records of [s] gives back [s]. *)
Lemma set_records_fields s : fields_ok s -> set_records no_fields (fields_records s) = Ok s.
Proof.
  intros [Ha Hc Hs Hp Hm]. unfold fields_records.
  destruct s as [a c sc pd md]. cbn in Ha, Hc, Hs, Hp, Hm.
  assert (E : forall A (P : A -> Prop) t (enc : A -> bytes) (setf : HopFields -> A -> HopFields) o s,
    (forall s x, P x -> set_record s {| typ := t; value := enc x |} = Ok (setf s x)) ->
    opt_ok P o -> set_records s (opt_rec t enc o) =
      Ok (match o with Some x => setf s x | None => s end)).
  { intros A P t enc setf [x|] s Hset Ho; [|done]. cbn. by rewrite Hset. }
  cbn [f_amt f_cltv f_scid f_payment_data f_payment_metadata].
  rewrite set_records_app, (E _ _ _ _ _ _ _ set_amt Ha). cbn [mbind result_bind].
  rewrite set_records_app, (E _ _ _ _ _ _ _ set_cltv Hc). cbn [mbind result_bind].
  rewrite set_records_app, (E _ _ _ _ _ _ _ set_scid Hs). cbn [mbind result_bind].
  rewrite set_records_app, (E _ _ _ _ _ _ _ set_payment_data Hp). cbn [mbind result_bind].
  rewrite (E _ (fun _ => True) _ _ _ _ _ (fun s x _ => set_metadata s x)); [|by destruct md].
  by destruct a, c, sc, pd, md.
Qed.

(** ** What the loop accepts *)
Lemma ascending_snoc last l r : ascending last (l ++ [r]) ->
  ascending last l /\ Forall (fun x => typ x < typ r) l /\ u64 (typ r) /\
  u64 (Z.of_nat (length (value r))).
Proof.
  revert last. induction l as [|x l IH]; intros last H.
  { cbn in H. naive_solver. }
  destruct H as (H1 & H2 & H3 & H). destruct (IH _ H) as (Hl & Hf & Hr).
  split; [done|]. split; [|done]. constructor; [|done].
  destruct l as [|y l]; [by destruct H|]. destruct H as [Hxy _].
  apply Forall_cons in Hf as [Hy _]. cbn in Hxy. lia.
Qed.

Lemma filter_ascending last l : ascending last l -> ascending last (filter known l).
Proof.
  intros H. assert (Hw : forall last last', match last', last with
      | Some a, Some b => a <= b | None, _ => True | Some _, None => False end ->
    forall l, ascending last l -> ascending last' l).
  { intros a b Hab [|r l0] Hl; [done|]. destruct Hl as (Hl & Hr). split; [|done].
    destruct a, b; try done. lia. }
  revert last H. induction l as [|r l IH]; intros last H; [done|].
  destruct H as (H1 & H2 & H3 & H). rewrite filter_cons. case_decide.
  - split_and!; try done. by apply IH.
  - apply IH. eapply Hw, H. destruct last; [lia|done].
Qed.

(** One more record, of a type above the fields already set. *)
Lemma set_record_snoc s r s' : fields_ok s -> known r -> bytes_ok (value r) ->
  u64 (Z.of_nat (length (value r))) ->
  Forall (fun x => typ x < typ r) (fields_records s) -> set_record s r = Ok s' ->
  fields_ok s' /\ fields_records s' = fields_records s ++ [r].
Proof.
  destruct r as [t v], s as [a c sc pd md]. unfold known, KNOWN, fields_records. cbn [typ value].
  cbn [f_amt f_cltv f_scid f_payment_data f_payment_metadata].
  intros [Ha Hc Hs Hp Hm] Hk Hok Hlen Hlt. cbn in Ha, Hc, Hs, Hp, Hm.
  rewrite !Forall_app in Hlt. destruct Hlt as (L1 & L2 & L3 & L4 & L5).
  assert (None_of : forall A (o : option A) (enc : A -> bytes) (n : Z),
    Forall (fun x => typ x < t) (opt_rec n enc o) -> t <= n -> o = None).
  { intros A [x|] enc n HF Hle; [|done]. apply Forall_cons in HF as [HF _]. cbn in HF. lia. }
  rewrite !elem_of_cons, elem_of_nil in Hk.
  destruct Hk as [->|[->|[->|[->|[->|[]]]]]];
    try (apply None_of in L1; [|lia]); try (apply None_of in L2; [|lia]);
    try (apply None_of in L3; [|lia]); try (apply None_of in L4; [|lia]);
    try (apply None_of in L5; [|lia]); subst; pick_type; intros H.
  - apply bind_Ok in H as (x & Hx & H). injection H as <-.
    apply read_tu64_spec in Hx as [Hx ->]; [|done]. done.
  - apply bind_Ok in H as (x & Hx & H). injection H as <-.
    apply read_tu32_canonical in Hx as [Hx ->]; [|done]. by destruct a.
  - apply bind_Ok in H as (u & Hl & H). injection H as <-.
    apply fail_if_Ok, negb_false_iff, Nat.eqb_eq in Hl.
    split; [split; try done; by apply (of_be_uint 8)|].
    unfold upd. cbn. rewrite <- Hl at 1. rewrite be_bytes_of_be by done. by destruct a, c.
  - apply bind_Ok in H as (u & Hl & H). apply fail_if_Ok, Nat.ltb_ge in Hl.
    apply bind_Ok in H as (x & Hx & H). injection H as <-.
    apply read_tu64_spec in Hx as [Hx Ev]; [|by apply Forall_drop].
    split; [split; try done; split_and!; cbn; [rewrite length_take; lia|by apply Forall_take|done]|].
    unfold upd. cbn. unfold payment_data_value. cbn. rewrite <- Ev, take_drop. by destruct a, c, sc.
  - injection H as <-. split; [by split|]. by destruct a, c, sc, pd.
Qed.

Lemma set_records_inv ks s : set_records no_fields ks = Ok s ->
  ascending None ks -> Forall known ks -> Forall (fun r => bytes_ok (value r)) ks ->
  fields_ok s /\ fields_records s = ks.
Proof.
  revert s. induction ks as [|r ks IH] using rev_ind; intros s H Hasc Hk Hb.
  { by injection H as <-. }
  rewrite set_records_app in H. apply bind_Ok in H as (s0 & H0 & H).
  cbn in H. apply bind_Ok in H as (s1 & H & E). injection E as <-.
  apply ascending_snoc in Hasc as (Hasc & Hlt & _ & Hlen).
  apply Forall_app in Hk as [Hk Hkr]. apply Forall_app in Hb as [Hb Hbr].
  apply Forall_cons in Hkr as [Hkr _]. apply Forall_cons in Hbr as [Hbr _].
  destruct (IH _ H0 Hasc Hk Hb) as [Hok <-]. by apply (set_record_snoc s0).
Qed.

Lemma encode_stream_ok records : bytes_ok (encode_stream records) ->
  Forall (fun r => bytes_ok (value r)) records.
Proof.
  induction records as [|r records IH]; [constructor|].
  rewrite encode_stream_cons, !Forall_app. intros (_ & _ & Hv & H). constructor; auto.
Qed.

Lemma fields_records_known s : Forall known (fields_records s).
Proof.
  unfold fields_records, known, KNOWN.
  destruct s as [[?|] [?|] [?|] [?|] [?|]]; cbn; repeat constructor; set_solver.
Qed.

Lemma hop_records_ascending p : payload_ok p -> ascending None (hop_records p).
Proof.
  intros [Ha Hc Hs Hp Hm]. unfold hop_records, fields_records. destruct p as [a c sc pd md].
  cbn in Ha, Hc, Hs, Hp, Hm.
  destruct (write_tu64_parts a Ha) as (_ & La & _).
  assert (u64 c) as Hc' by (eapply uint_mono; [|done]; lia).
  destruct (write_tu64_parts c Hc') as (_ & Lc & _). unfold write_tu32.
  assert (Lp : forall x, pd = Some x -> (length (payment_data_value x) <= 40)%nat).
  { intros x ->. destruct Hp as (Hl & _ & Ht). destruct (write_tu64_parts _ Ht) as (_ & Lt & _).
    unfold payment_data_value. rewrite length_app. lia. }
  destruct sc as [sc|], pd as [pd|], md as [md|]; cbn; try specialize (Lp _ eq_refl);
    rewrite ?length_be_bytes; destruct_and?; split_and!; try done; try (unfold uint; lia);
    try by destruct Hm.
Qed.

Lemma hop_decode_Ok data p : bytes_ok data ->
  hop_decode data = Ok p <->
  payload_ok p /\ exists records, ascending None records /\ data = encode_stream records /\
    Forall (fun r => typ r mod 2 = 0 -> known r) records /\ filter known records = hop_records p.
Proof.
  intros Hok. unfold hop_decode. split.
  - intros H. apply bind_Ok in H as (records & Hr & H).
    apply parse_loop_sound in Hr as [Hasc ->]; [|done].
    apply bind_Ok in H as ([] & Hc%check_unknown_even_Ok & H).
    apply bind_Ok in H as (s & Hs & H). apply bind_Ok in H as (a & Ha%ok_or_Ok & H).
    apply bind_Ok in H as (c & Hcl%ok_or_Ok & H). injection H as <-.
    rewrite set_records_filter in Hs. apply encode_stream_ok in Hok.
    apply set_records_inv in Hs as [Hf Hrec]; [|by apply filter_ascending| |].
    + assert (E : fields_of {| amt_to_forward := a; outgoing_cltv_value := c;
        short_channel_id := f_scid s; payment_data := f_payment_data s;
        payment_metadata := f_payment_metadata s |} = s) by (destruct s; cbn in *; by subst).
      unfold payload_ok, hop_records. rewrite E. split; [done|]. by exists records.
    + apply Forall_forall. intros r [Hk _]%list_elem_of_filter. done.
    + apply Forall_forall. intros r [_ Hin]%list_elem_of_filter.
      by apply (proj1 (Forall_forall _ _) Hok).
  - intros (Hp & records & Hasc & -> & Hc & Hf).
    unfold parse_stream. rewrite parse_loop_encode by (done || lia). cbn [mbind result_bind].
    rewrite (proj2 (check_unknown_even_Ok records KNOWN)) by done. cbn [mbind result_bind].
    rewrite set_records_filter, Hf. unfold hop_records. rewrite set_records_fields by done.
    by destruct p.
Qed.

Lemma encode_stream_bytes records :
  Forall (fun r => bytes_ok (value r) /\ u64 (typ r) /\ u64 (Z.of_nat (length (value r)))) records ->
  bytes_ok (encode_stream records).
Proof.
  assert (Hw : forall x, u64 x -> bytes_ok (Bigsize.write x)).
  { intros x Hx. unfold Bigsize.write, write_u8, write_u16, write_u32, write_u64, uint in *.
    repeat (case_match; [|]); try apply Forall_app; try split; try apply be_bytes_ok;
      repeat constructor; try lia; try apply wrap_uint; try lia. }
  induction 1 as [|r records (Hb & Ht & Hl) _ IH]; [constructor|].
  rewrite encode_stream_cons, !Forall_app. auto.
Qed.

Lemma fields_records_bytes s : fields_ok s ->
  Forall (fun r => bytes_ok (value r)) (fields_records s).
Proof.
  intros [Ha Hc Hs Hp Hm]. unfold fields_records. rewrite !Forall_app.
  assert (E : forall A (P : A -> Prop) t (enc : A -> bytes) o,
    (forall x, P x -> bytes_ok (enc x)) -> opt_ok P o ->
    Forall (fun r => bytes_ok (value r)) (opt_rec t enc o)).
  { intros A P t enc [x|] He Ho; [|done]. constructor; [by apply He|done]. }
  split_and!.
  - apply (E _ (uint 64)); [|done]. intros. by apply write_tu64_parts.
  - apply (E _ (uint 32)); [|done]. intros. apply write_tu64_parts. by eapply uint_mono with 32.
  - apply (E _ (uint 64)); [|done]. intros. apply be_bytes_ok.
  - apply (E _ payment_data_ok); [|done]. intros pd (_ & Hb & Ht).
    apply Forall_app. split; [done|]. by apply write_tu64_parts.
  - apply (E _ metadata_ok); [|done]. by intros md [Hb _].
Qed.

Lemma hop_encode_ok p : payload_ok p -> bytes_ok (hop_encode p).
Proof.
  intros Hp. rewrite hop_encode_records. apply encode_stream_bytes.
  pose proof (hop_records_ascending p Hp) as Ha. pose proof (fields_records_bytes _ Hp) as Hb.
  fold (hop_records p) in Hb. revert Ha Hb. generalize (@None Z). generalize (hop_records p).
  intros l. induction l as [|r l IH]; intros last Ha Hb; [constructor|].
  destruct Ha as (_ & Ht & Hl & Ha). apply Forall_cons in Hb as [Hr Hb].
  constructor; [done|]. by eapply IH.
Qed.

Lemma hop_decode_encode p : payload_ok p -> hop_decode (hop_encode p) = Ok p.
Proof.
  intros Hp. apply hop_decode_Ok; [by apply hop_encode_ok|]. split; [done|].
  exists (hop_records p). pose proof (fields_records_known (fields_of p)) as Hk.
  split_and!; [by apply hop_records_ascending|apply hop_encode_records| |].
  - eapply Forall_impl; [exact Hk|]. auto.
  - clear Hp. unfold hop_records. induction Hk as [|r l Hr _ IH]; [done|].
    rewrite filter_cons_True by done. by f_equal.
Qed.

(** Hop payloads: every payload in range is read back from its encoding,
    and a byte string decodes to [p] exactly when it is a TLV stream without
    unknown even types whose records of types 2, 4, 6, 8 and 16 are the ones
    [encode] writes for [p] (in particular amount and expiry are present and
    the integers are minimal); odd records of other types are ignored. *)
Theorem hop_payload_codec :
  (forall p, payload_ok p -> hop_decode (hop_encode p) = Ok p) /\
  (forall data p, bytes_ok data -> hop_decode data = Ok p <->
     payload_ok p /\ exists records, ascending None records /\ data = encode_stream records /\
       Forall (fun r => typ r mod 2 = 0 -> known r) records /\
       filter known records = hop_records p).
Proof. split; [exact hop_decode_encode|exact hop_decode_Ok]. Qed.

(** BOLT 4: the first payload of the onion vector. *)
Lemma hop_payload_codec_witness :
  let p := hop_forward 15000 1500 1 in
  hop_encode p = [2;2;0x3a;0x98;4;2;0x05;0xdc;6;8;0;0;0;0;0;0;0;1] /\
  hop_decode (hop_encode p) = Ok p.
Proof.
  cbv zeta. split; [reflexivity|]. apply (proj1 hop_payload_codec).
  split; cbn; unfold uint; try done; lia.
Defined.
