(* ===== verification/Onion.v ===== *)
(** * Onion: Sphinx packets (src/src/onion/mod.rs)

    Construction, peeling and the return path of errors.  [construct] is
    modelled with its filler loop and its loop over the hops from last to
    first; the proofs relate both loops to [build], a recursion along the
    route, from which peeling is immediate. *)
From S2P Require Import Prelude Codec Secp Ser Bigsize Sha256 Ripemd160 Hmac Chacha20.

Definition PAYLOADS_LEN : nat := 1300.
Definition PACKET_LEN : nat := 1 + 33 + PAYLOADS_LEN + 32.

Inductive OnionError : Type :=
  | InvalidVersion | InvalidPubkey | InvalidHmac | BadLength | BadPayload.

(** [b"rho"], [b"mu"], [b"um"], [b"pad"], [b"ammag"]. *)
Definition RHO : bytes := [114; 104; 111].
Definition MU : bytes := [109; 117].
Definition UM : bytes := [117; 109].
Definition PAD : bytes := [112; 97; 100].
Definition AMMAG : bytes := [97; 109; 109; 97; 103].

Definition generate_key (key_type secret : bytes) : bytes := hmac_sha256 key_type secret.
Definition cipher_stream (key : bytes) (len : nat) : bytes :=
  keystream key (replicate 12 0) 0 len.

Definition shift_size (payload_len : nat) : nat :=
  Bigsize.len (Z.of_nat payload_len) + payload_len + 32.

Definition ZERO32 : bytes := replicate 32 0.

(** [HmacSha256::new(key)], two [update]s, [finalize]. *)
Definition hmac2 (key a b : bytes) : bytes :=
  hmac_finalize (hmac_update (hmac_update (hmac_new key) a) b).

(** The first loop of [construct]: the filler, filled up to [covered]. *)
Fixpoint filler_loop (filler : bytes) (covered : nat) (hops : list (bytes * bytes)) : bytes :=
  match hops with
  | [] => filler
  | (ss, payload) :: hops =>
    let this_shift := shift_size (length payload) in
    let rho := generate_key RHO ss in
    let stream := cipher_stream rho (PAYLOADS_LEN + this_shift) in
    let start := (PAYLOADS_LEN - covered)%nat in
    let filler := xor_into filler (drop start stream) in
    filler_loop filler (covered + this_shift) hops
  end.

(** One pass of the second loop; [last] is [i == num_hops - 1]. *)
Definition layer (filler assoc_data : bytes) (last : bool) (ss payload : bytes)
    (st : bytes * bytes) : bytes * bytes :=
  let '(mix, next_hmac) := st in
  let rho := generate_key RHO ss in
  let mu := generate_key MU ss in
  let frame := Bigsize.write (Z.of_nat (length payload)) ++ payload ++ next_hmac in
  let this_shift := length frame in
  let mix := take (PAYLOADS_LEN - this_shift) mix in
  let mix := frame ++ mix in
  let stream := cipher_stream rho PAYLOADS_LEN in
  let mix := xor_into mix stream in
  let mix := if last && (0 <? length filler)%nat
    then splice (PAYLOADS_LEN - length filler) filler mix else mix in
  (mix, hmac2 mu mix assoc_data).

(** [for i in (0..num_hops).rev()]. *)
Fixpoint layers (filler assoc_data : bytes) (hops : list (bytes * bytes)) (st : bytes * bytes)
    : bytes * bytes :=
  match hops with
  | [] => st
  | (ss, payload) :: hops' =>
    layer filler assoc_data (bool_decide (hops' = [])) ss payload
      (layers filler assoc_data hops' st)
  end.

Section Onion.
Context `{S : Secp}.

Record OnionPacket := {
  version : Z;
  ephemeral_key : PublicKey;
  payloads : bytes;
  hmac : bytes;
}.

Definition onion_serialize (p : OnionPacket) : bytes :=
  [version p] ++ pk_serialize (ephemeral_key p) ++ payloads p ++ hmac p.

Definition onion_parse (data : bytes) : result OnionError OnionPacket :=
  _ ← fail_if (negb (length data =? PACKET_LEN)%nat) BadLength;
  let version := data !!! 0%nat in
  _ ← fail_if (negb (version =? 0)) InvalidVersion;
  ephemeral_key ← ok_or (pk_from_slice (take 33 (drop 1 data))) InvalidPubkey;
  let payloads := take PAYLOADS_LEN (drop 34 data) in
  let hmac := drop (34 + PAYLOADS_LEN) data in
  Ok {| version := version; ephemeral_key := ephemeral_key; payloads := payloads; hmac := hmac |}.

(** [SHA256(epk || ss)] as a scalar. *)
Definition blinding_bytes (epk : PublicKey) (ss : bytes) : bytes :=
  let h := Sha256.new in
  let h := Sha256.update h (pk_serialize epk) in
  let h := Sha256.update h ss in
  Sha256.finalize h.

(** The loop of [shared_secrets_for_path]. *)
Fixpoint shared_secrets_from (ephemeral : SecretKey) (path : list PublicKey)
    : result OnionError (list bytes) :=
  match path with
  | [] => Ok []
  | hop_pk :: path =>
    let ss := ecdh hop_pk ephemeral in
    let epk := sk_public_key ephemeral in
    blinding ← expect (scalar_from_be_bytes (blinding_bytes epk ss));
    ephemeral ← expect (sk_mul_tweak ephemeral blinding);
    secrets ← shared_secrets_from ephemeral path;
    Ok (ss :: secrets)
  end.
Definition shared_secrets_for_path := shared_secrets_from.

Definition sum_shifts (payloads : list bytes) : nat :=
  foldr Nat.add 0%nat (map (fun p => shift_size (length p)) payloads).

(** The three [assert!]s panic. *)
Definition construct (session_key : SecretKey) (shared_secrets payloads : list bytes)
    (assoc_data : bytes) : result OnionError OnionPacket :=
  if negb (length shared_secrets =? length payloads)%nat then Panic
  else if (length payloads =? 0)%nat then Panic
  else if (PAYLOADS_LEN <? sum_shifts payloads)%nat then Panic
  else
    let num_hops := length payloads in
    let hops := combine shared_secrets payloads in
    let filler_len := sum_shifts (take (num_hops - 1) payloads) in
    let filler := filler_loop (replicate filler_len 0) 0 (take (num_hops - 1) hops) in
    let pad_key := generate_key PAD (sk_secret_bytes session_key) in
    let mix := cipher_stream pad_key PAYLOADS_LEN in
    let '(mix, next_hmac) := layers filler assoc_data hops (mix, ZERO32) in
    Ok {| version := 0; ephemeral_key := sk_public_key session_key; payloads := mix;
          hmac := next_hmac |}.

Inductive Peeled : Type :=
  | Forward (payload : bytes) (next : OnionPacket)
  | Final (payload : bytes).

(** [r.map_err(|_| OnionError::BadPayload)] around a wire reader. *)
Definition bad_payload {A} (r : result WireError A) : result OnionError A :=
  map_err (fun _ => BadPayload) r.

(** [peel_with_secret] from [let mut r = WireReader::new(&buf)] on. *)
Definition peel_open (shared_secret : bytes) (epk : PublicKey) (buf : bytes)
    : result OnionError Peeled :=
  '(payload_len, r) ← bad_payload (Bigsize.read buf);
  _ ← fail_if (negb ((2 <=? payload_len) && (payload_len <=? Z.of_nat (PAYLOADS_LEN - 32))))
        BadPayload;
  '(payload, r) ← bad_payload (read_take (Z.to_nat payload_len) r);
  '(next_hmac, r) ← bad_payload (read_array 32 r);
  let consumed := (PAYLOADS_LEN * 2 - length r)%nat in
  if bool_decide (next_hmac = ZERO32) then Ok (Final payload)
  else
    blinding ← expect (scalar_from_be_bytes (blinding_bytes epk shared_secret));
    next_ephemeral ← ok_or (pk_mul_tweak epk blinding) InvalidPubkey;
    (* [&buf[consumed..consumed + PAYLOADS_LEN]]: out of range panics. *)
    next_payloads ← expect (if (length buf <? consumed + PAYLOADS_LEN)%nat then None
                            else Some (take PAYLOADS_LEN (drop consumed buf)));
    Ok (Forward payload {| version := 0; ephemeral_key := next_ephemeral;
          payloads := next_payloads; hmac := next_hmac |}).

Definition peel_with_secret (shared_secret : bytes) (packet : OnionPacket) (assoc_data : bytes)
    : result OnionError Peeled :=
  _ ← fail_if (negb (version packet =? 0)) InvalidVersion;
  let mu := generate_key MU shared_secret in
  _ ← fail_if (negb (ct_eq (hmac2 mu (payloads packet) assoc_data) (hmac packet))) InvalidHmac;
  let rho := generate_key RHO shared_secret in
  let buf := payloads packet ++ replicate PAYLOADS_LEN 0 in
  let stream := cipher_stream rho (PAYLOADS_LEN * 2) in
  let buf := xor_into buf stream in
  peel_open shared_secret (ephemeral_key packet) buf.

Definition peel (node_key : SecretKey) (packet : OnionPacket) (assoc_data : bytes)
    : result OnionError (Peeled * bytes) :=
  let ss := ecdh (ephemeral_key packet) node_key in
  peeled ← peel_with_secret ss packet assoc_data;
  Ok (peeled, ss).
End Onion.

(** ** Failures *)
Definition BADONION : Z := 0x8000.
Definition PERM : Z := 0x4000.
Definition NODE : Z := 0x2000.
Definition UPDATE : Z := 0x1000.

Definition TEMPORARY_NODE_FAILURE : Z := Z.lor NODE 2.
Definition PERMANENT_NODE_FAILURE : Z := Z.lor (Z.lor PERM NODE) 2.
Definition INVALID_ONION_VERSION : Z := Z.lor (Z.lor BADONION PERM) 4.
Definition INVALID_ONION_HMAC : Z := Z.lor (Z.lor BADONION PERM) 5.
Definition INVALID_ONION_KEY : Z := Z.lor (Z.lor BADONION PERM) 6.
Definition TEMPORARY_CHANNEL_FAILURE : Z := Z.lor UPDATE 7.
Definition PERMANENT_CHANNEL_FAILURE : Z := Z.lor PERM 8.
Definition UNKNOWN_NEXT_PEER : Z := Z.lor PERM 10.
Definition AMOUNT_BELOW_MINIMUM : Z := Z.lor UPDATE 11.
Definition FEE_INSUFFICIENT : Z := Z.lor UPDATE 12.
Definition INCORRECT_CLTV_EXPIRY : Z := Z.lor UPDATE 13.
Definition EXPIRY_TOO_SOON : Z := Z.lor UPDATE 14.
Definition INCORRECT_OR_UNKNOWN_PAYMENT_DETAILS : Z := Z.lor PERM 15.
Definition FINAL_INCORRECT_CLTV_EXPIRY : Z := 18.
Definition FINAL_INCORRECT_HTLC_AMOUNT : Z := 19.
Definition EXPIRY_TOO_FAR : Z := 21.
Definition INVALID_ONION_PAYLOAD : Z := Z.lor PERM 22.
Definition MPP_TIMEOUT : Z := 23.

Definition failure_wrap (shared_secret packet : bytes) : bytes :=
  let ammag := generate_key AMMAG shared_secret in
  let stream := cipher_stream ammag (length packet) in
  xor_into packet stream.

Definition failure_body (failuremsg : bytes) : bytes :=
  let target := (if length failuremsg <=? 256 then 256 else 1024)%nat in
  let pad_len := (target - length failuremsg)%nat in
  be_bytes 2 (wrap 16 (Z.of_nat (length failuremsg))) ++ failuremsg ++
  be_bytes 2 (wrap 16 (Z.of_nat pad_len)) ++ replicate pad_len 0.

Definition failure_build (shared_secret failuremsg : bytes) : bytes :=
  let um := generate_key UM shared_secret in
  let body := failure_body failuremsg in
  let packet := hmac_sha256 um body in
  let packet := packet ++ body in
  failure_wrap shared_secret packet.

Fixpoint failure_decrypt_from (i : nat) (shared_secrets : list bytes) (data : bytes)
    : option (nat * bytes) :=
  match shared_secrets with
  | [] => None
  | ss :: shared_secrets =>
    let data := failure_wrap ss data in
    if (length data <? 34)%nat then None
    else
      let um := generate_key UM ss in
      let mac := take 32 data in
      let body := drop 32 data in
      if ct_eq (hmac_sha256 um body) mac then
        let failure_len := Z.to_nat (of_be (take 2 body)) in
        if (length body <? 2 + failure_len)%nat then None
        else Some (i, take failure_len (drop 2 body))
      else failure_decrypt_from (i + 1) shared_secrets data
  end.
Definition failure_decrypt : list bytes -> bytes -> option (nat * bytes) := failure_decrypt_from 0.

Definition failure_message (code : Z) (data : bytes) : bytes := be_bytes 2 code ++ data.
Definition parse_code (failuremsg : bytes) : option Z :=
  if (length failuremsg <? 2)%nat then None else Some (of_be (take 2 failuremsg)).

(** ** Streams and xor *)
Lemma take_xor_into n a k : take n (xor_into a k) = xor_into (take n a) (take n k).
Proof.
  revert a k; induction n as [|n IH]; intros [|x a] [|y k]; cbn; try done. by rewrite IH.
Qed.

Lemma xor_into_nil a : xor_into a [] = a.
Proof. by destruct a. Qed.

Lemma drop_xor_into n a k : drop n (xor_into a k) = xor_into (drop n a) (drop n k).
Proof.
  revert a k; induction n as [|n IH]; intros [|x a] [|y k]; cbn; rewrite ?xor_into_nil; done.
Qed.

Lemma xor_into_zeros n k : length k = n -> xor_into (replicate n 0) k = k.
Proof. intros <-. rewrite xor_zeros by done. by rewrite firstn_all. Qed.

Lemma length_hmac_sha256 k d : length (hmac_sha256 k d) = 32%nat.
Proof. rewrite hmac_eq_spec. apply length_hmac_spec. Qed.

Lemma length_hmac2 k a b : length (hmac2 k a b) = 32%nat.
Proof.
  unfold hmac2. pose proof (hmac_updates k [a; b]) as H. cbn [foldl] in H. rewrite H.
  apply length_hmac_spec.
Qed.

Lemma length_cipher_stream k n : length (cipher_stream k n) = n.
Proof. apply length_keystream. Qed.

Lemma cipher_stream_prefix t ss m n : (m <= n)%nat ->
  take m (cipher_stream (generate_key t ss) n) = cipher_stream (generate_key t ss) m.
Proof. intros H. apply keystream_prefix; [apply length_hmac_sha256|done|done]. Qed.

Lemma PAYLOADS_LEN_eq : Z.of_nat PAYLOADS_LEN = 1300.
Proof. reflexivity. Qed.

#[global] Opaque hmac2 cipher_stream generate_key PAYLOADS_LEN.

(** ** The onion along the route *)
Definition rho_stream (ss : bytes) (n : nat) : bytes := cipher_stream (generate_key RHO ss) n.

Definition extend (F : bytes) (hop : bytes * bytes) : bytes :=
  let s := shift_size (length hop.2) in
  xor_into (F ++ replicate s 0) (drop (PAYLOADS_LEN - length F) (rho_stream hop.1 (PAYLOADS_LEN + s))).

Fixpoint build (F ad pad : bytes) (hops : list (bytes * bytes)) : bytes * bytes :=
  match hops with
  | [] => (pad, ZERO32)
  | hop :: hops' =>
    if decide (hops' = []) then layer F ad true hop.1 hop.2 (pad, ZERO32)
    else layer [] ad false hop.1 hop.2 (build (extend F hop) ad pad hops')
  end.

Definition hop_shifts (hops : list (bytes * bytes)) : nat :=
  foldr Nat.add 0%nat (map (fun h => shift_size (length h.2)) hops).

Lemma length_extend F hop : length (extend F hop) = (length F + shift_size (length hop.2))%nat.
Proof. unfold extend. rewrite length_xor_into, length_app, length_replicate. done. Qed.

Lemma filler_loop_extend hops F :
  (length F + hop_shifts hops <= PAYLOADS_LEN)%nat ->
  filler_loop (F ++ replicate (hop_shifts hops) 0) (length F) hops = foldl extend F hops.
Proof.
  revert F; induction hops as [|[ss p] hops IH]; intros F Hl.
  { cbn. by rewrite app_nil_r. }
  cbn [filler_loop foldl]. set (s := shift_size (length p)).
  assert (Hs : hop_shifts ((ss, p) :: hops) = (s + hop_shifts hops)%nat) by done.
  rewrite Hs in *. rewrite replicate_add, app_assoc.
  fold (rho_stream ss (PAYLOADS_LEN + s)).
  rewrite <- (app_nil_r (drop _ _)), xor_into_app.
  2: { unfold rho_stream. rewrite length_app, length_replicate, length_drop, length_cipher_stream. lia. }
  rewrite xor_into_nil. fold (extend F (ss, p)).
  replace (length F + s)%nat with (length (extend F (ss, p))) by (by rewrite length_extend).
  apply IH. rewrite length_extend. cbn [snd]. fold s. lia.
Qed.

Lemma layers_build F ad pad hops : hops <> [] ->
  layers (foldl extend F (take (length hops - 1) hops)) ad hops (pad, ZERO32) = build F ad pad hops.
Proof.
  revert F; induction hops as [|[ss p] hops IH]; intros F Hne; [done|].
  cbn [layers build fst snd]. destruct (decide (hops = [])) as [->|Hh]; [done|].
  rewrite bool_decide_eq_false_2 by done.
  assert (E : take (length ((ss, p) :: hops) - 1) ((ss, p) :: hops) =
    (ss, p) :: take (length hops - 1) hops).
  { destruct hops; [done|]. cbn. do 2 f_equal. by rewrite Nat.sub_0_r. }
  rewrite E. cbn [foldl]. rewrite IH by done. done.
Qed.

Definition frame_of (hop : bytes * bytes) (next_hmac : bytes) : bytes :=
  Bigsize.write (Z.of_nat (length hop.2)) ++ hop.2 ++ next_hmac.

Lemma length_frame_of hop h : length h = 32%nat ->
  length (frame_of hop h) = shift_size (length hop.2).
Proof. intros Hh. unfold frame_of, shift_size. rewrite !length_app, length_write, Hh. lia. Qed.

(** A layer before the filler is put in. *)
Definition sealed_layer (hop : bytes * bytes) (mix next_hmac : bytes) : bytes :=
  xor_into (frame_of hop next_hmac ++ take (PAYLOADS_LEN - shift_size (length hop.2)) mix)
    (rho_stream hop.1 PAYLOADS_LEN).

Lemma layer_eq F ad last hop mix h : length h = 32%nat ->
  layer F ad last hop.1 hop.2 (mix, h) =
    let m := sealed_layer hop mix h in
    let m := if last && (0 <? length F)%nat then splice (PAYLOADS_LEN - length F) F m else m in
    (m, hmac2 (generate_key MU hop.1) m ad).
Proof.
  intros Hh. unfold layer, sealed_layer. fold (frame_of hop h).
  rewrite length_frame_of by done. reflexivity.
Qed.

Lemma length_sealed_layer hop mix h :
  length h = 32%nat -> length mix = PAYLOADS_LEN -> (shift_size (length hop.2) <= PAYLOADS_LEN)%nat ->
  length (sealed_layer hop mix h) = PAYLOADS_LEN.
Proof.
  intros Hh Hm Hs. unfold sealed_layer.
  rewrite length_xor_into, length_app, length_frame_of, length_take by done. lia.
Qed.

Lemma length_build_hmac F ad pad hops : length (build F ad pad hops).2 = 32%nat.
Proof.
  destruct hops as [|hop hops]; [done|]. cbn [build].
  case_decide; unfold layer; repeat (destruct (build _ _ _ _)); apply length_hmac2.
Qed.

Lemma build_last F ad pad hop :
  build F ad pad [hop] =
    let m := sealed_layer hop pad ZERO32 in
    let m := if (0 <? length F)%nat then splice (PAYLOADS_LEN - length F) F m else m in
    (m, hmac2 (generate_key MU hop.1) m ad).
Proof. cbn [build]. rewrite decide_True by done. by rewrite layer_eq. Qed.

Lemma build_cons F ad pad hop hops : hops <> [] ->
  build F ad pad (hop :: hops) =
    let '(mix, h) := build (extend F hop) ad pad hops in
    (sealed_layer hop mix h, hmac2 (generate_key MU hop.1) (sealed_layer hop mix h) ad).
Proof.
  intros Hne. cbn [build]. rewrite decide_False by done.
  pose proof (length_build_hmac (extend F hop) ad pad hops) as Hh.
  destruct (build (extend F hop) ad pad hops) as [mix h]. by rewrite layer_eq.
Qed.

(** The end of each layer is the filler gathered before it. *)
Lemma build_tail F ad pad hops : hops <> [] -> length pad = PAYLOADS_LEN ->
  (length F + hop_shifts hops <= PAYLOADS_LEN)%nat ->
  length (build F ad pad hops).1 = PAYLOADS_LEN /\
  drop (PAYLOADS_LEN - length F) (build F ad pad hops).1 = F.
Proof.
  intros Hne Hpad. revert F. induction hops as [|hop hops IH]; intros F Hl; [done|].
  assert (Hsh : hop_shifts (hop :: hops) = (shift_size (length hop.2) + hop_shifts hops)%nat) by done.
  rewrite Hsh in Hl. destruct (decide (hops = [])) as [->|Hh].
  - rewrite build_last. cbn [fst].
    assert (Hm : length (sealed_layer hop pad ZERO32) = PAYLOADS_LEN)
      by (apply length_sealed_layer; [done|done|lia]).
    destruct (Nat.ltb_spec 0 (length F)) as [HF|HF].
    + rewrite length_splice by lia. split; [done|]. unfold splice.
      rewrite drop_app_length' by (rewrite length_take; lia).
      rewrite (drop_ge (sealed_layer _ _ _)) by lia. apply app_nil_r.
    + rewrite drop_ge by lia. split; [done|]. by destruct F; [|cbn in HF; lia].
  - rewrite build_cons by done.
    destruct (IH Hh (extend F hop)) as [Hlen Htail]; [rewrite length_extend; lia|].
    pose proof (length_build_hmac (extend F hop) ad pad hops) as Hhm.
    destruct (build (extend F hop) ad pad hops) as [mix h]. cbn [fst snd] in *.
    split; [apply length_sealed_layer; [done|done|lia]|].
    set (s := shift_size (length hop.2)) in *. unfold sealed_layer. fold s.
    rewrite drop_xor_into, drop_app, length_frame_of by done. fold s.
    rewrite (drop_ge (frame_of hop h)) by (rewrite length_frame_of by done; fold s; lia).
    cbn [app].
    assert (E1 : drop (PAYLOADS_LEN - length F - s) (take (PAYLOADS_LEN - s) mix) =
      take (length F) (extend F hop)).
    { rewrite <- Htail, length_extend at 1. fold s.
      replace (PAYLOADS_LEN - (length F + s))%nat with (PAYLOADS_LEN - length F - s)%nat by lia.
      rewrite take_drop_commute. do 2 f_equal. lia. }
    rewrite E1. unfold extend. fold s. rewrite take_xor_into, take_app_length.
    assert (E2 : drop (PAYLOADS_LEN - length F) (rho_stream hop.1 PAYLOADS_LEN) =
      take (length F) (drop (PAYLOADS_LEN - length F) (rho_stream hop.1 (PAYLOADS_LEN + s)))).
    { rewrite take_drop_commute.
      replace (PAYLOADS_LEN - length F + length F)%nat with PAYLOADS_LEN by lia.
      unfold rho_stream. rewrite cipher_stream_prefix by lia. done. }
    rewrite E2. apply xor_into_involutive.
Qed.

(** ** Peeling *)
Section Peel.
Context `{S : Secp} {L : SecpLaws S}.

(** What peeling sees: the frame, then the rest. *)
Definition opened (ss M : bytes) : bytes :=
  xor_into (M ++ replicate PAYLOADS_LEN 0) (rho_stream ss (PAYLOADS_LEN * 2)).

Lemma length_opened ss M : length M = PAYLOADS_LEN -> length (opened ss M) = (PAYLOADS_LEN * 2)%nat.
Proof. intros HM. unfold opened. rewrite length_xor_into, length_app, length_replicate. lia. Qed.

Lemma opened_eq ss M : length M = PAYLOADS_LEN ->
  opened ss M = xor_into M (rho_stream ss PAYLOADS_LEN) ++
    drop PAYLOADS_LEN (rho_stream ss (PAYLOADS_LEN * 2)).
Proof.
  intros HM. unfold opened.
  rewrite <- (take_drop PAYLOADS_LEN (rho_stream ss (PAYLOADS_LEN * 2))) at 1.
  assert (Hp : take PAYLOADS_LEN (rho_stream ss (PAYLOADS_LEN * 2)) = rho_stream ss PAYLOADS_LEN)
    by (apply cipher_stream_prefix; lia).
  rewrite Hp, xor_into_app.
  2: { unfold rho_stream. by rewrite length_cipher_stream. }
  f_equal. apply xor_into_zeros. unfold rho_stream. rewrite length_drop, length_cipher_stream. lia.
Qed.

(** Peeling a buffer that starts with a frame. *)
Lemma peel_open_frame ss epk (payload h tail : bytes) :
  length h = 32%nat -> (2 <= length payload)%nat ->
  (shift_size (length payload) <= PAYLOADS_LEN)%nat ->
  length tail = (PAYLOADS_LEN * 2 - shift_size (length payload))%nat ->
  peel_open ss epk (Bigsize.write (Z.of_nat (length payload)) ++ payload ++ h ++ tail) =
    if bool_decide (h = ZERO32) then Ok (Final payload)
    else
      blinding ← expect (scalar_from_be_bytes (blinding_bytes epk ss));
      next ← ok_or (pk_mul_tweak epk blinding) InvalidPubkey;
      Ok (Forward payload {| version := 0; ephemeral_key := next;
        payloads := take PAYLOADS_LEN tail; hmac := h |}).
Proof using Type.
  intros Hh H2 Hs Ht. unfold peel_open.
  pose proof PAYLOADS_LEN_eq as HL. unfold shift_size in Hs, Ht.
  pose proof (len_pos (Z.of_nat (length payload))).
  rewrite bigsize_reads by (unfold uint; lia).
  cbn [bad_payload map_err mbind result_bind].
  rewrite (proj2 (Z.leb_le 2 _)) by lia.
  rewrite (proj2 (Z.leb_le (Z.of_nat (length payload)) _)) by lia.
  cbn [andb negb fail_if mbind result_bind]. rewrite Nat2Z.id.
  rewrite reads_take by done. cbn [bad_payload map_err mbind result_bind].
  rewrite reads_array by done. cbn [bad_payload map_err mbind result_bind].
  case_bool_decide; [reflexivity|].
  destruct (scalar_from_be_bytes _) as [b|]; [|reflexivity]. cbn [expect mbind result_bind].
  destruct (pk_mul_tweak _ _) as [nx|]; [|reflexivity]. cbn [ok_or mbind result_bind].
  pose proof (length_write (Z.of_nat (length payload))) as Hw.
  rewrite (proj2 (Nat.ltb_ge _ _)).
  2: { rewrite !length_app, Hw, Hh. lia. }
  cbn [expect mbind result_bind]. rewrite (app_assoc payload), app_assoc.
  rewrite drop_app_length'; [reflexivity|]. rewrite !length_app, Hw, Hh. lia.
Qed.

Lemma peel_with_secret_frame ss p ad :
  version p = 0 -> hmac p = hmac2 (generate_key MU ss) (payloads p) ad ->
  peel_with_secret ss p ad = peel_open ss (ephemeral_key p) (opened ss (payloads p)).
Proof using Type.
  intros Hv Hmac. unfold peel_with_secret. rewrite Hv, Hmac, (proj2 (ct_eq_spec _ _)) by done.
  reflexivity.
Qed.

Lemma rho_stream_drop ss (m n : nat) : (PAYLOADS_LEN + m <= n)%nat ->
  drop PAYLOADS_LEN (rho_stream ss (PAYLOADS_LEN + m)) = take m (drop PAYLOADS_LEN (rho_stream ss n)).
Proof using Type.
  intros H. unfold rho_stream. rewrite <- (cipher_stream_prefix RHO ss _ n H).
  by rewrite take_drop_commute.
Qed.

(** The bytes revealed behind an intermediate frame are the next onion. *)
Lemma opened_forward F ad pad hop hops :
  hops <> [] -> length pad = PAYLOADS_LEN ->
  (length F + hop_shifts (hop :: hops) <= PAYLOADS_LEN)%nat ->
  let next := build (extend F hop) ad pad hops in
  exists tail, opened hop.1 (build F ad pad (hop :: hops)).1 = frame_of hop next.2 ++ tail /\
    length tail = (PAYLOADS_LEN * 2 - shift_size (length hop.2))%nat /\
    take PAYLOADS_LEN tail = next.1.
Proof using Type.
  intros Hne Hpad Hl next. set (s := shift_size (length hop.2)).
  assert (Hsh : hop_shifts (hop :: hops) = (s + hop_shifts hops)%nat) by done. rewrite Hsh in Hl.
  destruct (build_tail (extend F hop) ad pad hops Hne Hpad) as [Hlen Htail];
    [rewrite length_extend; fold s; lia|].
  fold next in Hlen, Htail. pose proof (length_build_hmac (extend F hop) ad pad hops) as Hh.
  fold next in Hh. rewrite build_cons by done. fold next. destruct next as [mix h].
  cbn [fst snd] in *.
  exists (take (PAYLOADS_LEN - s) mix ++ drop PAYLOADS_LEN (rho_stream hop.1 (PAYLOADS_LEN * 2))).
  split_and!.
  - rewrite opened_eq by (apply length_sealed_layer; [done|done|fold s; lia]).
    unfold sealed_layer. rewrite xor_into_involutive, <- app_assoc. done.
  - unfold rho_stream. rewrite length_app, length_take, length_drop, length_cipher_stream. lia.
  - assert (Hd : drop (PAYLOADS_LEN - s) mix =
      take s (drop PAYLOADS_LEN (rho_stream hop.1 (PAYLOADS_LEN * 2)))).
    { rewrite <- rho_stream_drop by lia.
      replace (PAYLOADS_LEN - s)%nat with (PAYLOADS_LEN - length (extend F hop) + length F)%nat
        by (rewrite length_extend; fold s; lia).
      rewrite <- drop_drop, Htail. unfold extend. fold s.
      rewrite drop_xor_into, drop_app_length, drop_drop.
      replace (PAYLOADS_LEN - length F + length F)%nat with PAYLOADS_LEN by lia.
      apply xor_into_zeros. unfold rho_stream. rewrite length_drop, length_cipher_stream. lia. }
    rewrite take_app, length_take, take_take.
    replace (Nat.min PAYLOADS_LEN (PAYLOADS_LEN - s)) with (PAYLOADS_LEN - s)%nat by lia.
    replace (PAYLOADS_LEN - Nat.min (PAYLOADS_LEN - s) (length mix))%nat with s by lia.
    rewrite <- Hd. apply take_drop.
Qed.

Lemma opened_final F ad pad hop : length pad = PAYLOADS_LEN ->
  (length F + shift_size (length hop.2) <= PAYLOADS_LEN)%nat ->
  exists tail, opened hop.1 (build F ad pad [hop]).1 = frame_of hop ZERO32 ++ tail /\
    length tail = (PAYLOADS_LEN * 2 - shift_size (length hop.2))%nat.
Proof using Type.
  intros Hpad Hl. set (s := shift_size (length hop.2)) in *.
  assert (Hsh : hop_shifts [hop] = (s + 0)%nat) by done.
  destruct (build_tail F ad pad [hop] ltac:(done) Hpad) as [Hlen _]; [rewrite Hsh; lia|].
  set (M := (build F ad pad [hop]).1) in *.
  assert (Ht : take s M = take s (sealed_layer hop pad ZERO32)).
  { unfold M. rewrite build_last. cbn [fst]. destruct (0 <? length F)%nat; [|done].
    unfold splice. rewrite take_app_le.
    - rewrite take_take. f_equal. lia.
    - rewrite length_take, length_sealed_layer; [lia|done|done|fold s; lia]. }
  exists (drop s (opened hop.1 M)).
  split; [|rewrite length_drop, length_opened by done; done].
  rewrite <- (take_drop s (opened hop.1 M)) at 1. f_equal.
  rewrite opened_eq, take_app_le by (rewrite ?length_xor_into; lia).
  rewrite take_xor_into, Ht, <- take_xor_into. unfold sealed_layer.
  rewrite xor_into_involutive, take_app_le by (rewrite length_frame_of by done; fold s; lia).
  apply take_ge. rewrite length_frame_of by done. fold s. lia.
Qed.

(** ** A route *)

(** The hops peel one after the other until the packet is final. *)
Fixpoint peel_all (node_keys : list SecretKey) (packet : OnionPacket) (assoc_data : bytes)
    : result OnionError (list (bytes * bytes)) :=
  match node_keys with
  | [] => Ok []
  | node_key :: node_keys =>
    '(peeled, ss) ← peel node_key packet assoc_data;
    match peeled with
    | Final payload => Ok [(ss, payload)]
    | Forward payload next =>
      rest ← peel_all node_keys next assoc_data;
      Ok ((ss, payload) :: rest)
    end
  end.

(** The HMACs in the frames, which the code reads as "final" when zero. *)
Fixpoint inner_hmacs (F ad pad : bytes) (hops : list (bytes * bytes)) : list bytes :=
  match hops with
  | [] => []
  | hop :: hops =>
    if decide (hops = []) then []
    else (build (extend F hop) ad pad hops).2 :: inner_hmacs (extend F hop) ad pad hops
  end.

Lemma build_hmac F ad pad hop hops :
  (build F ad pad (hop :: hops)).2 =
    hmac2 (generate_key MU hop.1) (build F ad pad (hop :: hops)).1 ad.
Proof using Type.
  destruct (decide (hops = [])) as [->|Hne]; [by rewrite build_last|].
  rewrite build_cons by done. by destruct (build (extend F hop) ad pad hops).
Qed.

Lemma peel_all_build sks : forall eph F ad pad hops secrets payloads,
  shared_secrets_from eph (map sk_public_key sks) = Ok secrets ->
  length secrets = length payloads -> hops = combine secrets payloads -> sks <> [] ->
  length pad = PAYLOADS_LEN -> (length F + hop_shifts hops <= PAYLOADS_LEN)%nat ->
  Forall (fun p => 2 <= length p)%nat payloads ->
  Forall (fun h => h <> ZERO32) (inner_hmacs F ad pad hops) ->
  peel_all sks {| version := 0; ephemeral_key := sk_public_key eph;
    payloads := (build F ad pad hops).1; hmac := (build F ad pad hops).2 |} ad = Ok hops.
Proof using L.
  induction sks as [|sk sks IH]; intros eph F ad pad hops secrets ps Hss Hlen Hhops Hne Hpad Hl H2 Hz;
    [done|]. cbn [map shared_secrets_from] in Hss.
  apply bind_Ok in Hss as (b & Hb & Hss). apply expect_Ok in Hb.
  apply bind_Ok in Hss as (eph' & He & Hss). apply expect_Ok in He.
  apply bind_Ok in Hss as (secs & Hss & Hs). apply Ok_inj in Hs as <-.
  destruct ps as [|payload ps]; [done|]. cbn [combine] in Hhops.
  apply Forall_cons in H2 as [Hp2 H2].
  set (ss := ecdh (sk_public_key sk) eph) in *. set (hop := (ss, payload)) in *.
  assert (Hps : forall F' : bytes, hop_shifts hops = (shift_size (length payload) +
    hop_shifts (combine secs ps))%nat) by (intros _; by rewrite Hhops).
  assert (Hs : (shift_size (length payload) <= PAYLOADS_LEN)%nat) by (rewrite (Hps []) in Hl; lia).
  cbn [peel_all]. unfold peel. cbn [ephemeral_key].
  rewrite (ecdh_sym eph sk). fold ss. subst hops.
  rewrite peel_with_secret_frame by first [done | apply build_hmac].
  cbn [payloads ephemeral_key].
  destruct (decide (sks = [])) as [->|Hsks].
  - cbn in Hss. injection Hss as <-. destruct ps as [|? ?]; [|done]. cbn [combine] in *.
    destruct (opened_final F ad pad hop Hpad) as (tail & E & Ht);
      [cbn in Hl; cbn; lia|]. change hop.1 with ss in E. rewrite E. unfold frame_of.
    rewrite <- !app_assoc, peel_open_frame by done.
    by rewrite bool_decide_eq_true_2 by done.
  - assert (Hc : combine secs ps <> []).
    { destruct sks as [|sk2 sks]; [done|]. cbn [map shared_secrets_from] in Hss.
      apply bind_Ok in Hss as (b2 & _ & Hss). apply bind_Ok in Hss as (e2 & _ & Hss).
      apply bind_Ok in Hss as (s2 & _ & Hss). apply Ok_inj in Hss as <-.
      by destruct ps. }
    destruct (opened_forward F ad pad hop (combine secs ps) Hc Hpad) as (tail & E & Ht & Htake); [done|].
    pose proof (length_build_hmac (extend F hop) ad pad (combine secs ps)) as Hh.
    cbn [inner_hmacs] in Hz. rewrite decide_False in Hz by done.
    apply Forall_cons in Hz as [Hz0 Hz].
    change hop.1 with ss in E. rewrite E. unfold frame_of.
    rewrite <- !app_assoc, peel_open_frame by done.
    rewrite bool_decide_eq_false_2 by done. fold ss. change hop.1 with ss. rewrite Hb. cbn [expect mbind result_bind].
    rewrite (pub_mul_tweak _ _ _ He). cbn [ok_or mbind result_bind]. rewrite Htake.
    rewrite (IH eph' (extend F hop) ad pad (combine secs ps) secs ps); try done.
    + cbn in Hlen. lia.
    + rewrite length_extend. cbn [snd hop]. rewrite (Hps []) in Hl. lia.
Qed.

Lemma sum_shifts_combine (secrets ps : list bytes) : length secrets = length ps ->
  hop_shifts (combine secrets ps) = sum_shifts ps.
Proof using Type.
  revert secrets; induction ps as [|p ps IH]; intros [|ss secrets] H; try done.
  cbn in H. unfold hop_shifts, sum_shifts in *. cbn. by rewrite IH by lia.
Qed.

Lemma take_combine {A B} n (l : list A) (l' : list B) :
  take n (combine l l') = combine (take n l) (take n l').
Proof using Type.
  revert l l'; induction n as [|n IH]; intros [|x l] [|y l']; cbn; try done. by rewrite IH.
Qed.

Definition pad_stream (session_key : SecretKey) : bytes :=
  cipher_stream (generate_key PAD (sk_secret_bytes session_key)) PAYLOADS_LEN.

Lemma construct_build session_key secrets ps ad :
  length secrets = length ps -> ps <> [] -> (sum_shifts ps <= PAYLOADS_LEN)%nat ->
  let b := build [] ad (pad_stream session_key) (combine secrets ps) in
  construct session_key secrets ps ad = Ok {| version := 0;
    ephemeral_key := sk_public_key session_key; payloads := b.1; hmac := b.2 |}.
Proof using Type.
  intros Hlen Hne Hsum b. unfold construct. rewrite Hlen, Nat.eqb_refl. cbn [negb].
  destruct (Nat.eqb_spec (length ps) 0) as [E0|_]; [by destruct ps|].
  rewrite (proj2 (Nat.ltb_ge _ _)) by done. fold (pad_stream session_key).
  set (k := (length ps - 1)%nat).
  assert (Hn : length (combine secrets ps) = length ps) by (rewrite length_combine; lia).
  assert (Ht : sum_shifts (take k ps) = hop_shifts (take k (combine secrets ps))).
  { rewrite take_combine, sum_shifts_combine; [done|]. rewrite !length_take. lia. }
  assert (Hle : (sum_shifts (take k ps) <= sum_shifts ps)%nat).
  { clearbody k. clear. revert ps. induction k as [|k IH]; intros [|p ps]; unfold sum_shifts in *; cbn; try lia.
    specialize (IH ps). lia. }
  pose proof (filler_loop_extend (take k (combine secrets ps)) []) as HF.
  cbn [length app Nat.add] in HF. rewrite Ht, HF by lia.
  unfold k at 1. rewrite <- Hn. rewrite layers_build.
  - unfold b. by destruct (build _ _ _ _).
  - intros E. rewrite E in Hn. by destruct ps.
Qed.

Lemma onion_parse_serialize p :
  version p = 0 -> length (payloads p) = PAYLOADS_LEN -> length (hmac p) = 32%nat ->
  length (onion_serialize p) = PACKET_LEN /\ onion_parse (onion_serialize p) = Ok p.
Proof using L.
  intros Hv Hp Hh. destruct p as [v k ps h]. cbn in Hv, Hp, Hh. subst v.
  unfold onion_serialize. cbn [version ephemeral_key payloads hmac].
  assert (Hl : length ([0] ++ pk_serialize k ++ ps ++ h) = PACKET_LEN).
  { rewrite !length_app, pk_serialize_length, Hp, Hh. unfold PACKET_LEN. cbn [length]. lia. }
  split; [done|]. unfold onion_parse. rewrite Hl, Nat.eqb_refl. cbn [negb fail_if mbind result_bind].
  change (([0] ++ pk_serialize k ++ ps ++ h) !!! 0%nat) with 0. cbn [Z.eqb negb fail_if mbind result_bind].
  cbn [app drop]. rewrite drop_0, take_app_length' by (by rewrite pk_serialize_length).
  rewrite pk_from_serialize. cbn [ok_or mbind result_bind].
  rewrite drop_app_length' by (by rewrite pk_serialize_length).
  rewrite take_app_length' by done.
  change (0 :: pk_serialize k ++ ps ++ h) with ((0 :: pk_serialize k) ++ (ps ++ h)).
  rewrite (app_assoc (0 :: pk_serialize k)), drop_app_length'; [done|].
  rewrite length_app. cbn [length]. by rewrite pk_serialize_length, Hp.
Qed.

Lemma onion_route_run session_key sks secrets ps ad :
  shared_secrets_for_path session_key (map sk_public_key sks) = Ok secrets ->
  length ps = length sks -> sks <> [] -> (sum_shifts ps <= PAYLOADS_LEN)%nat ->
  Forall (fun p => 2 <= length p)%nat ps ->
  Forall (fun h => h <> ZERO32)
    (inner_hmacs [] ad (pad_stream session_key) (combine secrets ps)) ->
  exists packet, construct session_key secrets ps ad = Ok packet /\
    length (onion_serialize packet) = PACKET_LEN /\
    onion_parse (onion_serialize packet) = Ok packet /\
    peel_all sks packet ad = Ok (combine secrets ps).
Proof using L.
  intros Hss Hlen Hne Hsum H2 Hz.
  assert (Hl : length secrets = length ps).
  { rewrite Hlen. clear -Hss. unfold shared_secrets_for_path in Hss. revert session_key secrets Hss.
    induction sks as [|sk sks IH]; intros e secrets H; cbn in H; [by injection H as <-|].
    apply bind_Ok in H as (b & _ & H). apply bind_Ok in H as (e' & _ & H).
    apply bind_Ok in H as (s & Hs & H). apply Ok_inj in H as <-. cbn. f_equal. by eapply IH. }
  assert (Hps : ps <> []).
  { intros E. apply Hne, nil_length_inv. rewrite <- Hlen, E. reflexivity. }
  assert (Hpad : length (pad_stream session_key) = PAYLOADS_LEN) by apply length_cipher_stream.
  assert (Hc : combine secrets ps <> []).
  { intros E. apply (f_equal length) in E. rewrite length_combine in E. apply Hps.
    apply nil_length_inv. cbn in E. lia. }
  destruct (build_tail [] ad (pad_stream session_key) (combine secrets ps) Hc Hpad) as [Hb _].
  { cbn [length]. rewrite sum_shifts_combine by done. lia. }
  pose proof (construct_build session_key secrets ps ad Hl Hps Hsum) as HC. cbv zeta in HC.
  pose proof (peel_all_build sks session_key [] ad (pad_stream session_key) (combine secrets ps)
    secrets ps Hss Hl eq_refl Hne Hpad) as HP.
  pose proof (length_build_hmac [] ad (pad_stream session_key) (combine secrets ps)) as Hh.
  revert HC HP Hb Hh Hz. generalize (build [] ad (pad_stream session_key) (combine secrets ps)).
  intros [m h] HC HP Hb Hh Hz. cbn [fst snd] in *.
  eexists. split; [exact HC|].
  match goal with |- length (onion_serialize ?p) = _ /\ _ =>
    destruct (onion_parse_serialize p) as [Hs Hp]; [reflexivity|exact Hb|exact Hh|] end.
  split; [exact Hs|]. split; [exact Hp|]. apply HP; [|exact H2|exact Hz].
  cbn [length]. rewrite sum_shifts_combine by done. lia.
Qed.

(** [C23] A payment onion reaches every hop: for any route whose payloads fit
    the 1300 bytes, [construct] succeeds, the packet survives serialization
    (1366 bytes), and peeling it with the hops' keys one after the other hands
    each hop its own payload and the secret the sender shares with it, the
    last hop seeing the packet as final.  The only assumption on the
    cryptography is that no inner HMAC is 32 zero bytes, the marker of the
    last hop. *)
Theorem onion_route session_key sks secrets ps ad :
  shared_secrets_for_path session_key (map sk_public_key sks) = Ok secrets ->
  length ps = length sks -> sks <> [] -> (sum_shifts ps <= PAYLOADS_LEN)%nat ->
  Forall (fun p => 2 <= length p)%nat ps ->
  Forall (fun h => h <> ZERO32)
    (inner_hmacs [] ad (pad_stream session_key) (combine secrets ps)) ->
  exists packet, construct session_key secrets ps ad = Ok packet /\
    length (onion_serialize packet) = PACKET_LEN /\
    onion_parse (onion_serialize packet) = Ok packet /\
    peel_all sks packet ad = Ok (combine secrets ps).
Proof using L. apply onion_route_run. Qed.
End Peel.

(** ** Errors on the way back *)
Lemma failure_wrap_involutive ss p : failure_wrap ss (failure_wrap ss p) = p.
Proof. unfold failure_wrap. rewrite length_xor_into. apply xor_into_involutive. Qed.

Lemma length_failure_wrap ss p : length (failure_wrap ss p) = length p.
Proof. apply length_xor_into. Qed.

Lemma length_failure_body msg : (length msg <= 1024)%nat ->
  length (failure_body msg) = (if length msg <=? 256 then 260 else 1028)%nat.
Proof.
  intros Hl. unfold failure_body. rewrite !length_app, !length_be_bytes, length_replicate.
  destruct (Nat.leb_spec (length msg) 256); lia.
Qed.

(** What each node on the way back sees before the erring one fails its check:
    no earlier HMAC matches by accident. *)
Fixpoint no_early_match (secrets : list bytes) (data : bytes) : Prop :=
  match secrets with
  | [] => True
  | ss :: secrets =>
    let data := failure_wrap ss data in
    hmac_sha256 (generate_key UM ss) (drop 32 data) <> take 32 data /\ no_early_match secrets data
  end.

#[export] Instance no_early_match_dec secrets data : Decision (no_early_match secrets data).
Proof. revert data; induction secrets; intros data; cbn; apply _. Defined.

Lemma failure_decrypt_build i ss rest msg : u16 (Z.of_nat (length msg)) ->
  failure_decrypt_from i (ss :: rest) (failure_build ss msg) = Some (i, msg).
Proof.
  intros Hm. cbn [failure_decrypt_from]. unfold failure_build. cbv zeta. rewrite failure_wrap_involutive.
  set (mac := hmac_sha256 (generate_key UM ss) (failure_body msg)).
  assert (Hmac : length mac = 32%nat) by apply length_hmac_sha256.
  rewrite (proj2 (Nat.ltb_ge _ _)).
  2: { rewrite length_app, Hmac. unfold failure_body. rewrite !length_app, length_be_bytes. lia. }
  rewrite take_app_length', drop_app_length' by done. fold mac.
  rewrite (proj2 (ct_eq_spec mac mac)) by done.
  unfold failure_body at 1 2 3 4. rewrite wrap_small by done.
  rewrite take_app_length', drop_app_length' by (by rewrite length_be_bytes).
  rewrite (of_be_be_bytes_id 2 16), Nat2Z.id by done.
  rewrite (proj2 (Nat.ltb_ge _ _)).
  2: { rewrite !length_app, !length_be_bytes. lia. }
  by rewrite take_app_length.
Qed.

Lemma failure_decrypt_skip i pre ss rest msg : u16 (Z.of_nat (length msg)) ->
  let packet := foldr failure_wrap (failure_build ss msg) pre in
  no_early_match pre packet ->
  failure_decrypt_from i (pre ++ ss :: rest) packet = Some ((i + length pre)%nat, msg).
Proof.
  intros Hm. revert i; induction pre as [|s pre IH]; intros i packet Hn.
  { unfold packet. cbn [foldr app length]. rewrite Nat.add_0_r. by apply failure_decrypt_build. }
  unfold packet in *. cbn [foldr] in *. cbn [no_early_match] in Hn.
  rewrite failure_wrap_involutive in Hn. destruct Hn as [Hne Hn].
  cbn [app failure_decrypt_from]. rewrite failure_wrap_involutive.
  set (data := foldr failure_wrap (failure_build ss msg) pre) in *.
  assert (Hl : (34 <= length data)%nat).
  { assert (E : length data = length (failure_build ss msg)).
    { unfold data. clear. induction pre as [|x pre IH]; [done|]. cbn. by rewrite length_failure_wrap. }
    rewrite E. unfold failure_build. rewrite length_failure_wrap, length_app, length_hmac_sha256.
    unfold failure_body. rewrite !length_app, length_be_bytes. lia. }
  rewrite (proj2 (Nat.ltb_ge _ _)) by done.
  destruct (ct_eq _ _) eqn:E; [by apply ct_eq_spec in E|].
  rewrite IH by done. do 2 f_equal. cbn [length]. lia.
Qed.

(** [C24] An error finds its way back: the packet of the erring hop, wrapped by
    every hop before it, is attributed by the sender to that hop with exactly
    the message it sent, unless an earlier hop's 32-byte HMAC matches by
    accident; and packets carrying messages up to 256 bytes (1024 bytes) all
    have the same length, so their size reveals nothing. *)
Theorem failure_attributed pre ss rest msg :
  let packet := foldr failure_wrap (failure_build ss msg) pre in
  (u16 (Z.of_nat (length msg)) -> no_early_match pre packet ->
     failure_decrypt (pre ++ ss :: rest) packet = Some (length pre, msg)) /\
  ((length msg <= 1024)%nat ->
     length packet = (if length msg <=? 256 then 292 else 1060)%nat).
Proof.
  intros packet. split.
  - intros Hm Hn. by apply (failure_decrypt_skip 0).
  - intros Hl. assert (E : length packet = length (failure_build ss msg)).
    { unfold packet. clear. induction pre as [|x pre IH]; [done|]. cbn. by rewrite length_failure_wrap. }
    rewrite E. unfold failure_build. rewrite length_failure_wrap, length_app, length_hmac_sha256,
      length_failure_body by done. by destruct (_ <=? _)%nat.
Qed.

Lemma failure_attributed_witness :
  let ss := replicate 32 3 in
  let msg := failure_message TEMPORARY_CHANNEL_FAILURE [0; 0] in
  failure_decrypt [ss; replicate 32 4] (failure_build ss msg) = Some (0%nat, msg).
Proof.
  cbv zeta. apply (failure_attributed [] (replicate 32 3) [replicate 32 4]
    (failure_message TEMPORARY_CHANNEL_FAILURE [0; 0])); [by vm_compute|exact I].
Defined.

(** [C25] A hop's packet can crash the node: the range check on the payload
    length ([2..=1268]) is wider than what fits, so a sender can make a frame
    of up to 1303 bytes with a valid HMAC; if it is not marked final, slicing
    the next payloads out of the 2600-byte buffer runs past the end and
    panics.  The one condition is that the packet gets that far: blinding its
    ephemeral key with the factor of this very packet succeeds (it fails only
    for a factor of zero). *)
Theorem peel_overlong_panics `{S : Secp} ss epk ad :
  (forall b, scalar_from_be_bytes (blinding_bytes epk ss) = Some b -> pk_mul_tweak epk b <> None) ->
  exists packet, version packet = 0 /\ ephemeral_key packet = epk /\
    length (payloads packet) = PAYLOADS_LEN /\ length (hmac packet) = 32%nat /\
    peel_with_secret ss packet ad = Panic.
Proof.
  intros Hmul.
  set (frame := Bigsize.write 1268 ++ replicate 1268 0 ++ replicate 29 1).
  assert (Hf : length frame = PAYLOADS_LEN) by (unfold frame; rewrite !length_app; reflexivity).
  set (M := xor_into frame (rho_stream ss PAYLOADS_LEN)).
  assert (HM : length M = PAYLOADS_LEN) by (unfold M; by rewrite length_xor_into).
  exists {| version := 0; ephemeral_key := epk; payloads := M;
    hmac := hmac2 (generate_key MU ss) M ad |}.
  split_and!; [done|done|done|apply length_hmac2|].
  rewrite peel_with_secret_frame by done. cbn [payloads ephemeral_key].
  rewrite opened_eq by done. unfold M. rewrite xor_into_involutive.
  set (rest := drop PAYLOADS_LEN _).
  assert (Hr : length rest = PAYLOADS_LEN).
  { unfold rest, rho_stream. rewrite length_drop, length_cipher_stream. lia. }
  assert (Hx : exists x y z rest', rest = x :: y :: z :: rest').
  { clear -Hr. pose proof PAYLOADS_LEN_eq. destruct rest as [|x [|y [|z rest']]]; cbn in Hr; try lia. eauto. }
  destruct Hx as (x & y & z & rest' & Er).
  assert (E : frame ++ rest = Bigsize.write 1268 ++ replicate 1268 0 ++
    (replicate 29 1 ++ [x; y; z]) ++ rest') by (unfold frame; rewrite Er, <- !app_assoc; done).
  unfold peel_open. rewrite E. rewrite bigsize_reads by (unfold uint; lia).
  cbn [bad_payload map_err mbind result_bind].
  pose proof PAYLOADS_LEN_eq as HL.
  rewrite (proj2 (Z.leb_le 1268 _)) by lia.
  cbn [Z.leb Z.compare andb negb fail_if mbind result_bind Pos.compare Pos.compare_cont].
  rewrite reads_take by apply length_replicate. cbn [bad_payload map_err mbind result_bind].
  rewrite reads_array by done. cbn [bad_payload map_err mbind result_bind].
  rewrite bool_decide_eq_false_2 by discriminate.
  destruct (scalar_from_be_bytes _) as [b|]; [|done]. cbn [expect mbind result_bind].
  destruct (pk_mul_tweak epk b) eqn:Eb; [|exfalso; exact (Hmul b eq_refl Eb)].
  cbn [ok_or mbind result_bind]. rewrite <- E, (proj2 (Nat.ltb_lt _ _)); [done|].
  rewrite length_app, Hf, Hr. rewrite Er in Hr. cbn [length] in Hr. lia.
Qed.

Lemma peel_overlong_panics_witness :
  exists packet, version (S := toy_secp) packet = 0 /\
    peel_with_secret (S := toy_secp) (replicate 32 9) packet [1; 2] = Panic.
Proof.
  destruct (peel_overlong_panics (S := toy_secp) (replicate 32 9) (toy_of 4) [1; 2])
    as (p & Hv & _ & _ & _ & H); [done|]. by exists p.
Defined.

(** Two hops on the toy curve. *)
Lemma onion_route_witness :
  exists packet, construct (S := toy_secp) (toy_of 7)
      [be_bytes 32 10; be_bytes 32 196] [[1; 2; 3]; [4; 5]] [9] = Ok packet /\
    peel_all (S := toy_secp) [toy_of 3; toy_of 5] packet [9] =
      Ok (combine [be_bytes 32 10; be_bytes 32 196] [[1; 2; 3]; [4; 5]]).
Proof.
  destruct (onion_route (S := toy_secp) (toy_of 7) [toy_of 3; toy_of 5]
    [be_bytes 32 10; be_bytes 32 196] [[1; 2; 3]; [4; 5]] [9]) as (packet & Hc & _ & _ & Hp).
  - by vm_compute.
  - reflexivity.
  - discriminate.
  - apply Nat.leb_le. by vm_compute.
  - apply (bool_decide_unpack _). by vm_compute.
  - apply (bool_decide_unpack _). by vm_compute.
  - by exists packet.
Defined.
