(* ===== verification/Text.v ===== *)
(** * Text: the standard library's text functions the code uses

    UTF-8 validation ([String::from_utf8]) and repair ([from_utf8_lossy]),
    decimal formatting and parsing of [u64], and [str::strip_prefix]; text is
    the list of its bytes. *)
From S2P Require Import Prelude.

(** A continuation byte, between [lo] and [hi]. *)
Definition cont (lo hi b : Z) : bool := (lo <=? b) && (b <=? hi).

(** Well-formed UTF-8 (Unicode table 3-7). *)
Fixpoint utf8_valid (s : bytes) : bool :=
  match s with
  | [] => true
  | b0 :: s1 =>
    if b0 <? 0x80 then utf8_valid s1
    else
      match s1 with
      | [] => false
      | b1 :: s2 =>
        if cont 0xC2 0xDF b0 then cont 0x80 0xBF b1 && utf8_valid s2
        else
          match s2 with
          | [] => false
          | b2 :: s3 =>
            if cont 0xE0 0xEF b0 then
              cont (if b0 =? 0xE0 then 0xA0 else 0x80) (if b0 =? 0xED then 0x9F else 0xBF) b1
              && cont 0x80 0xBF b2 && utf8_valid s3
            else
              match s3 with
              | [] => false
              | b3 :: s4 =>
                cont 0xF0 0xF4 b0
                && cont (if b0 =? 0xF0 then 0x90 else 0x80) (if b0 =? 0xF4 then 0x8F else 0xBF) b1
                && cont 0x80 0xBF b2 && cont 0x80 0xBF b3 && utf8_valid s4
              end
          end
      end
  end.

(** [String::from_utf8_lossy]: each maximal prefix of a sequence that cannot be
    continued becomes U+FFFD. *)
Definition REPLACEMENT : bytes := [0xEF; 0xBF; 0xBD].
Fixpoint utf8_lossy (s : bytes) : bytes :=
  match s with
  | [] => []
  | b0 :: s1 =>
    if b0 <? 0x80 then b0 :: utf8_lossy s1
    else
      match s1 with
      | [] => REPLACEMENT
      | b1 :: s2 =>
        if cont 0xC2 0xDF b0 then
          if cont 0x80 0xBF b1 then b0 :: b1 :: utf8_lossy s2 else REPLACEMENT ++ utf8_lossy s1
        else if cont 0xE0 0xEF b0 then
          if cont (if b0 =? 0xE0 then 0xA0 else 0x80) (if b0 =? 0xED then 0x9F else 0xBF) b1 then
            match s2 with
            | [] => REPLACEMENT
            | b2 :: s3 =>
              if cont 0x80 0xBF b2 then b0 :: b1 :: b2 :: utf8_lossy s3
              else REPLACEMENT ++ utf8_lossy s2
            end
          else REPLACEMENT ++ utf8_lossy s1
        else if cont 0xF0 0xF4 b0 then
          if cont (if b0 =? 0xF0 then 0x90 else 0x80) (if b0 =? 0xF4 then 0x8F else 0xBF) b1 then
            match s2 with
            | [] => REPLACEMENT
            | b2 :: s3 =>
              if cont 0x80 0xBF b2 then
                match s3 with
                | [] => REPLACEMENT
                | b3 :: s4 =>
                  if cont 0x80 0xBF b3 then b0 :: b1 :: b2 :: b3 :: utf8_lossy s4
                  else REPLACEMENT ++ utf8_lossy s3
                end
              else REPLACEMENT ++ utf8_lossy s2
            end
          else REPLACEMENT ++ utf8_lossy s1
        else REPLACEMENT ++ utf8_lossy s1
      end
  end.

(** Two, three and four bytes; overlong, surrogate and truncated forms. *)
Example utf8_examples :
  map utf8_valid [[0xC3; 0xA9]; [0xE2; 0x82; 0xAC]; [0xF0; 0x9F; 0x8D; 0xBA]; []] = [true; true; true; true] /\
  map utf8_valid [[0xC0; 0x80]; [0xED; 0xA0; 0x80]; [0xE2; 0x82]; [0x80]; [0xF4; 0x90; 0x80; 0x80]] =
    [false; false; false; false; false].
Proof. done. Qed.

(** A truncated sequence, a lone continuation byte, an overlong form. *)
Example utf8_lossy_examples :
  utf8_lossy [72; 0xE2; 0x82; 105] = [72; 0xEF; 0xBF; 0xBD; 105] /\
  utf8_lossy [0x80] = REPLACEMENT /\ utf8_lossy [0xC0; 0x80] = REPLACEMENT ++ REPLACEMENT /\
  utf8_lossy [0xE2; 0x82; 0xAC] = [0xE2; 0x82; 0xAC].
Proof. done. Qed.

Definition is_ascii_digit (c : Z) : bool := (48 <=? c) && (c <=? 57).

(** [format!("{}", n)]: twenty digits are enough for a [u64]. *)
Fixpoint dec_loop (fuel : nat) (n : Z) (acc : bytes) : bytes :=
  match fuel with
  | O => acc
  | S fuel =>
    let acc := 48 + n mod 10 :: acc in
    if n / 10 =? 0 then acc else dec_loop fuel (n / 10) acc
  end.
Definition dec (n : Z) : bytes := dec_loop 20 n [].

(** [digits.parse::<u64>()] on digits only. *)
Definition parse_digit (acc : option Z) (b : Z) : option Z :=
  a ← acc; let a' := a * 10 + (b - 48) in if a' <? 2 ^ 64 then Some a' else None.
Definition parse_u64 (s : bytes) : option Z := foldl parse_digit (Some 0) s.

Fixpoint strip_prefix (p s : bytes) : option bytes :=
  match p, s with
  | [], _ => Some s
  | a :: p, b :: s => if a =? b then strip_prefix p s else None
  | _ :: _, [] => None
  end.

Lemma strip_prefix_app p s : strip_prefix p (p ++ s) = Some s.
Proof. induction p as [|a p IH]; [done|]. cbn. by rewrite Z.eqb_refl. Qed.

Lemma dec_loop_parse fuel n acc :
  0 <= n < 10 ^ Z.of_nat fuel -> n < 2 ^ 64 -> (fuel <> 0)%nat ->
  foldl parse_digit (Some 0) (dec_loop fuel n acc) = foldl parse_digit (Some n) acc.
Proof.
  revert n acc; induction fuel as [|fuel IH]; intros n acc Hn H64 Hf; [done|]. cbn [dec_loop].
  rewrite Nat2Z.inj_succ, Z.pow_succ_r in Hn by lia.
  pose proof (Z.div_mod n 10 ltac:(lia)) as Hd. pose proof (Z.mod_pos_bound n 10 ltac:(lia)) as Hm.
  assert (E : forall a, a = n / 10 -> parse_digit (Some a) (48 + n mod 10) = Some n).
  { intros a ->. cbn. rewrite (proj2 (Z.ltb_lt _ _)) by lia. f_equal. lia. }
  destruct (Z.eqb_spec (n / 10) 0) as [H0|H0].
  - cbn [foldl]. by rewrite E.
  - rewrite IH; [|lia|lia|intros ->; cbn in *; lia]. cbn [foldl]. by rewrite E.
Qed.

Lemma parse_dec n : u64 n -> parse_u64 (dec n) = Some n.
Proof.
  intros Hn. unfold uint in Hn. unfold parse_u64, dec. rewrite dec_loop_parse; [done|lia..].
Qed.

Lemma dec_loop_digits fuel n acc : 0 <= n -> forallb is_ascii_digit acc = true ->
  forallb is_ascii_digit (dec_loop fuel n acc) = true.
Proof.
  revert n acc; induction fuel as [|fuel IH]; intros n acc Hn Ha; [done|]. cbn [dec_loop].
  assert (H : forallb is_ascii_digit (48 + n mod 10 :: acc) = true).
  { cbn. rewrite Ha, andb_true_r. pose proof (Z.mod_pos_bound n 10 ltac:(lia)).
    unfold is_ascii_digit. apply andb_true_iff. rewrite !Z.leb_le. lia. }
  destruct (n / 10 =? 0); [done|]. apply IH; [apply Z.div_pos; lia|done].
Qed.

Lemma dec_digits n : 0 <= n -> forallb is_ascii_digit (dec n) = true.
Proof. intros. by apply dec_loop_digits. Qed.

Lemma dec_loop_nonempty fuel n acc : acc <> [] \/ fuel <> 0%nat -> dec_loop fuel n acc <> [].
Proof.
  revert n acc; induction fuel as [|fuel IH]; intros n acc [Ha|Ha]; [done|done|..]; cbn [dec_loop];
    (destruct (n / 10 =? 0); [done|]; apply IH; by left).
Qed.

Lemma dec_nonempty n : dec n <> [].
Proof. apply dec_loop_nonempty. by right. Qed.
