(* ===== verification/Bech32.v ===== *)
(** * Bech32: the BIP 173 text encoding (src/src/invoice/bech32.rs)

    A [str] is the list of its UTF-8 bytes.  The checksum is a linear code:
    the proofs follow the remainder through [step], the multiplication by the
    generator's root, and derive both that a fresh checksum verifies and that
    a single wrong character never does.  [convert_bits] is related to the
    integer its groups spell. *)
From S2P Require Import Prelude Hex.

Definition CHARSET : bytes := str "qpzry9x8gf2tvdw0s3jn54khce6mua7l".

Inductive Bech32Error : Type :=
  | BadChar (c : Z) | BadChecksum | NoSeparator | MixedCase | PaddingError.

(** The first [char] of UTF-8 text. *)
Definition first_char (s : bytes) : Z :=
  match s with
  | [] => 0
  | b :: rest =>
    let cont i := Z.land (nth i rest 0) 0x3f in
    if b <? 0x80 then b
    else if b <? 0xe0 then Z.lor (Z.shiftl (Z.land b 0x1f) 6) (cont 0%nat)
    else if b <? 0xf0 then
      Z.lor (Z.lor (Z.shiftl (Z.land b 0x0f) 12) (Z.shiftl (cont 0%nat) 6)) (cont 1%nat)
    else
      Z.lor (Z.lor (Z.lor (Z.shiftl (Z.land b 0x07) 18) (Z.shiftl (cont 0%nat) 12))
        (Z.shiftl (cont 1%nat) 6)) (cont 2%nat)
  end.

Definition is_ascii_lowercase (c : Z) : bool := (97 <=? c) && (c <=? 122).
Definition is_ascii_uppercase (c : Z) : bool := (65 <=? c) && (c <=? 90).
Definition to_ascii_lowercase (s : bytes) : bytes :=
  map (fun c => if is_ascii_uppercase c then c + 32 else c) s.

(** ** The checksum *)
Definition GEN : list Z := [0x3b6a57b2; 0x26508e6d; 0x1ea119fa; 0x3d4233dd; 0x2a1462b3].

(** [for (i, g) in GEN.iter().enumerate() { if (b >> i) & 1 != 0 { chk ^= g } }]. *)
Fixpoint gen_loop (b chk : Z) (i : Z) (gens : list Z) : Z :=
  match gens with
  | [] => chk
  | g :: gens =>
    let chk := if negb (Z.land (Z.shiftr b i) 1 =? 0) then Z.lxor chk g else chk in
    gen_loop b chk (i + 1) gens
  end.

Definition polymod_step (chk v : Z) : Z :=
  let b := Z.shiftr chk 25 in
  let chk := Z.lxor (wrap 32 (Z.shiftl (Z.land chk 0x01ffffff) 5)) v in
  gen_loop b chk 0 GEN.
Definition polymod (values : bytes) : Z := foldl polymod_step 1 values.

Definition hrp_expand (hrp : bytes) : bytes :=
  map (fun c => Z.shiftr c 5) hrp ++ [0] ++ map (fun c => Z.land c 31) hrp.

(** [CHARSET[d as usize]], out of range panics. *)
Definition charset_at (d : Z) : result Bech32Error Z := expect (CHARSET !! Z.to_nat d).

Definition encode (hrp data : bytes) : result Bech32Error bytes :=
  let values := hrp_expand hrp ++ data ++ replicate 6 0 in
  let plm := Z.lxor (polymod values) 1 in
  body ← collect charset_at data;
  check ← collect (fun i => charset_at (Z.land (Z.shiftr plm (5 * (5 - i))) 31)) [0; 1; 2; 3; 4; 5];
  Ok (hrp ++ [49] ++ body ++ check).

(** [s.rfind('1')]. *)
Fixpoint rfind (c : Z) (s : bytes) : option nat :=
  match s with
  | [] => None
  | x :: s =>
    match rfind c s with
    | Some i => Some (S i)
    | None => if x =? c then Some 0%nat else None
    end
  end.

(** [CHARSET.iter().position(..)]. *)
Definition position (c : Z) : option Z :=
  match list_find (fun x => x = c) CHARSET with Some (i, _) => Some (Z.of_nat i) | None => None end.

(** [for c in s[sep + 1..].chars()]: a character outside ASCII stops the loop
    at its first byte. *)
Fixpoint decode_chars (s : bytes) : result Bech32Error bytes :=
  match s with
  | [] => Ok []
  | c :: rest =>
    v ← ok_or (position c) (BadChar (first_char s));
    vs ← decode_chars rest;
    Ok (v :: vs)
  end.

Definition decode (s : bytes) : result Bech32Error (bytes * bytes) :=
  let has_lower := existsb is_ascii_lowercase s in
  let has_upper := existsb is_ascii_uppercase s in
  _ ← fail_if (has_lower && has_upper) MixedCase;
  let s := to_ascii_lowercase s in
  sep ← ok_or (rfind 49 s) NoSeparator;
  _ ← fail_if ((sep =? 0)%nat || (length s <? sep + 7)%nat) NoSeparator;
  let hrp := take sep s in
  data ← decode_chars (drop (sep + 1) s);
  let values := hrp_expand hrp ++ data in
  _ ← fail_if (negb (polymod values =? 1)) BadChecksum;
  Ok (hrp, take (length data - 6) data).

(** ** Regrouping bits *)

(** [while bits >= to { .. }]. *)
Fixpoint emit (fuel : nat) (acc bits to maxv : Z) (out : bytes) : Z * bytes :=
  match fuel with
  | O => (bits, out)
  | S fuel =>
    if to <=? bits then
      let bits := bits - to in
      emit fuel acc bits to maxv (out ++ [wrap 8 (Z.land (Z.shiftr acc bits) maxv)])
    else (bits, out)
  end.

Fixpoint convert_loop (data : bytes) (from to maxv acc bits : Z) (out : bytes)
    : result Bech32Error (Z * Z * bytes) :=
  match data with
  | [] => Ok (acc, bits, out)
  | value :: data =>
    _ ← fail_if (negb (Z.shiftr value from =? 0)) PaddingError;
    let acc := Z.lor (wrap 32 (Z.shiftl acc from)) value in
    let bits := bits + from in
    let '(bits, out) := emit (Z.to_nat bits) acc bits to maxv out in
    convert_loop data from to maxv acc bits out
  end.

Definition convert_bits (data : bytes) (from to : Z) (pad : bool) : result Bech32Error bytes :=
  let maxv := wrap 32 (Z.shiftl 1 to) - 1 in
  '(acc, bits, out) ← convert_loop data from to maxv 0 0 [];
  let last := wrap 8 (Z.land (wrap 32 (Z.shiftl acc (to - bits))) maxv) in
  if pad then Ok (if 0 <? bits then out ++ [last] else out)
  else
    _ ← fail_if ((from <=? bits) ||
      negb (Z.land (wrap 32 (Z.shiftl acc (to - bits))) maxv =? 0)) PaddingError;
    Ok out.

(** BIP 173: valid and invalid strings. *)
Example bip173_valid :
  decode (str "A12UEL5L") = Ok (str "a", []) /\
  is_ok (decode (str "split1checkupstagehandshakeupstreamerranterredcaperred2y9e3w")) = true /\
  decode (str "abcdef1qpzry9x8gf2tvdw0s3jn54khce6mua7lmqqqxw") =
    Ok (str "abcdef", map Z.of_nat (seq 0 32)).
Proof. by vm_compute. Qed.
Example bip173_invalid :
  decode (str "x1b4n0q5v") = Err (BadChar 98) /\
  decode (str "li1dgmt3") = Err NoSeparator /\
  decode (str "split1checkupstagehandshakeupstreamerranterredcaperred2y9e2w") = Err BadChecksum /\
  decode (str "1checkupstagehandshakeupstreamerranterredcaperred2y9e3w") = Err NoSeparator /\
  decode (str "splIt1checkupstagehandshakeupstreamerranterredcaperred2y9e3w") = Err MixedCase.
Proof. by vm_compute. Qed.

(** ** The remainder is linear *)
Definition gens_of (b : Z) : Z := gen_loop b 0 0 GEN.
Definition step (chk : Z) : Z := polymod_step chk 0.

Lemma bit_test b i : 0 <= i -> negb (Z.land (Z.shiftr b i) 1 =? 0) = Z.testbit b i.
Proof.
  intros Hi. change 1 with (Z.ones 1). rewrite Z.land_ones by lia.
  change (2 ^ 1) with 2. rewrite <- Z.bit0_mod, Z.shiftr_spec, Z.add_0_l by lia.
  by destruct (Z.testbit b i).
Qed.

Lemma gen_loop_acc b chk i gens : gen_loop b chk i gens = Z.lxor chk (gen_loop b 0 i gens).
Proof.
  revert chk i; induction gens as [|g gens IH]; intros chk i; cbn [gen_loop].
  { by rewrite Z.lxor_0_r. }
  destruct (negb (Z.land (Z.shiftr b i) 1 =? 0)); rewrite ?Z.lxor_0_l; [|apply IH].
  by rewrite (IH (Z.lxor chk g)), (IH g), Z.lxor_assoc.
Qed.

Lemma gen_loop_lxor a b i gens : 0 <= i ->
  gen_loop (Z.lxor a b) 0 i gens = Z.lxor (gen_loop a 0 i gens) (gen_loop b 0 i gens).
Proof.
  revert i; induction gens as [|g gens IH]; intros i Hi; cbn [gen_loop]; [done|].
  rewrite (gen_loop_acc _ (if negb (Z.land (Z.shiftr (Z.lxor a b) i) 1 =? 0) then _ else _)),
    (gen_loop_acc _ (if negb (Z.land (Z.shiftr a i) 1 =? 0) then _ else _)),
    (gen_loop_acc _ (if negb (Z.land (Z.shiftr b i) 1 =? 0) then _ else _)),
    !bit_test, Z.lxor_spec, IH by lia.
  generalize (gen_loop a 0 (i + 1) gens) (gen_loop b 0 (i + 1) gens). intros x y.
  destruct (Z.testbit a i), (Z.testbit b i); cbn [xorb]; rewrite ?Z.lxor_0_l;
    apply Z.bits_inj; intros k; rewrite !Z.lxor_spec;
    destruct (Z.testbit g k), (Z.testbit x k), (Z.testbit y k); done.
Qed.

Lemma polymod_step_step chk v : polymod_step chk v = Z.lxor (step chk) v.
Proof.
  unfold step, polymod_step. rewrite !(gen_loop_acc _ (Z.lxor _ _)), Z.lxor_0_r, !Z.lxor_assoc.
  f_equal. apply Z.lxor_comm.
Qed.

Lemma step_eq x : step x =
  Z.lxor (Z.land (Z.shiftl (Z.land x (Z.ones 25)) 5) (Z.ones 32)) (gens_of (Z.shiftr x 25)).
Proof.
  unfold step, polymod_step. rewrite gen_loop_acc, Z.lxor_0_r. unfold wrap.
  rewrite <- Z.land_ones by lia. reflexivity.
Qed.

Lemma land_lxor_l a b c : Z.land (Z.lxor a b) c = Z.lxor (Z.land a c) (Z.land b c).
Proof.
  apply Z.bits_inj. intros k. rewrite !Z.lxor_spec, !Z.land_spec, Z.lxor_spec.
  by destruct (Z.testbit a k), (Z.testbit b k), (Z.testbit c k).
Qed.

Lemma step_lxor x y : step (Z.lxor x y) = Z.lxor (step x) (step y).
Proof.
  rewrite !step_eq. unfold gens_of. rewrite Z.shiftr_lxor, gen_loop_lxor by lia.
  rewrite land_lxor_l, Z.shiftl_lxor, land_lxor_l.
  rewrite !Z.lxor_assoc. f_equal. rewrite <- !Z.lxor_assoc. f_equal. apply Z.lxor_comm.
Qed.

Lemma step_0 : step 0 = 0.
Proof. reflexivity. Qed.

(** All 32 values of the overflowing bits. *)
Lemma gens_of_cases b : uint 5 b ->
  uint 30 (gens_of b) /\ (gens_of b mod 32 = 0 -> b = 0).
Proof.
  intros Hb. assert (H : forallb (fun n => uintb 30 (gens_of (Z.of_nat n)) &&
    (negb (gens_of (Z.of_nat n) mod 32 =? 0) || (Z.of_nat n =? 0))) (seq 0 32) = true) by done.
  rewrite forallb_forall in H. unfold uint in Hb. specialize (H (Z.to_nat b)).
  rewrite Z2Nat.id, andb_true_iff, uintb_spec, orb_true_iff, negb_true_iff, Z.eqb_neq, Z.eqb_eq in H by lia.
  destruct H as [H1 H2]; [apply in_seq; lia|]. split; [done|]. by destruct H2.
Qed.

Lemma step_parts x : uint 30 x ->
  step x = Z.lxor (32 * (x mod 2 ^ 25)) (gens_of (x / 2 ^ 25)) /\ uint 5 (x / 2 ^ 25).
Proof.
  intros Hx. rewrite step_eq, !Z.land_ones, Z.shiftr_div_pow2, Z.shiftl_mul_pow2 by lia.
  pose proof (Z.mod_pos_bound x (2 ^ 25) ltac:(lia)).
  rewrite (Z.mod_small (_ * _)) by lia. rewrite (Z.mul_comm _ (2 ^ 5)). split; [done|].
  unfold uint in *. split; [apply Z.div_pos; lia|apply Z.div_lt_upper_bound; lia].
Qed.

Lemma step_uint x : uint 30 x -> uint 30 (step x).
Proof.
  intros Hx. destruct (step_parts x Hx) as [-> Hb]. apply lxor_uint; [lia| |by apply gens_of_cases].
  pose proof (Z.mod_pos_bound x (2 ^ 25) ltac:(lia)). unfold uint. lia.
Qed.

Lemma step_small x : uint 25 x -> step x = 32 * x.
Proof.
  intros Hx. assert (uint 30 x) as Hx' by (eapply uint_mono; [|done]; lia).
  destruct (step_parts x Hx') as [-> _]. unfold uint in Hx.
  rewrite (Z.div_small x), (Z.mod_small x) by lia. apply Z.lxor_0_r.
Qed.

(** No non-zero remainder is lost. *)
Lemma step_inj0 x : uint 30 x -> step x = 0 -> x = 0.
Proof.
  intros Hx H. destruct (step_parts x Hx) as [E Hb]. rewrite E in H.
  apply Z.lxor_eq in H. destruct (gens_of_cases _ Hb) as [_ Hg].
  rewrite <- H in Hg. rewrite (Z.mul_comm 32), Z.mod_mul in Hg by lia.
  specialize (Hg eq_refl). rewrite Hg in H. change (gens_of 0) with 0 in H.
  pose proof (Z.div_mod x (2 ^ 25) ltac:(lia)). lia.
Qed.

Lemma iter_step_lxor n x y : Nat.iter n step (Z.lxor x y) = Z.lxor (Nat.iter n step x) (Nat.iter n step y).
Proof. induction n as [|n IH]; [done|]. by rewrite !Nat.iter_succ, IH, step_lxor. Qed.

Lemma iter_step_inj0 n x : uint 30 x -> Nat.iter n step x = 0 -> x = 0.
Proof.
  intros Hx. assert (Hn : forall m, uint 30 (Nat.iter m step x)).
  { induction m as [|m IH]; [done|]. rewrite Nat.iter_succ. by apply step_uint. }
  induction n as [|n IH]; [done|]. rewrite Nat.iter_succ. intros H. apply IH, step_inj0; [apply Hn|done].
Qed.

Lemma foldl_step c vs : foldl polymod_step c vs =
  Z.lxor (Nat.iter (length vs) step c) (foldl polymod_step 0 vs).
Proof.
  revert c; induction vs as [|v vs IH]; intros c; cbn [foldl length].
  { by rewrite Z.lxor_0_r. }
  rewrite (IH (polymod_step c v)), (IH (polymod_step 0 v)), !polymod_step_step.
  rewrite step_0, Z.lxor_0_l, iter_step_lxor, <- Z.lxor_assoc. f_equal. f_equal.
  symmetry. apply Nat.iter_succ_r.
Qed.

Lemma foldl_zeros n c : foldl polymod_step c (replicate n 0) = Nat.iter n step c.
Proof.
  revert c; induction n as [|n IH]; intros c; [done|].
  rewrite Nat.iter_succ_r. cbn [replicate foldl]. apply IH.
Qed.

Lemma foldl_step_uint c vs : uint 30 c -> Forall (uint 30) vs -> uint 30 (foldl polymod_step c vs).
Proof.
  intros Hc Hvs. revert c Hc. induction Hvs as [|v vs Hv _ IH]; intros c Hc; [done|].
  cbn [foldl]. apply IH. rewrite polymod_step_step. apply lxor_uint; [lia|by apply step_uint|done].
Qed.

(** ** Single errors are detected *)
Lemma polymod_single_error pre x y post :
  uint 30 x -> uint 30 y -> x <> y ->
  polymod (pre ++ x :: post) <> polymod (pre ++ y :: post).
Proof.
  intros Hx Hy Hne E. unfold polymod in E. rewrite !foldl_app in E. cbn [foldl] in E.
  rewrite (foldl_step (polymod_step _ x)), (foldl_step (polymod_step _ y)) in E.
  rewrite !polymod_step_step, !iter_step_lxor in E.
  assert (H : Nat.iter (length post) step (Z.lxor x y) = 0).
  { rewrite iter_step_lxor. apply Z.lxor_eq_0_iff.
    revert E. generalize (Nat.iter (length post) step (step (foldl polymod_step 1 pre))),
      (Nat.iter (length post) step x), (Nat.iter (length post) step y), (foldl polymod_step 0 post).
    intros a b c d E. apply (f_equal (fun z => Z.lxor a (Z.lxor z d))) in E.
    revert E. rewrite !Z.lxor_assoc, Z.lxor_nilpotent, !Z.lxor_0_r.
    by rewrite <- !Z.lxor_assoc, Z.lxor_nilpotent, !Z.lxor_0_l. }
  apply iter_step_inj0 in H; [|by apply lxor_uint]. by apply Z.lxor_eq in H.
Qed.

(** ** A fresh checksum verifies *)
Definition check_digits (plm : Z) : bytes :=
  map (fun i => Z.land (Z.shiftr plm (5 * (5 - i))) 31) [0; 1; 2; 3; 4; 5].

Lemma lxor_add32 x p : uint 5 p -> Z.lxor (32 * x) p = 32 * x + p.
Proof.
  intros Hp. symmetry. apply Z.add_nocarry_lxor.
  replace (32 * x) with (Z.shiftl x 5) by (rewrite Z.shiftl_mul_pow2 by lia; lia).
  apply Z.bits_inj_0. intros k. rewrite Z.land_spec.
  destruct (Z.lt_ge_cases k 0); [by rewrite !Z.testbit_neg_r|].
  destruct (Z.lt_ge_cases k 5); [by rewrite Z.shiftl_spec_low|].
  rewrite (uint_testbit_high 5 p k) by (done || lia). apply andb_false_r.
Qed.

Lemma check_digits_value plm : uint 30 plm -> foldl polymod_step 0 (check_digits plm) = plm.
Proof.
  intros Hp. unfold check_digits. cbn [map foldl]. change 31 with (Z.ones 5).
  rewrite !Z.land_ones, !Z.shiftr_div_pow2 by lia.
  change (5 * (5 - 0)) with 25. change (5 * (5 - 1)) with 20. change (5 * (5 - 2)) with 15.
  change (5 * (5 - 3)) with 10. change (5 * (5 - 4)) with 5. change (5 * (5 - 5)) with 0.
  assert (Hm : forall n, uint 5 ((plm / 2 ^ n) mod 2 ^ 5)) by (intros; apply Z.mod_pos_bound; lia).
  assert (Hd : forall n, 0 <= n -> plm / 2 ^ n = 32 * (plm / 2 ^ (n + 5)) + (plm / 2 ^ n) mod 2 ^ 5).
  { intros n Hn. rewrite Z.pow_add_r, <- Z.div_div by lia. apply Z.div_mod. lia. }
  unfold uint in Hp.
  assert (Hu : forall n, 0 <= n -> uint (30 - n) (plm / 2 ^ n) \/ 30 < n).
  { intros n Hn. destruct (Z.lt_ge_cases 30 n); [by right|left]. split; [apply Z.div_pos; lia|].
    apply Z.div_lt_upper_bound; [lia|]. rewrite <- Z.pow_add_r by lia.
    replace (n + (30 - n)) with 30 by lia. lia. }
  rewrite !polymod_step_step, step_0, Z.lxor_0_l.
  assert (H25 : plm / 2 ^ 25 = (plm / 2 ^ 25) mod 2 ^ 5).
  { rewrite (Z.mod_small (plm / 2 ^ 25)); [done|]. destruct (Hu 25) as [H|]; [lia|exact H|lia]. }
  pose proof (Hd 20 ltac:(lia)) as E20. pose proof (Hd 15 ltac:(lia)) as E15.
  pose proof (Hd 10 ltac:(lia)) as E10. pose proof (Hd 5 ltac:(lia)) as E5.
  pose proof (Hd 0 ltac:(lia)) as E0. clear Hd.
  change (20 + 5) with 25 in E20. change (15 + 5) with 20 in E15. change (10 + 5) with 15 in E10.
  change (5 + 5) with 10 in E5. change (0 + 5) with 5 in E0.
  assert (Hs : forall n, 5 <= n <= 30 -> step (plm / 2 ^ n) = 32 * (plm / 2 ^ n)).
  { intros n Hn. apply step_small. destruct (Hu n) as [H|]; [lia| |lia].
    eapply uint_mono; [|exact H]. lia. }
  rewrite <- H25, (Hs 25), lxor_add32, <- E20 by (done || lia).
  rewrite (Hs 20), lxor_add32, <- E15 by (done || lia).
  rewrite (Hs 15), lxor_add32, <- E10 by (done || lia).
  rewrite (Hs 10), lxor_add32, <- E5 by (done || lia).
  rewrite (Hs 5), lxor_add32, <- E0 by (done || lia). apply Z.div_1_r.
Qed.

Lemma polymod_checksum values : Forall (uint 30) values ->
  polymod (values ++ check_digits (Z.lxor (polymod (values ++ replicate 6 0)) 1)) = 1.
Proof.
  intros Hv. unfold polymod. rewrite !foldl_app. set (c := foldl polymod_step 1 values).
  assert (Hc : uint 30 c) by (by apply foldl_step_uint).
  rewrite foldl_step, foldl_zeros. change (length (check_digits _)) with 6%nat.
  assert (Hi : forall n, uint 30 (Nat.iter n step c)).
  { induction n as [|n IH]; [exact Hc|]. rewrite Nat.iter_succ. by apply step_uint. }
  rewrite check_digits_value by (apply lxor_uint; [lia|apply Hi|done]).
  by rewrite <- Z.lxor_assoc, Z.lxor_nilpotent.
Qed.

(** ** Round trip *)
Definition collect_charset (data : bytes) : bytes := map (fun d => CHARSET !!! Z.to_nat d) data.

Lemma charset_at_ok d : uint 5 d -> charset_at d = Ok (CHARSET !!! Z.to_nat d).
Proof.
  intros Hd. unfold charset_at. unfold uint in Hd.
  assert (is_Some (CHARSET !! Z.to_nat d)) as [c Hc].
  { apply lookup_lt_is_Some. change (length CHARSET) with 32%nat. lia. }
  by rewrite Hc, (list_lookup_total_correct _ _ _ Hc).
Qed.

(** What the 32 characters are: each found where it stands, none upper
    case, none a separator. *)
Lemma charset_char d : uint 5 d -> let c := CHARSET !!! Z.to_nat d in
  position c = Some d /\ is_ascii_uppercase c = false /\ c <> 49.
Proof.
  intros Hd. assert (H : forallb (fun n => let c := CHARSET !!! n in
    bool_decide (position c = Some (Z.of_nat n)) && negb (is_ascii_uppercase c) && negb (c =? 49))
    (seq 0 32) = true) by done.
  rewrite forallb_forall in H. unfold uint in Hd. specialize (H (Z.to_nat d)). cbn zeta in *.
  rewrite Z2Nat.id, !andb_true_iff, bool_decide_eq_true, !negb_true_iff, Z.eqb_neq in H by lia.
  destruct H as [[H1 H2] H3]; [apply in_seq; lia|]. done.
Qed.

Lemma position_Some c d : position c = Some d -> uint 5 d /\ c = CHARSET !!! Z.to_nat d.
Proof.
  unfold position. destruct (list_find _ _) as [[i x]|] eqn:E; [|done]. intros [= <-].
  apply list_find_Some in E as (Hi & -> & _). rewrite Nat2Z.id.
  split; [|symmetry; by apply list_lookup_total_correct].
  apply lookup_lt_Some in Hi. change (length CHARSET) with 32%nat in Hi. unfold uint. lia.
Qed.

Lemma position_inj c c' d : position c = Some d -> position c' = Some d -> c = c'.
Proof. by intros [_ ->]%position_Some [_ ->]%position_Some. Qed.

Lemma decode_chars_app a b d : decode_chars (a ++ b) = Ok d <->
  exists da db, d = da ++ db /\ decode_chars a = Ok da /\ decode_chars b = Ok db.
Proof.
  revert d; induction a as [|c a IH]; intros d; cbn [app decode_chars].
  { split; [|by intros (? & ? & -> & [= <-] & ->)]. intros H. by exists [], d. }
  destruct (position c) as [v|]; cbn [ok_or mbind result_bind]; [|naive_solver].
  split.
  - intros H. bind_inv. match goal with H : decode_chars _ = _ |- _ => apply IH in H as (da & db & -> & -> & ->) end.
    by exists (v :: da), db.
  - intros (da & db & -> & H & Hb). bind_inv.
    match goal with H : decode_chars a = Ok ?x |- _ => assert (decode_chars (a ++ b) = Ok (x ++ db)) as ->; [|done];
      apply IH; eauto end.
Qed.

Lemma decode_chars_ok data : Forall (uint 5) data -> decode_chars (collect_charset data) = Ok data.
Proof.
  induction 1 as [|d data Hd _ IH]; [done|].
  change (collect_charset (d :: data)) with (CHARSET !!! Z.to_nat d :: collect_charset data).
  cbn [decode_chars]. destruct (charset_char d Hd) as [-> _].
  cbn [ok_or mbind result_bind]. by rewrite IH.
Qed.

Lemma decode_chars_uint s data : decode_chars s = Ok data ->
  Forall (uint 5) data /\ length data = length s.
Proof.
  revert data; induction s as [|c s IH]; intros data; cbn [decode_chars]; [by intros [= <-]|].
  intros H. bind_inv. destruct (position_Some _ _ ltac:(eassumption)).
  edestruct IH as [? ?]; [eassumption|]. split; [by constructor|cbn; congruence].
Qed.

Lemma collect_charset_at data : Forall (uint 5) data ->
  collect charset_at data = Ok (collect_charset data).
Proof. induction 1 as [|d data Hd _ IH]; [done|]. cbn. by rewrite charset_at_ok, IH. Qed.

Lemma rfind_app c pre s : c ∉ s -> rfind c (pre ++ c :: s) = Some (length pre).
Proof.
  intros Hs. induction pre as [|x pre IH]; cbn [app rfind length]; [|by rewrite IH].
  assert (rfind c s = None) as ->; [|by rewrite Z.eqb_refl].
  induction s as [|x s IH]; [done|]. cbn. apply not_elem_of_cons in Hs as [Hx Hs].
  rewrite IH by done. by destruct (Z.eqb_spec x c).
Qed.

Definition no_upper (s : bytes) : Prop := existsb is_ascii_uppercase s = false.

Lemma lowercase_id s : no_upper s -> to_ascii_lowercase s = s.
Proof.
  unfold no_upper, to_ascii_lowercase. induction s as [|c s IH]; [done|].
  cbn [existsb map]. intros [Hc Hs]%orb_false_iff.
  by rewrite Hc, IH.
Qed.

Lemma collect_charset_plain data : Forall (uint 5) data ->
  no_upper (collect_charset data) /\ 49 ∉ collect_charset data.
Proof.
  induction 1 as [|d data Hd _ [IH1 IH2]]; [split; [done|apply not_elem_of_nil]|].
  destruct (charset_char d Hd) as (_ & H1 & H2). unfold no_upper in *.
  cbn [collect_charset map existsb]. rewrite H1. split; [done|]. by apply not_elem_of_cons.
Qed.

(** [decode] of lower-case text whose last separator is known. *)
Lemma decode_lower hrp body :
  hrp <> [] -> no_upper hrp -> no_upper body -> 49 ∉ body ->
  decode (hrp ++ [49] ++ body) =
    (_ ← fail_if (length body <? 6)%nat NoSeparator;
     data ← decode_chars body;
     _ ← fail_if (negb (polymod (hrp_expand hrp ++ data) =? 1)) BadChecksum;
     Ok (hrp, take (length data - 6) data)).
Proof.
  intros Hne Hh Hb H1. unfold decode.
  assert (no_upper (hrp ++ [49] ++ body)) as Hup.
  { unfold no_upper in *. rewrite !existsb_app, Hh, Hb. done. }
  rewrite lowercase_id by done. unfold no_upper in Hup. rewrite Hup, andb_false_r.
  cbn [fail_if mbind result_bind app].
  rewrite rfind_app by done. cbn [ok_or mbind result_bind].
  rewrite length_app, take_app_length, (cons_middle 49 hrp body), app_assoc, drop_app_length'
    by (rewrite length_app; cbn; lia).
  rewrite (proj2 (Nat.eqb_neq _ _)) by (by destruct hrp).
  cbn [length orb].
  assert ((length hrp + S (length body) <? length hrp + 7) = (length body <? 6))%nat as ->; [|done].
  destruct (Nat.ltb_spec (length body) 6); [apply Nat.ltb_lt|apply Nat.ltb_ge]; lia.
Qed.

Lemma hrp_expand_uint hrp : bytes_ok hrp -> Forall (uint 30) (hrp_expand hrp).
Proof.
  intros H. unfold hrp_expand. rewrite !Forall_app, !Forall_map, Forall_singleton. split; [|split; [done|]].
  - eapply Forall_impl; [exact H|]. intros c Hc. cbn. rewrite Z.shiftr_div_pow2 by lia.
    unfold uint in *. mod_lia.
  - eapply Forall_impl; [exact H|]. intros c Hc. cbn. apply land_uint; [lia|done].
Qed.

Lemma uint5_30 data : Forall (uint 5) data -> Forall (uint 30) data.
Proof. intros H. eapply Forall_impl; [exact H|]. intros d. apply uint_mono. lia. Qed.

Lemma check_digits_uint plm : Forall (uint 5) (check_digits plm).
Proof. apply Forall_map, Forall_forall. intros i _. apply land_uint; [lia|done]. Qed.

Lemma encode_eq hrp data : Forall (uint 5) data ->
  encode hrp data = Ok (hrp ++ [49] ++ collect_charset (data ++
    check_digits (Z.lxor (polymod (hrp_expand hrp ++ data ++ replicate 6 0)) 1))).
Proof.
  intros Hd. unfold encode. rewrite collect_charset_at by done.
  set (plm := Z.lxor _ 1). cbn [mbind result_bind].
  pose proof (collect_charset_at _ (check_digits_uint plm)) as E.
  change (collect _ [0; 1; 2; 3; 4; 5]) with (collect (E := Bech32Error) charset_at (check_digits plm)).
  rewrite E. cbn [mbind result_bind]. unfold collect_charset. by rewrite map_app.
Qed.

Lemma encode_decodes hrp data :
  hrp <> [] -> bytes_ok hrp -> no_upper hrp -> Forall (uint 5) data ->
  exists s, encode hrp data = Ok s /\ decode s = Ok (hrp, data).
Proof.
  intros Hne Hb Hh Hd. rewrite encode_eq by done. eexists; split; [done|].
  set (plm := Z.lxor _ 1). pose proof (check_digits_uint plm) as Hc.
  assert (Hdc : Forall (uint 5) (data ++ check_digits plm)) by by apply Forall_app.
  destruct (collect_charset_plain _ Hdc). rewrite decode_lower by done.
  rewrite (proj2 (Nat.ltb_ge _ _)), decode_chars_ok; [|done|].
  2: { unfold collect_charset. rewrite length_map, length_app. change (length (check_digits _)) with 6%nat. lia. }
  cbn [mbind result_bind fail_if].
  assert (polymod (hrp_expand hrp ++ data ++ check_digits plm) = 1) as ->.
  { unfold plm. rewrite !(app_assoc (hrp_expand hrp) data). apply polymod_checksum.
    apply Forall_app; auto using hrp_expand_uint, uint5_30. }
  cbn [Z.eqb Pos.eqb negb fail_if mbind result_bind].
  rewrite length_app. change (length (check_digits _)) with 6%nat.
  by rewrite Nat.add_sub, take_app_length.
Qed.

(** Another character of the alphabet changes exactly one group. *)
Lemma decode_chars_subst pre c c' post data d' :
  decode_chars (pre ++ c :: post) = Ok data -> position c' = Some d' -> c' <> c ->
  exists da d db, data = da ++ d :: db /\ d <> d' /\ uint 5 d /\
    decode_chars (pre ++ c' :: post) = Ok (da ++ d' :: db).
Proof.
  intros (da & db & -> & Ha & Hb)%decode_chars_app Hp Hne. cbn [decode_chars] in Hb. bind_inv.
  match goal with H : position c = Some ?x |- _ => rename H into Hc, x into d end.
  match goal with H : decode_chars post = Ok ?x |- _ => rename H into Hpost, x into ds end.
  exists da, d, ds. split; [done|]. split; [|split; [by apply position_Some in Hc as []|]].
  - intros ->. by apply Hne, (position_inj _ _ d').
  - apply decode_chars_app. exists da, (d' :: ds). split; [done|]. split; [done|].
    cbn [decode_chars]. by rewrite Hp, Hpost.
Qed.

(** One wrong data character is always detected: replacing a character
    after the separator of a valid lower-case string by another character of
    the alphabet makes [decode] fail with [BadChecksum]. *)
Theorem decode_detects_substitution hrp pre c d' post out :
  hrp <> [] -> no_upper (hrp ++ pre ++ c :: post) -> 49 ∉ pre ++ c :: post ->
  decode (hrp ++ [49] ++ pre ++ c :: post) = Ok out ->
  uint 5 d' -> CHARSET !!! Z.to_nat d' <> c ->
  decode (hrp ++ [49] ++ pre ++ (CHARSET !!! Z.to_nat d') :: post) = Err BadChecksum.
Proof.
  intros Hne Hup H1 Hok Hu' Hcc. destruct (charset_char _ Hu') as (Hp' & Hup' & Hsep').
  set (c' := CHARSET !!! Z.to_nat d') in *.
  unfold no_upper in Hup. rewrite !existsb_app in Hup. cbn [existsb] in Hup.
  rewrite !orb_false_iff in Hup. destruct Hup as (Hh & Hpre & Hc & Hpost).
  assert (Hbody : forall x, is_ascii_uppercase x = false -> no_upper (pre ++ x :: post)).
  { intros x Hx. unfold no_upper. rewrite existsb_app. cbn [existsb]. by rewrite Hpre, Hx, Hpost. }
  pose proof H1 as H1'. rewrite not_elem_of_app, not_elem_of_cons in H1'. destruct H1' as (Hs1 & _ & Hs2).
  rewrite decode_lower in Hok |- *; auto; [|by rewrite not_elem_of_app, not_elem_of_cons].
  rewrite !length_app in *. cbn [length] in *. bind_inv.
  match goal with H : (_ <? _)%nat = false |- _ => rewrite H; clear H end. cbn [fail_if mbind result_bind].
  match goal with H : decode_chars _ = Ok ?x |- _ =>
    destruct (decode_chars_subst _ _ _ _ _ _ H Hp' Hcc) as (da & d & db & -> & Hd & Hu & ->); clear H end.
  match goal with H : negb _ = false |- _ => apply negb_false_iff, Z.eqb_eq in H; rename H into Hpm end.
  cbn [mbind result_bind]. rewrite !app_assoc in Hpm |- *.
  rewrite (proj2 (Z.eqb_neq _ _)); [done|]. intros Hpm'. rewrite <- Hpm in Hpm'.
  by eapply (polymod_single_error _ d' d); [eapply uint_mono; [|exact Hu']; lia|
    eapply uint_mono; [|exact Hu]; lia|congruence|].
Qed.

Lemma decode_detects_substitution_witness :
  decode (str "a1" ++ str "2uel5p") = Err BadChecksum /\ decode (str "a12uel5l") = Ok (str "a", []).
Proof.
  split; [|by vm_compute].
  apply (decode_detects_substitution (str "a") (str "2uel5") 108 1 [] (str "a", []));
    [done|done|by apply (bool_decide_unpack _)|by vm_compute|done|done].
Defined.

(** Decoding an encoding gives back the human-readable part and the
    data, for every non-empty lower-case prefix and all 5-bit groups; no such
    encoding panics. *)
Theorem bech32_roundtrip hrp data :
  hrp <> [] -> bytes_ok hrp -> no_upper hrp -> Forall (uint 5) data ->
  exists s, encode hrp data = Ok s /\ decode s = Ok (hrp, data).
Proof. apply encode_decodes. Qed.

Lemma bech32_roundtrip_witness :
  exists s, encode (str "ln") [0; 31; 7] = Ok s /\ decode s = Ok (str "ln", [0; 31; 7]).
Proof.
  apply (bech32_roundtrip (str "ln") [0; 31; 7]); [done| |done|];
    by apply (bool_decide_unpack _).
Defined.

(** ** Regrouping preserves the integer spelt *)

(** The integer whose base-[2^w] digits, most significant first, are [l]. *)
Definition number (w : Z) (l : bytes) : Z := foldl (fun acc v => acc * 2 ^ w + v) 0 l.

Lemma number_acc w l a : 0 <= w ->
  foldl (fun acc v => acc * 2 ^ w + v) a l = a * 2 ^ (w * Z.of_nat (length l)) + number w l.
Proof.
  intros Hw. unfold number. revert a; induction l as [|v l IH]; intros a; cbn [foldl length].
  { rewrite Z.mul_0_r. lia. }
  rewrite IH, (IH (0 * _ + v)). replace (w * Z.of_nat (Datatypes.S (length l))) with (w + w * Z.of_nat (length l)) by lia.
  rewrite Z.pow_add_r by lia. lia.
Qed.

Lemma number_app w l l' : 0 <= w ->
  number w (l ++ l') = number w l * 2 ^ (w * Z.of_nat (length l')) + number w l'.
Proof. intros Hw. unfold number at 1. by rewrite foldl_app, number_acc. Qed.

Lemma number_snoc w l v : 0 <= w -> number w (l ++ [v]) = number w l * 2 ^ w + v.
Proof. intros Hw. rewrite number_app by done. cbn. by rewrite Z.mul_1_r. Qed.

Lemma number_bound w l : 0 <= w -> Forall (uint w) l -> uint (w * Z.of_nat (length l)) (number w l).
Proof.
  intros Hw. induction l as [|v l IH] using rev_ind; intros H.
  { unfold uint. cbn. rewrite Z.mul_0_r. done. }
  apply Forall_app in H as [Hl Hv]. inversion_clear Hv as [|? ? Hv' _]. specialize (IH Hl).
  rewrite number_snoc, length_app by done. unfold uint in *. cbn [length].
  replace (w * Z.of_nat (length l + 1)) with (w * Z.of_nat (length l) + w) by lia.
  rewrite Z.pow_add_r by lia. nia.
Qed.

Lemma number_inj w l l' : 0 <= w -> Forall (uint w) l -> Forall (uint w) l' ->
  length l = length l' -> number w l = number w l' -> l = l'.
Proof.
  intros Hw. revert l'; induction l as [|v l IH] using rev_ind; intros l' Hl Hl' Hlen E.
  { by destruct l'. }
  destruct l' as [|v' l' _] using rev_ind; [rewrite length_app in Hlen; cbn in Hlen; lia|].
  rewrite !length_app in Hlen. cbn in Hlen.
  apply Forall_app in Hl as [Hl Hv], Hl' as [Hl' Hv'].
  inversion_clear Hv as [|? ? Hv1 _]. inversion_clear Hv' as [|? ? Hv1' _].
  rewrite !number_snoc in E by done. unfold uint in *.
  destruct (Z.div_mod_unique (2 ^ w) (number w l) (number w l') v v') as [E1 ->]; [lia..|].
  f_equal. apply IH; auto; lia.
Qed.

Section convert_bits.
Context (from to : Z) (Hfrom : 1 <= from <= 8) (Hto : 1 <= to <= 8).

(** After [done] groups: [out] and the low [bits] bits of [acc] spell the
    same integer, and every bit is accounted for. *)
Definition converts (data : bytes) (acc bits : Z) (out : bytes) : Prop :=
  0 <= bits /\ 0 <= acc /\
  number from data = number to out * 2 ^ bits + acc mod 2 ^ bits /\
  from * Z.of_nat (length data) = to * Z.of_nat (length out) + bits /\
  Forall (uint to) out.

Lemma emitted acc bits : 0 <= bits ->
  wrap 8 (Z.land (Z.shiftr acc bits) (2 ^ to - 1)) = (acc / 2 ^ bits) mod 2 ^ to.
Proof.
  intros Hb. replace (2 ^ to - 1) with (Z.ones to) by (rewrite Z.ones_equiv; lia).
  rewrite Z.land_ones, Z.shiftr_div_pow2 by lia. apply wrap_small.
  apply uint_mono with to; [lia|]. apply Z.mod_pos_bound. lia.
Qed.

Lemma emit_converts fuel data acc bits out :
  converts data acc bits out -> (Z.to_nat bits <= fuel)%nat ->
  let '(bits', out') := emit fuel acc bits to (2 ^ to - 1) out in
  converts data acc bits' out' /\ bits' < to.
Proof.
  revert bits out; induction fuel as [|fuel IH]; intros bits out H Hf.
  { destruct H as (Hb & H). cbn. split; [done|]. lia. }
  cbn [emit]. destruct (Z.leb_spec to bits) as [Hle|Hlt]; [|by split].
  apply IH; [|lia]. destruct H as (Hb & Ha & HV & HL & Hok).
  rewrite emitted by lia. split; [lia|]. split; [done|].
  pose proof (Z.mod_pos_bound (acc / 2 ^ (bits - to)) (2 ^ to) ltac:(lia)) as Hm.
  rewrite number_snoc, length_app by lia. cbn [length]. split; [|split; [lia|]].
  - rewrite HV. replace (2 ^ bits) with (2 ^ (bits - to) * 2 ^ to)
      by (rewrite <- Z.pow_add_r by lia; f_equal; lia).
    rewrite Z.rem_mul_r by lia. lia.
  - apply Forall_app. split; [done|]. by constructor.
Qed.

Lemma acc_push acc bits value : 0 <= acc -> 0 <= bits -> bits + from <= 32 -> uint from value ->
  Z.lor (wrap 32 (Z.shiftl acc from)) value mod 2 ^ (bits + from) =
    (acc mod 2 ^ bits) * 2 ^ from + value /\
  0 <= Z.lor (wrap 32 (Z.shiftl acc from)) value.
Proof.
  intros Ha Hb H32 Hv. unfold wrap.
  assert (Z.shiftl acc from mod 2 ^ 32 = Z.shiftl (acc mod 2 ^ (32 - from)) from) as ->.
  { rewrite !Z.shiftl_mul_pow2 by lia. replace 32 with ((32 - from) + from) at 1 by lia.
    rewrite Z.pow_add_r by lia. rewrite Z.mul_mod_distr_r by lia. done. }
  rewrite lor_shiftl_add by (done || lia). unfold uint in Hv.
  pose proof (Z.mod_pos_bound acc (2 ^ (32 - from)) ltac:(lia)). split; [|nia].
  rewrite Z.pow_add_r, (Z.mul_comm (2 ^ bits)), Z.rem_mul_r by lia.
  rewrite (Z.add_comm (_ * 2 ^ from) value), Z.mod_add, Z.div_add, (Z.div_small value), (Z.mod_small value) by lia.
  rewrite Z.add_0_l. assert ((acc mod 2 ^ (32 - from)) mod 2 ^ bits = acc mod 2 ^ bits) as ->; [|lia].
  replace (32 - from) with (bits + (32 - from - bits)) by lia. rewrite Z.pow_add_r by lia.
  rewrite Z.rem_mul_r by lia. rewrite (Z.mul_comm (2 ^ bits)), Z.mod_add, Z.mod_mod by lia. done.
Qed.

Lemma convert_loop_converts done data acc bits out :
  converts done acc bits out -> bits < to -> Forall (uint from) data ->
  exists acc' bits' out',
    convert_loop data from to (2 ^ to - 1) acc bits out = Ok (acc', bits', out') /\
    converts (done ++ data) acc' bits' out' /\ bits' < to.
Proof.
  revert done acc bits out; induction data as [|v data IH]; intros dn acc bits out H Hlt Hd.
  { exists acc, bits, out. by rewrite app_nil_r. }
  inversion_clear Hd as [|? ? Hv Hd']. cbn [convert_loop].
  assert (Z.shiftr v from = 0) as ->.
  { rewrite Z.shiftr_div_pow2 by lia. by apply Z.div_small. }
  cbn [Z.eqb negb fail_if mbind result_bind].
  destruct H as (Hb & Ha & HV & HL & Hok).
  destruct (acc_push acc bits v Ha Hb ltac:(lia) Hv) as [Hp Hp0].
  set (acc1 := Z.lor _ _) in *.
  assert (Hc : converts (dn ++ [v]) acc1 (bits + from) out).
  { split; [lia|]. split; [done|]. rewrite Hp, number_snoc, length_app by lia. cbn [length].
    split; [|split; [lia|done]]. rewrite HV, Z.pow_add_r by lia. lia. }
  pose proof (emit_converts (Z.to_nat (bits + from)) _ _ _ _ Hc (le_n _)) as He.
  destruct (emit _ _ _ _ _ _) as [bits' out']. destruct He as [He Hlt'].
  rewrite cons_middle, app_assoc. by apply IH.
Qed.

Lemma maxv_eq : wrap 32 (Z.shiftl 1 to) - 1 = 2 ^ to - 1.
Proof.
  rewrite Z.shiftl_mul_pow2, Z.mul_1_l by lia. f_equal. apply wrap_small.
  split; [lia|]. apply Z.pow_lt_mono_r; lia.
Qed.

(** The padded tail: the remaining bits moved to the top of a group. *)
Lemma tail_group acc bits : 0 <= bits < to ->
  Z.land (wrap 32 (Z.shiftl acc (to - bits))) (2 ^ to - 1) = (acc mod 2 ^ bits) * 2 ^ (to - bits).
Proof.
  intros Hb. replace (2 ^ to - 1) with (Z.ones to) by (rewrite Z.ones_equiv; lia).
  rewrite Z.land_ones, Z.shiftl_mul_pow2 by lia. unfold wrap.
  replace 32 with (to + (32 - to)) by lia. rewrite Z.pow_add_r by lia.
  rewrite Z.rem_mul_r by lia. rewrite (Z.mul_comm (2 ^ to)), Z.mod_add, Z.mod_mod by lia.
  replace (2 ^ to) with (2 ^ bits * 2 ^ (to - bits)) by (rewrite <- Z.pow_add_r by lia; f_equal; lia).
  by rewrite Z.mul_mod_distr_r by lia.
Qed.

Lemma convert_loop_start data : Forall (uint from) data ->
  exists acc bits out,
    convert_loop data from to (2 ^ to - 1) 0 0 [] = Ok (acc, bits, out) /\
    converts data acc bits out /\ bits < to.
Proof. intros Hd. apply (convert_loop_converts []); [|lia|done]. unfold converts. cbn. split_and!; [lia|lia|done|lia|constructor]. Qed.

(** Padding: the result spells the input followed by [p] zero bits. *)
Lemma convert_bits_padded data : Forall (uint from) data ->
  exists out p, convert_bits data from to true = Ok out /\ 0 <= p < to /\
    to * Z.of_nat (length out) = from * Z.of_nat (length data) + p /\
    number to out = number from data * 2 ^ p /\ Forall (uint to) out.
Proof.
  intros Hd. unfold convert_bits. rewrite maxv_eq.
  destruct (convert_loop_start data Hd) as (acc & bits & out & -> & (Hb & Ha & HV & HL & Hok) & Hlt).
  cbn [mbind result_bind]. rewrite tail_group by lia.
  pose proof (Z.mod_pos_bound acc (2 ^ bits) ltac:(lia)) as Hm.
  assert (2 ^ to = 2 ^ bits * 2 ^ (to - bits)) as Epow by (rewrite <- Z.pow_add_r by lia; f_equal; lia).
  destruct (Z.ltb_spec 0 bits) as [H0|H0].
  - exists (out ++ [(acc mod 2 ^ bits) * 2 ^ (to - bits)]), (to - bits).
    assert (uint to (acc mod 2 ^ bits * 2 ^ (to - bits))) as Hu by (unfold uint; nia).
    rewrite wrap_small by (by eapply uint_mono; [|exact Hu]; lia).
    rewrite number_snoc, length_app by lia. cbn [length].
    split_and!; [done|lia..| |by apply Forall_app; split; [|constructor]].
    rewrite HV. nia.
  - exists out, 0. assert (bits = 0) as -> by lia. rewrite Z.mod_1_r in HV.
    split_and!; [done|lia..|done].
Qed.

(** Strict: it succeeds exactly on fewer than [from] zero bits of padding. *)
Lemma convert_bits_strict data p : Forall (uint from) data ->
  p = (from * Z.of_nat (length data)) mod to ->
  p < from -> (2 ^ p | number from data) ->
  exists out, convert_bits data from to false = Ok out /\
    to * Z.of_nat (length out) + p = from * Z.of_nat (length data) /\
    number to out * 2 ^ p = number from data /\ Forall (uint to) out.
Proof.
  intros Hd -> Hp [q Hq]. unfold convert_bits. rewrite maxv_eq.
  destruct (convert_loop_start data Hd) as (acc & bits & out & -> & (Hb & Ha & HV & HL & Hok) & Hlt).
  cbn [mbind result_bind]. rewrite tail_group by lia.
  assert (Hbits : (from * Z.of_nat (length data)) mod to = bits).
  { rewrite HL, Z.add_comm, Z.mul_comm, Z.mod_add by lia. by apply Z.mod_small. }
  rewrite Hbits in *.
  assert (acc mod 2 ^ bits = 0) as E0.
  { rewrite <- (Z.mod_mod acc), <- (Z.mod_add (acc mod 2 ^ bits) (number to out)) by lia.
    rewrite (Z.add_comm _ (_ * _)), <- HV, Hq. apply Z.mod_mul. lia. }
  rewrite E0 in *. rewrite (proj2 (Z.leb_gt _ _)) by lia. cbn.
  exists out. rewrite HV. split_and!; [done|lia..|done].
Qed.
End convert_bits.

(** Strict conversion is a prefix of the padded one. *)
Lemma convert_bits_prefix data from to out :
  convert_bits data from to false = Ok out ->
  exists tl, convert_bits data from to true = Ok (out ++ tl).
Proof.
  unfold convert_bits. destruct (convert_loop _ _ _ _ _ _ _) as [[[acc bits] o]|e|]; [|done..].
  cbn [mbind result_bind]. destruct (fail_if _ _); [|done..]. cbn. intros [= ->].
  destruct (0 <? bits); [by eexists|]. exists []. by rewrite app_nil_r.
Qed.

Lemma regroup data : bytes_ok data ->
  exists five, convert_bits data 8 5 true = Ok five /\
    convert_bits five 5 8 false = Ok data /\ Forall (uint 5) five /\
    Z.of_nat (length five) = (8 * Z.of_nat (length data) + 4) / 5.
Proof.
  intros Hd. destruct (convert_bits_padded 8 5 ltac:(lia) ltac:(lia) data Hd) as (five & p & E & Hp & HL & HV & H5).
  exists five. split; [done|].
  assert (Hm : p = (5 * Z.of_nat (length five)) mod 8).
  { rewrite HL, Z.add_comm, Z.mul_comm, Z.mod_add, Z.mod_small by lia. done. }
  destruct (convert_bits_strict 5 8 ltac:(lia) ltac:(lia) five p H5 Hm) as (out & Eo & HLo & HVo & Hok);
    [lia|by exists (number 8 data)|].
  assert (out = data) as ->.
  { apply (number_inj 8); [lia|done|done|lia|]. nia. }
  split_and!; [done..|]. mod_lia.
Qed.

(** Bytes regrouped into 5-bit groups, as many as the bits need, come
    back unchanged under the strict reading, and lead the padded reading the
    fixed-size fields use. *)
Theorem convert_bits_roundtrip data : bytes_ok data ->
  exists five, convert_bits data 8 5 true = Ok five /\
    Z.of_nat (length five) = (8 * Z.of_nat (length data) + 4) / 5 /\
    convert_bits five 5 8 false = Ok data /\
    exists tl, convert_bits five 5 8 true = Ok (data ++ tl).
Proof.
  intros Hd. destruct (regroup data Hd) as (five & E & E' & _ & Hl).
  exists five. split_and!; [done..|]. by apply convert_bits_prefix.
Qed.

Lemma convert_bits_roundtrip_witness : exists five,
  convert_bits [0xff; 0x00; 0xab; 0x42] 8 5 true = Ok five /\
  Z.of_nat (length five) = (8 * 4 + 4) / 5 /\
  convert_bits five 5 8 false = Ok [0xff; 0x00; 0xab; 0x42] /\
  exists tl, convert_bits five 5 8 true = Ok ([0xff; 0x00; 0xab; 0x42] ++ tl).
Proof.
  apply (convert_bits_roundtrip [0xff; 0x00; 0xab; 0x42]). by apply (bool_decide_unpack _).
Defined.
