(* ===== verification/Invoice.v ===== *)
(** * Invoice: BOLT 11 invoices (src/src/invoice/mod.rs)

    [parse] and [encode_signed] as the code has them: amounts, tagged fields,
    the signature over the packed data, and the payee recovered from it.  A
    [str] is the list of its UTF-8 bytes. *)
From S2P Require Import Prelude Hex Secp Types Sha256 Features Text Bech32.

Definition TAG_PAYMENT_HASH : Z := 1.
Definition TAG_ROUTE_HINT : Z := 3.
Definition TAG_FEATURES : Z := 5.
Definition TAG_EXPIRY : Z := 6.
Definition TAG_FALLBACK : Z := 9.
Definition TAG_DESCRIPTION : Z := 13.
Definition TAG_PAYMENT_SECRET : Z := 16.
Definition TAG_PAYEE_NODE : Z := 19.
Definition TAG_DESCRIPTION_HASH : Z := 23.
Definition TAG_MIN_FINAL_CLTV : Z := 24.
Definition TAG_METADATA : Z := 27.

Definition DEFAULT_EXPIRY_SECS : Z := 3600.
Definition DEFAULT_MIN_FINAL_CLTV : Z := 18.

Inductive InvoiceError : Type :=
  | Bech32 (e : Bech32Error)
  | BadPrefix | BadAmount | TooShort
  | MissingField (field : string)
  | BadField (field : string)
  | BadSignature.

Inductive Description : Type := Direct (text : bytes) | Hash (h : bytes).

(** [r.expect(..)]: an error is a panic too. *)
Definition unwrap {E E' A} (r : result E A) : result E' A :=
  match r with Ok a => Ok a | _ => Panic end.

(** [&v[..n]]. *)
Definition slice_to {E} (n : nat) (v : bytes) : result E bytes :=
  if (length v <? n)%nat then Panic else Ok (take n v).

(** ** Amounts *)
Definition parse_amount (s : bytes) : result InvoiceError (option Z) :=
  match last s with
  | None => Ok None
  | Some c =>
    '(digits, multiplier) ←
      (if c =? 109 then Ok (take (length s - 1) s, 100_000_000)
       else if c =? 117 then Ok (take (length s - 1) s, 100_000)
       else if c =? 110 then Ok (take (length s - 1) s, 100)
       else if c =? 112 then Ok (take (length s - 1) s, 0)
       else if is_ascii_digit c then Ok (s, 100_000_000_000)
       else Err BadAmount);
    _ ← fail_if ((length digits =? 0)%nat || negb (forallb is_ascii_digit digits)) BadAmount;
    value ← ok_or (parse_u64 digits) BadAmount;
    if multiplier =? 0 then
      (_ ← fail_if (negb (value mod 10 =? 0)) BadAmount; Ok (Some (value / 10)))
    else
      (_ ← fail_if (u64_max <? value * multiplier) BadAmount; Ok (Some (value * multiplier)))
  end.

Definition encode_amount (m : Z) : bytes :=
  if m mod 100_000_000 =? 0 then dec (m / 100_000_000) ++ [109]
  else if m mod 100_000 =? 0 then dec (m / 100_000) ++ [117]
  else if m mod 100 =? 0 then dec (m / 100) ++ [110]
  else dec (wrap 64 (m * 10)) ++ [112].

(** ** Feature vectors in 5-bit groups *)

(** The loop of both directions: [from]-bit digits read from the end, each
    set bit written into the [to]-bit digits. *)
Definition regroup_step (from to : nat) (src : bytes) (out : bytes) (bit : nat) : bytes :=
  let d := src !!! (length src - 1 - bit / from)%nat in
  if negb (Z.land d (Z.shiftl 1 (Z.of_nat (bit mod from))) =? 0) then
    let g := (length out - 1 - bit / to)%nat in
    <[g := Z.lor (out !!! g) (Z.shiftl 1 (Z.of_nat (bit mod to)))]> out
  else out.

(** [split_off(position(non-zero))]. *)
Fixpoint strip_zeros (l : bytes) : bytes :=
  match l with
  | [] => []
  | b :: l' => if b =? 0 then strip_zeros l' else l
  end.

Definition div_ceil (a b : nat) : nat := ((a + b - 1) / b)%nat.

Definition regroup_be (from to : nat) (src : bytes) : bytes :=
  let total_bits := (length src * from)%nat in
  let groups := div_ceil total_bits to in
  strip_zeros (foldl (regroup_step from to src) (replicate groups 0) (seq 0 total_bits)).

Definition bytes_to_five_bit_be (b : bytes) : bytes := regroup_be 8 5 b.
Definition five_bit_to_bytes_be (groups : bytes) : bytes := regroup_be 5 8 groups.

(** [while v > 0 { out.push(v & 31); v >>= 5 }], reversed: thirteen groups
    hold a [u64]. *)
Fixpoint base32_loop (fuel : nat) (v : Z) : bytes :=
  match fuel with
  | O => []
  | S fuel => if v =? 0 then [] else Z.land v 31 :: base32_loop fuel (Z.shiftr v 5)
  end.
Definition minimal_base32_be (v : Z) : bytes :=
  if v =? 0 then [0] else reverse (base32_loop 13 v).

(** [iter().fold(0, |acc, &v| acc << 5 | v)] at [w] bits. *)
Definition fold_groups (w : Z) (l : bytes) : Z :=
  foldl (fun acc v => Z.lor (wrap w (Z.shiftl acc 5)) v) 0 l.

Section invoice.
Context `{S : Secp}.

Record RouteHintHop : Type := {
  src_node_id : PublicKey;
  short_channel_id : Z;
  fee_base_msat : Z;
  fee_proportional_millionths : Z;
  cltv_expiry_delta : Z;
}.

Record Bolt11Invoice : Type := {
  network : Network;
  amount_msat : option Z;
  timestamp : Z;
  payment_hash : bytes;
  payment_secret : bytes;
  description : Description;
  expiry_secs : option Z;
  min_final_cltv_expiry_delta : option Z;
  features : bytes;
  route_hints : list (list RouteHintHop);
  payee : PublicKey;
}.

Definition expiry_secs_or_default (i : Bolt11Invoice) : Z :=
  default DEFAULT_EXPIRY_SECS (expiry_secs i).
Definition min_final_cltv_or_default (i : Bolt11Invoice) : Z :=
  default DEFAULT_MIN_FINAL_CLTV (min_final_cltv_expiry_delta i).
Definition is_expired_at (i : Bolt11Invoice) (unix_time : Z) : bool :=
  sat_add64 (timestamp i) (expiry_secs_or_default i) <? unix_time.

(** ** Parsing *)
Definition parse_prefix (after_ln : bytes) : result InvoiceError (Network * bytes) :=
  match strip_prefix (str "bcrt") after_ln with
  | Some rest => Ok (Regtest, rest)
  | None =>
    match strip_prefix (str "tbs") after_ln with
    | Some rest => Ok (Signet, rest)
    | None =>
      match strip_prefix (str "tb") after_ln with
      | Some rest => Ok (Testnet, rest)
      | None =>
        match strip_prefix (str "bc") after_ln with
        | Some rest => Ok (Bitcoin, rest)
        | None => Err BadPrefix
        end
      end
    end
  end.

(** The mutable variables of the loop over tagged fields. *)
Record Fields : Type := {
  f_payment_hash : option bytes;
  f_payment_secret : option bytes;
  f_description : option Description;
  f_expiry : option Z;
  f_min_final_cltv : option Z;
  f_features : bytes;
  f_route_hints : list (list RouteHintHop);
  f_explicit_payee : option PublicKey;
}.

#[export] Instance fields_eta : Eta Fields := fun f =>
  {| f_payment_hash := f_payment_hash f; f_payment_secret := f_payment_secret f;
     f_description := f_description f; f_expiry := f_expiry f;
     f_min_final_cltv := f_min_final_cltv f; f_features := f_features f;
     f_route_hints := f_route_hints f; f_explicit_payee := f_explicit_payee f |}.

Definition no_fields : Fields :=
  {| f_payment_hash := None; f_payment_secret := None; f_description := None;
     f_expiry := None; f_min_final_cltv := None; f_features := Features.empty;
     f_route_hints := []; f_explicit_payee := None |}.

(** [convert_bits(body, 5, 8, true)?] cut to [n] bytes. *)
Definition fixed_field (n : nat) (body : bytes) : result InvoiceError bytes :=
  b ← map_err Bech32 (convert_bits body 5 8 true);
  slice_to n b.

Definition parse_hop (chunk : bytes) : result InvoiceError RouteHintHop :=
  pk ← ok_or (pk_from_slice (take 33 chunk)) (BadField "route hint pubkey");
  Ok {| src_node_id := pk;
        short_channel_id := of_be (take 8 (drop 33 chunk));
        fee_base_msat := of_be (take 4 (drop 41 chunk));
        fee_proportional_millionths := of_be (take 4 (drop 45 chunk));
        cltv_expiry_delta := of_be (take 2 (drop 49 chunk)) |}.

(** [bytes.chunks_exact(51)], [n] of them. *)
Fixpoint chunks (k n : nat) (b : bytes) : list bytes :=
  match n with O => [] | Datatypes.S n => take k b :: chunks k n (drop k b) end.

Definition parse_hint (body : bytes) : result InvoiceError (list RouteHintHop) :=
  b ← map_err (fun _ => BadField "route hint") (convert_bits body 5 8 false);
  _ ← fail_if (negb (length b mod 51 =? 0)%nat) (BadField "route hint length");
  collect parse_hop (chunks 51 (length b / 51) b).

(** The [match tag] of the loop. *)
Definition parse_field (tag : Z) (body : bytes) (st : Fields) : result InvoiceError Fields :=
  let len := length body in
  if (tag =? TAG_PAYMENT_HASH) && (len =? 52)%nat then
    h ← fixed_field 32 body; Ok (st <| f_payment_hash := Some h |>)
  else if (tag =? TAG_PAYMENT_SECRET) && (len =? 52)%nat then
    h ← fixed_field 32 body; Ok (st <| f_payment_secret := Some h |>)
  else if tag =? TAG_DESCRIPTION then
    b ← map_err (fun _ => BadField "description") (convert_bits body 5 8 false);
    _ ← fail_if (negb (utf8_valid b)) (BadField "description utf8");
    Ok (st <| f_description := Some (Direct b) |>)
  else if (tag =? TAG_DESCRIPTION_HASH) && (len =? 52)%nat then
    h ← fixed_field 32 body; Ok (st <| f_description := Some (Hash h) |>)
  else if tag =? TAG_EXPIRY then Ok (st <| f_expiry := Some (fold_groups 64 body) |>)
  else if tag =? TAG_MIN_FINAL_CLTV then
    Ok (st <| f_min_final_cltv := Some (fold_groups 32 body) |>)
  else if tag =? TAG_FEATURES then Ok (st <| f_features := five_bit_to_bytes_be body |>)
  else if (tag =? TAG_PAYEE_NODE) && (len =? 53)%nat then
    b ← fixed_field 33 body; Ok (st <| f_explicit_payee := pk_from_slice b |>)
  else if tag =? TAG_ROUTE_HINT then
    hint ← parse_hint body; Ok (st <| f_route_hints := f_route_hints st ++ [hint] |>)
  else Ok st.

(** [while !fields.is_empty()]: each turn takes three groups at least. *)
Fixpoint fields_loop (fuel : nat) (fields : bytes) (st : Fields) : result InvoiceError Fields :=
  match fields with
  | [] => Ok st
  | tag :: rest =>
    match fuel with
    | O => Panic
    | Datatypes.S fuel =>
      match rest with
      | l1 :: l0 :: rest =>
        let len := Z.to_nat (l1 * 32 + l0) in
        _ ← fail_if (length rest <? len)%nat (BadField "tagged field overruns data");
        st ← parse_field tag (take len rest) st;
        fields_loop fuel (drop len rest) st
      | _ => Err (BadField "truncated tagged field")
      end
    end
  end.
Definition parse_fields (fields : bytes) : result InvoiceError Fields :=
  fields_loop (length fields) fields no_fields.

(** The digest both sides sign: [sha256(hrp || packed(data))]. *)
Definition signed_digest (hrp data : bytes) : result Bech32Error bytes :=
  packed ← convert_bits data 5 8 true;
  Ok (sha256 (hrp ++ packed)).

Definition parse (s : bytes) : result InvoiceError Bolt11Invoice :=
  '(hrp, data) ← map_err Bech32 (decode s);
  after_ln ← ok_or (strip_prefix (str "ln") hrp) BadPrefix;
  '(network, amount_str) ← parse_prefix after_ln;
  amount_msat ← parse_amount amount_str;
  _ ← fail_if (length data <? 7 + 104)%nat TooShort;
  let head := take (length data - 104) data in
  let sig_part := drop (length data - 104) data in
  let timestamp := fold_groups 64 (take 7 head) in
  sig_bytes ← map_err Bech32 (convert_bits sig_part 5 8 false);
  rsig ← ok_or (rsig_from_compact (take 64 sig_bytes) (sig_bytes !!! 64%nat)) BadSignature;
  msg ← map_err Bech32 (signed_digest hrp head);
  recovered ← ok_or (recover_ecdsa msg rsig) BadSignature;
  st ← parse_fields (drop 7 head);
  payee ←
    match f_explicit_payee st with
    | Some pk =>
      _ ← fail_if (negb (verify_ecdsa msg (rsig_to_standard rsig) pk)) BadSignature;
      Ok pk
    | None => Ok recovered
    end;
  payment_hash ← ok_or (f_payment_hash st) (MissingField "payment_hash");
  payment_secret ← ok_or (f_payment_secret st) (MissingField "payment_secret");
  description ← ok_or (f_description st) (MissingField "description");
  Ok {| network := network; amount_msat := amount_msat; timestamp := timestamp;
        payment_hash := payment_hash; payment_secret := payment_secret;
        description := description; expiry_secs := f_expiry st;
        min_final_cltv_expiry_delta := f_min_final_cltv st; features := f_features st;
        route_hints := f_route_hints st; payee := payee |}.

(** ** Building *)
Record InvoiceBuilder : Type := {
  b_network : Network;
  b_amount_msat : option Z;
  b_timestamp : Z;
  b_payment_hash : bytes;
  b_payment_secret : bytes;
  b_description : Description;
  b_expiry_secs : option Z;
  b_min_final_cltv_expiry_delta : option Z;
  b_features : bytes;
  b_route_hints : list (list RouteHintHop);
}.

Definition default_features : bytes :=
  Features.set (Features.set (Features.set Features.empty 8) 14) 17.

Definition tagged (tag : Z) (body : bytes) : bytes :=
  tag :: wrap 8 (Z.of_nat (length body) / 32) :: wrap 8 (Z.of_nat (length body) mod 32) :: body.

(** [convert_bits(v, 8, 5, true).expect("8->5")] in a tagged field. *)
Definition tagged_bytes (tag : Z) (v : bytes) : result unit bytes :=
  five ← unwrap (convert_bits v 8 5 true); Ok (tagged tag five).

Definition hop_bytes (hop : RouteHintHop) : bytes :=
  pk_serialize (src_node_id hop) ++ be_bytes 8 (short_channel_id hop)
  ++ be_bytes 4 (fee_base_msat hop) ++ be_bytes 4 (fee_proportional_millionths hop)
  ++ be_bytes 2 (cltv_expiry_delta hop).

Definition builder_hrp (b : InvoiceBuilder) : bytes :=
  str "ln" ++ invoice_hrp (b_network b)
  ++ match b_amount_msat b with Some m => encode_amount m | None => [] end.

(** Everything [data] holds before the signature. *)
Definition builder_data (b : InvoiceBuilder) : result unit bytes :=
  let ts := map (fun i => wrap 8 (Z.land (Z.shiftr (b_timestamp b) (5 * i)) 31)) [6; 5; 4; 3; 2; 1; 0] in
  secret ← tagged_bytes TAG_PAYMENT_SECRET (b_payment_secret b);
  hash ← tagged_bytes TAG_PAYMENT_HASH (b_payment_hash b);
  desc ← match b_description b with
         | Direct text => tagged_bytes TAG_DESCRIPTION text
         | Hash h => tagged_bytes TAG_DESCRIPTION_HASH h
         end;
  let expiry := match b_expiry_secs b with
    | Some x => tagged TAG_EXPIRY (minimal_base32_be x) | None => [] end in
  let cltv := match b_min_final_cltv_expiry_delta b with
    | Some c => tagged TAG_MIN_FINAL_CLTV (minimal_base32_be c) | None => [] end in
  hints ← collect (fun hint => tagged_bytes TAG_ROUTE_HINT (concat (map hop_bytes hint))) (b_route_hints b);
  let feats := match b_features b with
    | [] => [] | f => tagged TAG_FEATURES (bytes_to_five_bit_be f) end in
  Ok (ts ++ secret ++ hash ++ desc ++ expiry ++ cltv ++ concat hints ++ feats).

Definition encode_signed (b : InvoiceBuilder) (sign : bytes -> RecoverableSignature)
    : result unit bytes :=
  let hrp := builder_hrp b in
  data ← builder_data b;
  digest ← unwrap (signed_digest hrp data);
  let '(rec_id, compact) := rsig_serialize_compact (sign digest) in
  sig ← unwrap (convert_bits (compact ++ [wrap 8 rec_id]) 8 5 true);
  unwrap (encode hrp (data ++ sig)).

Definition encode_with_key (b : InvoiceBuilder) (key : SecretKey) : result unit bytes :=
  encode_signed b (fun digest => sign_ecdsa_recoverable digest key).
End invoice.

(** BOLT 11's second example: the data part, rebuilt. *)
Example bolt11_coffee :
  let b := {| b_network := Bitcoin; b_amount_msat := Some 250000000; b_timestamp := 1496314658;
    b_payment_hash := concat (replicate 3 [0; 1; 2; 3; 4; 5; 6; 7; 8; 9]) ++ [1; 2];
    b_payment_secret := replicate 32 0x11; b_description := Direct (str "1 cup coffee");
    b_expiry_secs := Some 60; b_min_final_cltv_expiry_delta := None;
    b_features := Features.set (Features.set Features.empty 8) 14; b_route_hints := [] |} in
  match decode (str "lnbc2500u1pvjluezsp5zyg3zyg3zyg3zyg3zyg3zyg3zyg3zyg3zyg3zyg3zyg3zyg3zygspp5qqqsyqcyq5rqwzqfqqqsyqcyq5rqwzqfqqqsyqcyq5rqwzqfqypqdq5xysxxatsyp3k7enxv4jsxqzpu9qrsgquk0rl77nj30yxdy8j9vdx85fkpmdla2087ne0xh8nhedh8w27kyke0lp53ut353s06fv3qfegext0eh0ymjpf39tuven09sam30g4vgpfna3rh") with
  | Ok (hrp, data) =>
    builder_hrp b = hrp /\ builder_data b = Ok (take (length data - 104) data) /\
    (parse_amount (drop 4 hrp) = Ok (Some 250000000)) /\
    (st ← parse_fields (drop 7 (take (length data - 104) data)); Ok (f_description st, f_expiry st)) =
      Ok (Some (Direct (str "1 cup coffee")), Some 60)
  | _ => False
  end.
Proof. by vm_compute. Qed.

(** ** Amounts *)
Lemma parse_amount_suffix n c (mult : Z) : u64 n ->
  (c = 109 /\ mult = 100_000_000 \/ c = 117 /\ mult = 100_000 \/ c = 110 /\ mult = 100) ->
  parse_amount (dec n ++ [c]) =
    if u64_max <? n * mult then Err BadAmount else Ok (Some (n * mult)).
Proof.
  intros Hn Hc. unfold parse_amount. rewrite last_snoc, length_app, Nat.add_sub, take_app_length.
  pose proof (dec_digits n ltac:(unfold uint in Hn; lia)) as Hd. pose proof (dec_nonempty n) as Hne.
  assert ((length (dec n) =? 0)%nat = false) as Hl by (apply Nat.eqb_neq; by destruct (dec n)).
  destruct Hc as [[-> ->]|[[-> ->]|[-> ->]]]; cbn [Z.eqb Pos.eqb mbind result_bind];
    rewrite Hl, Hd, parse_dec by done; cbn [orb negb fail_if mbind result_bind ok_or Z.eqb];
    by destruct (u64_max <? _).
Qed.

Lemma parse_amount_pico n : u64 n ->
  parse_amount (dec n ++ [112]) = if n mod 10 =? 0 then Ok (Some (n / 10)) else Err BadAmount.
Proof.
  intros Hn. unfold parse_amount. rewrite last_snoc, length_app, Nat.add_sub, take_app_length.
  pose proof (dec_digits n ltac:(unfold uint in Hn; lia)) as Hd. pose proof (dec_nonempty n) as Hne.
  assert ((length (dec n) =? 0)%nat = false) as Hl by (apply Nat.eqb_neq; by destruct (dec n)).
  cbn [Z.eqb Pos.eqb mbind result_bind].
  rewrite Hl, Hd, parse_dec by done; cbn [orb negb fail_if mbind result_bind ok_or Z.eqb].
  by destruct (n mod 10 =? 0).
Qed.

(** What an amount must satisfy to survive the [p] unit of the code. *)
Definition amount_encodable (m : Z) : Prop := u64 m /\ (m mod 100 = 0 \/ m * 10 < 2 ^ 64).

Lemma amount_parses m : amount_encodable m -> parse_amount (encode_amount m) = Ok (Some m).
Proof.
  intros [Hm Hp]. assert (Hq : forall k, 0 < k -> u64 (m / k)).
  { unfold uint in *. intros k Hk. split; [apply Z.div_pos; lia|].
    apply Z.le_lt_trans with m; [|lia]. apply Z.div_le_upper_bound; nia. }
  assert (Hk : forall k, 0 < k -> m mod k = 0 -> (u64_max <? m / k * k) = false /\ m / k * k = m).
  { intros k Hk H0. pose proof (Z.div_mod m k ltac:(lia)). unfold uint, u64_max in *.
    rewrite Z.ltb_ge. lia. }
  unfold encode_amount. repeat case_match;
    repeat match goal with H : (_ =? _) = true |- _ => apply Z.eqb_eq in H
      | H : (_ =? _) = false |- _ => apply Z.eqb_neq in H end.
  - rewrite (parse_amount_suffix _ _ 100_000_000) by (auto; apply Hq; lia).
    destruct (Hk 100_000_000) as [-> ->]; [lia|done|done].
  - rewrite (parse_amount_suffix _ _ 100_000) by (auto; apply Hq; lia).
    destruct (Hk 100_000) as [-> ->]; [lia|done|done].
  - rewrite (parse_amount_suffix _ _ 100) by (auto 10; apply Hq; lia).
    destruct (Hk 100) as [-> ->]; [lia|done|done].
  - destruct Hp as [|Hp]; [done|]. unfold uint in Hm.
    rewrite wrap_small, parse_amount_pico by (unfold uint; lia).
    by rewrite Z.mod_mul, Z.div_mul by lia.
Qed.

(** Amounts survive formatting and parsing exactly when they are whole
    nano-bitcoins or ten times them fits a [u64]: beyond, the [p] unit's
    [m * 10] wraps around and the text never parses back to the amount. *)
Theorem amount_roundtrip_iff m : u64 m ->
  parse_amount (encode_amount m) = Ok (Some m) <-> m mod 100 = 0 \/ m * 10 < 2 ^ 64.
Proof.
  intros Hm. split; [|by intros; apply amount_parses].
  destruct (Z.eq_dec (m mod 100) 0) as [|H100]; [by left|]. intros H. right.
  unfold encode_amount in H.
  rewrite (proj2 (Z.eqb_neq _ _)), (proj2 (Z.eqb_neq _ _)), (proj2 (Z.eqb_neq _ _)) in H by mod_lia.
  rewrite parse_amount_pico in H by (apply wrap_uint; lia). case_match; [|done].
  injection H as H. pose proof (wrap_uint 64 (m * 10) ltac:(lia)) as Hw. unfold uint in Hw.
  revert H Hw. generalize (wrap 64 (m * 10)). intros z H Hw. mod_lia.
Qed.

Lemma amount_roundtrip_iff_witness :
  (parse_amount (encode_amount 123456001) = Ok (Some 123456001) <->
    123456001 mod 100 = 0 \/ 123456001 * 10 < 2 ^ 64) /\
  parse_amount (encode_amount 1844674407370955179) = Err BadAmount.
Proof. split; [apply (amount_roundtrip_iff 123456001); done|by vm_compute]. Defined.

(** ** Digits of a big-endian number *)
Lemma number_digit w l j : 0 < w -> Forall (uint w) l -> (j < length l)%nat ->
  l !!! (length l - 1 - j)%nat = (number w l / 2 ^ (w * Z.of_nat j)) mod 2 ^ w.
Proof.
  intros Hw. revert j; induction l as [|v l IH] using rev_ind; intros j Hl Hj; [cbn in Hj; lia|].
  apply Forall_app in Hl as [Hl Hv]. inversion_clear Hv as [|? ? Hv1 _].
  rewrite length_app in *. cbn [length] in *. rewrite number_snoc by lia.
  destruct j as [|j].
  - rewrite Z.mul_0_r, Z.div_1_r, Z.add_comm, Z.mod_add, Z.mod_small by (done || lia).
    replace (length l + 1 - 1 - 0)%nat with (length l) by lia.
    by rewrite lookup_total_app_r, Nat.sub_diag by done.
  - replace (length l + 1 - 1 - Datatypes.S j)%nat with (length l - 1 - j)%nat by lia.
    rewrite lookup_total_app_l by lia. rewrite IH by (done || lia).
    replace (w * Z.of_nat (Datatypes.S j)) with (w + w * Z.of_nat j) by lia.
    rewrite Z.pow_add_r, <- Z.div_div, Z.div_add_l, (Z.div_small v), Z.add_0_r by (done || lia). done.
Qed.

Lemma number_of_digits w l X : 0 < w -> Forall (uint w) l -> uint (w * Z.of_nat (length l)) X ->
  (forall j, (j < length l)%nat ->
    l !!! (length l - 1 - j)%nat = (X / 2 ^ (w * Z.of_nat j)) mod 2 ^ w) ->
  number w l = X.
Proof.
  intros Hw. revert X; induction l as [|v l IH] using rev_ind; intros X Hl HX Hd.
  { unfold uint in HX. cbn in *. rewrite Z.mul_0_r in HX. lia. }
  apply Forall_app in Hl as [Hl Hv]. rewrite length_app in *. cbn [length] in *.
  rewrite number_snoc, (IH (X / 2 ^ w)) by first [lia|done|
    unfold uint in *; replace (w * Z.of_nat (length l + 1)) with (w * Z.of_nat (length l) + w) in HX by lia;
    rewrite Z.pow_add_r in HX by lia; split; [apply Z.div_pos; lia|apply Z.div_lt_upper_bound; lia]|
    intros j Hj; specialize (Hd (Datatypes.S j) ltac:(lia));
    replace (length l + 1 - 1 - Datatypes.S j)%nat with (length l - 1 - j)%nat in Hd by lia;
    rewrite lookup_total_app_l in Hd by lia; rewrite Hd, Z.div_div, <- Z.pow_add_r by lia;
    repeat f_equal; lia].
  specialize (Hd 0%nat ltac:(lia)).
  replace (length l + 1 - 1 - 0)%nat with (length l) in Hd by lia.
  rewrite lookup_total_app_r, Nat.sub_diag, Z.mul_0_r, Z.div_1_r in Hd by done. cbn in Hd. subst v.
  pose proof (Z.div_mod X (2 ^ w) ltac:(lia)). lia.
Qed.

Lemma digit_testbit V k s w i : 0 <= k -> 0 <= s -> 0 <= w -> 0 <= i ->
  Z.testbit (((V mod 2 ^ k) / 2 ^ s) mod 2 ^ w) i = (i <? w) && (s + i <? k) && Z.testbit V (s + i).
Proof.
  intros Hk Hs Hw Hi. destruct (Z.ltb_spec i w).
  - rewrite Z.mod_pow2_bits_low, Z.div_pow2_bits by lia. rewrite (Z.add_comm i s).
    destruct (Z.ltb_spec (s + i) k); [by rewrite Z.mod_pow2_bits_low by lia|].
    by rewrite Z.mod_pow2_bits_high by lia.
  - by rewrite Z.mod_pow2_bits_high by lia.
Qed.

Lemma digit_bit_test w V j i : 0 < w -> 0 <= j -> 0 <= i < w ->
  negb (Z.land ((V / 2 ^ j) mod 2 ^ w) (Z.shiftl 1 i) =? 0) = Z.testbit V (j + i).
Proof.
  intros Hw Hj Hi. assert (E : Z.land ((V / 2 ^ j) mod 2 ^ w) (Z.shiftl 1 i) =
    if Z.testbit V (j + i) then Z.shiftl 1 i else 0).
  { apply Z.bits_inj. intros n. rewrite Z.land_spec, Z.shiftl_1_l.
    destruct (Z.eq_dec n i) as [->|Hne].
    - rewrite Z.pow2_bits_true, Z.mod_pow2_bits_low, Z.div_pow2_bits, (Z.add_comm i j), andb_true_r by lia.
      destruct (Z.testbit V (j + i)); [by rewrite Z.pow2_bits_true by lia|by rewrite Z.bits_0].
    - rewrite Z.pow2_bits_false, andb_false_r by lia.
      destruct (Z.testbit V (j + i)); [by rewrite Z.pow2_bits_false by lia|by rewrite Z.bits_0]. }
  rewrite E. destruct (Z.testbit V (j + i)); [|done].
  rewrite Z.shiftl_1_l. apply negb_true_iff, Z.eqb_neq. lia.
Qed.

Section regroup_be.
Context (from to : nat) (Hfrom : (0 < from)%nat) (Hto : (0 < to)%nat).
Context (src : bytes) (Hsrc : Forall (uint (Z.of_nat from)) src).

(** After [k] bits, [out] holds the digits of the number modulo [2^k]. *)
Definition written (groups k : nat) (out : bytes) : Prop :=
  length out = groups /\
  forall g, (g < groups)%nat -> out !!! (groups - 1 - g)%nat =
    ((number (Z.of_nat from) src mod 2 ^ Z.of_nat k) / 2 ^ (Z.of_nat to * Z.of_nat g)) mod 2 ^ Z.of_nat to.

Lemma regroup_step_written groups k out :
  (k < length src * from)%nat -> (k / to < groups)%nat -> written groups k out ->
  written groups (Datatypes.S k) (regroup_step from to src out k).
Proof.
  intros Hk Hg [Hl Hd]. unfold regroup_step.
  pose proof (Nat.div_mod_eq k from) as Ef. pose proof (Nat.mod_upper_bound k from ltac:(lia)) as Mf.
  pose proof (Nat.div_mod_eq k to) as Et. pose proof (Nat.mod_upper_bound k to ltac:(lia)) as Mt.
  rewrite (number_digit (Z.of_nat from)) by first [lia|done|apply Nat.Div0.div_lt_upper_bound; lia].
  set (V := number (Z.of_nat from) src) in *.
  rewrite digit_bit_test by lia.
  replace (Z.of_nat from * Z.of_nat (k / from) + Z.of_nat (k mod from)) with (Z.of_nat k) by lia.
  destruct (Z.testbit V (Z.of_nat k)) eqn:Eb.
  - split; [by rewrite length_insert|]. intros g Hgg. rewrite Hl.
    destruct (decide (g = k / to)%nat) as [->|Hne].
    + rewrite list_lookup_total_insert_eq by lia. rewrite Hd by done. fold V.
      apply Z.bits_inj'. intros n Hn. rewrite Z.lor_spec, !digit_testbit, Z.shiftl_1_l by lia.
      destruct (Z.eq_dec n (Z.of_nat (k mod to))) as [->|Hn'].
      * replace (Z.of_nat to * Z.of_nat (k / to) + Z.of_nat (k mod to)) with (Z.of_nat k) by lia.
        rewrite Z.pow2_bits_true, Eb, orb_true_r by lia. symmetry.
        rewrite !andb_true_iff, !Z.ltb_lt. lia.
      * rewrite Z.pow2_bits_false, orb_false_r by lia. f_equal. f_equal.
        apply eq_iff_eq_true. rewrite !Z.ltb_lt. lia.
    + rewrite list_lookup_total_insert_ne by lia. rewrite Hd by done. fold V.
      apply Z.bits_inj'. intros n Hn. rewrite !digit_testbit by lia.
      destruct (Z.ltb_spec n (Z.of_nat to)); [|done]. f_equal. f_equal.
      apply eq_iff_eq_true. rewrite !Z.ltb_lt. nia.
  - split; [done|]. intros g Hgg. rewrite Hd by done. fold V.
    apply Z.bits_inj'. intros n Hn. rewrite !digit_testbit by lia.
    destruct (Z.eq_dec (Z.of_nat to * Z.of_nat g + n) (Z.of_nat k)) as [->|Hne].
    + by rewrite Eb, !andb_false_r.
    + f_equal. f_equal. apply eq_iff_eq_true. rewrite !Z.ltb_lt. lia.
Qed.

Lemma regroup_loop_written groups n : (n <= length src * from)%nat -> (n <= groups * to)%nat ->
  written groups n (foldl (regroup_step from to src) (replicate groups 0) (seq 0 n)).
Proof.
  induction n as [|n IH]; intros Hn Hg.
  - split; [apply length_replicate|]. intros g Hgg. cbn.
    rewrite lookup_total_replicate_2 by lia. by rewrite Z.mod_1_r, Z.div_0_l, Z.mod_0_l by lia.
  - rewrite seq_S, foldl_app. cbn [foldl]. apply regroup_step_written; [lia| |apply IH; lia].
    apply Nat.Div0.div_lt_upper_bound. lia.
Qed.
End regroup_be.

Lemma strip_zeros_spec w l : 0 <= w -> number w (strip_zeros l) = number w l /\
  (Forall (uint w) l -> Forall (uint w) (strip_zeros l)) /\
  (length (strip_zeros l) <= length l)%nat.
Proof.
  intros Hw. induction l as [|b l (IH1 & IH2 & IH3)]; [done|]. cbn [strip_zeros].
  destruct (Z.eqb_spec b 0) as [->|]; [|done]. split_and!.
  - rewrite IH1. change (0 :: l) with ([0] ++ l). by rewrite number_app by done.
  - intros H. apply IH2. by inversion H.
  - cbn. lia.
Qed.

(** Big-endian without a leading zero. *)
Definition minimal (l : bytes) : Prop := strip_zeros l = l.

Lemma strip_minimal l : minimal (strip_zeros l).
Proof.
  unfold minimal. induction l as [|b l IH]; [done|]. cbn [strip_zeros].
  destruct (Z.eqb_spec b 0); [done|]. cbn. by rewrite (proj2 (Z.eqb_neq _ _)).
Qed.

Lemma minimal_lower w b l : 0 < w -> Forall (uint w) (b :: l) -> minimal (b :: l) ->
  2 ^ (w * Z.of_nat (length l)) <= number w (b :: l).
Proof.
  intros Hw Hu Hm. inversion_clear Hu as [|? ? Hb Hl].
  change (number w (b :: l)) with (number w ([b] ++ l)). rewrite number_app by lia.
  pose proof (number_bound w l ltac:(lia) Hl) as Hn. unfold uint in *.
  assert (b <> 0). { intros ->. unfold minimal in Hm. cbn in Hm.
    pose proof (proj2 (proj2 (strip_zeros_spec w l ltac:(lia)))) as H. rewrite Hm in H. cbn in H. lia. }
  cbn. nia.
Qed.

Lemma minimal_inj w l l' : 0 < w -> Forall (uint w) l -> Forall (uint w) l' ->
  minimal l -> minimal l' -> number w l = number w l' -> l = l'.
Proof.
  intros Hw Hl Hl' Hm Hm' E.
  assert (Hlen : forall a b, Forall (uint w) a -> Forall (uint w) b -> minimal b ->
    number w a = number w b -> (length b <= length a)%nat).
  { intros a [|b0 b] Ha Hb Hmb Eab; [cbn; lia|].
    pose proof (minimal_lower w b0 b Hw Hb Hmb) as Hlow. rewrite <- Eab in Hlow.
    pose proof (number_bound w a ltac:(lia) Ha) as Hup. unfold uint in Hup. cbn [length].
    apply Nat.le_ngt. intros Hlt.
    pose proof (Z.pow_le_mono_r 2 (w * Z.of_nat (length a)) (w * Z.of_nat (length b)) ltac:(lia) ltac:(nia)). lia. }
  apply (number_inj w); [lia|done..| |done]. apply Nat.le_antisymm; auto.
Qed.

Lemma regroup_be_number from to src : (0 < from)%nat -> (0 < to)%nat ->
  Forall (uint (Z.of_nat from)) src ->
  number (Z.of_nat to) (regroup_be from to src) = number (Z.of_nat from) src /\
  Forall (uint (Z.of_nat to)) (regroup_be from to src) /\ minimal (regroup_be from to src) /\
  (length (regroup_be from to src) <= div_ceil (length src * from) to)%nat.
Proof.
  intros Hf Ht Hsrc. unfold regroup_be. set (groups := div_ceil _ _).
  assert (Hg : (length src * from <= groups * to)%nat).
  { unfold groups, div_ceil. set (t := (length src * from)%nat).
    pose proof (Nat.div_mod_eq (t + to - 1) to). pose proof (Nat.mod_upper_bound (t + to - 1) to). lia. }
  destruct (regroup_loop_written from to Hf Ht src Hsrc groups _ (le_n _) Hg) as [Hl Hd].
  set (out := foldl _ _ _) in *.
  assert (Hu : Forall (uint (Z.of_nat to)) out).
  { apply Forall_lookup. intros i x Hi. pose proof (lookup_lt_Some _ _ _ Hi) as Hlt.
    specialize (Hd (groups - 1 - i)%nat ltac:(lia)).
    replace (groups - 1 - (groups - 1 - i))%nat with i in Hd by lia.
    rewrite (list_lookup_total_correct _ _ _ Hi) in Hd. rewrite Hd. apply Z.mod_pos_bound. lia. }
  pose proof (number_bound (Z.of_nat from) src ltac:(lia) Hsrc) as HV.
  destruct (strip_zeros_spec (Z.of_nat to) out ltac:(lia)) as (E1 & E2 & E3).
  split_and!; [|auto|apply strip_minimal|lia].
  rewrite E1. apply number_of_digits; [lia|done| |].
  - rewrite Hl. eapply uint_mono; [|exact HV]. lia.
  - intros j Hj. rewrite Hl in *. rewrite Hd by done.
    rewrite (Z.mod_small (number _ _)); [done|]. replace (Z.of_nat (length src * from)) with
      (Z.of_nat from * Z.of_nat (length src)) by lia. exact HV.
Qed.

(** Feature vectors without a leading zero byte survive the 5-bit form. *)
Lemma five_bit_roundtrip f : bytes_ok f -> minimal f ->
  five_bit_to_bytes_be (bytes_to_five_bit_be f) = f.
Proof.
  intros Hf Hm. unfold five_bit_to_bytes_be, bytes_to_five_bit_be.
  destruct (regroup_be_number 8 5 f) as (E1 & H1 & _); [lia|lia|exact Hf|].
  destruct (regroup_be_number 5 8 (regroup_be 8 5 f)) as (E2 & H2 & H3 & _); [lia|lia|exact H1|].
  apply (minimal_inj 8); [lia|exact H2|exact Hf|exact H3|exact Hm|].
  change 8 with (Z.of_nat 8). rewrite E2. exact E1.
Qed.

(** ** Integers in groups *)
Lemma fold_groups_number w l : 0 <= w -> Forall (uint 5) l -> number 5 l < 2 ^ w ->
  fold_groups w l = number 5 l.
Proof.
  intros Hw. unfold fold_groups. induction l as [|v l IH] using rev_ind; intros Hl Hn; [done|].
  apply Forall_app in Hl as [Hl Hv]. inversion_clear Hv as [|? ? Hv1 _].
  rewrite number_snoc in * by lia. rewrite foldl_app. cbn [foldl].
  pose proof (number_bound 5 l ltac:(lia) Hl) as Hb. unfold uint in Hb, Hv1.
  rewrite IH by (done || lia). rewrite wrap_small by (rewrite Z.shiftl_mul_pow2 by lia; unfold uint; lia).
  by rewrite lor_shiftl_add by lia.
Qed.

Lemma base32_loop_number fuel v : 0 <= v < 32 ^ Z.of_nat fuel ->
  number 5 (reverse (base32_loop fuel v)) = v /\ Forall (uint 5) (reverse (base32_loop fuel v)) /\
  (length (base32_loop fuel v) <= fuel)%nat.
Proof.
  revert v; induction fuel as [|fuel IH]; intros v Hv; [cbn in *; split_and!; [lia|constructor|lia]|].
  cbn [base32_loop]. rewrite Nat2Z.inj_succ, Z.pow_succ_r in Hv by lia.
  destruct (Z.eqb_spec v 0) as [->|]; [split_and!; [done|constructor|cbn; lia]|].
  rewrite Z.shiftr_div_pow2 by lia. change (2 ^ 5) with 32.
  change 31 with (Z.ones 5). rewrite Z.land_ones by lia. change (2 ^ 5) with 32.
  destruct (IH (v / 32)) as (E & Hu & Hl); [split; [apply Z.div_pos; lia|apply Z.div_lt_upper_bound; lia]|].
  pose proof (Z.mod_pos_bound v 32 ltac:(lia)). pose proof (Z.div_mod v 32 ltac:(lia)).
  rewrite reverse_cons, number_snoc, E by lia. split_and!; [lia| |cbn; lia].
  apply Forall_app. split; [done|]. by repeat constructor; unfold uint; lia.
Qed.

Lemma minimal_base32_number v : u64 v ->
  number 5 (minimal_base32_be v) = v /\ Forall (uint 5) (minimal_base32_be v) /\
  (length (minimal_base32_be v) <= 13)%nat.
Proof.
  intros Hv. unfold minimal_base32_be. destruct (Z.eqb_spec v 0) as [->|].
  { split_and!; [done|by repeat constructor|cbn; lia]. }
  rewrite length_reverse. apply base32_loop_number. unfold uint in Hv. lia.
Qed.

Lemma fold_minimal w v : uint w v -> 0 <= w <= 64 -> fold_groups w (minimal_base32_be v) = v.
Proof.
  intros Hv Hw. destruct (minimal_base32_number v) as (E & Hu & _); [by eapply uint_mono; [|exact Hv]; lia|].
  rewrite fold_groups_number, E; [done|lia|done|]. rewrite E. unfold uint in Hv. lia.
Qed.

(** ** The tagged fields *)
Section fields.
Context `{S : Secp} {L : SecpLaws S}.

Lemma fields_loop_fuel n m fields (st : Fields) :
  (length fields <= n)%nat -> (length fields <= m)%nat ->
  fields_loop n fields st = fields_loop m fields st.
Proof.
  revert m fields st; induction n as [|n IH]; intros m fields st Hn Hm.
  { by destruct fields, m; cbn in *; try lia. }
  destruct fields as [|tag fields]; [by destruct m|]. destruct m as [|m]; [cbn in Hm; lia|].
  cbn [fields_loop]. destruct fields as [|l1 [|l0 rest]]; [done..|]. cbn [length] in *.
  destruct (fail_if _ _); cbn [mbind result_bind]; [|done..].
  destruct (parse_field _ _ _) as [st'|e|]; cbn [mbind result_bind]; [|done..].
  apply IH; rewrite length_drop; lia.
Qed.

Lemma fields_loop_cons n tag l1 l0 rest (st : Fields) :
  fields_loop (Datatypes.S n) (tag :: l1 :: l0 :: rest) st =
    (_ ← fail_if (length rest <? Z.to_nat (l1 * 32 + l0))%nat (BadField "tagged field overruns data");
     st ← parse_field tag (take (Z.to_nat (l1 * 32 + l0)) rest) st;
     fields_loop n (drop (Z.to_nat (l1 * 32 + l0)) rest) st).
Proof. done. Qed.

(** The loop with the fuel [parse_fields] gives it. *)
Definition run_fields (fields : bytes) (st : Fields) : result InvoiceError Fields :=
  fields_loop (length fields) fields st.

Lemma run_fields_tagged tag body rest st : (length body < 1024)%nat ->
  run_fields (tagged tag body ++ rest) st =
    (st' ← parse_field tag body st; run_fields rest st').
Proof.
  intros Hl. unfold run_fields, tagged. cbn [app].
  match goal with |- context [length (tag :: ?l)] =>
    change (length (tag :: l)) with (Datatypes.S (length l)) end. rewrite fields_loop_cons.
  rewrite !wrap_small by (unfold uint; mod_lia).
  replace (Z.to_nat _) with (length body) by mod_lia.
  rewrite (proj2 (Nat.ltb_ge _ _)) by (rewrite length_app; lia). cbn [fail_if mbind result_bind].
  rewrite take_app_length, drop_app_length.
  destruct (parse_field tag body st) as [st'|e|]; cbn [mbind result_bind]; [|done..].
  apply fields_loop_fuel; cbn [length]; rewrite ?length_app; lia.
Qed.

Lemma tagged_uint tag body : uint 5 tag -> Forall (uint 5) body -> (length body < 1024)%nat ->
  Forall (uint 5) (tagged tag body).
Proof.
  intros Ht Hb Hl. unfold tagged. rewrite !wrap_small by (unfold uint; mod_lia).
  repeat constructor; try (unfold uint in *; mod_lia). done.
Qed.

(** A field made of bytes: how it is written, and both ways to read it. *)
Lemma tagged_bytes_ok tag v : bytes_ok v -> uint 5 tag -> (length v <= 639)%nat ->
  exists five, tagged_bytes tag v = Ok (tagged tag five) /\
    convert_bits five 5 8 false = Ok v /\ Forall (uint 5) (tagged tag five) /\
    Z.of_nat (length five) = (8 * Z.of_nat (length v) + 4) / 5 /\ (length five < 1024)%nat.
Proof.
  intros Hv Ht Hl. destruct (regroup v Hv) as (five & E & E' & Hu & HL).
  assert (length five < 1024)%nat by mod_lia.
  exists five. unfold tagged_bytes. rewrite E. split_and!; [done|done|by apply tagged_uint|done|done].
Qed.

Lemma fixed_field_ok v five : convert_bits five 5 8 false = Ok v ->
  fixed_field (length v) five = Ok v.
Proof.
  intros (tl & E)%convert_bits_prefix. unfold fixed_field. rewrite E. cbn [map_err mbind result_bind].
  unfold slice_to. rewrite length_app, (proj2 (Nat.ltb_ge _ _)) by lia. by rewrite take_app_length.
Qed.

Definition hop_ok (h : RouteHintHop) : Prop :=
  u64 (short_channel_id h) /\ u32 (fee_base_msat h) /\
  u32 (fee_proportional_millionths h) /\ u16 (cltv_expiry_delta h).

Lemma length_hop_bytes h : length (hop_bytes h) = 51%nat.
Proof. unfold hop_bytes. by rewrite !length_app, pk_serialize_length, !length_be_bytes. Qed.

Lemma hop_bytes_ok h : bytes_ok (hop_bytes h).
Proof. unfold hop_bytes. rewrite !Forall_app. split_and!; try apply be_bytes_ok. apply pk_serialize_ok. Qed.

Lemma skip_part (n m : nat) (a b : bytes) : length a = n -> (n <= m)%nat ->
  drop m (a ++ b) = drop (m - n) b.
Proof. intros <- Hm. by rewrite drop_app_ge. Qed.

Lemma parse_hop_bytes h : hop_ok h -> parse_hop (hop_bytes h) = Ok h.
Proof.
  intros (H1 & H2 & H3 & H4). unfold parse_hop, hop_bytes.
  rewrite take_app_length' by (symmetry; apply pk_serialize_length).
  rewrite pk_from_serialize. cbn [ok_or mbind result_bind].
  rewrite (skip_part 33 33), (skip_part 33 41), (skip_part 33 45), (skip_part 33 49)
    by first [apply pk_serialize_length|lia]. cbn [Nat.sub].
  rewrite (skip_part 8 8), (skip_part 8 12), (skip_part 8 16) by first [apply length_be_bytes|lia].
  cbn [Nat.sub]. rewrite (skip_part 4 4), (skip_part 4 8) by first [apply length_be_bytes|lia].
  cbn [Nat.sub]. rewrite (skip_part 4 4) by first [apply length_be_bytes|lia].
  cbn [Nat.sub]. rewrite !drop_0, !take_app_length' by (symmetry; apply length_be_bytes).
  rewrite take_ge by (rewrite length_be_bytes; lia).
  rewrite (of_be_be_bytes_id 8 64), !(of_be_be_bytes_id 4 32), (of_be_be_bytes_id 2 16) by done.
  by destruct h.
Qed.

Lemma chunks_hops hint : Forall hop_ok hint ->
  collect parse_hop (chunks 51 (length hint) (concat (map hop_bytes hint))) = Ok hint.
Proof.
  induction 1 as [|h hint Hh _ IH]; [done|]. cbn [length chunks map concat].
  rewrite take_app_length', drop_app_length' by (symmetry; apply length_hop_bytes).
  cbn [collect]. rewrite parse_hop_bytes by done. cbn [mbind result_bind]. by rewrite IH.
Qed.

Lemma length_hint_bytes hint : length (concat (map hop_bytes hint)) = (51 * length hint)%nat.
Proof.
  induction hint as [|h hint IH]; [done|]. cbn [map concat length].
  rewrite length_app, length_hop_bytes, IH. lia.
Qed.

Lemma hint_bytes_ok hint : bytes_ok (concat (map hop_bytes hint)).
Proof. apply Forall_concat, Forall_map, Forall_forall. intros h _. apply hop_bytes_ok. Qed.

Lemma parse_hint_ok hint five : Forall hop_ok hint ->
  convert_bits five 5 8 false = Ok (concat (map hop_bytes hint)) -> parse_hint five = Ok hint.
Proof.
  intros Hh E. unfold parse_hint. rewrite E. cbn [map_err mbind result_bind].
  rewrite length_hint_bytes, Nat.mul_comm, Nat.Div0.mod_mul, Nat.div_mul by done.
  cbn. by apply chunks_hops.
Qed.

(** ** What the builder may hold *)
Record builder_ok (b : InvoiceBuilder) : Prop := {
  ok_amount : forall m, b_amount_msat b = Some m -> amount_encodable m;
  ok_timestamp : uint 35 (b_timestamp b);
  ok_hash : bytes_ok (b_payment_hash b) /\ length (b_payment_hash b) = 32%nat;
  ok_secret : bytes_ok (b_payment_secret b) /\ length (b_payment_secret b) = 32%nat;
  ok_description : match b_description b with
    | Direct text => bytes_ok text /\ utf8_valid text = true /\ (length text <= 639)%nat
    | Hash h => bytes_ok h /\ length h = 32%nat
    end;
  ok_expiry : forall x, b_expiry_secs b = Some x -> u64 x;
  ok_cltv : forall c, b_min_final_cltv_expiry_delta b = Some c -> u32 c;
  ok_features : bytes_ok (b_features b) /\ minimal (b_features b) /\ (length (b_features b) <= 639)%nat;
  ok_hints : Forall (fun hint => Forall hop_ok hint /\ (length hint <= 12)%nat) (b_route_hints b);
}.

Definition fields_of (b : InvoiceBuilder) : Fields :=
  {| f_payment_hash := Some (b_payment_hash b); f_payment_secret := Some (b_payment_secret b);
     f_description := Some (b_description b); f_expiry := b_expiry_secs b;
     f_min_final_cltv := b_min_final_cltv_expiry_delta b; f_features := b_features b;
     f_route_hints := b_route_hints b; f_explicit_payee := None |}.

Definition timestamp_groups (t : Z) : bytes :=
  map (fun i => wrap 8 (Z.land (Z.shiftr t (5 * i)) 31)) [6; 5; 4; 3; 2; 1; 0].

Lemma timestamp_groups_ok t : uint 35 t ->
  fold_groups 64 (timestamp_groups t) = t /\ Forall (uint 5) (timestamp_groups t).
Proof.
  intros Ht. unfold timestamp_groups.
  assert (H : forall i, wrap 8 (Z.land (Z.shiftr t (5 * i)) 31) = Z.land (Z.shiftr t (5 * i)) 31 /\
    uint 5 (Z.land (Z.shiftr t (5 * i)) 31)).
  { intros i. pose proof (land_uint 5 (Z.shiftr t (5 * i)) 31 ltac:(lia) ltac:(done)) as H.
    split; [|exact H]. apply wrap_small. by eapply uint_mono; [|exact H]. }
  assert (Hu : Forall (uint 5) (map (fun i => wrap 8 (Z.land (Z.shiftr t (5 * i)) 31)) [6; 5; 4; 3; 2; 1; 0])).
  { apply Forall_map, Forall_forall. intros i _. cbn. destruct (H i) as [-> Hi]. exact Hi. }
  split; [|exact Hu]. rewrite fold_groups_number; [|lia|exact Hu|].
  - cbn [map]. rewrite !(proj1 (H _)). change 31 with (Z.ones 5).
    rewrite !Z.land_ones, !Z.shiftr_div_pow2 by lia. cbn. unfold uint in Ht. mod_lia.
  - pose proof (number_bound 5 _ ltac:(lia) Hu) as Hb. unfold uint in Hb. cbn [map length] in *. lia.
Qed.

(** [seg] is read whole and takes the loop's state from [st] to [st']. *)
Definition feeds (seg : bytes) (st st' : Fields) : Prop :=
  Forall (uint 5) seg /\ forall rest, run_fields (seg ++ rest) st = run_fields rest st'.

Lemma feeds_nil st : feeds [] st st.
Proof. by split. Qed.

Lemma feeds_app a b st1 st2 st3 : feeds a st1 st2 -> feeds b st2 st3 -> feeds (a ++ b) st1 st3.
Proof.
  intros [Ha Ea] [Hb Eb]. split; [by apply Forall_app|]. intros rest. by rewrite <- app_assoc, Ea, Eb.
Qed.

Lemma feeds_tagged tag body st st' : uint 5 tag -> Forall (uint 5) body -> (length body < 1024)%nat ->
  parse_field tag body st = Ok st' -> feeds (tagged tag body) st st'.
Proof.
  intros Ht Hb Hl E. split; [by apply tagged_uint|]. intros rest. by rewrite run_fields_tagged, E.
Qed.

(** A byte field, once its reading is known. *)
Lemma feeds_bytes tag v st st' : bytes_ok v -> uint 5 tag -> (length v <= 639)%nat ->
  (forall five, convert_bits five 5 8 false = Ok v ->
    Z.of_nat (length five) = (8 * Z.of_nat (length v) + 4) / 5 -> parse_field tag five st = Ok st') ->
  exists seg, tagged_bytes tag v = Ok seg /\ feeds seg st st'.
Proof.
  intros Hv Ht Hl Hp. destruct (tagged_bytes_ok tag v Hv Ht Hl) as (five & E & E' & Hu & HL & Hlt).
  exists (tagged tag five). split; [done|]. split; [done|]. intros rest.
  by rewrite run_fields_tagged, Hp.
Qed.

Lemma fifty_two (v five : bytes) : length v = 32%nat ->
  Z.of_nat (length five) = (8 * Z.of_nat (length v) + 4) / 5 -> (length five =? 52)%nat = true.
Proof. intros -> H. apply Nat.eqb_eq. change ((8 * Z.of_nat 32 + 4) / 5) with 52 in H. lia. Qed.

(** The three 32-byte fields. *)
Lemma feeds_array tag v st st' : bytes_ok v -> length v = 32%nat -> uint 5 tag ->
  (forall five, (length five =? 52)%nat = true ->
    parse_field tag five st = (h ← fixed_field 32 five; st' h)) ->
  forall st'', st' v = Ok st'' -> exists seg, tagged_bytes tag v = Ok seg /\ feeds seg st st''.
Proof.
  intros Hv Hl Ht Hp st'' E. apply feeds_bytes; [done|done|lia|]. intros five E5 HL.
  rewrite Hp by by apply (fifty_two v). apply fixed_field_ok in E5. rewrite Hl in E5. by rewrite E5.
Qed.

Lemma feeds_hints hints st : Forall (fun hint => Forall hop_ok hint /\ (length hint <= 12)%nat) hints ->
  exists segs,
    collect (fun hint => tagged_bytes TAG_ROUTE_HINT (concat (map hop_bytes hint))) hints = Ok segs /\
    feeds (concat segs) st (st <| f_route_hints := f_route_hints st ++ hints |>).
Proof.
  intros H. revert st. induction H as [|hint hints [Hh Hl] _ IH]; intros st.
  { exists []. split; [done|]. destruct st. unfold upd. cbn. rewrite app_nil_r. apply feeds_nil. }
  destruct (feeds_bytes TAG_ROUTE_HINT (concat (map hop_bytes hint)) st
    (st <| f_route_hints := f_route_hints st ++ [hint] |>)) as (seg & E & Hf);
    [apply hint_bytes_ok|done|rewrite length_hint_bytes; lia| |].
  { intros five E5 _. unfold parse_field. cbn [Z.eqb Pos.eqb TAG_ROUTE_HINT TAG_PAYMENT_HASH
      TAG_PAYMENT_SECRET TAG_DESCRIPTION TAG_DESCRIPTION_HASH TAG_EXPIRY TAG_MIN_FINAL_CLTV TAG_FEATURES
      TAG_PAYEE_NODE andb]. by rewrite (parse_hint_ok hint). }
  destruct (IH (st <| f_route_hints := f_route_hints st ++ [hint] |>)) as (segs & Es & Hfs).
  exists (seg :: segs). cbn [collect]. rewrite E. cbn [mbind result_bind]. rewrite Es. split; [done|].
  cbn [concat]. eapply feeds_app; [exact Hf|]. revert Hfs. destruct st. unfold upd. cbn. by rewrite <- app_assoc.
Qed.

(** Decide a [match tag] of [parse_field]. *)
Ltac field_case :=
  unfold parse_field;
  cbn [Z.eqb Pos.eqb TAG_PAYMENT_HASH TAG_PAYMENT_SECRET TAG_DESCRIPTION TAG_DESCRIPTION_HASH TAG_EXPIRY
    TAG_MIN_FINAL_CLTV TAG_FEATURES andb].

Lemma feeds_secret v st : bytes_ok v /\ length v = 32%nat ->
  exists seg, tagged_bytes TAG_PAYMENT_SECRET v = Ok seg /\ feeds seg st (st <| f_payment_secret := Some v |>).
Proof.
  intros [Hv Hl]. apply (feeds_array _ _ _ (fun h => Ok (st <| f_payment_secret := Some h |>))); try done.
  intros five E. unfold parse_field. by rewrite E.
Qed.

Lemma feeds_hash v st : bytes_ok v /\ length v = 32%nat ->
  exists seg, tagged_bytes TAG_PAYMENT_HASH v = Ok seg /\ feeds seg st (st <| f_payment_hash := Some v |>).
Proof.
  intros [Hv Hl]. apply (feeds_array _ _ _ (fun h => Ok (st <| f_payment_hash := Some h |>))); try done.
  intros five E. unfold parse_field. by rewrite E.
Qed.

Lemma feeds_description b st : builder_ok b ->
  exists seg, match b_description b with
    | Direct text => tagged_bytes TAG_DESCRIPTION text
    | Hash h => tagged_bytes TAG_DESCRIPTION_HASH h end = Ok seg /\
  feeds seg st (st <| f_description := Some (b_description b) |>).
Proof.
  intros H. pose proof (ok_description b H) as Hd. destruct (b_description b) as [text|h].
  - destruct Hd as (Hd1 & Hd2 & Hd3). apply feeds_bytes; [done..|]. intros five E _.
    field_case. rewrite E. cbn [map_err mbind result_bind]. by rewrite Hd2.
  - destruct Hd as [Hd1 Hd2]. apply (feeds_array _ _ _ (fun h => Ok (st <| f_description := Some (Hash h) |>))); try done.
    intros five E. unfold parse_field. by rewrite E.
Qed.

Lemma feeds_expiry b st : builder_ok b ->
  feeds match b_expiry_secs b with Some x => tagged TAG_EXPIRY (minimal_base32_be x) | None => [] end
    (st <| f_expiry := None |>) (st <| f_expiry := b_expiry_secs b |>).
Proof.
  intros H. pose proof (ok_expiry b H) as Hx. destruct (b_expiry_secs b) as [x|]; [|apply feeds_nil].
  destruct (minimal_base32_number x (Hx x eq_refl)) as (_ & Hu & Hl).
  apply feeds_tagged; [done|done|lia|]. field_case. by rewrite fold_minimal by (auto; lia).
Qed.

Lemma feeds_cltv b st : builder_ok b ->
  feeds match b_min_final_cltv_expiry_delta b with
    | Some c => tagged TAG_MIN_FINAL_CLTV (minimal_base32_be c) | None => [] end
    (st <| f_min_final_cltv := None |>) (st <| f_min_final_cltv := b_min_final_cltv_expiry_delta b |>).
Proof.
  intros H. pose proof (ok_cltv b H) as Hc.
  destruct (b_min_final_cltv_expiry_delta b) as [x|]; [|apply feeds_nil].
  destruct (minimal_base32_number x ltac:(eapply uint_mono; [|by apply Hc]; lia)) as (_ & Hu & Hl).
  apply feeds_tagged; [done|done|lia|]. field_case. by rewrite fold_minimal by (auto; lia).
Qed.

Lemma feeds_features b st : builder_ok b ->
  feeds match b_features b with [] => [] | f => tagged TAG_FEATURES (bytes_to_five_bit_be f) end
    (st <| f_features := Features.empty |>) (st <| f_features := b_features b |>).
Proof.
  intros H. destruct (ok_features b H) as (Hf & Hfm & Hfl).
  destruct (regroup_be_number 8 5 (b_features b)) as (_ & Hu & _ & Hl); [lia|lia|done|].
  destruct (b_features b) as [|f0 f]; [apply feeds_nil|].
  apply feeds_tagged; [done|exact Hu| |].
  - eapply Nat.le_lt_trans; [exact Hl|]. apply Nat.Div0.div_lt_upper_bound. cbn [length] in *. lia.
  - field_case. by rewrite five_bit_roundtrip.
Qed.

Lemma builder_data_ok b : builder_ok b -> exists segs,
  builder_data b = Ok (timestamp_groups (b_timestamp b) ++ segs) /\ feeds segs no_fields (fields_of b).
Proof.
  intros H. unfold builder_data. fold (timestamp_groups (b_timestamp b)).
  destruct (feeds_secret _ no_fields (ok_secret b H)) as (s1 & -> & F1).
  set (st1 := _ <| f_payment_secret := _ |>) in F1.
  destruct (feeds_hash _ st1 (ok_hash b H)) as (s2 & -> & F2).
  set (st2 := _ <| f_payment_hash := _ |>) in F2.
  destruct (feeds_description b st2 H) as (s3 & -> & F3). set (st3 := _ <| f_description := _ |>) in F3.
  pose proof (feeds_expiry b st3 H) as F4. set (st4 := _ <| f_expiry := b_expiry_secs b |>) in F4.
  pose proof (feeds_cltv b st4 H) as F5. set (st5 := _ <| f_min_final_cltv := b_min_final_cltv_expiry_delta b |>) in F5.
  destruct (feeds_hints (b_route_hints b) st5 (ok_hints b H)) as (s6 & -> & F6).
  set (st6 := _ <| f_route_hints := _ |>) in F6. pose proof (feeds_features b st6 H) as F7.
  cbn [mbind result_bind]. eexists. split; [reflexivity|].
  eapply feeds_app; [exact F1|]. eapply feeds_app; [exact F2|]. eapply feeds_app; [exact F3|].
  eapply feeds_app; [exact F4|]. eapply feeds_app; [exact F5|]. eapply feeds_app; [exact F6|]. exact F7.
Qed.

(** ** The human-readable part *)
Lemma encode_amount_shape m : 0 <= m -> exists n c, 0 <= n /\ encode_amount m = dec n ++ [c] /\
  c ∈ [109; 117; 110; 112].
Proof.
  intros Hm. unfold encode_amount. repeat case_match;
    (eexists _, _; split; [|split; [reflexivity|set_solver]]); try (apply Z.div_pos; lia).
  apply wrap_uint. lia.
Qed.

Lemma digits_plain l : forallb is_ascii_digit l = true -> bytes_ok l /\ no_upper l.
Proof.
  unfold no_upper. induction l as [|c l IH]; [done|]. cbn. intros [Hc Hl]%andb_true_iff.
  destruct (IH Hl) as [H1 H2]. unfold is_ascii_digit in Hc. apply andb_true_iff in Hc as [Hc1 Hc2].
  apply Z.leb_le in Hc1, Hc2. rewrite H2, orb_false_r. split; [constructor; [unfold uint; lia|done]|].
  unfold is_ascii_uppercase. apply andb_false_iff. rewrite !Z.leb_gt. lia.
Qed.

Definition amount_text (a : option Z) : bytes := match a with Some m => encode_amount m | None => [] end.

Lemma amount_text_plain a : (forall m, a = Some m -> 0 <= m) ->
  bytes_ok (amount_text a) /\ no_upper (amount_text a) /\
  (amount_text a = [] \/ exists c rest, amount_text a = c :: rest /\ is_ascii_digit c = true).
Proof.
  intros Ha. destruct a as [m|]; [|split; [constructor|split; [done|by left]]]. cbn [amount_text].
  destruct (encode_amount_shape m (Ha m eq_refl)) as (n & c & Hn & -> & Hc).
  pose proof (dec_digits n Hn) as Hd. destruct (digits_plain _ Hd) as [H1 H2].
  assert (uint 8 c /\ is_ascii_uppercase c = false) as [Hc1 Hc2].
  { rewrite !elem_of_cons in Hc. by destruct Hc as [->|[->|[->|[->|Hc%not_elem_of_nil]]]]. }
  split; [apply Forall_app; split; [done|by constructor]|]. unfold no_upper in *.
  split; [rewrite existsb_app, H2; cbn; by rewrite Hc2|right].
  pose proof (dec_nonempty n). destruct (dec n) as [|d l]; [done|]. exists d, (l ++ [c]).
  split; [done|]. cbn in Hd. by apply andb_true_iff in Hd as [? _].
Qed.

Lemma parse_prefix_ok n a : (forall m, a = Some m -> 0 <= m) ->
  parse_prefix (invoice_hrp n ++ amount_text a) = Ok (n, amount_text a).
Proof.
  intros Ha. destruct (amount_text_plain a Ha) as (_ & _ & H).
  destruct H as [->|(c & rest & -> & Hc)]; [by destruct n|].
  unfold is_ascii_digit in Hc. apply andb_true_iff in Hc as [Hc1 Hc2]. apply Z.leb_le in Hc1, Hc2.
  assert (c = 48 \/ c = 49 \/ c = 50 \/ c = 51 \/ c = 52 \/ c = 53 \/ c = 54 \/ c = 55 \/ c = 56 \/ c = 57)
    as Hd by lia.
  by repeat (destruct Hd as [->|Hd]; [by destruct n|]); subst c; destruct n.
Qed.

Lemma builder_hrp_ok b : (forall m, b_amount_msat b = Some m -> 0 <= m) ->
  builder_hrp b <> [] /\ bytes_ok (builder_hrp b) /\ no_upper (builder_hrp b).
Proof.
  intros Ha. destruct (amount_text_plain _ Ha) as (H1 & H2 & _).
  unfold builder_hrp. fold (amount_text (b_amount_msat b)). unfold no_upper in *.
  split; [done|]. rewrite !Forall_app, !existsb_app, H2, orb_false_r.
  split; [|by destruct (b_network b)]. split; [by apply (bool_decide_unpack _)|].
  split; [|done]. destruct (b_network b); by apply (bool_decide_unpack _).
Qed.

(** ** The round trip *)
Definition invoice_of (b : InvoiceBuilder) (pk : PublicKey) : Bolt11Invoice :=
  {| network := b_network b; amount_msat := b_amount_msat b; timestamp := b_timestamp b;
     payment_hash := b_payment_hash b; payment_secret := b_payment_secret b;
     description := b_description b; expiry_secs := b_expiry_secs b;
     min_final_cltv_expiry_delta := b_min_final_cltv_expiry_delta b; features := b_features b;
     route_hints := b_route_hints b; payee := pk |}.
Lemma digest_ok hrp data : Forall (uint 5) data ->
  exists h, signed_digest hrp data = Ok h /\ length h = 32%nat /\ bytes_ok h.
Proof.
  intros Hd. unfold signed_digest.
  destruct (convert_bits_padded 5 8 ltac:(lia) ltac:(lia) data Hd) as (packed & p & -> & _).
  cbn [mbind result_bind]. eexists. split; [reflexivity|].
  split; [apply length_sha256|apply sha256_bytes_ok].
Qed.

(** The 104 groups of a signature. *)
Lemma signature_groups (r : RecoverableSignature) :
  let '(rec_id, compact) := rsig_serialize_compact r in
  exists sig, convert_bits (compact ++ [wrap 8 rec_id]) 8 5 true = Ok sig /\
    length sig = 104%nat /\ Forall (uint 5) sig /\
    convert_bits sig 5 8 false = Ok (compact ++ [rec_id]) /\ rsig_from_compact compact rec_id = Some r.
Proof.
  pose proof (rsig_recid r) as H1. pose proof (rsig_compact_length r) as H2.
  pose proof (rsig_compact_ok r) as H3. pose proof (rsig_from_serialize r) as H4.
  destruct (rsig_serialize_compact r) as [rec_id compact]. cbn [fst snd] in *.
  rewrite wrap_small by (unfold uint; lia).
  destruct (regroup (compact ++ [rec_id])) as (sig & E & E' & Hu & Hl).
  { apply Forall_app. split; [done|]. constructor; [unfold uint; lia|constructor]. }
  exists sig. split; [done|]. split; [|done].
  rewrite length_app, H2 in Hl. change ((8 * Z.of_nat (64 + length [rec_id]) + 4) / 5) with 104 in Hl. lia.
Qed.

(** What a run of the builder leaves for the parser. *)
Lemma encode_ok b key : builder_ok b -> exists s segs h sig rec_id compact,
  let data := timestamp_groups (b_timestamp b) ++ segs in
  encode_with_key b key = Ok s /\ decode s = Ok (builder_hrp b, data ++ sig) /\
  run_fields segs no_fields = Ok (fields_of b) /\
  signed_digest (builder_hrp b) data = Ok h /\
  recover_ecdsa h (sign_ecdsa_recoverable h key) = Some (sk_public_key key) /\
  length sig = 104%nat /\ length compact = 64%nat /\
  convert_bits sig 5 8 false = Ok (compact ++ [rec_id]) /\
  rsig_from_compact compact rec_id = Some (sign_ecdsa_recoverable h key).
Proof.
  intros H. destruct (builder_data_ok b H) as (segs & Ed & Hsu & Hrun).
  destruct (timestamp_groups_ok _ (ok_timestamp b H)) as [_ Htu].
  destruct (builder_hrp_ok b) as (Hne & Hhb & Hhu).
  { intros m Hm. destruct (ok_amount b H m Hm) as [Hu _]. unfold uint in Hu. lia. }
  set (data := timestamp_groups (b_timestamp b) ++ segs) in *.
  assert (Hdu : Forall (uint 5) data) by by apply Forall_app.
  destruct (digest_ok (builder_hrp b) data Hdu) as (h & Eh & Hhl & Hho).
  pose proof (signature_groups (sign_ecdsa_recoverable h key)) as Hsig.
  pose proof (rsig_compact_length (sign_ecdsa_recoverable h key)) as Hcl.
  unfold encode_with_key, encode_signed. rewrite Ed. cbn [mbind result_bind]. rewrite Eh.
  cbn [unwrap mbind result_bind].
  destruct (rsig_serialize_compact _) as [rec_id compact]. cbn [snd] in Hcl.
  destruct Hsig as (sig & Es & Hsl & Hsu' & Es' & Er). rewrite Es. cbn [unwrap mbind result_bind].
  destruct (encode_decodes (builder_hrp b) (data ++ sig) Hne Hhb Hhu) as (s & -> & Edec);
    [by apply Forall_app|].
  exists s, segs, h, sig, rec_id, compact. split_and!; try done; [|by apply recover_sign].
  specialize (Hrun []). by rewrite app_nil_r in Hrun.
Qed.

Lemma parse_encoded b key : builder_ok b ->
  exists s, encode_with_key b key = Ok s /\ parse s = Ok (invoice_of b (sk_public_key key)).
Proof.
  intros H. destruct (encode_ok b key H) as
    (s & segs & h & sig & rec_id & compact & E & Edec & Hrun & Eh & Hrec & Hsl & Hcl & Es & Er).
  destruct (timestamp_groups_ok _ (ok_timestamp b H)) as [Ets _].
  set (ts := timestamp_groups (b_timestamp b)) in *.
  assert (Hlts : length ts = 7%nat) by done.
  exists s. split; [done|]. unfold parse. rewrite Edec. cbn [map_err mbind result_bind].
  assert (strip_prefix (str "ln") (builder_hrp b) =
    Some (invoice_hrp (b_network b) ++ amount_text (b_amount_msat b))) as -> by apply strip_prefix_app.
  cbn [ok_or mbind result_bind]. rewrite parse_prefix_ok.
  2: { intros m Hm. destruct (ok_amount b H m Hm) as [Hu _]. unfold uint in Hu. lia. }
  cbn [mbind result_bind].
  assert (parse_amount (amount_text (b_amount_msat b)) = Ok (b_amount_msat b)) as ->.
  { destruct (b_amount_msat b) as [m|] eqn:Em; [|done]. by apply amount_parses, (ok_amount b H). }
  assert ((length ((ts ++ segs) ++ sig) - 104)%nat = length (ts ++ segs)) as ->
    by (rewrite (length_app _ sig); lia).
  rewrite take_app_length, drop_app_length, (proj2 (Nat.ltb_ge _ _)) by (rewrite !length_app; lia).
  cbn [fail_if mbind result_bind]. rewrite Es. cbn [map_err mbind result_bind].
  rewrite <- Hcl at 2. rewrite lookup_total_app_r, Nat.sub_diag by done.
  rewrite (take_app_length' compact) by done. change ([rec_id] !!! 0%nat) with rec_id.
  rewrite Er. cbn [ok_or mbind result_bind].
  rewrite Eh. cbn [map_err mbind result_bind]. rewrite Hrec. cbn [ok_or mbind result_bind].
  rewrite take_app_length', drop_app_length' by done. rewrite Ets.
  change (parse_fields segs) with (run_fields segs no_fields). rewrite Hrun. reflexivity.
Qed.

(** [C28] An invoice built and signed with a key parses back to exactly what
    the builder held, with the key's public key as the payee, whatever
    optional fields and route hints it carries, as long as what the builder
    holds can be written ([builder_ok]): an amount that a multiplier spells
    without wrapping ([amount_encodable]), a time stamp of 35 bits, a 32-byte
    payment hash, secret and description hash, a description of valid UTF-8
    and at most 639 bytes, a [u64] expiry and [u32] final delta, features
    without leading zeros in at most 639 bytes, and at most 12 hops per route
    hint.  Outside of these the code wraps or panics: [amount_roundtrip_iff],
    [overlong_description_panics]. *)
Theorem invoice_roundtrip b key : builder_ok b ->
  exists s, encode_with_key b key = Ok s /\ parse s = Ok (invoice_of b (sk_public_key key)).
Proof. apply parse_encoded. Qed.
End fields.

(** ** Too long a description *)
Lemma convert_loop_bad pre v post from to maxv acc bits out :
  Z.shiftr v from <> 0 ->
  convert_loop (pre ++ v :: post) from to maxv acc bits out = Err PaddingError.
Proof.
  intros Hs. revert acc bits out. induction pre as [|u pre IH]; intros acc bits out; cbn [app convert_loop].
  - by rewrite (proj2 (Z.eqb_neq _ _)).
  - destruct (Z.shiftr u from =? 0); [|done]. cbn [negb fail_if mbind result_bind].
    destruct (emit _ _ _ _ _ _). apply IH.
Qed.

Lemma signed_digest_bad hrp pre v post :
  Z.shiftr v 5 <> 0 -> signed_digest hrp (pre ++ v :: post) = Err PaddingError.
Proof. intros Hv. unfold signed_digest, convert_bits. by rewrite convert_loop_bad. Qed.

Section overlong.
Context `{S : Secp}.

Lemma tagged_bytes_shape tag v r : tagged_bytes tag v = r ->
  r = Panic \/ exists five, r = Ok (tagged tag five) /\ convert_bits v 8 5 true = Ok five.
Proof.
  unfold tagged_bytes. intros <-. destruct (convert_bits v 8 5 true) as [five|e|]; cbn; eauto.
Qed.

(** A description of more than 639 bytes (and up to 5119) does not fit
    a tagged field's ten-bit length: [encode_signed] panics on it, whatever
    the rest of the builder holds. *)
Theorem overlong_description_panics b sign text :
  b_description b = Direct text -> bytes_ok text -> 640 <= Z.of_nat (length text) < 5120 ->
  encode_signed b sign = Panic.
Proof.
  intros Hd Hok Hl. unfold encode_signed, builder_data. rewrite Hd.
  destruct (tagged_bytes_shape TAG_PAYMENT_SECRET (b_payment_secret b) _ eq_refl) as [->|(f1 & -> & _)]; [done|].
  destruct (tagged_bytes_shape TAG_PAYMENT_HASH (b_payment_hash b) _ eq_refl) as [->|(f2 & -> & _)]; [done|].
  destruct (regroup text Hok) as (five & E5 & _ & _ & HL).
  assert (tagged_bytes TAG_DESCRIPTION text = Ok (tagged TAG_DESCRIPTION five)) as ->
    by (unfold tagged_bytes; by rewrite E5).
  cbn [unwrap mbind result_bind].
  destruct (collect _ _) as [hints|[]|] eqn:Ec; cbn [mbind result_bind]; [| |done].
  2: { exfalso. revert Ec. generalize (b_route_hints b). intros hs. induction hs as [|h hs IH]; [done|].
    cbn [collect]. destruct (tagged_bytes_shape TAG_ROUTE_HINT (concat (map hop_bytes h)) _ eq_refl)
      as [->|(f & -> & _)]; [done|]. cbn [mbind result_bind]. by destruct (collect _ hs). }
  set (ts := map _ _). match goal with |- context [tagged TAG_DESCRIPTION five ++ ?p] => set (post := p) end.
  assert (Z.shiftr (wrap 8 (Z.of_nat (length five) / 32)) 5 <> 0) as Hbig.
  { rewrite wrap_small by (unfold uint; mod_lia). rewrite Z.shiftr_div_pow2 by lia. mod_lia. }
  assert (forall x y, ts ++ x ++ y ++ tagged TAG_DESCRIPTION five ++ post =
    (ts ++ x ++ y ++ [TAG_DESCRIPTION]) ++ wrap 8 (Z.of_nat (length five) / 32)
      :: wrap 8 (Z.of_nat (length five) mod 32) :: five ++ post) as E.
  { intros x y. by rewrite <- !app_assoc. }
  by rewrite E, signed_digest_bad.
Qed.
End overlong.

(** A regtest invoice with every optional field. *)
Definition sample_builder : InvoiceBuilder (S := toy_secp) :=
  {| b_network := Regtest; b_amount_msat := Some 123456001; b_timestamp := 1700000000;
     b_payment_hash := replicate 32 1; b_payment_secret := replicate 32 2;
     b_description := Direct (str "hints"); b_expiry_secs := Some 7200;
     b_min_final_cltv_expiry_delta := Some 40; b_features := default_features;
     b_route_hints := [[{| src_node_id := toy_of 9; short_channel_id := 109951162843136;
       fee_base_msat := 1000; fee_proportional_millionths := 2500; cltv_expiry_delta := 144 |}]] |}.

Lemma invoice_roundtrip_witness :
  exists s, encode_with_key sample_builder (toy_of 7) = Ok s /\
    parse s = Ok (invoice_of sample_builder (sk_public_key (toy_of 7))).
Proof.
  apply (invoice_roundtrip sample_builder (toy_of 7)). split; cbn.
  - intros m [= <-]. split; [done|right; done].
  - done.
  - by split; apply (bool_decide_unpack _).
  - by split; apply (bool_decide_unpack _).
  - split_and!; [by apply (bool_decide_unpack _)|done|by apply Nat.leb_le].
  - intros x [= <-]. done.
  - intros x [= <-]. done.
  - split_and!; [by apply (bool_decide_unpack _)|done|by apply Nat.leb_le].
  - by apply (bool_decide_unpack _).
Defined.

Lemma overlong_description_panics_witness :
  encode_signed {| b_network := Regtest; b_amount_msat := None; b_timestamp := 0;
    b_payment_hash := []; b_payment_secret := []; b_description := Direct (replicate 640 97);
    b_expiry_secs := None; b_min_final_cltv_expiry_delta := None; b_features := [];
    b_route_hints := [] |} (fun _ => toy_of 0) = Panic.
Proof.
  apply (overlong_description_panics (S := toy_secp) _ _ (replicate 640 97)); [reflexivity| |].
  - by apply (bool_decide_unpack _).
  - rewrite length_replicate. lia.
Defined.
