(* ===== verification/Encode.v ===== *)
(** * Encode: Bitcoin consensus encoding (src/src/bitcoin/encode.rs)

    Little-endian integers, CompactSize and length-prefixed byte vectors.
    [Reader] methods are [reader]s (see Codec), writers return the bytes they
    append. *)
From S2P Require Import Prelude Codec.

Inductive DecodeError : Type :=
  | UnexpectedEnd
  | NonMinimal
  | Oversized
  | BadFormat (msg : string).

Definition rd_take (n : nat) : reader DecodeError bytes := fun data =>
  match split_take n data with
  | None => Err UnexpectedEnd
  | Some (head, rest) => Ok (head, rest)
  end.
Definition rd_array (n : nat) : reader DecodeError bytes := rd_take n.
Definition rd_u8 : reader DecodeError Z := l ← rd_take 1; rlift (expect (head l)).
Definition rd_u16_le : reader DecodeError Z := l ← rd_array 2; mret (of_le l).
Definition rd_u32_le : reader DecodeError Z := l ← rd_array 4; mret (of_le l).
Definition rd_u64_le : reader DecodeError Z := l ← rd_array 8; mret (of_le l).

Definition compact_size : reader DecodeError Z :=
  first ← rd_u8;
  if first <=? 0xfc then mret first
  else if first =? 0xfd then
    v ← rd_u16_le;
    _ ← rfail_if (v <? 0xfd) NonMinimal;
    mret v
  else if first =? 0xfe then
    v ← rd_u32_le;
    _ ← rfail_if (v <=? 0xffff) NonMinimal;
    mret v
  else
    v ← rd_u64_le;
    _ ← rfail_if (v <=? 0xffffffff) NonMinimal;
    mret v.

Definition sized_bytes (cap : Z) : reader DecodeError bytes :=
  len ← compact_size;
  _ ← rfail_if (cap <? len) Oversized;
  rd_take (Z.to_nat len).

Definition write_compact_size (n : Z) : bytes :=
  if n <=? 0xfc then [wrap 8 n]
  else if n <=? 0xffff then [0xfd] ++ le_bytes 2 (wrap 16 n)
  else if n <=? 0xffffffff then [0xfe] ++ le_bytes 4 (wrap 32 n)
  else [0xff] ++ le_bytes 8 n.

Definition write_sized_bytes (b : bytes) : bytes :=
  write_compact_size (wrap 64 (Z.of_nat (length b))) ++ b.

#[global] Arguments write_compact_size : simpl never.
#[global] Arguments write_sized_bytes : simpl never.
#[global] Arguments le_bytes : simpl never.

(** ** Readers invert writers *)
Lemma rd_reads_take w n : length w = n -> reads (rd_take n) w w.
Proof. intros Hn rest. unfold rd_take. by rewrite split_take_app. Qed.

Lemma rd_reads_u8 v : reads rd_u8 [v] v.
Proof.
  rewrite <- (app_nil_r [v]). eapply reads_bind; [by apply rd_reads_take|]. by intros rest.
Qed.

Lemma rd_reads_le {v} n w :
  w = 8 * Z.of_nat n -> uint w v ->
  reads (l ← rd_array n; mret (of_le l)) (le_bytes n v) v.
Proof.
  intros Hw Hv. rewrite <- (of_le_le_bytes_id n w v) at 2 by done.
  apply (reads_bind_ret _ of_le). apply rd_reads_take, length_le_bytes.
Qed.

Lemma rd_reads_u16 v : u16 v -> reads rd_u16_le (le_bytes 2 v) v.
Proof. by apply rd_reads_le. Qed.
Lemma rd_reads_u32 v : u32 v -> reads rd_u32_le (le_bytes 4 v) v.
Proof. by apply rd_reads_le. Qed.
Lemma rd_reads_u64 v : u64 v -> reads rd_u64_le (le_bytes 8 v) v.
Proof. by apply rd_reads_le. Qed.

Lemma compact_size_cons b r :
  compact_size (b :: r) =
    (if b <=? 0xfc then mret b
     else if b =? 0xfd then v ← rd_u16_le; _ ← rfail_if (v <? 0xfd) NonMinimal; mret v
     else if b =? 0xfe then v ← rd_u32_le; _ ← rfail_if (v <=? 0xffff) NonMinimal; mret v
     else v ← rd_u64_le; _ ← rfail_if (v <=? 0xffffffff) NonMinimal; mret v) r.
Proof.
  unfold compact_size. unfold mbind at 1, reader_bind at 1.
  by rewrite (rd_reads_u8 b r : rd_u8 (b :: r) = _).
Qed.

Lemma compact_size_reads v : u64 v -> reads compact_size (write_compact_size v) v.
Proof.
  intros Hv rest. unfold write_compact_size. unfold uint in Hv.
  destruct (Z.leb_spec v 0xfc); [|destruct (Z.leb_spec v 0xffff);
    [|destruct (Z.leb_spec v 0xffffffff)]]; rewrite ?wrap_small by (unfold uint; lia);
    cbn [app]; rewrite compact_size_cons.
  - by rewrite (proj2 (Z.leb_le v 0xfc)).
  - apply (reads_guarded rd_u16_le (fun v => v <? 0xfd));
      [apply rd_reads_u16; unfold uint; lia|lia].
  - apply (reads_guarded rd_u32_le (fun v => v <=? 0xffff));
      [apply rd_reads_u32; unfold uint; lia|lia].
  - apply (reads_guarded rd_u64_le (fun v => v <=? 0xffffffff));
      [apply rd_reads_u64; unfold uint; lia|lia].
Qed.

Lemma sized_bytes_reads cap b :
  Z.of_nat (length b) <= cap -> u64 (Z.of_nat (length b)) ->
  reads (sized_bytes cap) (write_sized_bytes b) b.
Proof.
  intros Hcap Hb. unfold write_sized_bytes. rewrite wrap_small by done.
  eapply reads_bind; [by apply compact_size_reads|].
  apply reads_guard; [lia|]. apply rd_reads_take. lia.
Qed.

#[export] Hint Resolve rd_reads_u8 rd_reads_u16 rd_reads_u32 rd_reads_u64
  compact_size_reads sized_bytes_reads : codec.

(** ** What CompactSize reading accepts *)
Lemma rd_take_Ok n bs w rest :
  rd_take n bs = Ok (w, rest) <-> length w = n /\ bs = w ++ rest.
Proof.
  unfold rd_take. rewrite <- split_take_Some.
  destruct (split_take n bs) as [[]|]; naive_solver.
Qed.

Lemma rd_le_canonical n w :
  w = 8 * Z.of_nat n ->
  canonical (l ← rd_array n; mret (of_le l)) (uint w) (le_bytes n).
Proof.
  intros Hw bs v rest Hbs H. rbind_inv.
  apply rd_take_Ok in H0 as [<- ->]. apply Forall_app in Hbs as [Hx _].
  split; [by eapply of_le_uint|]. by rewrite le_bytes_of_le.
Qed.

Lemma compact_size_canonical : canonical compact_size u64 write_compact_size.
Proof.
  intros [|b r] v rest Hbs; [done|]. rewrite compact_size_cons.
  apply Forall_cons in Hbs as [Hb Hr]. unfold uint in Hb. unfold write_compact_size.
  destruct (Z.leb_spec b 0xfc); [|destruct (Z.eqb_spec b 0xfd);
    [|destruct (Z.eqb_spec b 0xfe)]]; intros Hrun.
  - injection Hrun as -> ->. split; [unfold uint; lia|].
    rewrite (proj2 (Z.leb_le _ _)), wrap_small by (unfold uint; lia). done.
  - apply (canonical_guarded rd_u16_le (fun v => v <? 0xfd) _ _ _ (rd_le_canonical 2 16 eq_refl))
      in Hrun as [[Hv Hm] ->]; [|done]. unfold uint in *. subst b. split; [lia|].
    by rewrite (proj2 (Z.leb_gt _ _)), (proj2 (Z.leb_le _ _)), wrap_small by (unfold uint; lia).
  - apply (canonical_guarded rd_u32_le (fun v => v <=? 0xffff) _ _ _ (rd_le_canonical 4 32 eq_refl))
      in Hrun as [[Hv Hm] ->]; [|done]. unfold uint in *. subst b. split; [lia|].
    by rewrite !(proj2 (Z.leb_gt _ _)), (proj2 (Z.leb_le _ _)), wrap_small by (unfold uint; lia).
  - apply (canonical_guarded rd_u64_le (fun v => v <=? 0xffffffff) _ _ _
      (rd_le_canonical 8 64 eq_refl))
      in Hrun as [[Hv Hm] ->]; [|done]. unfold uint in *. assert (b = 0xff) as -> by lia.
    split; [lia|]. by rewrite !(proj2 (Z.leb_gt _ _)) by lia.
Qed.
