(* ===== verification/Script.v ===== *)
(** * Script: script builder and segwit templates (src/src/bitcoin/script.rs)

    A script is its bytes.  [ScriptBuilder] methods append to the bytes built
    so far.  [scriptnum_decode] and [read_push] state what a script
    interpreter reads back; the theorems are the round trips. *)
From S2P Require Import Prelude Codec Sha256 Ripemd160.

(** ** Opcodes *)
Definition OP_0 : Z := 0x00.
Definition OP_PUSHDATA1 : Z := 0x4c.
Definition OP_PUSHDATA2 : Z := 0x4d.
Definition OP_PUSHDATA4 : Z := 0x4e.
Definition OP_1NEGATE : Z := 0x4f.
Definition OP_1 : Z := 0x51.
Definition OP_2 : Z := 0x52.
Definition OP_16 : Z := 0x60.
Definition OP_IF : Z := 0x63.
Definition OP_NOTIF : Z := 0x64.
Definition OP_ELSE : Z := 0x67.
Definition OP_ENDIF : Z := 0x68.
Definition OP_RETURN : Z := 0x6a.
Definition OP_DROP : Z := 0x75.
Definition OP_DUP : Z := 0x76.
Definition OP_SWAP : Z := 0x7c.
Definition OP_SIZE : Z := 0x82.
Definition OP_EQUAL : Z := 0x87.
Definition OP_EQUALVERIFY : Z := 0x88.
Definition OP_ADD : Z := 0x93.
Definition OP_HASH160 : Z := 0xa9.
Definition OP_CHECKSIG : Z := 0xac.
Definition OP_CHECKSIGVERIFY : Z := 0xad.
Definition OP_CHECKMULTISIG : Z := 0xae.
Definition OP_CHECKLOCKTIMEVERIFY : Z := 0xb1.
Definition OP_CHECKSEQUENCEVERIFY : Z := 0xb2.

(** ** Templates *)
Definition new_p2wsh (witness_script : bytes) : bytes :=
  [OP_0; 32] ++ sha256 witness_script.
Definition new_p2wpkh_from_pubkey (compressed_pubkey : bytes) : bytes :=
  [OP_0; 20] ++ hash160 compressed_pubkey.
Definition new_p2wpkh (pubkey_hash : bytes) : bytes := [OP_0; 20] ++ pubkey_hash.

Definition is_p2wsh (s : bytes) : bool :=
  (length s =? 34)%nat && (s !!! 0%nat =? OP_0) && (s !!! 1%nat =? 32).
Definition is_p2wpkh (s : bytes) : bool :=
  (length s =? 22)%nat && (s !!! 0%nat =? OP_0) && (s !!! 1%nat =? 20).
Definition is_witness_program (s : bytes) : bool :=
  if (length s <? 4)%nat || (42 <? length s)%nat then false
  else
    let version_ok := (s !!! 0%nat =? OP_0) ||
      ((OP_1 <=? s !!! 0%nat) && (s !!! 0%nat <=? OP_16)) in
    let push_len := s !!! 1%nat in
    version_ok && ((2 <=? push_len) && (push_len <=? 40)) &&
    (Z.of_nat (length s) =? push_len + 2).
Definition p2wpkh_script_code (s : bytes) : option bytes :=
  if negb (is_p2wpkh s) then None
  else Some ([OP_DUP; OP_HASH160; 20] ++ take 20 (drop 2 s) ++ [OP_EQUALVERIFY; OP_CHECKSIG]).

(** ** Script numbers *)
(** [while abs > 0 { out.push(abs & 0xff); abs >>= 8 }]; a [u64] has at most
    eight bytes. *)
Fixpoint scriptnum_bytes (fuel : nat) (abs : Z) : bytes :=
  match fuel with
  | O => []
  | S fuel => if 0 <? abs then Z.land abs 0xff :: scriptnum_bytes fuel (Z.shiftr abs 8) else []
  end.

Definition scriptnum_encode (n : Z) : bytes :=
  if n =? 0 then []
  else
    let negative := n <? 0 in
    let out := scriptnum_bytes 8 (Z.abs n) in
    let last := List.last out 0 in
    if negb (Z.land last 0x80 =? 0) then out ++ [if negative then 0x80 else 0x00]
    else if negative then removelast out ++ [Z.lor last 0x80]
    else out.

(** What CScriptNum reads: little-endian magnitude, sign in the top bit of
    the last byte. *)
Definition scriptnum_decode (l : bytes) : Z :=
  match l with
  | [] => 0
  | _ =>
    let last := List.last l 0 in
    let mag := of_le (removelast l ++ [Z.land last 0x7f]) in
    if Z.land last 0x80 =? 0 then mag else - mag
  end.

(** ** The builder *)
Definition push_opcode (s : bytes) (op : Z) : bytes := s ++ [op].

Definition push_slice (s data : bytes) : bytes :=
  let n := Z.of_nat (length data) in
  s ++ (if n =? 0 then [OP_0]
        else if n <=? 0x4b then [wrap 8 n] ++ data
        else if n <=? 0xff then [OP_PUSHDATA1; wrap 8 n] ++ data
        else if n <=? 0xffff then [OP_PUSHDATA2] ++ le_bytes 2 (wrap 16 n) ++ data
        else [OP_PUSHDATA4] ++ le_bytes 4 (wrap 32 n) ++ data).

Definition push_int (s : bytes) (n : Z) : bytes :=
  if n =? 0 then push_opcode s OP_0
  else if n =? -1 then push_opcode s OP_1NEGATE
  else if (1 <=? n) && (n <=? 16) then push_opcode s (OP_1 + wrap 8 n - 1)
  else push_slice s (scriptnum_encode n).

(** What an interpreter reads at a data push. *)
Definition read_push (s : bytes) : option (bytes * bytes) :=
  match s with
  | [] => None
  | op :: s =>
    if op <=? 0x4b then split_take (Z.to_nat op) s
    else if op =? OP_PUSHDATA1 then
      '(l, s) ← split_take 1 s; split_take (Z.to_nat (of_le l)) s
    else if op =? OP_PUSHDATA2 then
      '(l, s) ← split_take 2 s; split_take (Z.to_nat (of_le l)) s
    else if op =? OP_PUSHDATA4 then
      '(l, s) ← split_take 4 s; split_take (Z.to_nat (of_le l)) s
    else if op =? OP_1NEGATE then Some ([0x81], s)
    else if (OP_1 <=? op) && (op <=? OP_16) then Some ([op - OP_1 + 1], s)
    else None
  end.

(** ** Script numbers round-trip *)
Lemma scriptnum_bytes_of_le fuel n :
  0 <= n < 256 ^ Z.of_nat fuel -> of_le (scriptnum_bytes fuel n) = n.
Proof.
  revert n; induction fuel as [|fuel IH]; intros n Hn; simpl; [simpl in Hn; lia|].
  rewrite Nat2Z.inj_succ, Z.pow_succ_r in Hn by lia.
  destruct (Z.ltb_spec 0 n); simpl; [|lia].
  rewrite IH; rewrite Z.shiftr_div_pow2 by lia; change 255 with (Z.ones 8);
    rewrite ?Z.land_ones by lia; change (2 ^ 8) with 256; [mod_lia|].
  split; [apply Z.div_pos; lia|]. apply Z.div_lt_upper_bound; lia.
Qed.

Lemma scriptnum_bytes_last fuel n :
  0 < n < 256 ^ Z.of_nat fuel ->
  exists l b, scriptnum_bytes fuel n = l ++ [b] /\ 0 < b < 256.
Proof.
  revert n; induction fuel as [|fuel IH]; intros n Hn; [simpl in Hn; lia|].
  rewrite Nat2Z.inj_succ, Z.pow_succ_r in Hn by lia.
  cbn [scriptnum_bytes]. rewrite (proj2 (Z.ltb_lt _ _)) by lia.
  change 255 with (Z.ones 8). rewrite Z.land_ones, Z.shiftr_div_pow2 by lia.
  change (2 ^ 8) with 256. destruct (decide (n < 256)) as [Hs|Hs].
  - rewrite (Z.div_small n), Z.mod_small by lia. exists [], n.
    destruct fuel; simpl; split; done || lia.
  - destruct (IH (n / 256)) as (l & b & -> & Hb); [|by exists (n mod 256 :: l), b].
    split; [apply Z.div_str_pos; lia|]. apply Z.div_lt_upper_bound; lia.
Qed.

Lemma land_80_spec b : 0 <= b < 256 -> Z.land b 0x80 = if decide (b < 128) then 0 else 0x80.
Proof.
  intros Hb. assert (forall b, Z.land b 0x80 = Z.land (b / 128) 1 * 128) as ->.
  { clear. intros b. change 128 with (2 ^ 7). rewrite <- Z.shiftr_div_pow2 by lia.
    rewrite <- Z.shiftl_mul_pow2 by lia. apply Z.bits_inj'. intros k Hk.
    rewrite Z.shiftl_spec, !Z.land_spec, Z.pow2_bits_eqb by lia.
    destruct (Z.eqb_spec 7 k) as [<-|Hne].
    - by rewrite Z.shiftr_spec by lia.
    - rewrite andb_false_r. destruct (decide (k < 7)).
      + by rewrite (Z.testbit_neg_r 1), andb_false_r by lia.
      + rewrite (Z.bits_above_log2 1), andb_false_r by (simpl; lia). done. }
  case_decide.
  - by rewrite Z.div_small by lia.
  - by assert (b / 128 = 1) as -> by (symmetry; apply (Z.div_unique _ _ _ (b - 128)); lia).
Qed.

Lemma land_7f_spec b : 0 <= b -> Z.land b 0x7f = b mod 128.
Proof. intros. change 0x7f with (Z.ones 7). by rewrite Z.land_ones. Qed.

Lemma lor_80_spec b : 0 <= b < 128 -> Z.lor b 0x80 = b + 128.
Proof.
  intros. rewrite Z.lor_comm. change (Z.lor 128 b) with (Z.lor (Z.shiftl 1 7) b).
  rewrite lor_shiftl_add; lia.
Qed.

Lemma of_le_snoc l b : of_le (l ++ [b]) = of_le l + 256 ^ Z.of_nat (length l) * b.
Proof.
  induction l as [|x l IH]; simpl; [lia|].
  rewrite IH, Nat2Z.inj_succ, Z.pow_succ_r by lia. lia.
Qed.

Lemma scriptnum_decode_snoc l b :
  0 <= b < 256 ->
  scriptnum_decode (l ++ [b]) =
    let mag := of_le l + 256 ^ Z.of_nat (length l) * (b mod 128) in
    if decide (b < 128) then mag else - mag.
Proof.
  intros Hb. unfold scriptnum_decode.
  destruct (l ++ [b]) eqn:E; [by destruct l|]. rewrite <- E; clear E.
  rewrite last_last, removelast_last, land_80_spec, land_7f_spec, of_le_snoc by lia.
  cbv zeta. by case_decide.
Qed.

Lemma scriptnum_roundtrip_base n :
  - 2 ^ 63 <= n < 2 ^ 63 -> scriptnum_decode (scriptnum_encode n) = n.
Proof.
  intros Hn. unfold scriptnum_encode. destruct (Z.eqb_spec n 0) as [->|Hn0]; [done|].
  assert (Hr : 0 < Z.abs n < 256 ^ Z.of_nat 8) by (simpl; lia).
  pose proof (scriptnum_bytes_of_le 8 (Z.abs n) ltac:(lia)) as Hval.
  destruct (scriptnum_bytes_last 8 (Z.abs n) Hr) as (l & b & E & Hb).
  rewrite E in *. rewrite last_last, removelast_last, land_80_spec by lia.
  rewrite of_le_snoc in Hval. cbv zeta.
  case_decide as Hb7; simpl negb; cbv iota.
  - destruct (Z.ltb_spec n 0).
    + rewrite lor_80_spec, scriptnum_decode_snoc by lia. cbv zeta.
      rewrite decide_False by lia.
      replace ((b + 128) mod 128) with b by mod_lia. lia.
    + rewrite scriptnum_decode_snoc by lia. cbv zeta.
      rewrite decide_True, Z.mod_small by lia. lia.
  - destruct (Z.ltb_spec n 0).
    + rewrite scriptnum_decode_snoc by lia. cbv zeta. rewrite decide_False by lia.
      change (128 mod 128) with 0. rewrite of_le_snoc. lia.
    + rewrite scriptnum_decode_snoc by lia. cbv zeta. rewrite decide_True by lia.
      change (0 mod 128) with 0. rewrite of_le_snoc. lia.
Qed.

(** ** Pushes are read back *)
Lemma read_push_slice data rest :
  u32 (Z.of_nat (length data)) -> read_push (push_slice [] data ++ rest) = Some (data, rest).
Proof.
  intros Hd. unfold push_slice. rewrite app_nil_l. unfold uint in Hd.
  destruct (Z.eqb_spec (Z.of_nat (length data)) 0) as [H0|H0].
  { by destruct data. }
  repeat match goal with
  | |- context [if ?a <=? ?b then _ else _] => destruct (Z.leb_spec a b)
  end; rewrite ?wrap_small by (unfold uint; lia); cbn [app]; unfold read_push.
  - rewrite (proj2 (Z.leb_le _ _)) by lia. apply split_take_app. lia.
  - change (match split_take 1 (Z.of_nat (length data) :: (data ++ rest)) with
      | Some (l, s) => split_take (Z.to_nat (of_le l)) s | None => None end = Some (data, rest)).
    pose proof (split_take_app 1 [Z.of_nat (length data)] (data ++ rest) eq_refl) as Hs.
    cbn [app] in Hs. rewrite Hs. apply split_take_app. simpl. lia.
  - change (match split_take 2 (le_bytes 2 (Z.of_nat (length data)) ++ data ++ rest) with
      | Some (l, s) => split_take (Z.to_nat (of_le l)) s | None => None end = Some (data, rest)).
    rewrite split_take_app, (of_le_le_bytes_id 2 16) by (done || unfold uint; lia).
    apply split_take_app. lia.
  - change (match split_take 4 (le_bytes 4 (Z.of_nat (length data)) ++ data ++ rest) with
      | Some (l, s) => split_take (Z.to_nat (of_le l)) s | None => None end = Some (data, rest)).
    rewrite split_take_app, (of_le_le_bytes_id 4 32) by (done || unfold uint; lia).
    apply split_take_app. lia.
Qed.

Lemma length_scriptnum_bytes fuel n : (length (scriptnum_bytes fuel n) <= fuel)%nat.
Proof. revert n; induction fuel; intros; simpl; [lia|]. case_match; simpl; [|lia]. apply le_n_S, IHfuel. Qed.

Lemma length_scriptnum_encode n : (length (scriptnum_encode n) <= 9)%nat.
Proof.
  unfold scriptnum_encode. destruct (n =? 0); [simpl; lia|].
  pose proof (length_scriptnum_bytes 8 (Z.abs n)) as Hl. revert Hl.
  generalize (scriptnum_bytes 8 (Z.abs n)). intros l Hl. cbv zeta.
  destruct (negb _); [|destruct (n <? 0)]; rewrite ?length_app; cbn [length]; try lia.
  rewrite removelast_firstn_len, length_firstn. lia.
Qed.

Lemma read_push_int n rest :
  - 2 ^ 63 <= n < 2 ^ 63 ->
  exists d, read_push (push_int [] n ++ rest) = Some (d, rest) /\ scriptnum_decode d = n.
Proof.
  intros Hn. unfold push_int.
  destruct (Z.eqb_spec n 0) as [->|]; [by exists []|].
  destruct (Z.eqb_spec n (-1)) as [->|]; [by exists [0x81]|].
  destruct (Z.leb_spec 1 n), (Z.leb_spec n 16); simpl andb; cbv iota.
  1: { exists [n]. assert (Hc : n ∈ (Z.of_nat <$> seq 1 16)).
       { apply list_elem_of_fmap. exists (Z.to_nat n). rewrite elem_of_seq. lia. }
       revert Hc. clear. simpl. intros Hc.
       repeat (apply elem_of_cons in Hc as [->|Hc]; [done|]). by apply elem_of_nil in Hc. }
  all: exists (scriptnum_encode n); split; [|by apply scriptnum_roundtrip_base];
    apply read_push_slice; pose proof (length_scriptnum_encode n); unfold uint; lia.
Qed.

(** The script builder is read back by an interpreter: a data push of
    any 32-bit length yields its data, and an integer push yields bytes that
    decode as the integer, for every [i64] (the sign bit and the extra byte of
    CScriptNum included). *)
Theorem pushes_read_back rest :
  (forall data, u32 (Z.of_nat (length data)) ->
     read_push (push_slice [] data ++ rest) = Some (data, rest)) /\
  (forall n, - 2 ^ 63 <= n < 2 ^ 63 ->
     exists d, read_push (push_int [] n ++ rest) = Some (d, rest) /\ scriptnum_decode d = n).
Proof. split; intros; [by apply read_push_slice|by apply read_push_int]. Qed.

Lemma pushes_read_back_witness :
  read_push (push_slice [] (replicate 80 5) ++ [1]) = Some (replicate 80 5, [1]) /\
  exists d, read_push (push_int [] (-200) ++ [1]) = Some (d, [1]) /\ scriptnum_decode d = -200.
Proof.
  split.
  - apply (proj1 (pushes_read_back [1])). by apply (bool_decide_unpack _).
  - apply (proj2 (pushes_read_back [1])). lia.
Defined.

(** ** The templates are what the recognisers accept *)
Lemma p2wsh_recognised w : is_p2wsh (new_p2wsh w) = true /\ is_witness_program (new_p2wsh w) = true.
Proof.
  unfold new_p2wsh, is_p2wsh, is_witness_program.
  assert (length ([OP_0; 32] ++ sha256 w) = 34%nat) as -> by
    (rewrite length_app, length_sha256; done). done.
Qed.

Lemma p2wpkh_recognised h : length h = 20%nat ->
  is_p2wpkh (new_p2wpkh h) = true /\ is_witness_program (new_p2wpkh h) = true /\
  p2wpkh_script_code (new_p2wpkh h) =
    Some ([OP_DUP; OP_HASH160; 20] ++ h ++ [OP_EQUALVERIFY; OP_CHECKSIG]).
Proof.
  intros Hh. assert (Hl : length (new_p2wpkh h) = 22%nat) by (simpl; lia).
  assert (Hp : is_p2wpkh (new_p2wpkh h) = true) by (unfold is_p2wpkh; by rewrite Hl).
  split; [done|]. unfold is_witness_program, p2wpkh_script_code. rewrite Hl, Hp.
  split; [done|]. simpl negb. cbv iota. change (drop 2 (new_p2wpkh h)) with h.
  by rewrite (take_ge h) by lia.
Qed.

(** [is_witness_program] is BIP-141's definition: a version opcode, then one
    direct push of 2 to 40 bytes and nothing else. *)
Lemma is_witness_program_spec s :
  is_witness_program s = true <->
  exists v prog, s = v :: Z.of_nat (length prog) :: prog /\
    (v = OP_0 \/ OP_1 <= v <= OP_16) /\ (2 <= length prog <= 40)%nat.
Proof.
  unfold is_witness_program. split.
  - destruct s as [|v [|n prog]]; [done|done|].
    change ((v :: n :: prog) !!! 0%nat) with v. change ((v :: n :: prog) !!! 1%nat) with n.
    cbn [length]. case_match eqn:Hc; [done|]. cbv zeta. intros H.
    apply orb_false_iff in Hc as [H1 H2]. apply Nat.ltb_ge in H1, H2.
    rewrite !andb_true_iff, orb_true_iff, andb_true_iff, !Z.leb_le, !Z.eqb_eq in H.
    destruct H as [[Hv [H3 H4]] H5]. exists v, prog.
    replace n with (Z.of_nat (length prog)) by lia. split; [done|]. split; [lia|lia].
  - intros (v & prog & -> & Hv & Hp). cbn [length].
    rewrite (proj2 (Nat.ltb_ge _ _)), (proj2 (Nat.ltb_ge _ _)) by lia. simpl orb. cbv iota zeta.
    change ((v :: Z.of_nat (length prog) :: prog) !!! 0%nat) with v.
    change ((v :: Z.of_nat (length prog) :: prog) !!! 1%nat) with (Z.of_nat (length prog)).
    rewrite !andb_true_iff, orb_true_iff, andb_true_iff, !Z.leb_le, !Z.eqb_eq. lia.
Qed.
