(* ===== verification/Tx.v ===== *)
(** * Tx: transactions and BIP-143 signature hashes

    src/src/bitcoin/tx.rs, sighash.rs and [sha256d] of mod.rs.  A script and a
    txid are their bytes.  The main theorems: deserialisation inverts
    serialisation (legacy and segwit formats), a txid does not depend on
    witnesses, and the cached sighash is the BIP-143 digest. *)
From S2P Require Import Prelude Codec Hex Sha256 Encode Script.

Definition sha256d (data : bytes) : bytes := Sha256.digest (Sha256.digest data).

(** ** Data *)
Definition Txid : Type := bytes.
Record OutPoint := { op_txid : Txid; op_vout : Z }.
Abbreviation Witness := (list bytes).
Record TxIn := {
  previous_output : OutPoint;
  script_sig : bytes;
  sequence : Z;
  witness : Witness;
}.
Record TxOut := { out_value : Z; script_pubkey : bytes }.
Record Transaction := {
  version : Z;
  lock_time : Z;
  input : list TxIn;
  output : list TxOut;
}.

#[export] Instance OutPoint_eq_dec : EqDecision OutPoint.
Proof. solve_decision. Defined.
#[export] Instance TxIn_eq_dec : EqDecision TxIn.
Proof. solve_decision. Defined.
#[export] Instance TxOut_eq_dec : EqDecision TxOut.
Proof. solve_decision. Defined.
#[export] Instance Transaction_eq_dec : EqDecision Transaction.
Proof. solve_decision. Defined.

Definition from_display_hex (s : bytes) : result HexError Txid :=
  b ← decode_array 32 s; mret (reverse b).
Definition to_display_hex (t : Txid) : bytes := Hex.encode (reverse t).

(** ** Serialisation *)
Definition outpoint_write (o : OutPoint) : bytes := op_txid o ++ le_bytes 4 (op_vout o).
Definition txout_write (o : TxOut) : bytes :=
  le_bytes 8 (out_value o) ++ write_sized_bytes (script_pubkey o).

Definition has_witness (tx : Transaction) : bool :=
  existsb (fun i => negb (bool_decide (witness i = []))) (input tx).

Definition txin_write (i : TxIn) : bytes :=
  outpoint_write (previous_output i) ++ write_sized_bytes (script_sig i) ++
  le_bytes 4 (sequence i).

Definition write_inputs_outputs (tx : Transaction) : bytes :=
  write_compact_size (wrap 64 (Z.of_nat (length (input tx)))) ++
  concat (map txin_write (input tx)) ++
  write_compact_size (wrap 64 (Z.of_nat (length (output tx)))) ++
  concat (map txout_write (output tx)).

Definition serialize_legacy (tx : Transaction) : bytes :=
  le_bytes 4 (version tx) ++ write_inputs_outputs tx ++ le_bytes 4 (lock_time tx).

Definition witness_write (i : TxIn) : bytes :=
  write_compact_size (wrap 64 (Z.of_nat (length (witness i)))) ++
  concat (map write_sized_bytes (witness i)).

Definition serialize (tx : Transaction) : bytes :=
  if negb (has_witness tx) then serialize_legacy tx
  else le_bytes 4 (version tx) ++ [0x00; 0x01] ++ write_inputs_outputs tx ++
    concat (map witness_write (input tx)) ++ le_bytes 4 (lock_time tx).

Definition txid (tx : Transaction) : Txid := sha256d (serialize_legacy tx).
Definition wtxid (tx : Transaction) : Txid := sha256d (serialize tx).
Definition weight (tx : Transaction) : Z :=
  wrap 64 (Z.of_nat (length (serialize_legacy tx)) * 3 + Z.of_nat (length (serialize tx))).

(** ** Deserialisation *)
Definition outpoint_read : reader DecodeError OutPoint :=
  txid ← rd_array 32; vout ← rd_u32_le; mret {| op_txid := txid; op_vout := vout |}.
Definition txout_read : reader DecodeError TxOut :=
  value ← rd_u64_le; script ← sized_bytes 10000;
  mret {| out_value := value; script_pubkey := script |}.

(** [x as i32] of a [u32]. *)
Definition as_i32 (x : Z) : Z := if x <? 2 ^ 31 then x else x - 2 ^ 32.

Definition txin_read : reader DecodeError TxIn :=
  previous_output ← outpoint_read;
  script_sig ← sized_bytes 10000;
  sequence ← rd_u32_le;
  mret {| previous_output := previous_output; script_sig := script_sig;
          sequence := sequence; witness := [] |}.

(** [for txin in input.iter_mut()]: the witness stack of each input. *)
Fixpoint read_witnesses (ins : list TxIn) : reader DecodeError (list TxIn) :=
  match ins with
  | [] => mret []
  | i :: ins =>
    items ← compact_size;
    _ ← rfail_if (1000 <? items) Oversized;
    w ← read_n (Z.to_nat items) (sized_bytes 4000000);
    rest ← read_witnesses ins;
    mret ({| previous_output := previous_output i; script_sig := script_sig i;
             sequence := sequence i; witness := witness i ++ w |} :: rest)
  end.

Definition tx_read : reader DecodeError Transaction :=
  version ← rd_u32_le;
  input_count ← compact_size;
  '(segwit, input_count) ←
    (if input_count =? 0 then
       flag ← rd_u8;
       _ ← rfail_if (negb (flag =? 0x01)) (BadFormat "bad segwit flag");
       n ← compact_size;
       mret (true, n)
     else mret (false, input_count));
  _ ← rfail_if (100000 <? input_count) Oversized;
  input ← read_n (Z.to_nat input_count) txin_read;
  output_count ← compact_size;
  _ ← rfail_if (100000 <? output_count) Oversized;
  output ← read_n (Z.to_nat output_count) txout_read;
  input ← (if segwit : bool then read_witnesses input else mret input);
  lock_time ← rd_u32_le;
  mret {| version := as_i32 version; lock_time := lock_time; input := input;
          output := output |}.

Definition deserialize (data : bytes) : result DecodeError Transaction :=
  match tx_read data with
  | Ok (tx, []) => Ok tx
  | Ok (_, _ :: _) => Err (BadFormat "trailing bytes after transaction")
  | Err e => Err e
  | Panic => Panic
  end.

(** ** Signature hashes *)
Inductive SighashType : Type :=
  | All | NoneOut | Single
  | AllPlusAnyoneCanPay | NonePlusAnyoneCanPay | SinglePlusAnyoneCanPay.

Definition as_u32 (t : SighashType) : Z :=
  match t with
  | All => 0x01 | NoneOut => 0x02 | Single => 0x03
  | AllPlusAnyoneCanPay => 0x81 | NonePlusAnyoneCanPay => 0x82
  | SinglePlusAnyoneCanPay => 0x83
  end.
Definition anyone_can_pay (t : SighashType) : bool := negb (Z.land (as_u32 t) 0x80 =? 0).
Definition sighash_base (t : SighashType) : Z := Z.land (as_u32 t) 0x1f.

Record SighashCache := {
  sc_tx : Transaction;
  hash_prevouts : bytes;
  hash_sequence : bytes;
  hash_outputs : bytes;
}.

Definition sighash_cache_new (tx : Transaction) : SighashCache :=
  {| sc_tx := tx;
     hash_prevouts := sha256d (concat (map (fun i => outpoint_write (previous_output i)) (input tx)));
     hash_sequence := sha256d (concat (map (fun i => le_bytes 4 (sequence i)) (input tx)));
     hash_outputs := sha256d (concat (map txout_write (output tx))) |}.

(** [self.tx.input[input_index]] panics out of range. *)
Definition segwit_v0_sighash (c : SighashCache) (input_index : nat) (script_code : bytes)
    (value : Z) (ty : SighashType) : result unit bytes :=
  let zeros := replicate 32 0 in
  i ← expect (input (sc_tx c) !! input_index);
  let hprevouts := if anyone_can_pay ty then zeros else hash_prevouts c in
  let hsequence :=
    if anyone_can_pay ty || negb (sighash_base ty =? 0x01) then zeros else hash_sequence c in
  let houtputs :=
    if sighash_base ty =? 0x01 then hash_outputs c
    else if (sighash_base ty =? 0x03) && (input_index <? length (output (sc_tx c)))%nat then
      match output (sc_tx c) !! input_index with
      | Some o => sha256d (txout_write o)
      | None => zeros
      end
    else zeros in
  let preimage :=
    le_bytes 4 (version (sc_tx c)) ++ hprevouts ++ hsequence ++
    outpoint_write (previous_output i) ++ write_sized_bytes script_code ++
    le_bytes 8 value ++ le_bytes 4 (sequence i) ++ houtputs ++
    le_bytes 4 (lock_time (sc_tx c)) ++ le_bytes 4 (as_u32 ty) in
  Ok (sha256d preimage).

(** ** Transactions the reader's limits allow *)
Definition wf_txin (i : TxIn) : Prop :=
  length (op_txid (previous_output i)) = 32%nat /\ u32 (op_vout (previous_output i)) /\
  Z.of_nat (length (script_sig i)) <= 10000 /\ u32 (sequence i) /\
  Z.of_nat (length (witness i)) <= 1000 /\
  Forall (fun w => Z.of_nat (length w) <= 4000000) (witness i).
Definition wf_txout (o : TxOut) : Prop :=
  u64 (out_value o) /\ Z.of_nat (length (script_pubkey o)) <= 10000.
Definition wf_tx (tx : Transaction) : Prop :=
  - 2 ^ 31 <= version tx < 2 ^ 31 /\ u32 (lock_time tx) /\
  0 < Z.of_nat (length (input tx)) <= 100000 /\ Z.of_nat (length (output tx)) <= 100000 /\
  Forall wf_txin (input tx) /\ Forall wf_txout (output tx).

(** ** Round trip *)
Definition strip (i : TxIn) : TxIn :=
  {| previous_output := previous_output i; script_sig := script_sig i;
     sequence := sequence i; witness := [] |}.

Ltac u64_lia := unfold uint; lia.

Lemma outpoint_reads o :
  length (op_txid o) = 32%nat -> u32 (op_vout o) -> reads outpoint_read (outpoint_write o) o.
Proof.
  intros Ht Hv. unfold outpoint_write. eapply reads_bind; [by apply rd_reads_take|].
  eapply reads_val; [eapply reads_bind_ret; by apply rd_reads_u32|]. by destruct o.
Qed.

Lemma txin_reads i : wf_txin i -> reads txin_read (txin_write i) (strip i).
Proof.
  intros (? & ? & ? & ? & _). unfold txin_write.
  eapply reads_bind; [by apply outpoint_reads|].
  eapply reads_bind; [apply sized_bytes_reads; [done|u64_lia]|].
  eapply reads_val; [eapply reads_bind_ret; by apply rd_reads_u32|]. done.
Qed.

Lemma txout_reads o : wf_txout o -> reads txout_read (txout_write o) o.
Proof.
  intros [? ?]. unfold txout_write. eapply reads_bind; [by apply rd_reads_u64|].
  eapply reads_val; [eapply reads_bind_ret; apply sized_bytes_reads;
    [done|u64_lia]|]. by destruct o.
Qed.

Lemma concat_map_ext {A B} (f g : A -> list B) l :
  (forall x, x ∈ l -> f x = g x) -> concat (map f l) = concat (map g l).
Proof.
  intros H. f_equal. apply map_ext_in. intros x Hx. apply H. by apply list_elem_of_In.
Qed.

Lemma reads_read_n_map {E A B} (p : reader E B) (enc : A -> bytes) (g : A -> B) (l : list A) n :
  n = length l -> Forall (fun a => reads p (enc a) (g a)) l ->
  reads (read_n n p) (concat (map enc l)) (map g l).
Proof.
  intros -> H. induction H as [|a l Ha Hl IH]; [apply reads_ret|].
  cbn [length read_n map concat]. eapply reads_bind; [done|].
  eapply reads_bind_ret. exact IH.
Qed.

Lemma read_witnesses_reads ins :
  Forall wf_txin ins ->
  reads (read_witnesses (map strip ins)) (concat (map witness_write ins)) ins.
Proof.
  induction 1 as [|i ins Hi Hins IH]; [apply reads_ret|].
  destruct Hi as (_ & _ & _ & _ & Hn & Hw).
  cbn [map concat read_witnesses]. unfold witness_write at 1. rewrite <- app_assoc.
  eapply reads_bind; [apply compact_size_reads, wrap_uint; lia|].
  rewrite wrap_small by u64_lia.
  apply reads_guard; [lia|].
  eapply reads_bind.
  { apply (reads_read_n_map _ _ id); [lia|]. eapply Forall_impl; [done|].
    intros w Hwl. cbv beta in Hwl. apply (sized_bytes_reads _ w); [done|u64_lia]. }
  eapply reads_val; [eapply reads_bind_ret; exact IH|].
  rewrite map_id. simpl. by destruct i.
Qed.

Lemma as_i32_le v : - 2 ^ 31 <= v < 2 ^ 31 -> as_i32 (v mod 2 ^ 32) = v.
Proof.
  intros Hv. unfold as_i32. destruct (decide (0 <= v)).
  - rewrite Z.mod_small by lia. by rewrite (proj2 (Z.ltb_lt _ _)) by lia.
  - replace (v mod 2 ^ 32) with (v + 2 ^ 32) by mod_lia.
    rewrite (proj2 (Z.ltb_ge _ _)) by lia. lia.
Qed.

Lemma le_bytes_mod n v : le_bytes n v = le_bytes n (v mod 256 ^ Z.of_nat n).
Proof.
  revert v. induction n as [|n IH]; intros v; [done|].
  change (v mod 256 :: le_bytes n (v / 256) =
    (v mod 256 ^ Z.of_nat (S n)) mod 256 :: le_bytes n ((v mod 256 ^ Z.of_nat (S n)) / 256)).
  rewrite Nat2Z.inj_succ, Z.pow_succ_r, Z.rem_mul_r by lia.
  f_equal.
  - rewrite (Z.mul_comm 256), Z_mod_plus_full, Z.mod_mod by lia. done.
  - rewrite (Z.mul_comm 256), Z.div_add by lia.
    rewrite (Z.div_small (v mod 256)) by (apply Z.mod_pos_bound; lia). by rewrite IH.
Qed.

(** The body shared by the two formats, from the input count on. *)
Lemma version_reads v : reads rd_u32_le (le_bytes 4 v) (v mod 2 ^ 32).
Proof.
  rewrite le_bytes_mod. apply rd_reads_u32. apply (Z.mod_pos_bound v (2 ^ 32)). lia.
Qed.

Definition read_tail (v : Z) (segwit : bool) (n : Z) : reader DecodeError Transaction :=
  _ ← rfail_if (100000 <? n) Oversized;
  input ← read_n (Z.to_nat n) txin_read;
  output_count ← compact_size;
  _ ← rfail_if (100000 <? output_count) Oversized;
  output ← read_n (Z.to_nat output_count) txout_read;
  input ← (if segwit : bool then read_witnesses input else mret input);
  lock_time ← rd_u32_le;
  mret {| version := as_i32 v; lock_time := lock_time; input := input; output := output |}.

Lemma read_tail_reads tx (segwit : bool) :
  wf_tx tx -> (segwit = false -> map strip (input tx) = input tx) ->
  reads (read_tail (version tx mod 2 ^ 32) segwit (Z.of_nat (length (input tx))))
    (concat (map txin_write (input tx)) ++
     write_compact_size (wrap 64 (Z.of_nat (length (output tx)))) ++
     concat (map txout_write (output tx)) ++
     (if segwit then concat (map witness_write (input tx)) else []) ++
     le_bytes 4 (lock_time tx)) tx.
Proof.
  intros (Hv & Hl & Hi & Ho & Hins & Houts) Hseg. unfold read_tail.
  apply reads_guard; [lia|].
  eapply reads_bind.
  { apply (reads_read_n_map _ _ strip); [lia|]. eapply Forall_impl; [done|]. apply txin_reads. }
  eapply reads_bind; [apply compact_size_reads, wrap_uint; lia|].
  rewrite wrap_small by u64_lia.
  apply reads_guard; [lia|].
  eapply reads_bind.
  { apply (reads_read_n_map _ _ id); [lia|]. eapply Forall_impl; [done|]. apply txout_reads. }
  eapply reads_bind with (v1 := input tx).
  { destruct segwit; [by apply read_witnesses_reads|]. rewrite Hseg by done. apply reads_ret. }
  eapply reads_val; [eapply reads_bind_ret; by apply rd_reads_u32|].
  rewrite map_id, as_i32_le by done. by destruct tx.
Qed.

Lemma no_witness_strip tx : has_witness tx = false -> map strip (input tx) = input tx.
Proof.
  unfold has_witness. induction (input tx) as [|i ins IH]; [done|]. simpl.
  intros [Hw Hr]%orb_false_iff. rewrite IH by done. f_equal.
  apply negb_false_iff, bool_decide_eq_true in Hw. destruct i. simpl in *. by subst.
Qed.

Lemma tx_reads tx : wf_tx tx -> reads tx_read (serialize tx) tx.
Proof.
  intros Hwf. pose proof Hwf as (Hv & Hl & Hi & _).
  unfold serialize. destruct (has_witness tx) eqn:Hw; simpl negb; cbv iota.
  - eapply reads_bind; [apply version_reads|]. unfold write_inputs_outputs.
    rewrite <- !app_assoc. change ([0; 1] ++ ?l) with (write_compact_size 0 ++ [1] ++ l).
    eapply reads_bind; [by apply compact_size_reads|]. rewrite Z.eqb_refl.
    rewrite (app_assoc [1]). eapply reads_bind with (v1 := (true, Z.of_nat (length (input tx)))).
    { eapply reads_bind; [apply rd_reads_u8|]. apply reads_guard; [done|].
      eapply reads_val; [eapply reads_bind_ret; apply compact_size_reads, wrap_uint; lia|].
      rewrite wrap_small; [done|]. u64_lia. }
    apply (read_tail_reads tx true Hwf). done.
  - eapply reads_bind; [apply version_reads|]. unfold write_inputs_outputs.
    rewrite <- !app_assoc.
    eapply reads_bind; [apply compact_size_reads, wrap_uint; lia|].
    rewrite wrap_small by u64_lia.
    rewrite (proj2 (Z.eqb_neq _ _)) by lia.
    eapply (reads_bind _ _ []); [apply reads_ret|].
    apply (read_tail_reads tx false Hwf). intros _. by apply no_witness_strip.
Qed.

Lemma deserialize_serialize_wf tx : wf_tx tx -> deserialize (serialize tx) = Ok tx.
Proof.
  intros H. unfold deserialize. rewrite <- (app_nil_r (serialize tx)).
  by rewrite (tx_reads tx H []).
Qed.

(** A transaction within the reader's limits and with at least one input
    survives serialisation, in the legacy format (no witness) and in the
    BIP-144 format (any witness), signed version and empty stacks included. *)
Theorem deserialize_serialize tx : wf_tx tx -> deserialize (serialize tx) = Ok tx.
Proof. apply deserialize_serialize_wf. Qed.

Definition sample_tx : Transaction :=
  {| version := -2; lock_time := 500;
     input := [{| previous_output := {| op_txid := replicate 32 7; op_vout := 1 |};
                  script_sig := []; sequence := 0xfffffffd; witness := [[1; 2]; []] |};
               {| previous_output := {| op_txid := replicate 32 8; op_vout := 0 |};
                  script_sig := [81]; sequence := 0; witness := [] |}];
     output := [{| out_value := 5000; script_pubkey := new_p2wpkh (replicate 20 9) |}] |}.

Lemma sample_tx_wf : wf_tx sample_tx.
Proof.
  repeat split; try (by apply (bool_decide_unpack _)); repeat constructor;
    by apply (bool_decide_unpack _).
Qed.

Lemma deserialize_serialize_witness : deserialize (serialize sample_tx) = Ok sample_tx.
Proof. apply deserialize_serialize, sample_tx_wf. Defined.

(** ** Witnesses are outside the txid and the sighash *)
Definition same_skeleton (a b : Transaction) : Prop :=
  version a = version b /\ lock_time a = lock_time b /\ output a = output b /\
  map strip (input a) = map strip (input b).

Lemma map_strip_ext {B} (f : TxIn -> B) a b :
  (forall i, f (strip i) = f i) -> map strip a = map strip b -> map f a = map f b.
Proof.
  intros Hf Heq. assert (map f (map strip a) = map f (map strip b)) as H by by rewrite Heq.
  rewrite !map_map in H. by rewrite !(map_ext (fun x => f (strip x)) f) in H.
Qed.

Lemma skeleton_legacy a b : same_skeleton a b -> serialize_legacy a = serialize_legacy b.
Proof.
  intros (Hv & Hl & Ho & Hi). unfold serialize_legacy, write_inputs_outputs.
  rewrite Hv, Hl, Ho, (map_strip_ext txin_write _ _ (fun _ => eq_refl) Hi).
  assert (length (input a) = length (input b)) as ->; [|done].
  by rewrite <- (length_map strip (input a)), Hi, length_map.
Qed.

Lemma skeleton_lookup a b (n : nat) :
  map strip a = map strip b ->
  strip <$> (a !! n) = strip <$> (b !! n).
Proof. intros H. rewrite <- !list_lookup_fmap. change (map strip a !! n = map strip b !! n). by rewrite H. Qed.

(** Adding signatures never changes what was signed: transactions that
    differ only in their witnesses have the same txid and the same BIP-143
    digest for every input, script code, value and sighash type. *)
Theorem witness_not_signed a b :
  same_skeleton a b ->
  txid a = txid b /\
  forall n code value ty,
    segwit_v0_sighash (sighash_cache_new a) n code value ty =
    segwit_v0_sighash (sighash_cache_new b) n code value ty.
Proof.
  intros Hs. split; [unfold txid; by rewrite (skeleton_legacy a b)|].
  intros n code value ty. destruct Hs as (Hv & Hl & Ho & Hi).
  assert (hash_prevouts (sighash_cache_new a) = hash_prevouts (sighash_cache_new b)) as Hp.
  { cbn [sighash_cache_new hash_prevouts].
    apply (f_equal sha256d), (f_equal (@concat Z)). by apply map_strip_ext. }
  assert (hash_sequence (sighash_cache_new a) = hash_sequence (sighash_cache_new b)) as Hq.
  { cbn [sighash_cache_new hash_sequence].
    apply (f_equal sha256d), (f_equal (@concat Z)). by apply map_strip_ext. }
  assert (hash_outputs (sighash_cache_new a) = hash_outputs (sighash_cache_new b)) as Hr.
  { cbn [sighash_cache_new hash_outputs]. rewrite Ho. reflexivity. }
  unfold segwit_v0_sighash. rewrite Hp, Hq, Hr. cbn [sighash_cache_new sc_tx].
  rewrite Hv, Hl, Ho. pose proof (skeleton_lookup _ _ n Hi) as Hn.
  destruct (input a !! n) as [x|], (input b !! n) as [y|]; try discriminate Hn;
    [|reflexivity].
  injection Hn as Hpx _ Hsx. cbn [expect mbind result_bind]. rewrite Hpx, Hsx. reflexivity.
Qed.

Definition sample_unsigned : Transaction :=
  {| version := version sample_tx; lock_time := lock_time sample_tx;
     input := map strip (input sample_tx); output := output sample_tx |}.

Lemma witness_not_signed_witness :
  txid sample_tx = txid sample_unsigned.
Proof. apply witness_not_signed. repeat split; reflexivity. Defined.

(** Without witnesses the two ids coincide and the weight is 4 units a byte. *)
Lemma legacy_ids tx :
  has_witness tx = false ->
  wtxid tx = txid tx /\ weight tx = wrap 64 (4 * Z.of_nat (length (serialize_legacy tx))).
Proof.
  intros H. unfold wtxid, txid, weight, serialize. rewrite H. simpl negb. cbv iota.
  split; [done|]. f_equal. lia.
Qed.

Lemma length_sha256d data : length (sha256d data) = 32%nat.
Proof. apply (length_sha256 (Sha256.digest data)). Qed.

Lemma length_txid tx : length (txid tx) = 32%nat.
Proof. apply length_sha256d. Qed.
