(* ===== verification/Graph.v ===== *)
(** * Graph: validated gossip (src/src/graph/mod.rs)

    The public network graph: channels from signed announcements, one policy
    per direction from signed updates, and the adjacency lists the router
    follows.  The two maps of the code are [gmap]s, the one keyed by public
    keys under their serialization. *)
From stdpp Require Import gmap.
From S2P Require Import Prelude Secp Types Msgs Tx.

Inductive GossipError : Type := BadSignature | UnknownChannel | WrongChain | Ignored.

Record DirectionalInfo : Type := {
  timestamp : Z;
  enabled : bool;
  cltv_expiry_delta : Z;
  htlc_minimum_msat : Z;
  htlc_maximum_msat : Z;
  fee_base_msat : Z;
  fee_proportional_millionths : Z;
}.

(** [base + amount * ppm / 1_000_000], each operation at [u64]. *)
Definition fee_for (d : DirectionalInfo) (amount : Z) : Z :=
  wrap 64 (fee_base_msat d + wrap 64 (amount * fee_proportional_millionths d) / 1_000_000).

Section graph.
Context `{S : Secp}.

Record ChannelInfo : Type := {
  node_1 : PublicKey;
  node_2 : PublicKey;
  capacity_sat : option Z;
  one_to_two : option DirectionalInfo;
  two_to_one : option DirectionalInfo;
}.

Record NodeInfo : Type := {
  last_timestamp : Z;
  alias : bytes;
  node_channels : list Z;
}.

Record NetworkGraph : Type := {
  g_chain_hash : bytes;
  channels : gmap Z ChannelInfo;
  nodes : gmap bytes NodeInfo;
}.

#[export] Instance channel_info_eta : Eta ChannelInfo := fun c =>
  {| node_1 := node_1 c; node_2 := node_2 c; capacity_sat := capacity_sat c;
     one_to_two := one_to_two c; two_to_one := two_to_one c |}.
#[export] Instance node_info_eta : Eta NodeInfo := fun n =>
  {| last_timestamp := last_timestamp n; alias := alias n; node_channels := node_channels n |}.
#[export] Instance graph_eta : Eta NetworkGraph := fun g =>
  {| g_chain_hash := g_chain_hash g; channels := channels g; nodes := nodes g |}.

Definition default_node : NodeInfo :=
  {| last_timestamp := 0; alias := replicate 32 0; node_channels := [] |}.

Definition new (network : Network) : NetworkGraph :=
  {| g_chain_hash := chain_hash network; channels := ∅; nodes := ∅ |}.

Definition channel (g : NetworkGraph) (scid : Z) : option ChannelInfo := channels g !! scid.
Definition node (g : NetworkGraph) (id : PublicKey) : option NodeInfo := nodes g !! pk_serialize id.
Definition channel_count (g : NetworkGraph) : nat := size (channels g).

(** [entry(node).or_default().channels.push(scid)]. *)
Definition push_channel (scid : Z) (nodes : gmap bytes NodeInfo) (id : PublicKey) : gmap bytes NodeInfo :=
  let n := default default_node (nodes !! pk_serialize id) in
  <[pk_serialize id := n <| node_channels := node_channels n ++ [scid] |>]> nodes.

Definition announcement_verifies (msg : ChannelAnnouncement) : bool :=
  let hash := sha256d (channel_announcement_payload msg) in
  verify_ecdsa hash (ca_node_signature_1 msg) (ca_node_id_1 msg)
  && verify_ecdsa hash (ca_node_signature_2 msg) (ca_node_id_2 msg)
  && verify_ecdsa hash (ca_bitcoin_signature_1 msg) (ca_bitcoin_key_1 msg)
  && verify_ecdsa hash (ca_bitcoin_signature_2 msg) (ca_bitcoin_key_2 msg).

Definition ids_ordered (msg : ChannelAnnouncement) : bool :=
  match bytes_cmp (pk_serialize (ca_node_id_1 msg)) (pk_serialize (ca_node_id_2 msg)) with
  | Lt => true | _ => false
  end.

Definition apply_channel_announcement (g : NetworkGraph) (msg : ChannelAnnouncement)
    (capacity : option Z) : result GossipError NetworkGraph :=
  let scid := ca_short_channel_id msg in
  _ ← fail_if (negb (bool_decide (ca_chain_hash msg = g_chain_hash g))) WrongChain;
  _ ← fail_if (bool_decide (is_Some (channels g !! scid))) Ignored;
  _ ← fail_if (negb (ids_ordered msg)) BadSignature;
  _ ← fail_if (negb (announcement_verifies msg)) BadSignature;
  Ok (g <| channels := <[scid :=
            {| node_1 := ca_node_id_1 msg; node_2 := ca_node_id_2 msg; capacity_sat := capacity;
               one_to_two := None; two_to_one := None |}]> (channels g) |>
        <| nodes := push_channel scid (push_channel scid (nodes g) (ca_node_id_1 msg)) (ca_node_id_2 msg) |>).

Definition from_node_1 (msg : ChannelUpdate) : bool := Z.land (cu_channel_flags msg) 1 =? 0.

(** The end of the channel that must have signed. *)
Definition update_signer (c : ChannelInfo) (msg : ChannelUpdate) : PublicKey :=
  if from_node_1 msg then node_1 c else node_2 c.
Definition update_verifies (c : ChannelInfo) (msg : ChannelUpdate) : bool :=
  verify_ecdsa (sha256d (channel_update_payload msg)) (cu_signature msg) (update_signer c msg).

Definition update_policy (msg : ChannelUpdate) : DirectionalInfo :=
  {| timestamp := cu_timestamp msg;
     enabled := Z.land (cu_channel_flags msg) 2 =? 0;
     cltv_expiry_delta := cu_cltv_expiry_delta msg;
     htlc_minimum_msat := cu_htlc_minimum_msat msg;
     htlc_maximum_msat := cu_htlc_maximum_msat msg;
     fee_base_msat := cu_fee_base_msat msg;
     fee_proportional_millionths := cu_fee_proportional_millionths msg |}.

(** One direction of a channel, read and written. *)
Definition slot (c : ChannelInfo) (one : bool) : option DirectionalInfo :=
  if one then one_to_two c else two_to_one c.
Definition set_slot (c : ChannelInfo) (one : bool) (d : DirectionalInfo) : ChannelInfo :=
  if one then c <| one_to_two := Some d |> else c <| two_to_one := Some d |>.

Definition apply_channel_update (g : NetworkGraph) (msg : ChannelUpdate)
    : result GossipError NetworkGraph :=
  _ ← fail_if (negb (bool_decide (cu_chain_hash msg = g_chain_hash g))) WrongChain;
  chan ← ok_or (channels g !! cu_short_channel_id msg) UnknownChannel;
  _ ← fail_if (negb (update_verifies chan msg)) BadSignature;
  _ ← fail_if (match slot chan (from_node_1 msg) with
               | Some existing => cu_timestamp msg <=? timestamp existing
               | None => false
               end) Ignored;
  Ok (g <| channels := <[cu_short_channel_id msg :=
             set_slot chan (from_node_1 msg) (update_policy msg)]> (channels g) |>).

Definition node_announcement_verifies (msg : NodeAnnouncement) : bool :=
  verify_ecdsa (sha256d (node_announcement_payload msg)) (na_signature msg) (na_node_id msg).

Definition apply_node_announcement (g : NetworkGraph) (msg : NodeAnnouncement)
    : result GossipError NetworkGraph :=
  _ ← fail_if (negb (node_announcement_verifies msg)) BadSignature;
  n ← ok_or (node g (na_node_id msg)) UnknownChannel;
  _ ← fail_if (na_timestamp msg <=? last_timestamp n) Ignored;
  Ok (g <| nodes := <[pk_serialize (na_node_id msg) :=
             n <| last_timestamp := na_timestamp msg |> <| alias := na_alias msg |>]> (nodes g) |>).

(** The items of [edges_into]: channel, source node, policy, capacity. *)
Definition GraphEdge : Type := Z * PublicKey * DirectionalInfo * option Z.

Definition edge_into (g : NetworkGraph) (to : PublicKey) (scid : Z) : option GraphEdge :=
  chan ← channels g !! scid;
  '(from, policy) ←
    (if decide (node_1 chan = to)
     then policy ← two_to_one chan; Some (node_2 chan, policy)
     else policy ← one_to_two chan; Some (node_1 chan, policy));
  if enabled policy then Some (scid, from, policy, capacity_sat chan) else None.

Definition edges_into (g : NetworkGraph) (to : PublicKey) : list GraphEdge :=
  match node g to with
  | Some n => omap (edge_into g to) (node_channels n)
  | None => []
  end.

(** ** A stream of gossip *)
Inductive Gossip : Type :=
  | GChannel (msg : ChannelAnnouncement) (capacity : option Z)
  | GUpdate (msg : ChannelUpdate)
  | GNode (msg : NodeAnnouncement).

Definition apply (g : NetworkGraph) (m : Gossip) : result GossipError NetworkGraph :=
  match m with
  | GChannel msg capacity => apply_channel_announcement g msg capacity
  | GUpdate msg => apply_channel_update g msg
  | GNode msg => apply_node_announcement g msg
  end.

(** A rejected message leaves the graph as it is. *)
Definition receive (g : NetworkGraph) (m : Gossip) : NetworkGraph :=
  match apply g m with Ok g' => g' | _ => g end.
Definition receive_all (g : NetworkGraph) (ms : list Gossip) : NetworkGraph := foldl receive g ms.

(** ** What each message does *)
Lemma announcement_Ok g msg cap g' : apply_channel_announcement g msg cap = Ok g' <->
  (ca_chain_hash msg = g_chain_hash g /\ channels g !! ca_short_channel_id msg = None /\
   ids_ordered msg = true /\ announcement_verifies msg = true) /\
  g' = (g <| channels := <[ca_short_channel_id msg :=
            {| node_1 := ca_node_id_1 msg; node_2 := ca_node_id_2 msg; capacity_sat := cap;
               one_to_two := None; two_to_one := None |}]> (channels g) |>
          <| nodes := push_channel (ca_short_channel_id msg)
               (push_channel (ca_short_channel_id msg) (nodes g) (ca_node_id_1 msg)) (ca_node_id_2 msg) |>).
Proof.
  unfold apply_channel_announcement. split.
  - intros H. apply bind_Ok in H as (? & H1%fail_if_Ok & H).
    apply bind_Ok in H as (? & H2%fail_if_Ok & H). apply bind_Ok in H as (? & H3%fail_if_Ok & H).
    apply bind_Ok in H as (? & H4%fail_if_Ok & H). apply Ok_inj in H. rewrite H.
    apply negb_false_iff, bool_decide_eq_true in H1. apply bool_decide_eq_false, eq_None_not_Some in H2.
    apply negb_false_iff in H3, H4. done.
  - intros [(H1 & H2 & H3 & H4) ->]. rewrite (bool_decide_true (ca_chain_hash msg = _)) by exact H1. cbn [negb fail_if mbind result_bind].
    rewrite bool_decide_false by (by apply eq_None_not_Some). cbn [fail_if mbind result_bind].
    by rewrite H3, H4.
Qed.

Definition newer (o : option DirectionalInfo) (ts : Z) : Prop :=
  match o with Some d => timestamp d < ts | None => True end.

Lemma update_Ok g msg g' : apply_channel_update g msg = Ok g' <->
  exists c, (cu_chain_hash msg = g_chain_hash g /\ channels g !! cu_short_channel_id msg = Some c /\
    update_verifies c msg = true /\ newer (slot c (from_node_1 msg)) (cu_timestamp msg)) /\
  g' = (g <| channels := <[cu_short_channel_id msg :=
             set_slot c (from_node_1 msg) (update_policy msg)]> (channels g) |>).
Proof.
  unfold apply_channel_update. split.
  - intros H. apply bind_Ok in H as (? & H1%fail_if_Ok & H).
    apply bind_Ok in H as (c & H2%ok_or_Ok & H). apply bind_Ok in H as (? & H3%fail_if_Ok & H).
    apply bind_Ok in H as (? & H4%fail_if_Ok & H). apply Ok_inj in H. rewrite <- H. exists c.
    apply negb_false_iff, bool_decide_eq_true in H1. apply negb_false_iff in H3.
    split_and!; try done. destruct (slot c (from_node_1 msg)); [|done]. by apply Z.leb_gt in H4.
  - intros (c & (H1 & H2 & H3 & H4) & ->). rewrite bool_decide_true, H2 by done.
    cbn [negb fail_if ok_or mbind result_bind]. rewrite H3. cbn [negb fail_if mbind result_bind].
    destruct (slot c (from_node_1 msg)); [|done]. cbn in H4. by rewrite (proj2 (Z.leb_gt _ _)).
Qed.

Lemma node_announcement_Ok g msg g' : apply_node_announcement g msg = Ok g' <->
  exists n, (node_announcement_verifies msg = true /\ nodes g !! pk_serialize (na_node_id msg) = Some n /\
    last_timestamp n < na_timestamp msg) /\
  g' = (g <| nodes := <[pk_serialize (na_node_id msg) :=
             n <| last_timestamp := na_timestamp msg |> <| alias := na_alias msg |>]> (nodes g) |>).
Proof.
  unfold apply_node_announcement, node. split.
  - intros H. apply bind_Ok in H as (? & H1%fail_if_Ok & H).
    apply bind_Ok in H as (n & H2%ok_or_Ok & H). apply bind_Ok in H as (? & H3%fail_if_Ok & H).
    apply Ok_inj in H. rewrite <- H. exists n. apply negb_false_iff in H1. apply Z.leb_gt in H3. done.
  - intros (n & (H1 & H2 & H3) & ->). rewrite H1, H2. cbn [negb fail_if ok_or mbind result_bind].
    by rewrite (proj2 (Z.leb_gt _ _)).
Qed.

(** [set_slot] changes its own direction only. *)
Lemma slot_set_slot c one d one' :
  slot (set_slot c one d) one' = if Bool.eqb one one' then Some d else slot c one'.
Proof. by destruct one, one'. Qed.
Lemma set_slot_ends c one d :
  node_1 (set_slot c one d) = node_1 c /\ node_2 (set_slot c one d) = node_2 c /\
  capacity_sat (set_slot c one d) = capacity_sat c.
Proof. by destruct one. Qed.

(** ** The adjacency invariant *)
Definition listed (nodes : gmap bytes NodeInfo) (k : bytes) : list Z :=
  match nodes !! k with Some n => node_channels n | None => [] end.

Record graph_ok (g : NetworkGraph) : Prop := {
  ends_ordered : forall scid c, channels g !! scid = Some c ->
    bytes_cmp (pk_serialize (node_1 c)) (pk_serialize (node_2 c)) = Lt;
  ends_listed : forall scid c k, channels g !! scid = Some c ->
    k = pk_serialize (node_1 c) \/ k = pk_serialize (node_2 c) -> scid ∈ listed (nodes g) k;
  listed_ends : forall scid k, scid ∈ listed (nodes g) k -> exists c,
    channels g !! scid = Some c /\ (k = pk_serialize (node_1 c) \/ k = pk_serialize (node_2 c));
  listed_once : forall k, NoDup (listed (nodes g) k);
}.

Lemma listed_push scid nodes id k : listed (push_channel scid nodes id) k =
  if decide (k = pk_serialize id) then listed nodes k ++ [scid] else listed nodes k.
Proof.
  unfold listed, push_channel. destruct (decide (k = pk_serialize id)) as [->|Hne].
  - rewrite lookup_insert_eq. by destruct (nodes !! pk_serialize id).
  - by rewrite lookup_insert_ne.
Qed.

Lemma new_graph_ok net : graph_ok (new net).
Proof.
  split; unfold listed; cbn; intros *; rewrite ?lookup_empty; try done.
  - by intros ?%not_elem_of_nil.
  - apply NoDup_nil_2.
Qed.

(** Messages other than announcements keep ends and lists. *)
Lemma graph_ok_frame g g' : graph_ok g ->
  (forall k, listed (nodes g') k = listed (nodes g) k) ->
  (forall scid, option_map (fun c => (node_1 c, node_2 c)) (channels g' !! scid) =
                option_map (fun c => (node_1 c, node_2 c)) (channels g !! scid)) ->
  graph_ok g'.
Proof.
  intros [H1 H2 H3 H4] Hl Hc.
  assert (Hback : forall scid c', channels g' !! scid = Some c' -> exists c,
    channels g !! scid = Some c /\ node_1 c = node_1 c' /\ node_2 c = node_2 c').
  { intros scid c' E. specialize (Hc scid). rewrite E in Hc. destruct (channels g !! scid) as [c|]; [|done].
    cbn in Hc. injection Hc as -> ->. by exists c. }
  split.
  - intros scid c' (c & E & <- & <-)%Hback. by eapply H1.
  - intros scid c' k (c & E & <- & <-)%Hback. rewrite Hl. by eapply H2.
  - intros scid k. rewrite Hl. intros (c & E & Hk)%H3. specialize (Hc scid). rewrite E in Hc.
    destruct (channels g' !! scid) as [c'|]; [|done]. cbn in Hc. injection Hc as E1 E2. exists c'. by rewrite E1, E2.
  - intros k. by rewrite Hl.
Qed.

Lemma announcement_graph_ok g msg cap g' :
  graph_ok g -> apply_channel_announcement g msg cap = Ok g' -> graph_ok g'.
Proof.
  intros [H1 H2 H3 H4] [(_ & Hnew & Hord & _) ->]%announcement_Ok. unfold ids_ordered in Hord.
  destruct (bytes_cmp _ _) eqn:Ecmp; try done. set (scid := ca_short_channel_id msg) in *.
  assert (Hne : pk_serialize (ca_node_id_1 msg) <> pk_serialize (ca_node_id_2 msg)).
  { intros E. assert (bytes_cmp (pk_serialize (ca_node_id_1 msg)) (pk_serialize (ca_node_id_2 msg)) = Eq)
      by (by apply bytes_cmp_eq). congruence. }
  assert (Hfresh : forall k, scid ∉ listed (nodes g) k).
  { intros k (c & E & _)%H3. congruence. }
  split; unfold upd; cbn -[listed push_channel].
  - intros s c [[<- <-]|[_ E]]%lookup_insert_Some; [done|by eapply H1].
  - intros s c k Hs Hk. rewrite !listed_push.
    apply lookup_insert_Some in Hs as [[<- <-]|[Hns E]]; cbn in Hk.
    + destruct Hk as [->| ->].
      * rewrite (decide_False (P := _ = _)), decide_True by done. set_solver.
      * rewrite decide_True by done. set_solver.
    + assert (s ∈ listed (nodes g) k) by (by eapply H2). repeat case_decide; set_solver.
  - intros s k. rewrite !listed_push. intros Hin.
    assert (s ∈ listed (nodes g) k \/ s = scid /\ (k = pk_serialize (ca_node_id_1 msg) \/
      k = pk_serialize (ca_node_id_2 msg))) as [Hold|[-> Hk]] by (repeat case_decide; set_solver).
    + destruct (H3 _ _ Hold) as (c & E & Hk). exists c. split; [|done].
      rewrite lookup_insert_ne; [done|]. intros ->. congruence.
    + eexists. by rewrite lookup_insert_eq.
  - intros k. rewrite !listed_push. specialize (H4 k). specialize (Hfresh k).
    destruct (decide (k = pk_serialize (ca_node_id_2 msg))) as [->|];
      [rewrite decide_False by done|case_decide; [|done]];
      (apply NoDup_app; split_and!; [done|set_solver|apply NoDup_singleton]).
Qed.

Lemma apply_graph_ok g m g' : graph_ok g -> apply g m = Ok g' -> graph_ok g'.
Proof.
  intros H. destruct m as [msg cap|msg|msg]; cbn [apply].
  - by apply announcement_graph_ok.
  - intros (c & (_ & E & _ & _) & ->)%update_Ok. apply (graph_ok_frame g); [done|done|].
    intros scid. unfold upd. cbn -[set_slot]. destruct (decide (scid = cu_short_channel_id msg)) as [->|Hne].
    + rewrite lookup_insert_eq, E. unfold option_map.
      by destruct (set_slot_ends c (from_node_1 msg) (update_policy msg)) as (-> & -> & _).
    + by rewrite lookup_insert_ne.
  - intros (n & (_ & E & _) & ->)%node_announcement_Ok. apply (graph_ok_frame g); [done| |done].
    intros k. unfold listed, upd. cbn. destruct (decide (k = pk_serialize (na_node_id msg))) as [->|Hne].
    + by rewrite lookup_insert_eq, E.
    + by rewrite lookup_insert_ne.
Qed.

Lemma receive_all_graph_ok g ms : graph_ok g -> graph_ok (receive_all g ms).
Proof.
  revert g; induction ms as [|m ms IH]; intros g H; [done|]. cbn. apply IH. unfold receive.
  destruct (apply g m) eqn:E; [by eapply apply_graph_ok|done..].
Qed.

(** ** Where the contents come from *)

(** What a message may do to one channel: nothing, announce it, or replace
    one policy by a newer one its end has signed. *)
Lemma receive_channel g m scid c' : channels (receive g m) !! scid = Some c' ->
  channels g !! scid = Some c' \/
  (exists msg cap, m = GChannel msg cap /\ ca_short_channel_id msg = scid /\
    announcement_verifies msg = true /\ channels g !! scid = None /\
    c' = {| node_1 := ca_node_id_1 msg; node_2 := ca_node_id_2 msg; capacity_sat := cap;
            one_to_two := None; two_to_one := None |}) \/
  (exists msg c, m = GUpdate msg /\ cu_short_channel_id msg = scid /\ channels g !! scid = Some c /\
    update_verifies c msg = true /\ newer (slot c (from_node_1 msg)) (cu_timestamp msg) /\
    c' = set_slot c (from_node_1 msg) (update_policy msg)).
Proof.
  unfold receive. destruct (apply g m) as [g'|e|] eqn:E; [|by auto..].
  destruct m as [msg cap|msg|msg]; cbn [apply] in E.
  - apply announcement_Ok in E as [(_ & Hnew & _ & Hv) ->]. unfold upd. cbn.
    intros [[<- <-]|[_ E]]%lookup_insert_Some; [right; left|by left]. by eexists _, _.
  - apply update_Ok in E as (c & (_ & Hc & Hv & Hn) & ->). unfold upd. cbn -[set_slot].
    intros [[<- <-]|[_ E]]%lookup_insert_Some; [right; right|by left]. by eexists _, _.
  - apply node_announcement_Ok in E as (n & _ & ->). by left.
Qed.

(** A known channel stays known, its ends fixed, its time stamps growing. *)
Definition later (o o' : option DirectionalInfo) : Prop :=
  match o with Some d => exists d', o' = Some d' /\ timestamp d <= timestamp d' | None => True end.
Definition evolves (c c' : ChannelInfo) : Prop :=
  node_1 c' = node_1 c /\ node_2 c' = node_2 c /\ capacity_sat c' = capacity_sat c /\
  forall one, later (slot c one) (slot c' one).

Lemma later_refl o : later o o.
Proof. destruct o as [d|]; [|done]. exists d. split; [done|lia]. Qed.

#[export] Instance evolves_preorder : PreOrder evolves.
Proof.
  split.
  - intros c. repeat split. intros one. apply later_refl.
  - intros c1 c2 c3 (A1 & B1 & C1 & D1) (A2 & B2 & C2 & D2). split_and!; try congruence.
    intros one. specialize (D1 one). specialize (D2 one). unfold later in *.
    destruct (slot c1 one) as [d1|]; [|done]. destruct D1 as (d2 & E2 & L2). rewrite E2 in D2.
    destruct D2 as (d3 & E3 & L3). exists d3. split; [done|lia].
Qed.

Lemma set_slot_evolves c one d : newer (slot c one) (timestamp d) -> evolves c (set_slot c one d).
Proof.
  intros Hn. destruct (set_slot_ends c one d) as (H1 & H2 & H3). split_and!; try done.
  intros one'. rewrite slot_set_slot. destruct (Bool.eqb one one') eqn:Eb; [|apply later_refl].
  apply eqb_prop in Eb as <-. unfold later, newer in *. destruct (slot c one) as [d0|]; [|done].
  exists d. split; [done|lia].
Qed.

Lemma receive_evolves g m scid c : channels g !! scid = Some c ->
  exists c', channels (receive g m) !! scid = Some c' /\ evolves c c'.
Proof.
  intros Hc. unfold receive. destruct (apply g m) as [g'|e|] eqn:E; [|by exists c..].
  destruct m as [msg cap|msg|msg]; cbn [apply] in E.
  - apply announcement_Ok in E as [(_ & Hnew & _ & Hv) ->]. unfold upd. cbn.
    exists c. rewrite lookup_insert_ne; [done|congruence].
  - apply update_Ok in E as (c0 & (_ & Hc0 & Hv & Hn) & ->). unfold upd. cbn -[set_slot].
    destruct (decide (cu_short_channel_id msg = scid)) as [<-|Hne].
    + rewrite lookup_insert_eq. eexists. split; [done|]. assert (c0 = c) as -> by congruence.
      by apply set_slot_evolves.
    + rewrite lookup_insert_ne by done. by exists c.
  - apply node_announcement_Ok in E as (n & _ & ->). by exists c.
Qed.

Lemma receive_all_evolves g ms scid c : channels g !! scid = Some c ->
  exists c', channels (receive_all g ms) !! scid = Some c' /\ evolves c c'.
Proof.
  revert g c; induction ms as [|m ms IH]; intros g c Hc; [by exists c|].
  destruct (receive_evolves g m scid c Hc) as (c1 & H1 & E1).
  destruct (IH _ _ H1) as (c2 & H2 & E2). exists c2. split; [done|]. by etrans.
Qed.

Lemma receive_chain_hash g m : g_chain_hash (receive g m) = g_chain_hash g.
Proof.
  unfold receive. destruct (apply g m) as [g'|e|] eqn:E; [|done..].
  destruct m as [msg cap|msg|msg]; cbn [apply] in E.
  - by apply announcement_Ok in E as [_ ->].
  - by apply update_Ok in E as (c & _ & ->).
  - by apply node_announcement_Ok in E as (n & _ & ->).
Qed.

(** Whose signatures stand behind a channel and its policies. *)
Definition announced (ms : list Gossip) (scid : Z) (c : ChannelInfo) : Prop :=
  exists msg cap, GChannel msg cap ∈ ms /\ ca_short_channel_id msg = scid /\
    announcement_verifies msg = true /\
    node_1 c = ca_node_id_1 msg /\ node_2 c = ca_node_id_2 msg /\ capacity_sat c = cap.
Definition signed (ms : list Gossip) (scid : Z) (c : ChannelInfo) (one : bool) (d : DirectionalInfo) : Prop :=
  exists msg, GUpdate msg ∈ ms /\ cu_short_channel_id msg = scid /\
    from_node_1 msg = one /\ update_verifies c msg = true /\ d = update_policy msg.

Lemma update_verifies_ends c c' msg : node_1 c' = node_1 c -> node_2 c' = node_2 c ->
  update_verifies c' msg = update_verifies c msg.
Proof. intros H1 H2. unfold update_verifies, update_signer. by rewrite H1, H2. Qed.

Definition authentic (ms : list Gossip) (g : NetworkGraph) : Prop :=
  forall scid c, channels g !! scid = Some c -> announced ms scid c /\
    forall one d, slot c one = Some d -> signed ms scid c one d.

Lemma authentic_receive ms g m : authentic ms g -> authentic (ms ++ [m]) (receive g m).
Proof.
  intros H scid c'. assert (Hmono : forall c, channels g !! scid = Some c -> announced (ms ++ [m]) scid c /\
    forall one d, slot c one = Some d -> signed (ms ++ [m]) scid c one d).
  { intros c Hc. destruct (H scid c Hc) as [(msg & cap & Hin & Ha) Hs]. split.
    - exists msg, cap. split; [set_solver|done].
    - intros one d (msg' & Hin' & Hs')%Hs. exists msg'. split; [set_solver|done]. }
  intros [Hc|[(msg & cap & -> & Hid & Hv & _ & ->)|(msg & c & -> & Hid & Hc & Hv & _ & ->)]]%receive_channel.
  - by apply Hmono.
  - split; [|by intros []]. exists msg, cap. split; [set_solver|done].
  - destruct (Hmono c Hc) as [(msg0 & cap & Hin & H1 & H2 & H3 & H4 & H5) Hs].
    destruct (set_slot_ends c (from_node_1 msg) (update_policy msg)) as (E1 & E2 & E3). split.
    { exists msg0, cap. rewrite E1, E2, E3. done. }
    intros one d. rewrite slot_set_slot. destruct (Bool.eqb _ one) eqn:Eb.
    + intros [= <-]. apply eqb_prop in Eb. exists msg. rewrite (update_verifies_ends _ _ _ E1 E2).
      split; [set_solver|done].
    + intros (msg' & Hin' & A & B & C & D)%Hs. exists msg'. rewrite (update_verifies_ends _ _ _ E1 E2). done.
Qed.

Lemma receive_all_authentic ms0 g ms : authentic ms0 g -> authentic (ms0 ++ ms) (receive_all g ms).
Proof.
  revert ms0 g; induction ms as [|m ms IH]; intros ms0 g H; [by rewrite app_nil_r|].
  rewrite cons_middle, app_assoc. apply IH. by apply authentic_receive.
Qed.

(** A verified update for a known channel is in the graph, or beaten. *)
Lemma receive_update g msg c : cu_chain_hash msg = g_chain_hash g ->
  channels g !! cu_short_channel_id msg = Some c -> update_verifies c msg = true ->
  exists c1 d, channels (receive g (GUpdate msg)) !! cu_short_channel_id msg = Some c1 /\
    slot c1 (from_node_1 msg) = Some d /\ cu_timestamp msg <= timestamp d.
Proof.
  intros Hch Hc Hv. unfold receive. cbn [apply].
  assert (newer (slot c (from_node_1 msg)) (cu_timestamp msg) \/
    exists d, slot c (from_node_1 msg) = Some d /\ cu_timestamp msg <= timestamp d) as [Hn|(d & Hd & Hle)].
  { destruct (slot c (from_node_1 msg)) as [d|]; [|by left]. cbn.
    destruct (Z.lt_ge_cases (timestamp d) (cu_timestamp msg)); [by left|right; by exists d]. }
  - erewrite (proj2 (update_Ok g msg _)) by (exists c; split; [done|reflexivity]).
    unfold upd at 1. cbn -[set_slot]. rewrite lookup_insert_eq. eexists _, _. split; [done|].
    rewrite slot_set_slot, eqb_reflx. split; [done|]. cbn. lia.
  - exists c, d. destruct (apply_channel_update g msg) as [g'| |] eqn:E; [|done..].
    apply update_Ok in E as (c0 & (_ & Hc0 & _ & Hn) & ->). assert (c0 = c) as -> by congruence.
    rewrite Hd in Hn. cbn in Hn. lia.
Qed.

Lemma receive_all_newest g ms msg c :
  GUpdate msg ∈ ms -> cu_chain_hash msg = g_chain_hash g ->
  channels g !! cu_short_channel_id msg = Some c -> update_verifies c msg = true ->
  exists c' d, channels (receive_all g ms) !! cu_short_channel_id msg = Some c' /\
    slot c' (from_node_1 msg) = Some d /\ cu_timestamp msg <= timestamp d.
Proof.
  intros Hin. revert g c. induction ms as [|m ms IH]; intros g c Hch Hc Hv; [by apply not_elem_of_nil in Hin|].
  apply elem_of_cons in Hin as [<-|Hin].
  - destruct (receive_update g msg c Hch Hc Hv) as (c1 & d & H1 & Hd & Hle).
    destruct (receive_all_evolves _ ms _ _ H1) as (c2 & H2 & (_ & _ & _ & Hl)).
    specialize (Hl (from_node_1 msg)). rewrite Hd in Hl. destruct Hl as (d2 & Hd2 & Hle2).
    exists c2, d2. split_and!; [done|done|lia].
  - destruct (receive_evolves g m _ _ Hc) as (c1 & H1 & (E1 & E2 & _)).
    apply (IH Hin (receive g m) c1); [by rewrite receive_chain_hash|done|].
    by rewrite (update_verifies_ends _ _ _ E1 E2).
Qed.

(** [C29] Everything in the graph is signed, and the newest policy wins
    whatever the order of arrival.  After any stream of gossip: every stored
    channel comes from an announcement of the stream whose four signatures
    verify; every stored policy from an update of the stream signed by the
    end it belongs to; and a signed update for a channel announced earlier
    in the stream is stored or beaten by one at least as new. *)
Theorem gossip_authentic net ms1 ms2 scid c :
  channels (receive_all (new net) (ms1 ++ ms2)) !! scid = Some c ->
  announced (ms1 ++ ms2) scid c /\
  (forall one d, slot c one = Some d -> signed (ms1 ++ ms2) scid c one d) /\
  (is_Some (channels (receive_all (new net) ms1) !! scid) ->
   forall msg, GUpdate msg ∈ ms2 -> cu_short_channel_id msg = scid ->
     cu_chain_hash msg = chain_hash net -> update_verifies c msg = true ->
     exists d, slot c (from_node_1 msg) = Some d /\ cu_timestamp msg <= timestamp d).
Proof.
  intros Hc. assert (Ha : authentic [] (new net)) by (intros s c0; cbn; by rewrite lookup_empty).
  apply (receive_all_authentic [] _ (ms1 ++ ms2)) in Ha. cbn [app] in Ha.
  destruct (Ha scid c Hc) as [H1 H2]. split_and!; [done|done|].
  intros [c1 Hc1] msg Hin <- Hch Hv. unfold receive_all in Hc. rewrite foldl_app in Hc.
  destruct (receive_all_evolves _ ms2 _ _ Hc1) as (c2 & Hc2 & (E1 & E2 & _)).
  unfold receive_all in Hc2. assert (c2 = c) as -> by congruence.
  destruct (receive_all_newest (receive_all (new net) ms1) ms2 msg c1 Hin) as (c' & d & Hc' & Hd & Hle).
  - clear -Hch. rewrite Hch. assert (E : forall g : NetworkGraph, g_chain_hash (receive_all g ms1) = g_chain_hash g).
    { induction ms1 as [|m ms IH]; intros g; [done|]. cbn. unfold receive_all in IH.
      by rewrite IH, receive_chain_hash. }
    by rewrite E.
  - done.
  - by rewrite <- (update_verifies_ends _ _ _ E1 E2).
  - exists d. unfold receive_all in Hc'. assert (c' = c) as -> by congruence. done.
Qed.

(** ** Edges *)
Context {L : SecpLaws S}.

Lemma pk_serialize_inj a b : pk_serialize a = pk_serialize b -> a = b.
Proof. intros H. apply (f_equal pk_from_slice) in H. rewrite !pk_from_serialize in H. by injection H. Qed.

(** The edges a channel gives into one of its ends. *)
Definition channel_edge (g : NetworkGraph) (to from : PublicKey) (scid : Z) (d : DirectionalInfo)
    (cap : option Z) : Prop :=
  exists c, channels g !! scid = Some c /\ capacity_sat c = cap /\ enabled d = true /\
    ((to = node_1 c /\ from = node_2 c /\ two_to_one c = Some d) \/
     (to = node_2 c /\ from = node_1 c /\ one_to_two c = Some d)).

Lemma edges_into_iff g to from scid d cap : graph_ok g ->
  (scid, from, d, cap) ∈ edges_into g to <-> channel_edge g to from scid d cap.
Proof.
  intros [H1 H2 H3 H4]. unfold edges_into, node, channel_edge.
  specialize (H2 scid). specialize (H3 scid (pk_serialize to)). unfold listed in *. split.
  - destruct (nodes g !! pk_serialize to) as [n|]; [|by intros ?%not_elem_of_nil].
    rewrite list_elem_of_omap. intros (s & Hs & He). unfold edge_into in He.
    destruct (channels g !! s) as [c|] eqn:Ec; [|done]. cbn in He.
    destruct (decide (node_1 c = to)) as [<-|Hne]; cbn in He.
    + destruct (two_to_one c) as [d'|] eqn:Ed; [|done]. cbn in He. destruct (enabled d') eqn:Een; [|done].
      injection He as -> <- -> <-. exists c. split_and!; try done. left. done.
    + destruct (one_to_two c) as [d'|] eqn:Ed; [|done]. cbn in He. destruct (enabled d') eqn:Een; [|done].
      injection He as -> <- -> <-. exists c. split_and!; try done. right.
      destruct (H3 Hs) as (c' & Ec' & Hk). assert (c' = c) as -> by congruence.
      destruct Hk as [Hk|Hk]; apply pk_serialize_inj in Hk; [congruence|done].
  - intros (c & Ec & Hcap & Hen & Hends).
    assert (Hin : scid ∈ match nodes g !! pk_serialize to with Some n => node_channels n | None => [] end).
    { apply (H2 c); [done|]. destruct Hends as [[-> _]|[-> _]]; auto. }
    destruct (nodes g !! pk_serialize to) as [n|]; [|by apply not_elem_of_nil in Hin].
    rewrite list_elem_of_omap. exists scid. split; [done|]. unfold edge_into. rewrite Ec. cbn.
    assert (Hne : node_1 c <> node_2 c).
    { intros E. specialize (H1 scid c Ec). rewrite E in H1.
      assert (bytes_cmp (pk_serialize (node_2 c)) (pk_serialize (node_2 c)) = Eq) by (by apply bytes_cmp_eq).
      congruence. }
    destruct Hends as [(-> & -> & ->)|(-> & -> & ->)].
    + rewrite decide_True by done. cbn. by rewrite Hen, Hcap.
    + rewrite decide_False by done. cbn. by rewrite Hen, Hcap.
Qed.

(** The router sees exactly the enabled directions: after any gossip,
    [edges_into] lists (once each) the channels of a node whose other end
    announced an enabled policy, with that policy. *)
Theorem edges_into_exact net ms to from scid d cap :
  let g := receive_all (new net) ms in
  ((scid, from, d, cap) ∈ edges_into g to <-> channel_edge g to from scid d cap) /\
  NoDup (map (fun e => e.1.1.1) (edges_into g to)).
Proof.
  intros g. assert (Hok : graph_ok g) by apply receive_all_graph_ok, new_graph_ok.
  split; [by apply edges_into_iff|].
  pose proof (listed_once g Hok (pk_serialize to)) as Hnd. unfold edges_into, node, listed in *.
  destruct (nodes g !! pk_serialize to) as [n|]; [|apply NoDup_nil_2].
  clear -Hnd. induction Hnd as [|s l Hs _ IH]; [apply NoDup_nil_2|]. cbn.
  destruct (edge_into g to s) as [e|] eqn:E; [|done]. cbn. apply NoDup_cons. split; [|done].
  assert (Hsc : forall s e, edge_into g to s = Some e -> e.1.1.1 = s).
  { clear. intros s e. unfold edge_into. destruct (channels g !! s) as [c|]; [|done]. cbn.
    case_decide; [destruct (two_to_one c) as [d|]|destruct (one_to_two c) as [d|]]; cbn; try done;
      (destruct (enabled d); [|done]; by intros [= <-]). }
  rewrite (Hsc _ _ E). rewrite list_elem_of_fmap. intros (e' & -> & He').
  apply list_elem_of_omap in He' as (s' & Hs' & He'). apply Hsc in He'. congruence.
Qed.
End graph.

(** ** A sample channel *)
Section sample.
Context `{S : Secp} {L : SecpLaws S}.

Definition unsigned_announcement net scid (sk1 sk2 : SecretKey) sig1 sig2 : ChannelAnnouncement :=
  {| ca_node_signature_1 := sig1; ca_node_signature_2 := sig2;
     ca_bitcoin_signature_1 := sig1; ca_bitcoin_signature_2 := sig2; ca_features := [];
     ca_chain_hash := chain_hash net; ca_short_channel_id := scid;
     ca_node_id_1 := sk_public_key sk1; ca_node_id_2 := sk_public_key sk2;
     ca_bitcoin_key_1 := sk_public_key sk1; ca_bitcoin_key_2 := sk_public_key sk2 |}.
Definition sample_announcement net scid sk1 sk2 : ChannelAnnouncement :=
  let sig0 := sign_ecdsa [] sk1 in
  let hash := sha256d (channel_announcement_payload (unsigned_announcement net scid sk1 sk2 sig0 sig0)) in
  unsigned_announcement net scid sk1 sk2 (sign_ecdsa hash sk1) (sign_ecdsa hash sk2).

Lemma sample_announcement_verifies net scid sk1 sk2 :
  announcement_verifies (sample_announcement net scid sk1 sk2) = true.
Proof.
  unfold announcement_verifies, sample_announcement.
  set (sig0 := sign_ecdsa [] sk1).
  set (h := sha256d (channel_announcement_payload (unsigned_announcement net scid sk1 sk2 sig0 sig0))).
  change (sha256d (channel_announcement_payload (unsigned_announcement net scid sk1 sk2 _ _))) with h.
  unfold unsigned_announcement. cbn [ca_node_signature_1 ca_node_signature_2
    ca_bitcoin_signature_1 ca_bitcoin_signature_2 ca_node_id_1 ca_node_id_2 ca_bitcoin_key_1 ca_bitcoin_key_2].
  rewrite !verify_sign. reflexivity.
Qed.

Definition unsigned_update net scid ts sig : ChannelUpdate :=
  {| cu_signature := sig; cu_chain_hash := chain_hash net;
     cu_short_channel_id := scid; cu_timestamp := ts; cu_message_flags := 1; cu_channel_flags := 0;
     cu_cltv_expiry_delta := 40; cu_htlc_minimum_msat := 1; cu_fee_base_msat := 1000;
     cu_fee_proportional_millionths := 100; cu_htlc_maximum_msat := 10000000000 |}.
Definition sample_update net scid ts sk : ChannelUpdate :=
  unsigned_update net scid ts (sign_ecdsa (sha256d (channel_update_payload
    (unsigned_update net scid ts (sign_ecdsa [] sk)))) sk).

Lemma sample_update_verifies net scid ts sk c : node_1 c = sk_public_key sk ->
  update_verifies c (sample_update net scid ts sk) = true.
Proof.
  intros Hn. unfold update_verifies, update_signer.
  change (from_node_1 (sample_update net scid ts sk)) with true. cbv iota. rewrite Hn.
  unfold sample_update.
  set (h := sha256d (channel_update_payload (unsigned_update net scid ts (sign_ecdsa [] sk)))).
  change (sha256d (channel_update_payload (unsigned_update net scid ts _))) with h.
  apply verify_sign.
Qed.
End sample.

(** A channel between the toy nodes 1 and 2, then an update of node 1. *)
Definition sample_scid : Z := 109951162843136.
Definition sample_msg : ChannelAnnouncement (HS := toy_secp) :=
  sample_announcement Regtest sample_scid (toy_of 1) (toy_of 2).
Definition sample_gossip1 : list (Gossip (S := toy_secp)) :=
  [GChannel sample_msg (Some 1000000)].
Definition sample_gossip2 : list (Gossip (S := toy_secp)) :=
  [GUpdate (sample_update Regtest sample_scid 100 (toy_of 1))].

Lemma sample_channel : exists c, channels (receive_all (new Regtest) sample_gossip1) !! sample_scid = Some c /\
  node_1 c = toy_of 1.
Proof.
  unfold receive_all, sample_gossip1. cbn [foldl]. unfold receive. cbn [apply].
  pose proof (sample_announcement_verifies (S := toy_secp) Regtest sample_scid (toy_of 1) (toy_of 2)) as Hv.
  fold sample_msg in Hv.
  assert (Hord : ids_ordered sample_msg = true).
  { unfold ids_ordered, sample_msg, sample_announcement, unsigned_announcement. cbn [ca_node_id_1 ca_node_id_2].
    vm_compute. reflexivity. }
  assert (Hid : ca_short_channel_id sample_msg = sample_scid) by reflexivity.
  assert (Hn : ca_node_id_1 sample_msg = toy_of 1) by reflexivity.
  assert (Hch : ca_chain_hash sample_msg = chain_hash Regtest) by reflexivity.
  revert Hv Hord Hid Hn Hch. generalize sample_msg.
  intros m Hv Hord Hid Hn Hch.
  erewrite (proj2 (announcement_Ok _ _ _ _)).
  2: { split; [|reflexivity]. split; [exact Hch|]. split; [apply lookup_empty|]. by split. }
  unfold upd. cbn [channels]. eexists. rewrite Hid. split; [apply lookup_insert_eq|]. exact Hn.
Qed.

Lemma gossip_authentic_witness : exists c,
  announced (sample_gossip1 ++ sample_gossip2) sample_scid c /\
  exists d, slot c true = Some d /\ 100 <= timestamp d.
Proof.
  destruct sample_channel as (c1 & H1 & Hn).
  destruct (receive_all_evolves _ sample_gossip2 _ _ H1) as (c & Hc & (E1 & _)).
  unfold receive_all in Hc. rewrite <- foldl_app in Hc. exists c.
  destruct (gossip_authentic Regtest sample_gossip1 sample_gossip2 sample_scid c Hc) as (Ha & _ & Hn').
  split; [exact Ha|].
  apply (Hn' (ex_intro _ c1 H1) (sample_update (S := toy_secp) Regtest sample_scid 100 (toy_of 1)));
    [apply elem_of_cons; left; reflexivity|reflexivity|reflexivity|].
  apply sample_update_verifies. rewrite E1. exact Hn.
Defined.

Lemma edges_into_exact_witness :
  let g := receive_all (new Regtest) (sample_gossip1 ++ sample_gossip2) in
  (forall from d cap, channel_edge g (toy_of 2) from sample_scid d cap ->
     (sample_scid, from, d, cap) ∈ edges_into g (toy_of 2)) /\
  NoDup (map (fun e => e.1.1.1) (edges_into g (toy_of 2))).
Proof.
  intros g. split; [intros from d cap H|].
  - by apply (edges_into_exact Regtest (sample_gossip1 ++ sample_gossip2)).
  - apply (edges_into_exact Regtest (sample_gossip1 ++ sample_gossip2) (toy_of 2)
      (toy_of 2 : PublicKey (Secp := toy_secp)) 0 {| timestamp := 0; cltv_expiry_delta := 0;
        htlc_minimum_msat := 0; htlc_maximum_msat := 0; fee_base_msat := 0;
        fee_proportional_millionths := 0; enabled := true |} None).
Defined.
