(* ===== verification/Display.v ===== *)
(** * Display: texts, log records and fixed feerates

    What the newtypes of src/src/types.rs print and parse, the texts of the
    errors that carry no character, the loggers of src/src/util/logger.rs and
    the fee interface of src/src/chain/mod.rs. *)
From S2P Require Import Prelude Hex Types Text Ser Aead Noise Onion Graph.

(** ** The byte-array newtypes *)
Section Newtype.
Context (LEN : nat).
Definition from_hex (s : bytes) : result HexError bytes := decode_array LEN s.
Definition to_hex (b : bytes) : bytes := Hex.encode b.
Definition newtype_display (b : bytes) : bytes := to_hex b.
Definition newtype_debug (name b : bytes) : bytes := name ++ str "(" ++ to_hex b ++ str ")".

(** An identifier is read back from what it prints. *)
Lemma from_hex_display b : bytes_ok b -> length b = LEN -> from_hex (newtype_display b) = Ok b.
Proof.
  intros Hb Hl. unfold from_hex, newtype_display, to_hex, decode_array, Hex.decode.
  rewrite encode_even, Nat.mul_comm, Nat.Div0.mod_mul. cbn [Nat.eqb negb fail_if mbind result_bind].
  rewrite decode_pairs_encode by done. cbn [mbind result_bind]. by rewrite Hl, Nat.eqb_refl.
Qed.
End Newtype.

(** ** Amounts and short channel ids *)
Definition msat_display (m : Z) : bytes := dec m ++ str "msat".
Definition scid_display (s : Z) : bytes :=
  dec (scid_block s) ++ str "x" ++ dec (scid_tx_index s) ++ str "x" ++ dec (scid_vout s).

(** Digits end at the first byte that is none. *)
Lemma digits_cut a a' b b' :
  forallb is_ascii_digit a = true -> forallb is_ascii_digit a' = true ->
  a ++ 120 :: b = a' ++ 120 :: b' -> a = a' /\ b = b'.
Proof.
  revert a'. induction a as [|x a IH]; intros [|x' a'] Ha Ha' E; cbn in Ha, Ha'.
  - by injection E as ->.
  - injection E as <- _. by rewrite andb_false_l in Ha'.
  - injection E as -> _. by rewrite andb_false_l in Ha.
  - injection E as -> E. apply andb_true_iff in Ha as [_ Ha], Ha' as [_ Ha'].
    by destruct (IH a' Ha Ha' E) as [-> ->].
Qed.

Lemma dec_inj m n : u64 m -> u64 n -> dec m = dec n -> m = n.
Proof. intros Hm Hn E. apply parse_dec in Hm, Hn. congruence. Qed.

(** A short channel id is determined by what it prints. *)
Theorem scid_display_inj s s' : u64 s -> u64 s' -> scid_display s = scid_display s' -> s = s'.
Proof.
  intros Hs Hs' E. destruct (scid_parts s Hs) as (B & T & V), (scid_parts s' Hs') as (B' & T' & V').
  assert (H32 : forall x, u64 (wrap 32 x) /\ forallb is_ascii_digit (dec (wrap 32 x)) = true).
  { intros x. pose proof (wrap_uint 32 x ltac:(lia)) as [H0 H1]. split; [unfold uint; lia|by apply dec_digits]. }
  assert (H16 : forall x, u64 (wrap 16 x)).
  { intros x. pose proof (wrap_uint 16 x ltac:(lia)) as [H0 H1]. unfold uint. lia. }
  unfold scid_display in E.
  apply digits_cut in E as [E1%dec_inj E]; [|by apply H32..].
  apply digits_cut in E as [E2%dec_inj E3%dec_inj]; [|by first [apply H32|apply H16]..].
  rewrite B, B' in E1. rewrite T, T' in E2. rewrite V, V' in E3.
  pose proof (Z.div_mod s (2 ^ 16) ltac:(lia)). pose proof (Z.div_mod s' (2 ^ 16) ltac:(lia)).
  pose proof (Z.div_mod (s / 2 ^ 16) (2 ^ 24) ltac:(lia)).
  pose proof (Z.div_mod (s' / 2 ^ 16) (2 ^ 24) ltac:(lia)).
  rewrite !Z.div_div in * by lia. change (2 ^ 16 * 2 ^ 24) with (2 ^ 40) in *. lia.
Qed.

(** ** The texts of the errors *)
Definition wire_error_text (e : WireError) : bytes :=
  match e with
  | UnexpectedEnd => str "unexpected end of message"
  | NonMinimalBigSize => str "BigSize not minimally encoded"
  | Ser.BadPubkey => str "invalid secp256k1 public key"
  | Ser.BadSignature => str "invalid signature encoding"
  | UnknownRequiredTlv t => str "unknown even TLV type " ++ dec t
  | TlvNotStrictlyAscending => str "TLV types not strictly ascending"
  | TlvLengthMismatch => str "TLV value length mismatch"
  | UnknownMessageType t => str "unknown message type " ++ dec t
  | TrailingBytes => str "trailing bytes after message"
  | BadFormat s => str "bad format: " ++ str s
  end.
Definition noise_error_text (e : NoiseError) : bytes :=
  match e with
  | BadVersion v => str "unknown handshake version " ++ dec v
  | Noise.BadPubkey => str "invalid public key in handshake"
  | BadTag => str "AEAD tag verification failed"
  | WrongState => str "handshake act out of order"
  | MessageTooLong => str "message exceeds 65535 bytes"
  end.
Definition onion_error_text (e : OnionError) : bytes :=
  match e with
  | InvalidVersion => str "unknown onion version"
  | InvalidPubkey => str "invalid ephemeral pubkey"
  | InvalidHmac => str "onion HMAC verification failed"
  | Onion.BadLength => str "onion packet has wrong length"
  | BadPayload => str "malformed hop payload"
  end.
Definition gossip_error_text (e : GossipError) : bytes :=
  match e with
  | Graph.BadSignature => str "invalid gossip signature"
  | UnknownChannel => str "channel_update for unknown channel"
  | WrongChain => str "gossip for another chain"
  | Ignored => str "stale or duplicate gossip"
  end.

(** ** Logging *)
Inductive Level : Type := Trace | Debug_ | Info | Warn | Error_.
Definition level_rank (l : Level) : Z :=
  match l with Trace => 0 | Debug_ => 1 | Info => 2 | Warn => 3 | Error_ => 4 end.
Definition level_text (l : Level) : bytes :=
  match l with
  | Trace => str "TRACE" | Debug_ => str "DEBUG" | Info => str "INFO" | Warn => str "WARN"
  | Error_ => str "ERROR"
  end.
Record LogRecord := { log_level : Level; log_module : bytes; log_message : bytes }.
(** A logger, as the lines it writes for a record. *)
Definition null_logger (r : LogRecord) : list bytes := [].
Definition stderr_logger (min_level : Level) (r : LogRecord) : list bytes :=
  if level_rank min_level <=? level_rank (log_level r) then
    [str "[" ++ level_text (log_level r) ++ str " " ++ log_module r ++ str "] " ++ log_message r]
  else [].

(** ** Feerates *)
Inductive FeeTarget : Type := TargetCommitment | TargetClose | TargetUrgent.
Definition static_fee_estimator (rate : Z) (target : FeeTarget) : Z := rate.
