(* ===== verification/Router.v ===== *)
(** * Router: backward Dijkstra (src/src/router/mod.rs)

    [find_route] as the code has it: a best state per node, a binary heap of
    (cost, serialized key), first hops, gossip edges and invoice hints.  The
    hash maps are [gmap]s under the serialized keys; the heap is the list of
    its entries, [heap_pop] removing the greatest. *)
From stdpp Require Import gmap.
From S2P Require Import Prelude Secp Types Graph Invoice.

Inductive RouteError : Type := NoPath | LimitExceeded.

(** ** The heap: [BinaryHeap<(Reverse<u64>, [u8; 33])>] *)
Definition heap_entry : Type := Z * bytes.

(** [x <= y] in the order of the pairs: the larger cost, or on equal costs
    the smaller key, is less. *)
Definition entry_leb (x y : heap_entry) : bool :=
  if y.1 <? x.1 then true else if x.1 <? y.1 then false else bytes_leb x.2 y.2.

Fixpoint heap_pop (h : list heap_entry) : option (heap_entry * list heap_entry) :=
  match h with
  | [] => None
  | x :: h =>
    match heap_pop h with
    | None => Some (x, [])
    | Some (y, h') => if entry_leb x y then Some (y, x :: h') else Some (x, y :: h')
    end
  end.

Section router.
Context `{S : Secp}.

Record RouteHop : Type := {
  hop_node_id : PublicKey;
  hop_short_channel_id : Z;
  hop_amount_msat : Z;
  hop_cltv_expiry : Z;
}.
Record Route : Type := {
  hops : list RouteHop;
  first_hop_amount_msat : Z;
  first_hop_cltv : Z;
}.
Definition fee_msat (r : Route) (delivered : Z) : Z :=
  msat_saturating_sub (first_hop_amount_msat r) delivered.

Record FirstHop : Type := { peer : PublicKey; fh_short_channel_id : Z; available_msat : Z }.

Record EdgeCandidate : Type := {
  ec_short_channel_id : Z;
  ec_from : PublicKey;
  ec_to : PublicKey;
  ec_policy : DirectionalInfo;
  ec_capacity_sat : option Z;
  ec_amount_msat : Z;
}.

(** [trait PathScorer]. *)
Definition PathScorer : Type := EdgeCandidate -> Z.

Record DefaultScorer : Type := { cltv_penalty_per_block_msat : Z; base_penalty_msat : Z }.
Definition default_scorer : DefaultScorer :=
  {| cltv_penalty_per_block_msat := 50; base_penalty_msat := 500 |}.
Definition penalty_msat (sc : DefaultScorer) : PathScorer := fun edge =>
  let penalty := wrap 64 (base_penalty_msat sc
    + wrap 64 (cltv_penalty_per_block_msat sc * Graph.cltv_expiry_delta (ec_policy edge))) in
  match ec_capacity_sat edge with
  | Some c =>
    let cap_msat := wrap 64 (c * 1000) in
    if 0 <? cap_msat then
      let used_ppm := Z.min u64_max (ec_amount_msat edge * 1_000_000) / cap_msat in
      wrap 64 (penalty + wrap 64 (used_ppm * used_ppm) / 1_000)
    else penalty
  | None => penalty
  end.

Record RouteParams : Type := {
  payer : PublicKey;
  rp_payee : PublicKey;
  rp_amount_msat : Z;
  final_cltv_expiry : Z;
  first_hops : list FirstHop;
  rp_route_hints : list (list RouteHintHop);
  max_hops : nat;
}.

Record NodeState : Type := {
  amount : Z;
  cltv : Z;
  cost : Z;
  next : option RouteHop;
  hops_to_payee : nat;
}.

(** The mutable variables of the search. *)
Record Search : Type := {
  best : gmap bytes NodeState;
  heap : list heap_entry;
  keys : gmap bytes PublicKey;
}.

Definition push (st : Search) (node : PublicKey) (c : Z) : Search :=
  let ser := pk_serialize node in
  {| best := best st; heap := heap st ++ [(c, ser)]; keys := <[ser := node]> (keys st) |}.

Definition set_best (st : Search) (node : PublicKey) (s : NodeState) : Search :=
  {| best := <[pk_serialize node := s]> (best st); heap := heap st; keys := keys st |}.

(** ** Hints *)
Definition HintEdge : Type := Z * PublicKey * DirectionalInfo.

Definition hint_policy (hop : RouteHintHop) : DirectionalInfo :=
  {| Graph.timestamp := 0; enabled := true;
     Graph.cltv_expiry_delta := Invoice.cltv_expiry_delta hop;
     htlc_minimum_msat := 0; htlc_maximum_msat := u64_max;
     Graph.fee_base_msat := Invoice.fee_base_msat hop;
     Graph.fee_proportional_millionths := Invoice.fee_proportional_millionths hop |}.

Definition push_hint (m : gmap bytes (list HintEdge)) (to : PublicKey) (hop : RouteHintHop)
    : gmap bytes (list HintEdge) :=
  <[pk_serialize to := default [] (m !! pk_serialize to)
     ++ [(short_channel_id hop, src_node_id hop, hint_policy hop)]]> m.

(** One path: each entry forwards to the next one's node, the last to the
    payee. *)
Fixpoint hint_path (payee : PublicKey) (m : gmap bytes (list HintEdge)) (path : list RouteHintHop)
    : gmap bytes (list HintEdge) :=
  match path with
  | [] => m
  | hop :: path =>
    let to := match path with h :: _ => src_node_id h | [] => payee end in
    hint_path payee (push_hint m to hop) path
  end.
Definition hint_edges (p : RouteParams) : gmap bytes (list HintEdge) :=
  foldl (hint_path (rp_payee p)) ∅ (rp_route_hints p).

(** [first_hops.iter().map(..).collect()]: the last entry of a peer wins. *)
Definition first_hop_by_peer (p : RouteParams) : gmap bytes FirstHop :=
  foldl (fun m fh => <[pk_serialize (peer fh) := fh]> m) ∅ (first_hops p).

(** ** The main loop *)
Definition start (p : RouteParams) : Search :=
  push (set_best {| best := ∅; heap := []; keys := ∅ |} (rp_payee p)
    {| amount := rp_amount_msat p; cltv := final_cltv_expiry p; cost := rp_amount_msat p;
       next := None; hops_to_payee := 0 |}) (rp_payee p) (rp_amount_msat p).

(** [best.get(&k).map(|s| c < s.cost).unwrap_or(true)]. *)
Definition better (st : Search) (node : PublicKey) (c : Z) : bool :=
  match best st !! pk_serialize node with Some s => c <? cost s | None => true end.

(** The hop a state takes to [node], which receives [state]'s amount. *)
Definition hop_to (node : PublicKey) (scid : Z) (state : NodeState) : RouteHop :=
  {| hop_node_id := node; hop_short_channel_id := scid;
     hop_amount_msat := amount state; hop_cltv_expiry := cltv state |}.

Definition start_here (p : RouteParams) (node : PublicKey) (state : NodeState) (st : Search) : Search :=
  match first_hop_by_peer p !! pk_serialize node with
  | Some fh =>
    if amount state <=? available_msat fh then
      let payer_state :=
        {| amount := amount state; cltv := cltv state; cost := cost state;
           next := Some (hop_to node (fh_short_channel_id fh) state);
           hops_to_payee := hops_to_payee state + 1 |} in
      if better st (payer p) (cost payer_state) then set_best st (payer p) payer_state else st
    else st
  | None => st
  end.

(** Whether an HTLC of [amount_in] passes the policy and the capacity. *)
Definition passes (policy : DirectionalInfo) (capacity : option Z) (amount_in : Z) : bool :=
  negb (amount_in <? htlc_minimum_msat policy)
  && negb (htlc_maximum_msat policy <? amount_in)
  && match capacity with Some cap => negb (wrap 64 (cap * 1000) <? amount_in) | None => true end.

(** The inequalities it decides. *)
Definition within (policy : DirectionalInfo) (capacity : option Z) (amount_in : Z) : Prop :=
  htlc_minimum_msat policy <= amount_in <= htlc_maximum_msat policy /\
  forall cap, capacity = Some cap -> amount_in <= wrap 64 (cap * 1000).

Lemma passes_within policy capacity amount_in :
  passes policy capacity amount_in = true <-> within policy capacity amount_in.
Proof.
  unfold passes, within. rewrite !andb_true_iff, !negb_true_iff, !Z.ltb_ge.
  destruct capacity as [cap|]; [rewrite negb_true_iff, Z.ltb_ge|]; split.
  - intros [[H1 H2] H3]. split; [lia|]. intros c [= <-]. exact H3.
  - intros [H1 H2]. specialize (H2 cap eq_refl). lia.
  - intros [[H1 H2] _]. split; [lia|done].
  - intros [H1 _]. lia.
Qed.

Definition relax (p : RouteParams) (scorer : PathScorer) (node : PublicKey) (state : NodeState)
    (st : Search) (edge : GraphEdge) : Search :=
  let '(scid, from, policy, capacity) := edge in
  if decide (from = rp_payee p) then st
  else if decide (from = payer p) then st
  else
    let fee := fee_for policy (amount state) in
    let amount_in := msat_add (amount state) fee in
    if passes policy capacity amount_in then
      let penalty := scorer {| ec_short_channel_id := scid; ec_from := from; ec_to := node;
        ec_policy := policy; ec_capacity_sat := capacity; ec_amount_msat := amount_in |} in
      let new_cost := sat_add64 (sat_add64 (cost state) fee) penalty in
      if better st from new_cost then
        push (set_best st from
          {| amount := amount_in; cltv := wrap 32 (cltv state + Graph.cltv_expiry_delta policy);
             cost := new_cost; next := Some (hop_to node scid state);
             hops_to_payee := hops_to_payee state + 1 |}) from new_cost
      else st
    else st.

(** Graph edges, then hints. *)
Definition all_edges (g : NetworkGraph) (hints : gmap bytes (list HintEdge)) (node : PublicKey)
    : list GraphEdge :=
  edges_into g node ++ map (fun e => (e, None)) (default [] (hints !! pk_serialize node)).

Definition turn (g : NetworkGraph) (scorer : PathScorer) (p : RouteParams)
    (entry : heap_entry) (st : Search) : result RouteError Search :=
  let '(c, node_ser) := entry in
  node ← expect (keys st !! node_ser);
  state ← expect (best st !! pk_serialize node);
  if cost state <? c then Ok st
  else if (max_hops p <=? hops_to_payee state)%nat then Ok st
  else Ok (foldl (relax p scorer node state) (start_here p node state st)
             (all_edges g (hint_edges p) node)).

Fixpoint search (g : NetworkGraph) (scorer : PathScorer) (p : RouteParams) (fuel : nat)
    (st : Search) : result RouteError Search :=
  match heap_pop (heap st) with
  | None => Ok st
  | Some (entry, h) =>
    match fuel with
    | O => Panic
    | Datatypes.S fuel =>
      st ← turn g scorer p entry {| best := best st; heap := h; keys := keys st |};
      search g scorer p fuel st
    end
  end.

(** [while let Some(hop) = cursor]: the check on [hops.len()] ends it. *)
Fixpoint walk (p : RouteParams) (b : gmap bytes NodeState) (fuel : nat) (done : list RouteHop)
    (cursor : option RouteHop) : result RouteError (list RouteHop) :=
  match cursor with
  | None => Ok done
  | Some hop =>
    match fuel with
    | O => Panic
    | Datatypes.S fuel =>
      let done := done ++ [hop] in
      if decide (hop_node_id hop = rp_payee p) then Ok done
      else if (max_hops p <? length done)%nat then Err LimitExceeded
      else walk p b fuel done (s ← b !! pk_serialize (hop_node_id hop); next s)
    end
  end.

Definition finish (p : RouteParams) (st : Search) : result RouteError Route :=
  payer_state ← ok_or (best st !! pk_serialize (payer p)) NoPath;
  hops ← walk p (best st) (max_hops p + 1) [] (next payer_state);
  _ ← fail_if (negb (bool_decide (hop_node_id <$> last hops = Some (rp_payee p)))) NoPath;
  Ok {| hops := hops; first_hop_amount_msat := amount payer_state; first_hop_cltv := cltv payer_state |}.

(** One turn per heap entry; an edge puts one entry at most. *)
Definition edge_count (g : NetworkGraph) (p : RouteParams) : nat :=
  sum_list_with (fun kn => length (node_channels kn.2)) (map_to_list (nodes g))
  + sum_list_with (fun kl => length kl.2) (map_to_list (hint_edges p)).
Definition search_fuel (g : NetworkGraph) (p : RouteParams) : nat := edge_count g p + 1.

Definition find_route (g : NetworkGraph) (scorer : PathScorer) (p : RouteParams)
    : result RouteError Route :=
  st ← search g scorer p (search_fuel g p) (start p);
  finish p st.
End router.

(** ** The heap *)
Lemma heap_pop_None h : heap_pop h = None -> h = [].
Proof. destruct h as [|x h]; [done|]. cbn. destruct (heap_pop h) as [[y h']|]; [|done]. by case_match. Qed.

Lemma entry_leb_cost x y : entry_leb x y = true -> y.1 <= x.1.
Proof. unfold entry_leb. destruct (Z.ltb_spec y.1 x.1), (Z.ltb_spec x.1 y.1); intros; (lia || done). Qed.
Lemma entry_leb_false x y : entry_leb x y = false -> x.1 <= y.1.
Proof. unfold entry_leb. destruct (Z.ltb_spec y.1 x.1), (Z.ltb_spec x.1 y.1); intros; (lia || done). Qed.

Lemma heap_pop_Some h e h' : heap_pop h = Some (e, h') ->
  e :: h' ≡ₚ h /\ (forall x, x ∈ h' -> e.1 <= x.1).
Proof.
  revert e h'; induction h as [|x h IH]; intros e h'; [done|]. cbn.
  destruct (heap_pop h) as [[y hy]|] eqn:E.
  - destruct (IH y hy eq_refl) as [HP Hmin]. destruct (entry_leb x y) eqn:Ele; intros [= <- <-].
    + split; [by rewrite <- HP; constructor|]. intros z [->|Hz]%elem_of_cons; [by apply entry_leb_cost|by apply Hmin].
    + split; [by rewrite HP|]. apply entry_leb_false in Ele.
      intros z [->|Hz]%elem_of_cons; [done|]. specialize (Hmin z Hz). lia.
  - apply heap_pop_None in E as ->. intros [= <- <-]. split; [done|]. by intros z ?%not_elem_of_nil.
Qed.

(** ** A budget: what the nodes not yet done may still push *)
Definition budget {A} (f : A -> nat) (l : list (bytes * A)) (done : list bytes) : nat :=
  sum_list_with (fun ka => if decide (ka.1 ∈ done) then 0%nat else f ka.2) l.

Lemma budget_cons {A} (f : A -> nat) k a l done : budget f ((k, a) :: l) done =
  ((if decide (k ∈ done) then 0 else f a) + budget f l done)%nat.
Proof. done. Qed.

Lemma budget_other {A} (f : A -> nat) l k done : k ∉ l.*1 -> budget f l (k :: done) = budget f l done.
Proof.
  induction l as [|[k' a] l IH]; intros Hk; [done|]. rewrite !budget_cons. cbn in Hk.
  apply not_elem_of_cons in Hk as [Hne Hk]. rewrite IH by done. f_equal.
  destruct (decide (k' ∈ done)); [rewrite decide_True by set_solver|rewrite decide_False by set_solver]; done.
Qed.

Lemma budget_done {A} (f : A -> nat) (m : gmap bytes A) k done : k ∉ done ->
  (budget f (map_to_list m) (k :: done) + match m !! k with Some a => f a | None => 0 end =
   budget f (map_to_list m) done)%nat.
Proof.
  intros Hk. pose proof (NoDup_fst_map_to_list m) as Hnd.
  destruct (m !! k) as [a|] eqn:E.
  - apply elem_of_map_to_list in E. revert Hnd E. generalize (map_to_list m). intros l.
    induction l as [|[k' a'] l IH]; intros Hnd Hin; [by apply not_elem_of_nil in Hin|].
    rewrite !budget_cons. cbn in Hnd. apply NoDup_cons in Hnd as [Hk' Hnd].
    apply elem_of_cons in Hin as [Heq|Hin].
    + injection Heq as <- <-. rewrite budget_other by done.
      rewrite decide_True by set_solver. rewrite decide_False by done. lia.
    + assert (k <> k') as Hne. { intros <-. apply Hk'. apply list_elem_of_fmap. by exists (k, a). }
      rewrite <- (IH Hnd Hin).
      destruct (decide (k' ∈ done)); [rewrite decide_True by set_solver|rewrite decide_False by set_solver]; lia.
  - rewrite budget_other; [lia|]. intros ([k' a] & -> & Hin)%list_elem_of_fmap.
    apply elem_of_map_to_list in Hin. cbn in *. congruence.
Qed.

Lemma budget_nil {A} (f : A -> nat) l : budget f l [] = sum_list_with (fun ka => f ka.2) l.
Proof.
  induction l as [|[k a] l IH]; [done|]. rewrite budget_cons, IH.
  by rewrite decide_False by apply not_elem_of_nil.
Qed.

(** ** The search's invariant *)
Section proofs.
Context `{S : Secp} {L : SecpLaws S}.
Context (g : NetworkGraph) (scorer : PathScorer) (p : RouteParams).

(** What the scorer returns is a [u64], and so is the amount. *)
Hypothesis scorer_u64 : forall e, u64 (scorer e).
Hypothesis amount_u64 : u64 (rp_amount_msat p).
Hypothesis not_ourselves : payer p <> rp_payee p.

Abbreviation edges := (all_edges g (hint_edges p)).

(** The hops from [from] to the payee, with the amount and the time lock each
    must carry: a forwarding node receives what it forwards plus exactly its
    fee and its delta, and the amount it receives is between the announced
    minimum and maximum of the channel it forwards over, and within that
    channel's capacity. *)
Inductive path : PublicKey -> Z -> Z -> list RouteHop -> Prop :=
  | path_end : path (rp_payee p) (rp_amount_msat p) (final_cltv_expiry p) []
  | path_hop from to scid policy cap amt lock hs :
      path to amt lock hs -> (scid, from, policy, cap) ∈ edges to ->
      within policy cap (msat_add amt (fee_for policy amt)) ->
      path from (msat_add amt (fee_for policy amt)) (wrap 32 (lock + Graph.cltv_expiry_delta policy))
        ({| hop_node_id := to; hop_short_channel_id := scid; hop_amount_msat := amt;
            hop_cltv_expiry := lock |} :: hs).

(** How a state was reached: from a state that is done. *)
Definition linked (st : Search) (done : list bytes) (from : PublicKey) (s : NodeState) : Prop :=
  (from = rp_payee p /\ amount s = rp_amount_msat p /\ cltv s = final_cltv_expiry p /\
   next s = None /\ hops_to_payee s = 0%nat) \/
  (exists to s' scid policy cap, pk_serialize to ∈ done /\ to <> payer p /\ from <> rp_payee p /\
    best st !! pk_serialize to = Some s' /\
    (scid, from, policy, cap) ∈ edges to /\
    amount s = msat_add (amount s') (fee_for policy (amount s')) /\
    passes policy cap (amount s) = true /\
    cltv s = wrap 32 (cltv s' + Graph.cltv_expiry_delta policy) /\
    next s = Some (hop_to to scid s') /\ hops_to_payee s = (hops_to_payee s' + 1)%nat).

Definition payer_linked (st : Search) (done : list bytes) (s : NodeState) : Prop :=
  exists to s' fh, pk_serialize to ∈ done /\ to <> payer p /\ best st !! pk_serialize to = Some s' /\
    first_hop_by_peer p !! pk_serialize to = Some fh /\ amount s' <= available_msat fh /\
    amount s = amount s' /\ cltv s = cltv s' /\ next s = Some (hop_to to (fh_short_channel_id fh) s') /\
    hops_to_payee s = (hops_to_payee s' + 1)%nat.

Record inv (st : Search) (done : list bytes) (m : Z) : Prop := {
  inv_heap : forall c k, (c, k) ∈ heap st -> k <> pk_serialize (payer p) /\ m <= c /\
    exists pk s, keys st !! k = Some pk /\ pk_serialize pk = k /\ best st !! k = Some s /\
      cost s <= c /\ (k ∈ done -> cost s < c);
  inv_nodup : NoDup (heap st);
  inv_done : forall k, k ∈ done -> k <> pk_serialize (payer p) /\
    exists s, best st !! k = Some s /\ cost s <= m /\ (hops_to_payee s < max_hops p)%nat;
  inv_cost : forall k s, best st !! k = Some s -> cost s <= u64_max;
  inv_linked : forall from s, best st !! pk_serialize from = Some s -> from <> payer p ->
    linked st done from s;
  inv_payer : forall s, best st !! pk_serialize (payer p) = Some s -> payer_linked st done s;
}.

(** States that are done stay, so links survive. *)
Lemma linked_frame st st' done done' from s : linked st done from s ->
  (forall k, k ∈ done -> k ∈ done' /\ best st' !! k = best st !! k) -> linked st' done' from s.
Proof.
  intros [H|(to & s' & scid & policy & cap & Hd & Hne & Hnp & Hb & H)] Hf; [by left|right].
  destruct (Hf _ Hd) as [Hd' Eb]. exists to, s', scid, policy, cap. rewrite Eb. done.
Qed.
Lemma payer_linked_frame st st' done done' s : payer_linked st done s ->
  (forall k, k ∈ done -> k ∈ done' /\ best st' !! k = best st !! k) -> payer_linked st' done' s.
Proof.
  intros (to & s' & fh & Hd & Hne & Hb & H) Hf.
  destruct (Hf _ Hd) as [Hd' Eb]. exists to, s', fh. rewrite Eb. done.
Qed.

Lemma ser_ne a b : a <> b -> pk_serialize a <> pk_serialize b.
Proof. intros H E. by apply H, pk_serialize_inj. Qed.

Lemma inv_start : inv (start p) [] (rp_amount_msat p).
Proof.
  unfold start, push, set_best. cbn. unfold uint in amount_u64. split; cbn.
  - intros c k [= -> ->]%list_elem_of_singleton. split; [apply ser_ne; congruence|]. split; [lia|].
    exists (rp_payee p). eexists. rewrite !lookup_insert_eq. split_and!; try done.
    by intros ?%not_elem_of_nil.
  - apply NoDup_singleton.
  - by intros k ?%not_elem_of_nil.
  - intros k s [[_ <-]|[_ E]]%lookup_insert_Some; [cbn; unfold u64_max; lia|by rewrite lookup_empty in E].
  - intros from s [[E <-]|[_ E]]%lookup_insert_Some _; [|by rewrite lookup_empty in E].
    left. apply pk_serialize_inj in E as <-. done.
  - intros s [[E _]|[_ E]]%lookup_insert_Some; [|by rewrite lookup_empty in E].
    apply pk_serialize_inj in E. congruence.
Qed.

Lemma sat_add_grows a b : 0 <= b -> a <= u64_max -> a <= sat_add64 a b <= u64_max.
Proof. unfold sat_add64. lia. Qed.

Lemma fee_nonneg d a : 0 <= fee_for d a.
Proof. unfold fee_for. by apply wrap_uint. Qed.

(** A state of the search other than a done one is replaced by a cheaper one. *)
Lemma better_spec st pk c : better st pk c = true <->
  forall s, best st !! pk_serialize pk = Some s -> c < cost s.
Proof.
  unfold better. destruct (best st !! pk_serialize pk) as [s|].
  - rewrite Z.ltb_lt. split; [by intros H s' [= <-]|auto].
  - split; [by intros _ s|done].
Qed.

(** One improved predecessor: the insertion and the push of [relax]. *)
Lemma inv_improve st done m from s :
  inv st done m -> from <> payer p -> m <= cost s <= u64_max ->
  better st from (cost s) = true -> linked st done from s ->
  inv (push (set_best st from s) from (cost s)) done m.
Proof.
  intros [H1 H2 H3 H4 H5 H6] Hne Hm Hb Hl. rewrite better_spec in Hb.
  assert (Hnd : pk_serialize from ∉ done).
  { intros (_ & s0 & E & Hc & _)%H3. specialize (Hb s0 E). lia. }
  assert (Hkeep : forall k, k ∈ done -> k ∈ done /\ <[pk_serialize from := s]> (best st) !! k = best st !! k).
  { intros k Hk. split; [done|]. rewrite lookup_insert_ne; [done|]. by intros <-. }
  unfold push, set_best. split; cbn.
  - intros c k [Hin|[= -> ->]%list_elem_of_singleton]%elem_of_app.
    + destruct (H1 c k Hin) as (Hkp & Hmc & pk & s0 & Ek & Eser & Eb & Hcost & Hdone).
      split; [done|]. split; [done|]. destruct (decide (k = pk_serialize from)) as [->|Hk].
      * exists from, s. rewrite !lookup_insert_eq. specialize (Hb s0 Eb). split_and!; try done. lia.
      * exists pk, s0. rewrite !lookup_insert_ne by done. done.
    + split; [by apply ser_ne|]. split; [lia|]. exists from, s. rewrite !lookup_insert_eq.
      split_and!; done.
  - apply NoDup_app. split; [done|]. split; [|apply NoDup_singleton].
    intros e He ->%list_elem_of_singleton.
    destruct (H1 _ _ He) as (_ & _ & pk & s0 & _ & _ & Eb & Hcost & _). specialize (Hb s0 Eb). lia.
  - intros k Hk. rewrite (proj2 (Hkeep k Hk)). by apply H3.
  - intros k s0 [[_ <-]|[_ E]]%lookup_insert_Some; [lia|by eapply H4].
  - intros from' s0 [[E <-]|[_ E]]%lookup_insert_Some Hne'.
    + apply pk_serialize_inj in E as <-. by eapply linked_frame.
    + eapply linked_frame; [by apply H5|done].
  - intros s0. rewrite lookup_insert_ne by (by apply ser_ne). intros E.
    eapply payer_linked_frame; [by apply H6|done].
Qed.

Section turn.
Context (node : PublicKey) (state : NodeState).
Hypothesis node_not_payer : node <> payer p.
Hypothesis state_cost : cost state <= u64_max.

(** What a turn keeps true about the node it processes. *)
Definition processing (st : Search) (done : list bytes) (m : Z) : Prop :=
  inv st done m /\ pk_serialize node ∈ done /\ best st !! pk_serialize node = Some state /\
  m <= cost state.

Lemma relax_inv st done m edge : processing st done m -> edge ∈ edges node ->
  processing (relax p scorer node state st edge) done m /\
  (length (heap (relax p scorer node state st edge)) <= length (heap st) + 1)%nat.
Proof.
  intros (Hinv & Hd & Hb & Hm) Hedge. destruct edge as [[[scid from] policy] cap]. unfold relax.
  case_decide as Hpayee; [split; [done|lia]|]. case_decide as Hpayer; [split; [done|lia]|].
  destruct (passes policy cap _) eqn:Hpass; [|split; [done|lia]].
  set (c := sat_add64 (sat_add64 _ _) _). set (s := {| amount := msat_add _ _; next := _ |}).
  destruct (better st from c) eqn:Hbet; [|split; [done|lia]].
  assert (Hc : cost state <= c <= u64_max).
  { unfold c. pose proof (sat_add_grows (cost state) (fee_for policy (amount state)) (fee_nonneg _ _) state_cost).
    match goal with |- context [sat_add64 _ (scorer ?e)] => pose proof (scorer_u64 e) as Hs end.
    unfold uint in Hs. pose proof (sat_add_grows (sat_add64 (cost state) (fee_for policy (amount state))) _
      (proj1 Hs) ltac:(lia)). lia. }
  assert (Hfrom : best (push (set_best st from s) from c) !! pk_serialize node = Some state).
  { cbn. rewrite lookup_insert_ne; [done|]. intros E. apply pk_serialize_inj in E as ->.
    rewrite better_spec in Hbet. specialize (Hbet _ Hb). lia. }
  split; [split; [|split; [done|split; [exact Hfrom|lia]]]|].
  - apply (inv_improve st done m from s Hinv Hpayer); [cbn; lia|done|].
    right. exists node, state, scid, policy, cap. done.
  - cbn. rewrite length_app. cbn. lia.
Qed.

Lemma relax_all_inv l st done m : processing st done m -> (forall e, e ∈ l -> e ∈ edges node) ->
  processing (foldl (relax p scorer node state) st l) done m /\
  (length (heap (foldl (relax p scorer node state) st l)) <= length (heap st) + length l)%nat.
Proof.
  revert st; induction l as [|e l IH]; intros st H Hl; [split; [done|cbn; lia]|]. cbn [foldl length].
  destruct (relax_inv st done m e H) as [H1 L1]; [apply Hl; set_solver|].
  destruct (IH _ H1) as [H2 L2]; [set_solver|]. split; [done|lia].
Qed.

Lemma start_here_inv st done m : processing st done m ->
  processing (start_here p node state st) done m /\ heap (start_here p node state st) = heap st.
Proof.
  intros (Hinv & Hd & Hb & Hm). unfold start_here.
  destruct (first_hop_by_peer p !! pk_serialize node) as [fh|] eqn:Efh; [|done].
  destruct (Z.leb_spec (amount state) (available_msat fh)); [|done].
  set (s := {| amount := _; next := _ |}). destruct (better st (payer p) (cost s)) eqn:Hbet; [|done].
  destruct Hinv as [H1 H2 H3 H4 H5 H6].
  assert (Hkeep : forall k, k <> pk_serialize (payer p) ->
    <[pk_serialize (payer p) := s]> (best st) !! k = best st !! k)
    by (intros k Hk; by rewrite lookup_insert_ne).
  assert (Hkeep' : forall k, k ∈ done -> k ∈ done /\ <[pk_serialize (payer p) := s]> (best st) !! k = best st !! k).
  { intros k Hk. split; [done|]. apply Hkeep. by apply H3. }
  split; [|done]. split; [|split; [done|split; [|done]]].
  2: { cbn. rewrite Hkeep; [done|]. by apply ser_ne. }
  unfold set_best. split; cbn; [|done|..].
  - intros c k Hin. destruct (H1 c k Hin) as (Hkp & Hmc & pk & s0 & R).
    split; [done|]. split; [done|]. exists pk, s0. by rewrite Hkeep.
  - intros k Hk. rewrite (proj2 (Hkeep' k Hk)). by apply H3.
  - intros k s0 [[_ <-]|[_ E]]%lookup_insert_Some; [done|by eapply H4].
  - intros from s0 E Hne. rewrite Hkeep in E by (by apply ser_ne).
    eapply linked_frame; [by apply H5|done].
  - intros s0. rewrite lookup_insert_eq. intros [= <-].
    exists node, state, fh. split_and!; try done. cbn. rewrite Hkeep; [done|]. by apply ser_ne.
Qed.
End turn.

Definition pot (done : list bytes) : nat :=
  budget (fun n => length (node_channels n)) (map_to_list (nodes g)) done
  + budget (fun l => length l) (map_to_list (hint_edges p)) done.

Lemma length_edges node : (length (edges node) <=
  match nodes g !! pk_serialize node with Some n => length (node_channels n) | None => 0 end
  + match hint_edges p !! pk_serialize node with Some l => length l | None => 0 end)%nat.
Proof.
  unfold all_edges. rewrite length_app, length_map. unfold edges_into, Graph.node.
  assert (H : forall to l, (length (omap (edge_into g to) l) <= length l)%nat).
  { intros to l. induction l as [|x l IH]; [done|]. cbn. destruct (edge_into g to x); cbn; lia. }
  apply Nat.add_le_mono; [destruct (nodes g !! _); [apply H|done]|].
  by destruct (hint_edges p !! _).
Qed.

Lemma pot_done node done : pk_serialize node ∉ done ->
  (pot (pk_serialize node :: done) + length (edges node) <= pot done)%nat.
Proof.
  intros Hd. unfold pot. pose proof (length_edges node) as Hl.
  pose proof (budget_done (fun n => length (node_channels n)) (nodes g) _ _ Hd) as H1.
  pose proof (budget_done (fun l => length l) (hint_edges p) _ _ Hd) as H2. cbn beta in *. lia.
Qed.

(** An entry that is skipped. *)
Lemma inv_skip st done m c k h : inv st done m -> heap_pop (heap st) = Some ((c, k), h) ->
  m <= c /\ inv {| best := best st; heap := h; keys := keys st |} done c /\
  (forall c', (c', k) ∈ h -> c < c').
Proof.
  intros [H1 H2 H3 H4 H5 H6] Hpop. apply heap_pop_Some in Hpop as [HP Hmin].
  assert (Hin : forall e, e ∈ h -> e ∈ heap st) by (intros e He; rewrite <- HP; set_solver).
  assert (Hck : (c, k) ∈ heap st) by (rewrite <- HP; set_solver).
  destruct (H1 c k Hck) as (_ & Hmc & _). rewrite <- HP in H2. apply NoDup_cons in H2 as [Hni H2].
  split; [done|]. split.
  - split; cbn; try done.
    + intros c' k' He. destruct (H1 c' k' (Hin _ He)) as (Hkp & _ & R). split; [done|].
      split; [|done]. by apply (Hmin (c', k')).
    + intros k' Hk'. destruct (H3 k' Hk') as (Hkp & s & E & Hc & Hh). split; [done|].
      exists s. split_and!; [done|lia|done].
  - intros c' He. pose proof (Hmin _ He) as Hle. cbn in Hle.
    destruct (Z.eq_dec c c') as [->|]; [done|lia].
Qed.

Lemma turn_inv st done m c k h : inv st done m -> heap_pop (heap st) = Some ((c, k), h) ->
  exists st' done', turn g scorer p (c, k) {| best := best st; heap := h; keys := keys st |} = Ok st' /\
    inv st' done' c /\ m <= c /\ (length (heap st') + pot done' < length (heap st) + pot done)%nat.
Proof.
  intros Hinv Hpop. destruct (inv_skip st done m c k h Hinv Hpop) as (Hmc & Hskip & Hothers).
  assert (Hlen : length (heap st) = Datatypes.S (length h)).
  { apply heap_pop_Some in Hpop as [HP _]. by rewrite <- HP. }
  assert (Hck : (c, k) ∈ heap st) by (apply heap_pop_Some in Hpop as [HP _]; rewrite <- HP; set_solver).
  destruct (inv_heap _ _ _ Hinv c k Hck) as (Hkp & _ & node & state & Ek & <- & Eb & Hcost & Hdone).
  unfold turn. cbn [keys best]. rewrite Ek. cbn [expect mbind result_bind]. rewrite Eb.
  cbn [expect mbind result_bind].
  destruct (Z.ltb_spec (cost state) c) as [Hstale|Hfresh].
  { exists {| best := best st; heap := h; keys := keys st |}, done. cbn. split_and!; [done|done|done|lia]. }
  assert (cost state = c) as Hceq by lia.
  destruct (Nat.leb_spec (max_hops p) (hops_to_payee state)) as [Hfar|Hnear].
  { exists {| best := best st; heap := h; keys := keys st |}, done. cbn. split_and!; [done|done|done|lia]. }
  assert (Hnd : pk_serialize node ∉ done) by (intros Hd; specialize (Hdone Hd); lia).
  set (st0 := {| best := best st; heap := h; keys := keys st |}) in *.
  assert (Hproc : processing node state st0 (pk_serialize node :: done) c).
  { destruct Hskip as [H1 H2 H3 H4 H5 H6]. split; [|split; [set_solver|split; [done|lia]]]. split; try done.
    - intros c' k' He. destruct (H1 c' k' He) as (A & B & pk & s & C & D & E & F & G).
      split; [done|]. split; [done|]. exists pk, s. split_and!; try done.
      intros [->|Hk']%elem_of_cons; [|by apply G].
      assert (s = state) as -> by (cbn in E; congruence). rewrite Hceq. by apply Hothers.
    - intros k' [->|Hk']%elem_of_cons; [|by apply H3]. split; [done|]. exists state.
      split_and!; [done|lia|done].
    - intros from s E Hne. eapply linked_frame; [by apply H5|set_solver].
    - intros s E. eapply payer_linked_frame; [by apply H6|set_solver]. }
  assert (Hnp : node <> payer p) by (intros ->; done).
  assert (Hsc : cost state <= u64_max) by (by eapply inv_cost).
  destruct (start_here_inv node state Hnp Hsc st0 _ c Hproc) as [Hproc1 Eh].
  destruct (relax_all_inv node state Hnp Hsc (edges node) _ _ c Hproc1 ltac:(done)) as [Hproc2 Hlen2].
  eexists _, (pk_serialize node :: done). split; [reflexivity|]. split; [apply Hproc2|]. split; [done|].
  pose proof (pot_done node done Hnd). rewrite Eh in Hlen2. cbn [heap st0] in Hlen2. lia.
Qed.

Lemma search_inv fuel st done m : inv st done m -> (length (heap st) + pot done <= fuel)%nat ->
  exists st' done' m', search g scorer p fuel st = Ok st' /\ inv st' done' m' /\ heap st' = [].
Proof.
  revert st done m; induction fuel as [|fuel IH]; intros st done m Hinv Hf.
  { destruct (heap st) as [|e h] eqn:E; [|cbn in Hf; lia]. exists st, done, m. cbn. by rewrite E. }
  cbn [search]. destruct (heap_pop (heap st)) as [[[c k] h]|] eqn:Hpop.
  - destruct (turn_inv st done m c k h Hinv Hpop) as (st' & done' & E & Hinv' & _ & Hlt).
    destruct (IH st' done' c Hinv' ltac:(lia)) as (st2 & done2 & m2 & E2 & R).
    exists st2, done2, m2. by rewrite E.
  - apply heap_pop_None in Hpop. by exists st, done, m.
Qed.

Lemma search_ok : exists st done m, search g scorer p (search_fuel g p) (start p) = Ok st /\
  inv st done m /\ heap st = [].
Proof.
  apply (search_inv _ _ [] (rp_amount_msat p)); [apply inv_start|].
  unfold search_fuel, edge_count, pot. rewrite !budget_nil. cbn. lia.
Qed.

(** ** From links to routes *)
Lemma linked_walk st done m n : inv st done m -> forall from s,
  best st !! pk_serialize from = Some s -> from <> payer p -> hops_to_payee s = n ->
  exists hs, path from (amount s) (cltv s) hs /\ length hs = n /\ (from = rp_payee p -> hs = []) /\
    forall fuel pre, (n <= fuel)%nat -> (length pre + n <= max_hops p)%nat ->
      walk p (best st) fuel pre (next s) = Ok (pre ++ hs).
Proof.
  intros Hinv. induction n as [|n IH]; intros from s Eb Hne Hn.
  - destruct (inv_linked _ _ _ Hinv from s Eb Hne) as [(-> & -> & -> & Enx & _)|H].
    + exists []. split_and!; [constructor|done|done|]. intros fuel pre _ _. rewrite Enx, app_nil_r.
      by destruct fuel.
    + destruct H as (to & s' & scid & policy & cap & R). lia.
  - destruct (inv_linked _ _ _ Hinv from s Eb Hne) as [(_ & _ & _ & _ & Hn0)|H]; [lia|].
    destruct H as (to & s' & scid & policy & cap & Hd & Hto & Hfp & Eb' & Hin & Ha & Hpass & Hc & Enx & Hh).
    destruct (IH to s' Eb' Hto ltac:(lia)) as (hs & Hpath & Hlen & Hend & Hwalk).
    exists (hop_to to scid s' :: hs). rewrite Ha in Hpass |- *. rewrite Hc.
    apply passes_within in Hpass. split_and!.
    + by eapply path_hop.
    + cbn. lia.
    + done.
    + intros fuel pre Hf Hp. rewrite Enx. destruct fuel as [|fuel]; [lia|]. cbn [walk hop_to hop_node_id].
      destruct (decide (to = rp_payee p)) as [Heq|Hnq]; [by rewrite (Hend Heq)|].
      rewrite length_app. cbn [length]. rewrite (proj2 (Nat.ltb_ge _ _)) by lia.
      rewrite Eb'. cbn [mbind option_bind]. rewrite Hwalk by (rewrite ?length_app; cbn; lia).
      by rewrite <- app_assoc.
Qed.

Lemma path_last from amt lock hs : path from amt lock hs ->
  default from (hop_node_id <$> last hs) = rp_payee p.
Proof.
  induction 1 as [|from to scid policy cap amt lock hs _ IH _ _]; [done|].
  destruct hs as [|h hs]; [exact IH|]. rewrite last_cons_cons. revert IH.
  destruct (last (h :: hs)) eqn:E; [done|]. by apply last_None in E.
Qed.

Lemma first_hop_by_peer_Some k fh : first_hop_by_peer p !! k = Some fh ->
  fh ∈ first_hops p /\ pk_serialize (peer fh) = k.
Proof.
  unfold first_hop_by_peer. induction (first_hops p) as [|fh0 l IH] using rev_ind; [cbn; by rewrite lookup_empty|].
  rewrite foldl_app. cbn. intros [[E <-]|[_ E]]%lookup_insert_Some; [|apply IH in E as [? ?]]; set_solver.
Qed.

(** Where an edge comes from: an enabled policy of a stored channel, in the
    direction [from] to [to], or a hint of the invoice. *)
Definition announced (from to : PublicKey) (scid : Z) (policy : DirectionalInfo) (cap : option Z) : Prop :=
  (exists c, channels g !! scid = Some c /\ cap = capacity_sat c /\ enabled policy = true /\
     ((node_1 c = to /\ node_2 c = from /\ two_to_one c = Some policy) \/
      (node_1 c = from /\ one_to_two c = Some policy))) \/
  ((scid, from, policy) ∈ default [] (hint_edges p !! pk_serialize to) /\ cap = None).

Lemma edges_announced scid from policy cap to :
  (scid, from, policy, cap) ∈ edges to -> announced from to scid policy cap.
Proof.
  unfold all_edges. rewrite elem_of_app. intros [H|H]; [left|right].
  - unfold edges_into in H. destruct (Graph.node g to) as [n|]; [|by apply not_elem_of_nil in H].
    apply list_elem_of_omap in H as (s & _ & H). unfold edge_into in H.
    apply bind_Some in H as (c & Hc & H). apply bind_Some in H as ([f pol] & Hf & H).
    destruct (enabled pol) eqn:Een; [|done]. injection H as -> -> -> <-. exists c.
    do 3 (split; [done|]). case_decide as Hd; apply bind_Some in Hf as (q & Hq & Hf);
      injection Hf as <- <-; [by left|by right].
  - apply list_elem_of_In, in_map_iff in H as (e & He & H). injection He as -> <-.
    split; [by apply list_elem_of_In|done].
Qed.

(** What BOLT 7 asks of the HTLC that a hop carries, but for the minimum: it is
    within the announced maximum and the capacity of its channel.  (The code
    compares the amount before the fee is taken, so this needs the sum not to
    wrap; and nothing of the kind holds of the minimum.) *)
Definition carried (h : RouteHop) : Prop :=
  exists from policy cap,
    announced from (hop_node_id h) (hop_short_channel_id h) policy cap /\
    (hop_amount_msat h + fee_for policy (hop_amount_msat h) < 2 ^ 64 ->
     hop_amount_msat h <= htlc_maximum_msat policy /\
     forall c, cap = Some c -> hop_amount_msat h <= wrap 64 (c * 1000)).

Lemma path_carried from amt lock hs : path from amt lock hs -> u64 amt /\ Forall carried hs.
Proof.
  induction 1 as [|from to scid policy cap amt lock hs _ [Ha IH] Hin Hw]; [by split|].
  split; [by apply wrap_uint|]. constructor; [|exact IH].
  exists from, policy, cap. cbn [hop_node_id hop_short_channel_id hop_amount_msat].
  split; [by apply edges_announced|]. intros Hlt. pose proof (fee_nonneg policy amt) as Hfee.
  unfold msat_add in Hw. rewrite wrap_small in Hw by (unfold uint in *; lia).
  destruct Hw as [Hw1 Hw2]. split; [lia|]. intros c Hc. specialize (Hw2 c Hc). lia.
Qed.

(** A route the payer can pay, by the rules of the code: the first hop over one
    of its own channels with the liquidity, then a [path] to the payee, which
    receives the amount and the time lock asked for. *)
Definition valid_route (r : Route) : Prop :=
  exists fh hop hs, hops r = hop :: hs /\ fh ∈ first_hops p /\ hop_node_id hop = peer fh /\
    hop_short_channel_id hop = fh_short_channel_id fh /\ hop_amount_msat hop <= available_msat fh /\
    first_hop_amount_msat r = hop_amount_msat hop /\ first_hop_cltv r = hop_cltv_expiry hop /\
    path (hop_node_id hop) (hop_amount_msat hop) (hop_cltv_expiry hop) hs /\
    (length (hops r) <= max_hops p)%nat.

Lemma finish_ok st done m : inv st done m ->
  match best st !! pk_serialize (payer p) with
  | None => finish p st = Err NoPath
  | Some s => exists r, finish p st = Ok r /\ valid_route r /\ hd_error (hops r) = next s /\
      length (hops r) = hops_to_payee s
  end.
Proof.
  intros Hinv. unfold finish. destruct (best st !! pk_serialize (payer p)) as [s|] eqn:Es; [|done].
  cbn [ok_or mbind result_bind].
  destruct (inv_payer _ _ _ Hinv s Es) as (to & s' & fh & Hd & Hto & Eb & Efh & Hav & Ea & Ec & Enx & Hh).
  destruct (inv_done _ _ _ Hinv _ Hd) as (_ & s0 & E0 & _ & Hmax). assert (s0 = s') as -> by congruence.
  destruct (linked_walk st done m _ Hinv to s' Eb Hto eq_refl) as (hs & Hpath & Hlen & Hend & Hwalk).
  rewrite Enx, Nat.add_1_r. cbn [walk hop_to hop_node_id app].
  assert (E : (if decide (to = rp_payee p) then Ok [hop_to to (fh_short_channel_id fh) s']
     else if (max_hops p <? length [hop_to to (fh_short_channel_id fh) s'])%nat then Err LimitExceeded
     else walk p (best st) (max_hops p) [hop_to to (fh_short_channel_id fh) s']
       (s ← best st !! pk_serialize to; next s)) =
    Ok (E := RouteError) (hop_to to (fh_short_channel_id fh) s' :: hs)).
  { destruct (decide (to = rp_payee p)) as [Heq|Hnq]; [by rewrite (Hend Heq)|]. cbn [length].
    rewrite (proj2 (Nat.ltb_ge _ _)) by lia. rewrite Eb. cbn [mbind option_bind].
    rewrite Hwalk by (cbn; lia). done. }
  rewrite E. cbn [mbind result_bind].
  assert (hop_node_id <$> last (hop_to to (fh_short_channel_id fh) s' :: hs) = Some (rp_payee p)) as Hl.
  { pose proof (path_last _ _ _ _ Hpath) as Hl. destruct hs as [|h hs]; [cbn in *; by rewrite Hl|].
    rewrite last_cons_cons. destruct (last (h :: hs)) eqn:El; [cbn in *; by rewrite Hl|].
    by apply last_None in El. }
  rewrite bool_decide_true by exact Hl. cbn [negb fail_if mbind result_bind].
  apply first_hop_by_peer_Some in Efh as [Hfh Hser]. apply pk_serialize_inj in Hser.
  eexists. split; [reflexivity|]. cbn. split_and!; [|done|lia].
  exists fh, (hop_to to (fh_short_channel_id fh) s'), hs. cbn. split_and!; try done. lia.
Qed.

(** ** A direct channel is used *)
Lemma foldl_keep {A} (f : Search -> A -> Search) k s l st :
  (forall st a, best st !! k = Some s -> best (f st a) !! k = Some s) ->
  best st !! k = Some s -> best (foldl f st l) !! k = Some s.
Proof. intros Hf. revert st; induction l as [|a l IH]; intros st H; [done|]. apply IH. by apply Hf. Qed.

Lemma relax_payer node state st e : best (relax p scorer node state st e) !! pk_serialize (payer p) =
  best st !! pk_serialize (payer p).
Proof.
  destruct e as [[[scid from] policy] cap]. unfold relax. do 2 (case_decide; [done|]).
  destruct (passes _ _ _); [|done]. destruct (better _ _ _); [|done]. cbn.
  rewrite lookup_insert_ne; [done|]. by apply ser_ne.
Qed.

(** The payer's state is only replaced by a cheaper one. *)
Lemma turn_payer c k st st' s : turn g scorer p (c, k) st = Ok st' -> cost s <= c ->
  best st !! pk_serialize (payer p) = Some s -> best st' !! pk_serialize (payer p) = Some s.
Proof.
  unfold turn. intros H Hc Hs. apply bind_Ok in H as (node & _ & H). apply bind_Ok in H as (state & _ & H).
  destruct (Z.ltb_spec (cost state) c); [by apply Ok_inj in H as <-|].
  destruct (_ <=? _)%nat; apply Ok_inj in H as <-; [done|].
  apply foldl_keep. { intros st1 e H1. by rewrite relax_payer. }
  unfold start_here. destruct (first_hop_by_peer p !! _); [|done]. destruct (_ <=? _); [|done].
  destruct (better _ _ _) eqn:Eb; [|done]. rewrite better_spec in Eb. specialize (Eb s Hs). cbn in Eb. lia.
Qed.

Lemma search_payer fuel st st' done m s : inv st done m -> search g scorer p fuel st = Ok st' ->
  cost s <= m -> best st !! pk_serialize (payer p) = Some s ->
  best st' !! pk_serialize (payer p) = Some s.
Proof.
  revert st done m; induction fuel as [|fuel IH]; intros st done m Hinv; cbn [search].
  { destruct (heap_pop (heap st)) as [[[c k] h]|]; [done|]. by intros <-%Ok_inj. }
  destruct (heap_pop (heap st)) as [[[c k] h]|] eqn:Hpop; [|by intros <-%Ok_inj].
  destruct (turn_inv st done m c k h Hinv Hpop) as (st1 & done1 & E & Hinv1 & Hmc & _).
  rewrite E. cbn [mbind result_bind]. intros Hs Hc Hb. apply (IH st1 done1 c Hinv1 Hs); [lia|].
  eapply turn_payer; [exact E|lia|done].
Qed.

Definition direct_hop (fh : FirstHop) : RouteHop :=
  {| hop_node_id := rp_payee p; hop_short_channel_id := fh_short_channel_id fh;
     hop_amount_msat := rp_amount_msat p; hop_cltv_expiry := final_cltv_expiry p |}.

Lemma direct_route fh : first_hop_by_peer p !! pk_serialize (rp_payee p) = Some fh ->
  rp_amount_msat p <= available_msat fh -> (0 < max_hops p)%nat ->
  exists r, find_route g scorer p = Ok r /\ hops r = [direct_hop fh] /\ fee_msat r (rp_amount_msat p) = 0.
Proof.
  intros Hfh Hav Hmax. destruct search_ok as (st & done & m & E & Hinv & _).
  unfold find_route. rewrite E. cbn [mbind result_bind].
  set (s := {| amount := rp_amount_msat p; cltv := final_cltv_expiry p; cost := rp_amount_msat p;
    next := Some (direct_hop fh); hops_to_payee := 1 |}).
  assert (Hs : best st !! pk_serialize (payer p) = Some s).
  { pose proof inv_start as H0. unfold search_fuel in E. rewrite Nat.add_1_r in E. cbn [search] in E.
    change (heap_pop (heap (start p))) with (Some ((rp_amount_msat p, pk_serialize (rp_payee p)), [] : list heap_entry)) in E.
    destruct (turn_inv (start p) [] _ _ _ [] H0 eq_refl) as (st1 & done1 & E1 & Hinv1 & _ & _).
    cbv iota beta in E. rewrite E1 in E. cbn [mbind result_bind] in E.
    apply (search_payer _ st1 _ _ _ s Hinv1 E); [cbn; lia|].
    unfold turn in E1. cbn [start push set_best keys best] in E1. rewrite !lookup_insert_eq in E1.
    cbn [expect mbind result_bind] in E1. rewrite lookup_insert_eq in E1. cbn [expect mbind result_bind cost] in E1.
    rewrite Z.ltb_irrefl in E1. cbn [hops_to_payee] in E1. rewrite (proj2 (Nat.leb_gt _ _)) in E1 by lia.
    apply Ok_inj in E1 as <-. apply foldl_keep. { intros st2 e H2. by rewrite relax_payer. }
    unfold start_here. rewrite Hfh. cbn [amount]. rewrite (proj2 (Z.leb_le _ _)) by done.
    unfold better. cbn [best]. rewrite lookup_insert_ne, lookup_empty by (apply ser_ne; congruence).
    cbn. by rewrite lookup_insert_eq. }
  pose proof (finish_ok st done m Hinv) as Hf. rewrite Hs in Hf.
  destruct Hf as (r & -> & Hv & Hhd & Hlen). exists r. split; [done|].
  destruct Hv as (fh' & hop & hs & Eh & _ & _ & _ & _ & Ea & _). rewrite Eh in *. cbn in Hhd, Hlen.
  injection Hhd as ->. destruct hs; [|cbn in Hlen; lia]. split; [done|].
  unfold fee_msat, msat_saturating_sub, sat_sub. rewrite Ea. cbn. lia.
Qed.
End proofs.

Section theorems.
Context `{S : Secp} {L : SecpLaws S}.

Lemma find_route_path g scorer p r :
  (forall e, u64 (scorer e)) -> u64 (rp_amount_msat p) -> payer p <> rp_payee p ->
  find_route g scorer p = Ok r -> valid_route g p r.
Proof.
  intros Hs Ha Hne. unfold find_route. destruct (search_ok g scorer p Hs Ha Hne) as (st & done & m & -> & Hinv & _).
  cbn [mbind result_bind]. pose proof (finish_ok g scorer p Hs Ha Hne st done m Hinv) as Hf.
  destruct (best st !! _) as [s|]; [|by rewrite Hf]. destruct Hf as (r' & -> & Hv & _). by intros [= <-].
Qed.

(** [C26] Every route found starts at one of the payer's channels with enough
    liquidity, ends at the payee with the amount and expiry asked for, has
    [max_hops] hops at most, and pays each forwarding node exactly its fee and
    its time-lock delta.  Every later hop is over an enabled policy of a stored
    channel or a hint, and the amount that enters the forwarding node is
    between the minimum and the maximum of that policy and within the
    channel's capacity.  The HTLC on the channel itself is then within the
    maximum and the capacity too, unless amount plus fee wraps; it may be below
    the minimum, which BOLT 7 puts on it and the code compares with the amount
    before the fee is taken ([minimum_not_respected]). *)
Theorem find_route_valid g scorer p r :
  (forall e, u64 (scorer e)) -> u64 (rp_amount_msat p) -> payer p <> rp_payee p ->
  find_route g scorer p = Ok r -> valid_route g p r /\ Forall (carried g p) (tail (hops r)).
Proof.
  intros Hs Ha Hne Hr. pose proof (find_route_path g scorer p r Hs Ha Hne Hr) as Hv.
  split; [exact Hv|]. destruct Hv as (fh & hop & hs & -> & _ & _ & _ & _ & _ & _ & Hp & _).
  exact (proj2 (path_carried g p Ha _ _ _ _ Hp)).
Qed.

(** [C27] The search ends: with one turn per edge and one more, every input
    gives a route or [NoPath]; no index is missing, and the limit error is
    never reported. *)
Theorem find_route_terminates g scorer p :
  (forall e, u64 (scorer e)) -> u64 (rp_amount_msat p) -> payer p <> rp_payee p ->
  find_route g scorer p = Err NoPath \/ exists r, find_route g scorer p = Ok r.
Proof.
  intros Hs Ha Hne. unfold find_route. destruct (search_ok g scorer p Hs Ha Hne) as (st & done & m & -> & Hinv & _).
  cbn [mbind result_bind]. pose proof (finish_ok g scorer p Hs Ha Hne st done m Hinv) as Hf.
  destruct (best st !! _) as [s|]; [|by left]. destruct Hf as (r & -> & _). right. by exists r.
Qed.

(** [C31] A payee we share a channel with is paid over it: whatever the graph
    and the scorer, if the channel can carry the amount the route is that
    channel alone, with no fee. *)
Theorem direct_channel_used g scorer p fh :
  (forall e, u64 (scorer e)) -> u64 (rp_amount_msat p) -> payer p <> rp_payee p ->
  first_hop_by_peer p !! pk_serialize (rp_payee p) = Some fh ->
  rp_amount_msat p <= available_msat fh -> (0 < max_hops p)%nat ->
  exists r, find_route g scorer p = Ok r /\ hops r = [direct_hop p fh] /\ fee_msat r (rp_amount_msat p) = 0.
Proof. intros Hs Ha Hne. by apply direct_route. Qed.
End theorems.

(** ** Samples *)
Definition node_pk (n : Z) : PublicKey (Secp := toy_secp) := toy_of n.

Definition sample_policy (base ppm min : Z) : DirectionalInfo :=
  {| Graph.timestamp := 100; enabled := true; Graph.cltv_expiry_delta := 40; htlc_minimum_msat := min;
     htlc_maximum_msat := 10000000000; Graph.fee_base_msat := base;
     Graph.fee_proportional_millionths := ppm |}.

(** Channels [1 -> 3] (scid 2), [1 -> 2] (5), [2 -> 3] (4). *)
Definition sample_graph (p13 p12 p23 : DirectionalInfo) : NetworkGraph (S := toy_secp) :=
  let chan a b d := {| node_1 := node_pk a; node_2 := node_pk b; capacity_sat := Some 10000000;
    one_to_two := Some d; two_to_one := None |} in
  let node l := {| last_timestamp := 0; alias := []; node_channels := l |} in
  {| g_chain_hash := chain_hash Regtest;
     channels := {[ 2 := chan 1 3 p13; 5 := chan 1 2 p12; 4 := chan 2 3 p23 ]};
     nodes := {[ pk_serialize (node_pk 1) := node [2; 5]; pk_serialize (node_pk 2) := node [5; 4];
                 pk_serialize (node_pk 3) := node [2; 4] ]} |}.

Definition sample_params (amt : Z) (max : nat) : RouteParams (S := toy_secp) :=
  {| payer := node_pk 9; rp_payee := node_pk 3; rp_amount_msat := amt; final_cltv_expiry := 500;
     first_hops := [{| peer := node_pk 1; fh_short_channel_id := 1; available_msat := 5000000000 |}];
     rp_route_hints := []; max_hops := max |}.

(** The cheaper of the two ways, with its amounts and time locks. *)
Definition two_ways := sample_graph (sample_policy 50000 0 1) (sample_policy 1000 0 1) (sample_policy 1000 0 1).
Example picks_cheaper_path :
  match find_route two_ways (penalty_msat default_scorer) (sample_params 1000000 20) with
  | Ok r => map (fun h => (toy_val (hop_node_id h), hop_short_channel_id h, hop_amount_msat h, hop_cltv_expiry h)) (hops r) =
      [(1, 1, 1002000, 580); (2, 5, 1001000, 540); (3, 4, 1000000, 500)] /\ fee_msat r 1000000 = 2000
  | _ => False
  end.
Proof. by vm_compute. Qed.


Lemma node_pk_ne a b : wrap 8 a <> wrap 8 b -> node_pk a <> node_pk b.
Proof. intros H E. apply H. apply (f_equal toy_val) in E. exact E. Qed.

Lemma penalty_u64 sc e : u64 (penalty_msat sc e).
Proof.
  unfold penalty_msat. destruct (ec_capacity_sat e); [|by apply wrap_uint].
  destruct (0 <? _); by apply wrap_uint.
Qed.

Definition small_fee_route : Route (S := toy_secp) :=
  {| hops := [{| hop_node_id := node_pk 1; hop_short_channel_id := 1; hop_amount_msat := 1050000; hop_cltv_expiry := 540 |};
              {| hop_node_id := node_pk 3; hop_short_channel_id := 2; hop_amount_msat := 1000000; hop_cltv_expiry := 500 |}];
     first_hop_amount_msat := 1050000; first_hop_cltv := 540 |}.

Lemma two_hop_valid : valid_route two_ways (sample_params 1000000 2) small_fee_route.
Proof.
  eexists _, _, _. split; [reflexivity|]. split; [apply elem_of_cons; left; reflexivity|].
  split_and!; try (reflexivity || done || lia).
  apply (path_hop two_ways (sample_params 1000000 2) (node_pk 1) (node_pk 3) 2 (sample_policy 50000 0 1)
    (Some 10000000) 1000000 500 []); [constructor| |by (apply passes_within; vm_compute)].
  assert (H : match all_edges two_ways (hint_edges (sample_params 1000000 2)) (node_pk 3) with
    | e :: _ => e = (2, node_pk 1, sample_policy 50000 0 1, Some 10000000) | [] => False end) by (by vm_compute).
  destruct (all_edges _ _ _); [done|]. rewrite H. apply elem_of_cons. by left.
Qed.

(** The cheapest-state-per-node search can miss the only routes within
    [max_hops]: here a valid two-hop route exists and [max_hops] is two, yet
    the cheaper three-hop way through the same node hides it and the result
    is [NoPath]. *)
Theorem hop_limit_hides_route :
  exists (g : NetworkGraph (S := toy_secp)) p r,
    valid_route g p r /\ find_route g (penalty_msat default_scorer) p = Err NoPath.
Proof.
  exists two_ways, (sample_params 1000000 2), small_fee_route. split; [apply two_hop_valid|].
  assert (H : match find_route two_ways (penalty_msat default_scorer) (sample_params 1000000 2) with
    | Err NoPath => True | _ => False end) by (by vm_compute).
  by destruct (find_route _ _ _) as [?|[]|].
Qed.

(** The policy's minimum is compared with the amount entering the
    forwarding node, not with the HTLC on the channel it is announced for: a
    route is found whose HTLC over channel 2 (1000 msat) is below the minimum
    of channel 2 (1500 msat). *)
Theorem minimum_not_respected :
  let policy := sample_policy 600 0 1500 in
  let g := sample_graph policy policy policy in
  exists r hop, find_route g (penalty_msat default_scorer) (sample_params 1000 20) = Ok r /\
    hop ∈ hops r /\ hop_short_channel_id hop = 2 /\
    (exists c, channel g 2 = Some c /\ one_to_two c = Some policy) /\
    hop_amount_msat hop < htlc_minimum_msat policy.
Proof.
  intros policy g.
  assert (H : match find_route g (penalty_msat default_scorer) (sample_params 1000 20) with
    | Ok {| hops := [_; hop] |} => hop_short_channel_id hop = 2 /\ hop_amount_msat hop = 1000
    | _ => False end) by (by vm_compute).
  assert (Hc : match channel g 2 with Some c => one_to_two c = Some policy | None => False end) by (by vm_compute).
  destruct (find_route _ _ _) as [[[|h1 [|h2 [|]]] ? ?]|?|]; try done. destruct H as [H1 H2].
  eexists _, h2. split; [reflexivity|]. split; [apply elem_of_cons; right; apply elem_of_cons; by left|].
  split; [done|]. split; [|by rewrite H2]. destruct (channel g 2) as [c|]; [|done]. by exists c.
Qed.

Lemma find_route_valid_witness :
  match find_route two_ways (penalty_msat default_scorer) (sample_params 1000000 20) with
  | Ok r => valid_route two_ways (sample_params 1000000 20) r /\
      Forall (carried two_ways (sample_params 1000000 20)) (tail (hops r))
  | _ => False
  end.
Proof.
  destruct (find_route two_ways (penalty_msat default_scorer) (sample_params 1000000 20)) as [r|e|] eqn:E.
  - apply (find_route_valid two_ways (penalty_msat default_scorer)).
    + intros e. apply penalty_u64.
    + clear. by apply uintb_spec.
    + clear. by apply node_pk_ne.
    + exact E.
  - assert (H : is_ok (find_route two_ways (penalty_msat default_scorer) (sample_params 1000000 20)) = true)
      by (by vm_compute). by rewrite E in H.
  - assert (H : is_ok (find_route two_ways (penalty_msat default_scorer) (sample_params 1000000 20)) = true)
      by (by vm_compute). by rewrite E in H.
Defined.

Lemma find_route_terminates_witness :
  find_route two_ways (penalty_msat default_scorer) (sample_params 7 20) = Err NoPath \/
  exists r, find_route two_ways (penalty_msat default_scorer) (sample_params 7 20) = Ok r.
Proof.
  apply (find_route_terminates two_ways (penalty_msat default_scorer) (sample_params 7 20)); [|done|by apply node_pk_ne].
  intros e. apply penalty_u64.
Defined.

Lemma direct_channel_used_witness :
  let p := {| payer := node_pk 9; rp_payee := node_pk 1; rp_amount_msat := 1000; final_cltv_expiry := 500;
     first_hops := first_hops (sample_params 0 0); rp_route_hints := []; max_hops := 1 |} in
  exists r, find_route two_ways (penalty_msat default_scorer) p = Ok r /\
    hops r = [direct_hop p {| peer := node_pk 1; fh_short_channel_id := 1; available_msat := 5000000000 |}] /\
    fee_msat r 1000 = 0.
Proof.
  intros p. apply (direct_channel_used two_ways (penalty_msat default_scorer) p).
  - intros e. apply penalty_u64.
  - done.
  - by apply node_pk_ne.
  - exact (lookup_insert_eq _ _ _).
  - cbn. lia.
  - cbn. lia.
Defined.
