(* ===== verification/Shachain.v ===== *)
(** * Shachain: per-commitment secrets (src/src/shachain.rs)

    Generation from a seed and the 49-bucket store of the counterparty's
    revealed secrets.  Indices count down from [MAX_INDEX].  The two main
    theorems: a store that accepted the secrets of commitments 0..n-1 returns
    each of them exactly, whoever produced them; and the secrets of an honest
    generator are always accepted. *)
From S2P Require Import Prelude Sha256.

Definition MAX_INDEX : Z := 2 ^ 48 - 1.

Definition index_for_commitment (commitment_number : Z) : Z :=
  wrap 64 (MAX_INDEX - commitment_number).

Definition flip_bit (p : bytes) (bit : Z) : bytes :=
  let i := Z.to_nat (bit / 8) in
  <[i := Z.lxor (p !!! i) (Z.shiftl 1 (bit mod 8))]> p.

(** [for b in (0..bits).rev()]. *)
Fixpoint derive_secret (p : bytes) (bits : nat) (index : Z) : bytes :=
  match bits with
  | O => p
  | S b =>
    let p := if negb (Z.land index (Z.shiftl 1 (Z.of_nat b)) =? 0)
             then Sha256.digest (flip_bit p (Z.of_nat b)) else p in
    derive_secret p b index
  end.

Definition generate_from_seed (seed : bytes) (index : Z) : bytes :=
  derive_secret seed 48 index.

Inductive InsertError : Type := MkInsertError.

(** [known: [Option<(u64, [u8; 32])>; 49]]. *)
Record SecretStore := { known : list (option (Z * bytes)) }.

Definition store_new : SecretStore := {| known := replicate 49 None |}.

Fixpoint pos_trailing_zeros (p : positive) : nat :=
  match p with xO p => S (pos_trailing_zeros p) | _ => O end.
Definition trailing_zeros (z : Z) : nat :=
  match z with Zpos p => pos_trailing_zeros p | _ => 64%nat end.

Definition bucket (index : Z) : nat :=
  if index =? 0 then 48%nat else trailing_zeros index.

(** The checks of [insert] against the lower buckets. *)
Fixpoint check_lower (known : list (option (Z * bytes))) (secret : bytes) (b : nat)
    (lowers : list nat) : result InsertError unit :=
  match lowers with
  | [] => Ok tt
  | lower :: lowers =>
    e ← expect (known !! lower);
    _ ← match e with
        | Some (known_index, known_secret) =>
          fail_if (negb (bool_decide (derive_secret secret b known_index = known_secret)))
            MkInsertError
        | None => Ok tt
        end;
    check_lower known secret b lowers
  end.

Definition insert (s : SecretStore) (index : Z) (secret : bytes)
    : result InsertError SecretStore :=
  let b := bucket index in
  _ ← check_lower (known s) secret b (seq 0 b);
  if (b <? length (known s))%nat
  then Ok {| known := <[b := Some (index, secret)]> (known s) |}
  else Panic.

Definition bucket_mask (b : nat) : Z :=
  if (b =? 48)%nat then 0 else Z.lxor (2 ^ 64 - 1) (Z.shiftl 1 (Z.of_nat b) - 1).

(** The bucket [b] covers [index]. *)
Definition covers (e : Z * bytes) (b : nat) (index : Z) : bool :=
  (Z.land index (bucket_mask b) =? Z.land e.1 (bucket_mask b)) && (e.1 <=? index).

Fixpoint secret_for_loop (known : list (option (Z * bytes))) (b : nat) (index : Z)
    : option bytes :=
  match known with
  | [] => None
  | Some e :: known =>
    if covers e b index then Some (derive_secret e.2 b index)
    else secret_for_loop known (S b) index
  | None :: known => secret_for_loop known (S b) index
  end.
Definition secret_for (s : SecretStore) (index : Z) : option bytes :=
  secret_for_loop (known s) 0 index.

(** [self.known.iter().flatten()]. *)
Definition entries (s : SecretStore) : list (Z * bytes) := omap id (known s).

Definition min_index (s : SecretStore) : option Z :=
  match map fst (entries s) with
  | [] => None
  | i :: rest => Some (foldl Z.min i rest)
  end.

Definition from_entries (es : list (Z * bytes)) : result unit SecretStore :=
  foldl (fun r '(index, secret) =>
    s ← r;
    if (bucket index <? length (known s))%nat
    then Ok {| known := <[bucket index := Some (index, secret)]> (known s) |}
    else Panic) (Ok store_new) es.

(** What a channel does: the secret of commitment [n], [n + 1], ... in turn. *)
Fixpoint insert_all (s : SecretStore) (n : Z) (secrets : list bytes)
    : result InsertError SecretStore :=
  match secrets with
  | [] => Ok s
  | x :: xs => s ← insert s (index_for_commitment n) x; insert_all s (n + 1) xs
  end.

(** ** Derivation *)
Lemma land_bit_test index b :
  0 <= b -> negb (Z.land index (Z.shiftl 1 b) =? 0) = Z.testbit index b.
Proof.
  intros Hb. destruct (Z.testbit index b) eqn:Ht.
  - destruct (Z.eqb_spec (Z.land index (Z.shiftl 1 b)) 0) as [H|H]; [|done].
    assert (Z.testbit (Z.land index (Z.shiftl 1 b)) b = true) as Hc.
    { rewrite Z.land_spec, Ht, Z.shiftl_spec, Z.sub_diag by lia. done. }
    by rewrite H, Z.bits_0 in Hc.
  - rewrite (proj2 (Z.eqb_eq _ _)); [done|]. apply Z.bits_inj_0. intros k.
    rewrite Z.land_spec. destruct (decide (k = b)) as [->|Hk]; [by rewrite Ht|].
    destruct (decide (k < 0)); [by rewrite !Z.testbit_neg_r|].
    rewrite Z.shiftl_spec by lia. destruct (decide (k < b)).
    + by rewrite (Z.testbit_neg_r 1), andb_false_r by lia.
    + rewrite (Z.bits_above_log2 1), andb_false_r by (simpl; lia). done.
Qed.

Lemma derive_secret_S p b index :
  derive_secret p (S b) index =
  derive_secret (if Z.testbit index (Z.of_nat b)
    then Sha256.digest (flip_bit p (Z.of_nat b)) else p) b index.
Proof. cbn [derive_secret]. cbv zeta. by rewrite land_bit_test by lia. Qed.

(** Only the bits below [bits] matter. *)
Lemma derive_secret_ext p bits i j :
  (forall k, (k < bits)%nat -> Z.testbit i (Z.of_nat k) = Z.testbit j (Z.of_nat k)) ->
  derive_secret p bits i = derive_secret p bits j.
Proof.
  revert p; induction bits as [|b IH]; intros p H; [reflexivity|].
  rewrite !derive_secret_S, H by lia. apply IH. intros. apply H. lia.
Qed.

Lemma derive_secret_zero p bits i :
  (forall k, (k < bits)%nat -> Z.testbit i (Z.of_nat k) = false) -> derive_secret p bits i = p.
Proof.
  revert p; induction bits as [|b IH]; intros p H; [reflexivity|].
  rewrite derive_secret_S, H by lia. apply IH. intros. apply H. lia.
Qed.

(** Going down to an index in two legs: through [k], which keeps the bits of
    [j] from [l] up and has none below. *)
Lemma derive_secret_compose p b l j k :
  (l <= b)%nat ->
  (forall i, (i < l)%nat -> Z.testbit k (Z.of_nat i) = false) ->
  (forall i, (l <= i < b)%nat -> Z.testbit k (Z.of_nat i) = Z.testbit j (Z.of_nat i)) ->
  derive_secret p b j = derive_secret (derive_secret p b k) l j.
Proof.
  intros Hl Hlow. revert p. induction Hl as [|b Hb IH]; intros p Hhigh.
  - by rewrite (derive_secret_zero p l k).
  - rewrite !derive_secret_S, Hhigh by lia. apply IH. intros. apply Hhigh. lia.
Qed.

(** The same in arithmetic: [k] is a multiple of [2^l] and [j] is in the
    block it starts. *)
Lemma block_bits l j k :
  (k mod 2 ^ Z.of_nat l = 0) -> k <= j < k + 2 ^ Z.of_nat l ->
  (forall i, (i < l)%nat -> Z.testbit k (Z.of_nat i) = false) /\
  (forall i, (l <= i)%nat -> Z.testbit k (Z.of_nat i) = Z.testbit j (Z.of_nat i)).
Proof.
  intros Hm Hj. split; intros i Hi.
  - rewrite <- (Z.mod_pow2_bits_low k (Z.of_nat l)) by lia. by rewrite Hm, Z.bits_0.
  - assert (0 < 2 ^ Z.of_nat l) by (apply Z.pow_pos_nonneg; lia).
    replace (Z.of_nat i) with (Z.of_nat (i - l) + Z.of_nat l) by lia.
    rewrite <- !Z.div_pow2_bits by lia. f_equal.
    apply (Z.div_unique_pos j _ _ (j - k)); [lia|].
    pose proof (Z.div_mod k (2 ^ Z.of_nat l) ltac:(lia)). lia.
Qed.

Lemma derive_block p b l j k :
  (l <= b)%nat -> k mod 2 ^ Z.of_nat l = 0 -> k <= j < k + 2 ^ Z.of_nat l ->
  derive_secret p b j = derive_secret (derive_secret p b k) l j.
Proof.
  intros Hl Hm Hj. destruct (block_bits l j k Hm Hj) as [Hlow Hhigh].
  apply derive_secret_compose; [done..|]. intros. apply Hhigh. lia.
Qed.

(** ** Buckets *)
Lemma pos_trailing_zeros_spec p :
  exists q, Z.pos p = 2 ^ Z.of_nat (pos_trailing_zeros p) * (2 * q + 1) /\ 0 <= q.
Proof.
  induction p as [p _|p [q [Hq Hq0]]|].
  - exists (Z.pos p). simpl. lia.
  - exists q. split; [|done]. cbn [pos_trailing_zeros].
    rewrite Nat2Z.inj_succ, Z.pow_succ_r, Pos2Z.inj_xO, Hq by lia. lia.
  - exists 0. simpl. lia.
Qed.

(** [l] is the bucket of [x]: [x] is an odd multiple of [2^l], or zero. *)
Definition in_bucket (x : Z) (l : nat) : Prop :=
  (x = 0 /\ l = 48%nat) \/ (exists q, x = 2 ^ Z.of_nat l * (2 * q + 1) /\ 0 <= q).

Lemma bucket_in x : 0 <= x -> in_bucket x (bucket x).
Proof.
  intros Hx. unfold bucket. destruct (Z.eqb_spec x 0) as [->|Hx0]; [by left|].
  destruct x as [|p|p]; [done| |lia]. right. apply pos_trailing_zeros_spec.
Qed.

Lemma pow2_odd_inj a b q r :
  0 <= q -> 0 <= r -> 2 ^ Z.of_nat a * (2 * q + 1) = 2 ^ Z.of_nat b * (2 * r + 1) -> a = b.
Proof.
  revert b. induction a as [|a IH]; intros [|b] Hq Hr H; [done|..];
    rewrite ?Nat2Z.inj_succ, ?Z.pow_succ_r in H by lia.
  - simpl in H. lia.
  - simpl in H. lia.
  - f_equal. apply IH; [done..|]. lia.
Qed.

Lemma in_bucket_unique x l : in_bucket x l -> bucket x = l.
Proof.
  intros Hl. assert (0 <= x) as Hx.
  { destruct Hl as [[-> _]|(q & -> & Hq)]; [lia|].
    assert (0 < 2 ^ Z.of_nat l) by (apply Z.pow_pos_nonneg; lia). nia. }
  destruct (bucket_in x Hx) as [[Hx0 Hb]|(r & Hr & Hr0)];
    destruct Hl as [[Hx1 Hl]|(q & Hq & Hq0)]; try congruence.
  - subst x. assert (0 < 2 ^ Z.of_nat l) by (apply Z.pow_pos_nonneg; lia). nia.
  - rewrite Hx1 in Hr. assert (0 < 2 ^ Z.of_nat (bucket x)) by (apply Z.pow_pos_nonneg; lia).
    subst x. nia.
  - eapply pow2_odd_inj; [exact Hr0|exact Hq0|]. by rewrite <- Hr.
Qed.

Lemma bucket_le x : 0 <= x <= MAX_INDEX -> (bucket x <= 48)%nat.
Proof.
  unfold MAX_INDEX. intros Hx. destruct (bucket_in x ltac:(lia)) as [[_ ->]|(q & Hq & Hq0)]; [lia|].
  destruct (decide (bucket x <= 48)%nat) as [|Hb]; [done|].
  assert (2 ^ 49 <= 2 ^ Z.of_nat (bucket x)) by (apply Z.pow_le_mono_r; lia). nia.
Qed.

(** A bucket's index is a multiple of [2^l]; the block it covers stays within
    the 48-bit indices. *)
Lemma bucket_mod x : 0 <= x -> x mod 2 ^ Z.of_nat (bucket x) = 0.
Proof.
  intros Hx. destruct (bucket_in x Hx) as [[-> ->]|(q & Hq & _)]; [done|].
  rewrite Hq at 1. rewrite Z.mul_comm. apply Z.mod_mul.
  assert (0 < 2 ^ Z.of_nat (bucket x)) by (apply Z.pow_pos_nonneg; lia). lia.
Qed.

(** Every revealed index is in the block of the lowest revealed index of some
    bucket. *)
Lemma largest_block (P : nat -> Prop) `{!forall l, Decision (P l)} n :
  P 0%nat -> exists l, (l <= n)%nat /\ P l /\ (l < n -> ~ P (S l))%nat.
Proof.
  induction n as [|n IH]; intros H0; [exists 0%nat; split_and!; [lia|done|lia]|].
  destruct (decide (P (S n))) as [|Hn]; [exists (S n); split_and!; [lia|done|lia]|].
  destruct (IH H0) as (l & Hl & HP & Hnext). exists l. split_and!; [lia|done|].
  intros _. destruct (decide (l < n)%nat); [by apply Hnext|].
  by replace (S l) with (S n) by lia.
Qed.

Lemma coverage I J :
  0 <= I <= J -> J <= MAX_INDEX ->
  exists K, I <= K <= J /\ J < K + 2 ^ Z.of_nat (bucket K) /\
    (forall Y, I <= Y < K -> bucket Y <> bucket K).
Proof.
  unfold MAX_INDEX. intros HI HJ.
  destruct (largest_block (fun l => I <= J / 2 ^ Z.of_nat l * 2 ^ Z.of_nat l) 48)
    as (l & Hl & HP & Hnext).
  { rewrite Z.pow_0_r, Z.div_1_r. lia. }
  assert (Hp : 0 < 2 ^ Z.of_nat l) by (apply Z.pow_pos_nonneg; lia).
  pose proof (Z.div_mod J (2 ^ Z.of_nat l) ltac:(lia)) as Hdm.
  pose proof (Z.mod_pos_bound J (2 ^ Z.of_nat l) Hp) as Hmb.
  set (K := J / 2 ^ Z.of_nat l * 2 ^ Z.of_nat l) in *.
  destruct (decide (l = 48%nat)) as [->|Hl48].
  { assert (J / 2 ^ Z.of_nat 48 = 0) as Hz by (apply Z.div_small; simpl; lia).
    exists 0. change (bucket 0) with 48%nat. unfold K in *. rewrite Hz in *.
    split_and!; simpl; intros; lia. }
  specialize (Hnext ltac:(lia)). rewrite Nat2Z.inj_succ, Z.pow_succ_r in Hnext by lia.
  set (d := J / 2 ^ Z.of_nat l) in *.
  assert (Hd0 : 0 <= d) by (apply Z.div_pos; lia).
  assert (Hd2 : J / (2 * 2 ^ Z.of_nat l) = d / 2).
  { unfold d. rewrite Z.div_div by lia. f_equal. lia. }
  rewrite Hd2 in Hnext.
  assert (Hodd : d = 2 * (d / 2) + 1).
  { pose proof (Z.div_mod d 2 ltac:(lia)). pose proof (Z.mod_pos_bound d 2 ltac:(lia)).
    destruct (decide (d mod 2 = 0)); [|lia]. exfalso. apply Hnext. unfold K in HP. nia. }
  assert (HK : bucket K = l).
  { apply in_bucket_unique. right. exists (d / 2). split; [|apply Z.div_pos; lia].
    unfold K. rewrite Hodd at 1. lia. }
  exists K. rewrite HK. split_and!; [done|unfold K in *; lia|lia|].
  intros Y HY HYl. destruct (bucket_in Y ltac:(lia)) as [[_ H48]|(q & Hq & Hq0)]; [congruence|].
  rewrite HYl in Hq. assert (q < d / 2).
  { unfold K in HY. rewrite Hodd in HY. nia. }
  nia.
Qed.

(** ** The coverage test of [secret_for] *)
Lemma land_mask x b :
  u64 x -> (b < 48)%nat -> Z.land x (bucket_mask b) = x / 2 ^ Z.of_nat b * 2 ^ Z.of_nat b.
Proof.
  intros Hx Hb. unfold bucket_mask. rewrite (proj2 (Nat.eqb_neq _ _)) by lia.
  rewrite Z.shiftl_1_l, <- Z.shiftr_div_pow2, <- Z.shiftl_mul_pow2 by lia.
  replace (2 ^ Z.of_nat b - 1) with (Z.ones (Z.of_nat b)) by (rewrite Z.ones_equiv; lia).
  change (2 ^ 64 - 1) with (Z.ones 64).
  apply Z.bits_inj'. intros k Hk. rewrite Z.land_spec, Z.lxor_spec, Z.shiftl_spec by lia.
  destruct (decide (k < Z.of_nat b)) as [Hkb|Hkb].
  - rewrite !Z.ones_spec_low, (Z.testbit_neg_r (Z.shiftr _ _)) by lia. apply andb_false_r.
  - rewrite Z.shiftr_spec, Z.sub_add by lia. destruct (decide (k < 64)).
    + rewrite Z.ones_spec_low, Z.ones_spec_high by lia. apply andb_true_r.
    + by rewrite (uint_testbit_high 64 x) by (done || lia).
Qed.

Lemma covers_spec K x J :
  0 <= K <= MAX_INDEX -> 0 <= J <= MAX_INDEX ->
  covers (K, x) (bucket K) J = true <-> K <= J < K + 2 ^ Z.of_nat (bucket K).
Proof.
  intros HK HJ. pose proof (bucket_mod K ltac:(lia)) as Hm. unfold covers. simpl fst.
  rewrite andb_true_iff, Z.eqb_eq, Z.leb_le. unfold MAX_INDEX in *.
  destruct (decide (bucket K = 48%nat)) as [H48|H48].
  - rewrite H48 in *. unfold bucket_mask. simpl Nat.eqb. cbv iota. rewrite !Z.land_0_r.
    rewrite Z.mod_small in Hm by (simpl; lia). simpl. lia.
  - pose proof (bucket_le K ltac:(unfold MAX_INDEX; lia)).
    rewrite !land_mask by (unfold uint; lia).
    assert (0 < 2 ^ Z.of_nat (bucket K)) as Hp by (apply Z.pow_pos_nonneg; lia).
    pose proof (Z.div_mod K _ ltac:(apply Z.lt_neq in Hp; symmetry; exact Hp)) as HdK.
    pose proof (Z.div_mod J (2 ^ Z.of_nat (bucket K)) ltac:(lia)) as HdJ.
    pose proof (Z.mod_pos_bound J _ Hp). split; [lia|]. intros HJK. split; [|lia].
    f_equal. symmetry. apply (Z.div_unique_pos J _ _ (J - K)); lia.
Qed.

(** ** The store invariant

    [f] gives the secret of each index; the secrets of [[I, MAX_INDEX]] have
    been inserted.  Each bucket holds its lowest revealed index, and derives
    every secret of the block it starts. *)
Record store_inv (f : Z -> bytes) (I : Z) (s : SecretStore) : Prop := {
  inv_length : length (known s) = 49%nat;
  inv_entry : forall l K x, known s !! l = Some (Some (K, x)) ->
    bucket K = l /\ I <= K <= MAX_INDEX /\ x = f K /\
    (forall Y, I <= Y < K -> bucket Y <> l) /\
    (forall J, K <= J < K + 2 ^ Z.of_nat l -> derive_secret x l J = f J);
  inv_lowest : forall X, I <= X <= MAX_INDEX ->
    (forall Y, I <= Y < X -> bucket Y <> bucket X) ->
    known s !! bucket X = Some (Some (X, f X));
}.

Lemma store_new_inv f : store_inv f (MAX_INDEX + 1) store_new.
Proof.
  split; [done| |intros; lia].
  intros l K x H. unfold store_new in H. cbn [known] in H. by apply lookup_replicate in H as [? _].
Qed.

(** Two multiples of [2^b] are at least [2^b] apart. *)
Lemma between_multiples b l i k q :
  i mod 2 ^ Z.of_nat b = 0 -> i < k < i + 2 ^ Z.of_nat b ->
  k = 2 ^ Z.of_nat l * q -> (l < b)%nat.
Proof.
  intros Hi Hk Hq. destruct (decide (l < b)%nat) as [|Hlb]; [done|exfalso].
  assert (Hb : 0 < 2 ^ Z.of_nat b) by (apply Z.pow_pos_nonneg; lia).
  assert (2 ^ Z.of_nat l = 2 ^ Z.of_nat b * 2 ^ Z.of_nat (l - b)) as Hl.
  { rewrite <- Z.pow_add_r by lia. f_equal. lia. }
  rewrite Hl, <- Z.mul_assoc in Hq. set (m := 2 ^ Z.of_nat (l - b) * q) in *.
  pose proof (Z.div_mod i (2 ^ Z.of_nat b) ltac:(lia)) as Hd. rewrite Hi in Hd.
  set (d := i / 2 ^ Z.of_nat b) in *.
  assert (d < m) by (apply (Z.mul_lt_mono_pos_l (2 ^ Z.of_nat b)); lia).
  assert (m < d + 1) by (apply (Z.mul_lt_mono_pos_l (2 ^ Z.of_nat b)); lia). lia.
Qed.

Lemma block_max I J : 0 <= I <= MAX_INDEX -> J < I + 2 ^ Z.of_nat (bucket I) -> J <= MAX_INDEX.
Proof.
  intros HI HJ. pose proof (bucket_le I HI) as Hb. pose proof (bucket_mod I ltac:(lia)) as Hm.
  unfold MAX_INDEX in *. assert (2 ^ 48 = 2 ^ Z.of_nat (bucket I) * 2 ^ Z.of_nat (48 - bucket I)) as H48.
  { rewrite <- Z.pow_add_r by lia. f_equal. lia. }
  assert (0 < 2 ^ Z.of_nat (bucket I)) by (apply Z.pow_pos_nonneg; lia).
  pose proof (Z.div_mod I (2 ^ Z.of_nat (bucket I)) ltac:(lia)) as Hd. rewrite Hm in Hd.
  set (d := I / 2 ^ Z.of_nat (bucket I)) in *. set (P := 2 ^ Z.of_nat (48 - bucket I)) in *.
  assert (d < P) by (apply (Z.mul_lt_mono_pos_l (2 ^ Z.of_nat (bucket I))); lia).
  assert (2 ^ Z.of_nat (bucket I) * (d + 1) <= 2 ^ Z.of_nat (bucket I) * P)
    by (apply Z.mul_le_mono_nonneg_l; lia). lia.
Qed.

Lemma check_lower_Ok known secret b lowers l K x :
  check_lower known secret b lowers = Ok tt -> l ∈ lowers ->
  known !! l = Some (Some (K, x)) -> derive_secret secret b K = x.
Proof.
  induction lowers as [|l' ls IH]; cbn [check_lower]; intros Hc Hl Hk.
  { by apply elem_of_nil in Hl. }
  apply bind_Ok in Hc as (e & He & Hc). apply bind_Ok in Hc as ([] & Hchk & Hc).
  apply expect_Ok in He. apply elem_of_cons in Hl as [->|Hl]; [|by apply IH].
  rewrite Hk in He. injection He as <-. apply fail_if_Ok in Hchk.
  by apply negb_false_iff, bool_decide_eq_true in Hchk.
Qed.

(** The new entry derives every secret of its block: through the lower bucket
    that covers it, whose secret the checks of [insert] re-derived. *)
Lemma insert_derives f I s J :
  0 <= I <= MAX_INDEX -> store_inv f (I + 1) s ->
  check_lower (known s) (f I) (bucket I) (seq 0 (bucket I)) = Ok tt ->
  I <= J < I + 2 ^ Z.of_nat (bucket I) -> derive_secret (f I) (bucket I) J = f J.
Proof.
  intros HI Hinv Hchk HJ. pose proof (bucket_mod I ltac:(lia)) as HIm.
  destruct (decide (J = I)) as [->|HJI].
  { destruct (block_bits (bucket I) I I HIm ltac:(lia)) as [Hz _].
    by apply derive_secret_zero. }
  assert (J <= MAX_INDEX) as HJmax by (eapply block_max; [exact HI|lia]).
  destruct (coverage (I + 1) J ltac:(lia) HJmax) as (K & HK & HJK & Hmin).
  assert (bucket K < bucket I)%nat as Hlt.
  { destruct (bucket_in K ltac:(lia)) as [[? ?]|(q & Hq & _)]; [lia|].
    eapply (between_multiples _ _ I K); [done|lia|exact Hq]. }
  pose proof (inv_lowest _ _ _ Hinv K ltac:(lia) Hmin) as Hkn.
  pose proof (inv_entry _ _ _ Hinv _ _ _ Hkn) as (_ & _ & _ & _ & Hder).
  rewrite (derive_block _ _ (bucket K) J K) by (lia || apply bucket_mod; lia).
  rewrite (check_lower_Ok _ _ _ _ (bucket K) K (f K) Hchk); [apply Hder; lia| |done].
  apply elem_of_seq. lia.
Qed.

Lemma insert_inv f I s s' :
  0 <= I <= MAX_INDEX -> store_inv f (I + 1) s -> insert s I (f I) = Ok s' ->
  store_inv f I s'.
Proof.
  intros HI Hinv Hins. unfold insert in Hins.
  apply bind_Ok in Hins as ([] & Hchk & Hins).
  destruct (Nat.ltb_spec (bucket I) (length (known s))) as [Hb|]; [|discriminate Hins].
  injection Hins as <-. split; cbn [known].
  - rewrite length_insert. apply Hinv.
  - intros l K x HK. destruct (decide (l = bucket I)) as [->|Hne].
    + rewrite list_lookup_insert_eq in HK by done. injection HK as <- <-.
      split_and!; [done|lia|lia|done|intros; lia|].
      intros J HJ. by apply (insert_derives f I s).
    + rewrite list_lookup_insert_ne in HK by done.
      destruct (inv_entry _ _ _ Hinv _ _ _ HK) as (Hbk & HKI & Hx & Hmin & Hder).
      split_and!; [done|lia|lia|done| |done].
      intros Y HY. destruct (decide (Y = I)) as [->|]; [congruence|]. apply Hmin. lia.
  - intros X HX Hmin. destruct (decide (X = I)) as [->|HXI].
    + by apply list_lookup_insert_eq.
    + rewrite list_lookup_insert_ne by (apply Hmin; lia).
      apply (inv_lowest _ _ _ Hinv); [lia|]. intros. apply Hmin. lia.
Qed.

(** ** Lookup under the invariant *)
Lemma secret_for_loop_spec f ks b0 J :
  (exists l K x, ks !! l = Some (Some (K, x)) /\ covers (K, x) (b0 + l) J = true) ->
  (forall l K x, ks !! l = Some (Some (K, x)) -> covers (K, x) (b0 + l) J = true ->
     derive_secret x (b0 + l) J = f J) ->
  secret_for_loop ks b0 J = Some (f J).
Proof.
  revert b0; induction ks as [|e ks IH]; intros b0 (l & K & x & Hl & Hc) Hall; [done|].
  destruct e as [[K0 x0]|]; cbn [secret_for_loop].
  - destruct (covers (K0, x0) b0 J) eqn:Hc0.
    { f_equal. specialize (Hall 0%nat K0 x0). rewrite Nat.add_0_r in Hall. by apply Hall. }
    apply IH.
    + destruct l as [|l]; [simplify_eq/=; rewrite Nat.add_0_r in Hc; congruence|].
      exists l, K, x. by rewrite Nat.add_succ_comm.
    + intros l' K' x' Hl' Hc'. rewrite Nat.add_succ_comm in *. by apply (Hall (S l') K').
  - apply IH.
    + destruct l as [|l]; [done|]. exists l, K, x. by rewrite Nat.add_succ_comm.
    + intros l' K' x' Hl' Hc'. rewrite Nat.add_succ_comm in *. by apply (Hall (S l') K').
Qed.

Lemma secret_for_inv f I s J :
  0 <= I -> store_inv f I s -> I <= J <= MAX_INDEX -> secret_for s J = Some (f J).
Proof.
  intros HI Hinv HJ. apply secret_for_loop_spec; cbn [Nat.add].
  - destruct (coverage I J ltac:(lia) ltac:(lia)) as (K & HK & HJK & Hmin).
    exists (bucket K), K, (f K). split; [apply Hinv; [lia|done]|].
    apply covers_spec; lia.
  - intros l K x Hl Hc. destruct (inv_entry _ _ _ Hinv _ _ _ Hl) as (<- & HK & _ & _ & Hder).
    apply Hder. by apply covers_spec in Hc; [|lia..].
Qed.

Lemma index_for_commitment_eq n : 0 <= n <= MAX_INDEX -> index_for_commitment n = MAX_INDEX - n.
Proof. unfold index_for_commitment, MAX_INDEX. intros. apply wrap_small. unfold uint. lia. Qed.

Lemma insert_all_inv f secrets n s s' :
  0 <= n -> n + Z.of_nat (length secrets) <= MAX_INDEX + 1 ->
  store_inv f (MAX_INDEX - n + 1) s ->
  (forall i x, secrets !! i = Some x -> x = f (MAX_INDEX - (n + Z.of_nat i))) ->
  insert_all s n secrets = Ok s' ->
  store_inv f (MAX_INDEX - (n + Z.of_nat (length secrets)) + 1) s'.
Proof.
  revert n s; induction secrets as [|x xs IH]; intros n s Hn Hlen Hinv Hf Hrun.
  { injection Hrun as <-. by rewrite Z.add_0_r. }
  cbn [insert_all length] in *. apply bind_Ok in Hrun as (s1 & Hins & Hrun).
  rewrite index_for_commitment_eq in Hins by lia.
  replace (n + Z.of_nat (S (length xs))) with (n + 1 + Z.of_nat (length xs)) in * by lia.
  apply (IH (n + 1) s1); [lia|lia| | |done].
  - replace (MAX_INDEX - (n + 1) + 1) with (MAX_INDEX - n) by lia.
    apply (insert_inv f _ s); [lia|done|].
    specialize (Hf 0%nat x eq_refl). rewrite Z.add_0_r in Hf. by rewrite <- Hf.
  - intros i y Hi. rewrite (Hf (S i) y Hi). f_equal. lia.
Qed.

Definition secrets_fn (secrets : list bytes) (J : Z) : bytes :=
  secrets !!! Z.to_nat (MAX_INDEX - J).

Lemma insert_all_store secrets s :
  Z.of_nat (length secrets) <= 2 ^ 48 -> insert_all store_new 0 secrets = Ok s ->
  store_inv (secrets_fn secrets) (MAX_INDEX + 1 - Z.of_nat (length secrets)) s.
Proof.
  intros Hlen Hrun.
  replace (MAX_INDEX + 1 - Z.of_nat (length secrets))
    with (MAX_INDEX - (0 + Z.of_nat (length secrets)) + 1) by lia.
  apply (insert_all_inv _ secrets 0 store_new); [lia|unfold MAX_INDEX; lia|..|exact Hrun].
  - replace (MAX_INDEX - 0 + 1) with (MAX_INDEX + 1) by lia. apply store_new_inv.
  - intros i x Hi. unfold secrets_fn.
    replace (Z.to_nat _) with i by lia. by rewrite (list_lookup_total_correct _ _ _ Hi).
Qed.

Lemma secret_for_loop_none ks b J :
  (forall l K x, ks !! l = Some (Some (K, x)) -> J < K) -> secret_for_loop ks b J = None.
Proof.
  revert b; induction ks as [|e ks IH]; intros b H; [done|].
  assert (H' : forall b, secret_for_loop ks b J = None).
  { intros b'. apply IH. intros l K x Hl. by apply (H (S l) K x). }
  destruct e as [[K x]|]; cbn [secret_for_loop]; [|done].
  specialize (H 0%nat K x eq_refl). unfold covers. cbn [fst].
  by rewrite (proj2 (Z.leb_gt K J)), andb_false_r.
Qed.

(** The store knows nothing of the commitments not yet revoked. *)
Lemma secret_unrevealed secrets s n :
  Z.of_nat (length secrets) <= n <= MAX_INDEX -> insert_all store_new 0 secrets = Ok s ->
  secret_for s (index_for_commitment n) = None.
Proof.
  intros Hn Hrun. assert (Hlen : Z.of_nat (length secrets) <= 2 ^ 48) by (unfold MAX_INDEX in *; lia).
  pose proof (insert_all_store secrets s Hlen Hrun) as Hinv.
  rewrite index_for_commitment_eq by (unfold MAX_INDEX in *; lia).
  apply secret_for_loop_none. intros l K x Hl.
  destruct (inv_entry _ _ _ Hinv l K x Hl) as (_ & HK & _). lia.
Qed.

(** ** Honest secrets are accepted *)
Lemma bucket_add_pow I l :
  0 <= I -> (l < bucket I)%nat -> bucket (I + 2 ^ Z.of_nat l) = l.
Proof.
  intros HI Hl. apply in_bucket_unique. right.
  pose proof (bucket_mod I HI) as Hm.
  assert (0 < 2 ^ Z.of_nat (bucket I)) by (apply Z.pow_pos_nonneg; lia).
  pose proof (Z.div_mod I (2 ^ Z.of_nat (bucket I)) ltac:(lia)) as Hd. rewrite Hm in Hd.
  assert (2 ^ Z.of_nat (bucket I) = 2 ^ Z.of_nat l * (2 * 2 ^ Z.of_nat (bucket I - S l))) as Hp.
  { rewrite <- Z.pow_succ_r, <- Z.pow_add_r by lia. f_equal. lia. }
  exists (2 ^ Z.of_nat (bucket I - S l) * (I / 2 ^ Z.of_nat (bucket I))).
  split; [rewrite Hp in Hd at 1; lia|].
  apply Z.mul_nonneg_nonneg; [apply Z.pow_nonneg; lia|apply Z.div_pos; lia].
Qed.

Lemma check_lower_honest known secret b lowers :
  (forall l, l ∈ lowers -> (l < length known)%nat /\
     forall K x, known !! l = Some (Some (K, x)) -> derive_secret secret b K = x) ->
  check_lower known secret b lowers = Ok tt.
Proof.
  induction lowers as [|l ls IH]; intros H; [done|]. cbn [check_lower].
  destruct (H l ltac:(by left)) as [Hl Hd].
  destruct (lookup_lt_is_Some_2 known l Hl) as [e He]. rewrite He. cbn [expect mbind result_bind].
  assert (check_lower known secret b ls = Ok tt) as Hrec by (apply IH; intros; apply H; by right).
  destruct e as [[K x]|]; cbn [mbind result_bind]; [|exact Hrec].
  rewrite bool_decide_eq_true_2 by (by apply Hd). exact Hrec.
Qed.

Lemma insert_honest seed I s :
  0 <= I <= MAX_INDEX -> store_inv (generate_from_seed seed) (I + 1) s ->
  exists s', insert s I (generate_from_seed seed I) = Ok s'.
Proof.
  intros HI Hinv. unfold insert.
  pose proof (bucket_le I HI) as Hb. pose proof (inv_length _ _ _ Hinv) as Hlen.
  rewrite check_lower_honest.
  { cbn [mbind result_bind]. rewrite (proj2 (Nat.ltb_lt _ _)) by lia. by eexists. }
  intros l Hl%elem_of_seq. split; [lia|]. intros K x HK.
  destruct (inv_entry _ _ _ Hinv _ _ _ HK) as (HKb & HKI & -> & Hmin & _).
  assert (0 < 2 ^ Z.of_nat l) by (apply Z.pow_pos_nonneg; lia).
  assert (2 ^ Z.of_nat l < 2 ^ Z.of_nat (bucket I)) by (apply Z.pow_lt_mono_r; lia).
  assert (K <= I + 2 ^ Z.of_nat l).
  { destruct (decide (K <= I + 2 ^ Z.of_nat l)) as [|Hgt]; [done|].
    exfalso. apply (Hmin (I + 2 ^ Z.of_nat l)); [lia|]. apply bucket_add_pow; lia. }
  unfold generate_from_seed. symmetry.
  apply derive_block; [lia|apply bucket_mod; lia|lia].
Qed.

Definition honest_secrets (seed : bytes) (from n : nat) : list bytes :=
  map (fun i => generate_from_seed seed (index_for_commitment (Z.of_nat i))) (seq from n).

Lemma insert_all_honest seed n from s :
  Z.of_nat from + Z.of_nat n <= MAX_INDEX + 1 ->
  store_inv (generate_from_seed seed) (MAX_INDEX - Z.of_nat from + 1) s ->
  exists s', insert_all s (Z.of_nat from) (honest_secrets seed from n) = Ok s'.
Proof.
  revert from s; induction n as [|n IH]; intros from s Hn Hinv; [by exists s|].
  unfold honest_secrets. cbn [seq map insert_all].
  rewrite index_for_commitment_eq by lia.
  destruct (insert_honest seed (MAX_INDEX - Z.of_nat from) s) as [s1 Hs1]; [lia|done|].
  rewrite Hs1. cbn [mbind result_bind].
  replace (Z.of_nat from + 1) with (Z.of_nat (S from)) by lia. apply IH; [lia|].
  replace (MAX_INDEX - Z.of_nat (S from) + 1) with (MAX_INDEX - Z.of_nat from) by lia.
  by apply (insert_inv _ _ s s1); [lia|..].
Qed.

Lemma secret_for_insert_all secrets s i x :
  Z.of_nat (length secrets) <= 2 ^ 48 -> insert_all store_new 0 secrets = Ok s ->
  secrets !! i = Some x -> secret_for s (index_for_commitment (Z.of_nat i)) = Some x.
Proof.
  intros Hlen Hrun Hi. pose proof (lookup_lt_Some _ _ _ Hi) as Hil.
  rewrite index_for_commitment_eq by (unfold MAX_INDEX; lia).
  assert (x = secrets_fn secrets (MAX_INDEX - Z.of_nat i)) as ->.
  { unfold secrets_fn. replace (Z.to_nat _) with i by lia.
    by rewrite (list_lookup_total_correct _ _ _ Hi). }
  eapply secret_for_inv; [|by apply insert_all_store|]; unfold MAX_INDEX; lia.
Qed.

Lemma insert_all_snoc secrets x s s1 s' n :
  insert_all s n secrets = Ok s1 ->
  insert s1 (index_for_commitment (n + Z.of_nat (length secrets))) x = Ok s' ->
  insert_all s n (secrets ++ [x]) = Ok s'.
Proof.
  revert s n; induction secrets as [|y ys IH]; intros s n Hrun Hins; cbn [insert_all app length] in *.
  - injection Hrun as ->. rewrite Z.add_0_r in Hins. by rewrite Hins.
  - apply bind_Ok in Hrun as (s2 & Hy & Hrun). rewrite Hy. cbn [mbind result_bind].
    apply (IH s2 (n + 1)); [done|].
    by replace (n + 1 + Z.of_nat (length ys)) with (n + Z.of_nat (S (length ys))) by lia.
Qed.

(** [C35] Shachain storage is complete and sound, whoever sends the secrets: if
    the store accepted a secret for each of the commitments 0..n-1 in order
    (up to the full 2^48), it returns exactly that secret for every one of
    them, although it keeps at most 49, and it returns nothing for any
    commitment that has not been revoked. *)
Theorem secret_store_complete secrets s :
  Z.of_nat (length secrets) <= 2 ^ 48 -> insert_all store_new 0 secrets = Ok s ->
  (forall i x, secrets !! i = Some x ->
    secret_for s (index_for_commitment (Z.of_nat i)) = Some x) /\
  (forall n, Z.of_nat (length secrets) <= n <= MAX_INDEX ->
    secret_for s (index_for_commitment n) = None).
Proof.
  intros Hlen Hrun. split.
  - intros i x Hi. by eapply secret_for_insert_all.
  - intros n Hn. by apply (secret_unrevealed secrets).
Qed.

(** Honest secrets are never refused: the secrets generated from one
    seed for commitments 0..n-1 are all accepted in order, and the store then
    derives each of them back. *)
Theorem honest_secrets_accepted seed n :
  Z.of_nat n <= 2 ^ 48 ->
  exists s, insert_all store_new 0 (honest_secrets seed 0 n) = Ok s /\
    forall i, (i < n)%nat ->
      secret_for s (index_for_commitment (Z.of_nat i)) =
        Some (generate_from_seed seed (index_for_commitment (Z.of_nat i))).
Proof.
  intros Hn. destruct (insert_all_honest seed n 0 store_new) as [s Hs].
  { unfold MAX_INDEX. lia. }
  { replace (MAX_INDEX - Z.of_nat 0 + 1) with (MAX_INDEX + 1) by lia. apply store_new_inv. }
  exists s. split; [exact Hs|]. intros i Hi.
  assert (Hlen : length (honest_secrets seed 0 n) = n)
    by (unfold honest_secrets; by rewrite length_map, length_seq).
  assert (Hinv : store_inv (generate_from_seed seed) (MAX_INDEX - (0 + Z.of_nat n) + 1) s).
  { rewrite <- Hlen. apply (insert_all_inv _ (honest_secrets seed 0 n) 0 store_new);
      [lia|unfold MAX_INDEX; lia|..|exact Hs].
    - replace (MAX_INDEX - 0 + 1) with (MAX_INDEX + 1) by lia. apply store_new_inv.
    - intros j x Hj. unfold honest_secrets in Hj.
      rewrite list_lookup_fmap in Hj. apply fmap_Some in Hj as (k & Hk & ->).
      apply lookup_seq in Hk as [-> Hk].
      rewrite index_for_commitment_eq by (unfold MAX_INDEX; lia). f_equal. }
  rewrite index_for_commitment_eq by (unfold MAX_INDEX; lia).
  eapply secret_for_inv; [|exact Hinv|]; unfold MAX_INDEX; lia.
Qed.

Definition sample_secrets : list bytes :=
  [Sha256.digest (flip_bit (replicate 32 7) 0); replicate 32 7].
Definition sample_store : SecretStore :=
  {| known := Some (MAX_INDEX, Sha256.digest (flip_bit (replicate 32 7) 0))
              :: Some (MAX_INDEX - 1, replicate 32 7) :: replicate 47 None |}.

Lemma sample_insert_all : insert_all store_new 0 sample_secrets = Ok sample_store.
Proof. by vm_compute. Qed.

Lemma secret_store_complete_witness :
  secret_for sample_store (index_for_commitment (Z.of_nat 1)) = Some (replicate 32 7) /\
  secret_for sample_store (index_for_commitment 2) = None.
Proof.
  split.
  - apply (secret_store_complete sample_secrets sample_store);
      [simpl; lia|apply sample_insert_all|reflexivity].
  - apply (secret_store_complete sample_secrets sample_store);
      [simpl; lia|apply sample_insert_all|unfold MAX_INDEX; simpl; lia].
Defined.

Lemma honest_secrets_accepted_witness :
  exists s, insert_all store_new 0 (honest_secrets (replicate 32 1) 0 2) = Ok s /\
    forall i, (i < 2)%nat ->
      secret_for s (index_for_commitment (Z.of_nat i)) =
        Some (generate_from_seed (replicate 32 1) (index_for_commitment (Z.of_nat i))).
Proof. apply honest_secrets_accepted. lia. Defined.

(** ** Persistence *)
Lemma foldl_min_spec l i : exists m, foldl Z.min i l = m /\ m ∈ i :: l /\ Forall (Z.le m) (i :: l).
Proof.
  revert i; induction l as [|x l IH]; intros i; simpl.
  - exists i. split_and!; [done|by left|]. repeat constructor; lia.
  - destruct (IH (Z.min i x)) as (m & -> & Hin & Hall). exists m.
    apply Forall_cons in Hall as [H1 H2]. split_and!; [done| |].
    + apply elem_of_cons in Hin as [->|Hin]; [|by do 2 right].
      destruct (Z.min_spec i x) as [[_ ->]|[_ ->]]; [by left|by right; left].
    + repeat constructor; [lia|lia|done].
Qed.

Lemma elem_of_entries s K x :
  (K, x) ∈ entries s <-> exists l, known s !! l = Some (Some (K, x)).
Proof.
  unfold entries. rewrite list_elem_of_omap. split.
  - intros (e & He & Hid). simpl in Hid. subst e. by apply list_elem_of_lookup in He.
  - intros [l Hl]. exists (Some (K, x)). split; [|done]. by eapply list_elem_of_lookup_2.
Qed.

Lemma min_index_inv f I s :
  0 <= I <= MAX_INDEX -> store_inv f I s -> min_index s = Some I.
Proof.
  intros HI Hinv. unfold min_index.
  pose proof (inv_lowest _ _ _ Hinv I ltac:(lia) ltac:(intros; lia)) as HIin.
  assert (HI' : I ∈ map fst (entries s)).
  { apply list_elem_of_fmap. exists (I, f I). split; [done|]. apply elem_of_entries. by eexists. }
  assert (Hall : Forall (Z.le I) (map fst (entries s))).
  { apply Forall_forall. intros j Hj. apply list_elem_of_fmap in Hj as ([K x] & -> & Hk).
    apply elem_of_entries in Hk as [l Hl].
    destruct (inv_entry _ _ _ Hinv _ _ _ Hl) as (_ & ? & _). simpl. lia. }
  destruct (map fst (entries s)) as [|i rest]; [by apply elem_of_nil in HI'|]. f_equal.
  destruct (foldl_min_spec rest i) as (m & -> & Hm & Hle).
  rewrite Forall_forall in Hall, Hle. apply Z.le_antisymm; auto.
Qed.

Lemma from_entries_snoc es index secret :
  from_entries (es ++ [(index, secret)]) =
    (s ← from_entries es;
     if (bucket index <? length (known s))%nat
     then Ok {| known := <[bucket index := Some (index, secret)]> (known s) |} else Panic).
Proof. unfold from_entries. by rewrite foldl_app. Qed.

(** Reading back the first [i] buckets rebuilds them. *)
Lemma from_entries_prefix ks i :
  length ks = 49%nat -> (i <= 49)%nat ->
  (forall l K x, ks !! l = Some (Some (K, x)) -> bucket K = l) ->
  from_entries (omap id (take i ks)) =
    Ok {| known := take i ks ++ replicate (49 - i) None |}.
Proof.
  intros Hlen Hi Hb. induction i as [|i IH].
  { done. }
  destruct (lookup_lt_is_Some_2 ks i ltac:(lia)) as [e He].
  rewrite (take_S_r _ _ _ He), omap_app.
  assert (Htl : length (take i ks) = i) by (rewrite length_take; lia).
  assert (Hrep : replicate (49 - i) (@None (Z * bytes)) = None :: replicate (49 - S i) None).
  { by replace (49 - i)%nat with (S (49 - S i)) by lia. }
  specialize (IH ltac:(lia)). rewrite Hrep in IH. destruct e as [[K x]|]; cbn [omap list_omap id].
  - rewrite from_entries_snoc, IH. cbn [mbind result_bind known].
    rewrite (Hb _ _ _ He), length_app, Htl. cbn [length]. rewrite length_replicate.
    rewrite (proj2 (Nat.ltb_lt _ _)) by lia. do 2 f_equal.
    rewrite <- app_assoc. rewrite insert_app_r_alt by lia.
    by rewrite Htl, Nat.sub_diag.
  - rewrite app_nil_r, IH. by rewrite <- app_assoc.
Qed.

(** The entries of a store that a channel filled rebuild it. *)
Lemma store_rebuilt secrets s :
  Z.of_nat (length secrets) <= 2 ^ 48 -> insert_all store_new 0 secrets = Ok s ->
  from_entries (entries s) = Ok s.
Proof.
  intros Hlen Hrun. destruct secrets as [|x secrets]; [by injection Hrun as <-|].
  pose proof (insert_all_store (x :: secrets) s ltac:(lia) Hrun) as Hinv.
  pose proof (inv_length _ _ _ Hinv) as Hl. unfold entries.
  pose proof (from_entries_prefix (known s) 49 Hl ltac:(lia)) as H.
  rewrite (take_ge (known s)) in H by lia. rewrite H.
  - by rewrite Nat.sub_diag, app_nil_r; destruct s.
  - intros l K y HK. by apply (inv_entry _ _ _ Hinv) in HK as [? _].
Qed.

(** Persistence of the secret store: after accepting the secrets of
    commitments 0..n-1 (n > 0), the lowest stored index is that of commitment
    n-1, and rebuilding the store from its serialised entries gives the same
    store, so no revoked secret is lost across a restart. *)
Theorem store_persistence secrets s :
  0 < Z.of_nat (length secrets) <= 2 ^ 48 -> insert_all store_new 0 secrets = Ok s ->
  min_index s = Some (index_for_commitment (Z.of_nat (length secrets) - 1)) /\
  from_entries (entries s) = Ok s.
Proof.
  intros Hlen Hrun. pose proof (insert_all_store secrets s ltac:(lia) Hrun) as Hinv.
  rewrite index_for_commitment_eq by (unfold MAX_INDEX; lia).
  split; [|by eapply store_rebuilt; [|exact Hrun]; lia].
  rewrite (min_index_inv (secrets_fn secrets) (MAX_INDEX + 1 - Z.of_nat (length secrets)) s);
    [f_equal; lia|unfold MAX_INDEX; lia|exact Hinv].
Qed.

Lemma store_persistence_witness :
  min_index sample_store = Some (index_for_commitment (Z.of_nat 2 - 1)) /\
  from_entries (entries sample_store) = Ok sample_store.
Proof.
  apply (store_persistence sample_secrets sample_store); [simpl; lia|apply sample_insert_all].
Defined.

Lemma length_generate_from_seed seed i :
  length seed = 32%nat -> length (generate_from_seed seed i) = 32%nat.
Proof.
  unfold generate_from_seed. generalize 48%nat as bits. intros bits. revert seed.
  induction bits as [|b IH]; intros p Hp; cbn [derive_secret]; [done|].
  apply IH. case_match; [apply length_sha256|done].
Qed.

#[global] Opaque generate_from_seed derive_secret.
