(* ===== verification/Keys.v ===== *)
(** * Keys: BOLT 3 key derivation and signers

    src/src/keys.rs and src/src/sign/mod.rs.  A function that the code ends
    with [expect] returns an option here: [None] is the panic.  [ChannelSigner]
    is the trait of the same name as a class, [ChannelSignerLaws] what the
    rest of the system relies on, and [InMemoryChannelSigner] the instance that
    is proved to satisfy it. *)
From S2P Require Import Prelude Secp Sha256 Hmac Hex Shachain.

Section Keys.
Context `{HS : Secp}.

Record ChannelPublicKeys := {
  funding_pubkey : PublicKey;
  revocation_basepoint : PublicKey;
  payment_basepoint : PublicKey;
  delayed_payment_basepoint : PublicKey;
  htlc_basepoint : PublicKey;
}.

Record TxCreationKeys := {
  tck_per_commitment_point : PublicKey;
  revocation_key : PublicKey;
  broadcaster_htlc_key : PublicKey;
  countersignatory_htlc_key : PublicKey;
  broadcaster_delayed_payment_key : PublicKey;
}.

Definition tweak (a b : PublicKey) : option Scalar :=
  let h := Sha256.new in
  let h := Sha256.update h (pk_serialize a) in
  let h := Sha256.update h (pk_serialize b) in
  scalar_from_be_bytes (Sha256.finalize h).

Definition derive_pubkey (basepoint per_commitment_point : PublicKey) : option PublicKey :=
  t ← tweak per_commitment_point basepoint;
  pk_add_exp_tweak basepoint t.

Definition derive_privkey (base_secret : SecretKey) (per_commitment_point : PublicKey)
    : option SecretKey :=
  let basepoint := sk_public_key base_secret in
  t ← tweak per_commitment_point basepoint;
  sk_add_tweak base_secret t.

Definition derive_revocation_pubkey (revocation_basepoint per_commitment_point : PublicKey)
    : option PublicKey :=
  ta ← tweak revocation_basepoint per_commitment_point;
  a ← pk_mul_tweak revocation_basepoint ta;
  tb ← tweak per_commitment_point revocation_basepoint;
  b ← pk_mul_tweak per_commitment_point tb;
  pk_combine a b.

Definition derive_revocation_privkey (revocation_base_secret per_commitment_secret : SecretKey)
    : option SecretKey :=
  let revocation_basepoint := sk_public_key revocation_base_secret in
  let per_commitment_point := sk_public_key per_commitment_secret in
  ta ← tweak revocation_basepoint per_commitment_point;
  a ← sk_mul_tweak revocation_base_secret ta;
  tb ← tweak per_commitment_point revocation_basepoint;
  b ← sk_mul_tweak per_commitment_secret tb;
  sk_add_tweak a (scalar_from_sk b).

Definition per_commitment_point_of (per_commitment_secret : bytes) : option PublicKey :=
  sk ← sk_from_slice per_commitment_secret;
  Some (sk_public_key sk).

(** [TxCreationKeys::derive]. *)
Definition tx_creation_keys (per_commitment_point : PublicKey)
    (broadcaster countersignatory : ChannelPublicKeys) : option TxCreationKeys :=
  rk ← derive_revocation_pubkey (revocation_basepoint countersignatory) per_commitment_point;
  bh ← derive_pubkey (htlc_basepoint broadcaster) per_commitment_point;
  ch ← derive_pubkey (htlc_basepoint countersignatory) per_commitment_point;
  bd ← derive_pubkey (delayed_payment_basepoint broadcaster) per_commitment_point;
  Some {| tck_per_commitment_point := per_commitment_point; revocation_key := rk;
          broadcaster_htlc_key := bh; countersignatory_htlc_key := ch;
          broadcaster_delayed_payment_key := bd |}.

(** ** The signer interface *)
Class ChannelSigner (Sg : Type) := {
  pubkeys : Sg -> ChannelPublicKeys;
  per_commitment_point : Sg -> Z -> option PublicKey;
  release_commitment_secret : Sg -> Z -> bytes;
  sign_with_funding_key : Sg -> bytes -> Signature;
  sign_htlc : Sg -> bytes -> PublicKey -> option Signature;
  sign_delayed_payment : Sg -> bytes -> PublicKey -> option Signature;
  sign_payment : Sg -> bytes -> Signature;
  sign_revocation : Sg -> bytes -> bytes -> option Signature;
  sign_announcement_with_funding_key : Sg -> bytes -> Signature;
}.

(** What the channel relies on, for the signers [ok] that can be built:
    signatures verify under the announced keys, points are those of the
    secrets, and the secrets form one shachain. *)
Class ChannelSignerLaws (Sg : Type) `{!ChannelSigner Sg} (ok : Sg -> Prop) : Prop := {
  signer_point : forall s n, ok s ->
    per_commitment_point s n = per_commitment_point_of (release_commitment_secret s n);
  signer_chain : forall s, ok s -> exists seed, forall n,
    release_commitment_secret s n = generate_from_seed seed (index_for_commitment n);
  signer_funding : forall s h, ok s ->
    verify_ecdsa h (sign_with_funding_key s h) (funding_pubkey (pubkeys s)) = true;
  signer_payment : forall s h, ok s ->
    verify_ecdsa h (sign_payment s h) (payment_basepoint (pubkeys s)) = true;
  signer_htlc : forall s h point sg, ok s -> sign_htlc s h point = Some sg ->
    exists k, derive_pubkey (htlc_basepoint (pubkeys s)) point = Some k /\
      verify_ecdsa h sg k = true;
  signer_delayed : forall s h point sg, ok s -> sign_delayed_payment s h point = Some sg ->
    exists k, derive_pubkey (delayed_payment_basepoint (pubkeys s)) point = Some k /\
      verify_ecdsa h sg k = true;
  signer_revocation : forall s h secret sg, ok s -> sign_revocation s h secret = Some sg ->
    exists point k, per_commitment_point_of secret = Some point /\
      derive_revocation_pubkey (revocation_basepoint (pubkeys s)) point = Some k /\
      verify_ecdsa h sg k = true;
}.

(** ** The in-memory signer *)
Record InMemoryChannelSigner := {
  funding_key : SecretKey;
  revocation_base_key : SecretKey;
  payment_key : SecretKey;
  delayed_payment_base_key : SecretKey;
  htlc_base_key : SecretKey;
  commitment_seed : bytes;
  ims_pubkeys : ChannelPublicKeys;
}.

Definition in_memory_new (funding revocation payment delayed htlc : SecretKey) (seed : bytes)
    : InMemoryChannelSigner :=
  {| funding_key := funding; revocation_base_key := revocation; payment_key := payment;
     delayed_payment_base_key := delayed; htlc_base_key := htlc; commitment_seed := seed;
     ims_pubkeys :=
       {| funding_pubkey := sk_public_key funding;
          revocation_basepoint := sk_public_key revocation;
          payment_basepoint := sk_public_key payment;
          delayed_payment_basepoint := sk_public_key delayed;
          htlc_basepoint := sk_public_key htlc |} |}.

Definition ims_release_secret (s : InMemoryChannelSigner) (n : Z) : bytes :=
  generate_from_seed (commitment_seed s) (index_for_commitment n).

Definition ims_point (s : InMemoryChannelSigner) (n : Z) : option PublicKey :=
  sk ← sk_from_slice (generate_from_seed (commitment_seed s) (index_for_commitment n));
  Some (sk_public_key sk).

Definition ims_sign_htlc (s : InMemoryChannelSigner) (h : bytes) (point : PublicKey)
    : option Signature :=
  key ← derive_privkey (htlc_base_key s) point; Some (sign_ecdsa h key).

Definition ims_sign_delayed (s : InMemoryChannelSigner) (h : bytes) (point : PublicKey)
    : option Signature :=
  key ← derive_privkey (delayed_payment_base_key s) point; Some (sign_ecdsa h key).

Definition ims_sign_revocation (s : InMemoryChannelSigner) (h secret : bytes)
    : option Signature :=
  cp_secret ← sk_from_slice secret;
  key ← derive_revocation_privkey (revocation_base_key s) cp_secret;
  Some (sign_ecdsa h key).

(** [impl ChannelSigner for InMemoryChannelSigner]. *)
#[export] Instance in_memory_signer : ChannelSigner InMemoryChannelSigner := {
  pubkeys := ims_pubkeys;
  per_commitment_point := ims_point;
  release_commitment_secret := ims_release_secret;
  sign_with_funding_key s h := sign_ecdsa h (funding_key s);
  sign_htlc := ims_sign_htlc;
  sign_delayed_payment := ims_sign_delayed;
  sign_payment s h := sign_ecdsa h (payment_key s);
  sign_revocation := ims_sign_revocation;
  sign_announcement_with_funding_key s h := sign_ecdsa h (funding_key s);
}.

(** ** The seed-based key manager *)
Record KeysManager := { km_seed : bytes; node_secret : SecretKey; node_pubkey : PublicKey }.

(** The loop of [derive_key]; the salt is a [u8], so after 256 rounds it would
    repeat itself for ever. *)
Fixpoint derive_key_loop (fuel : nat) (prk info : bytes) (salt : Z) : option SecretKey :=
  match fuel with
  | O => None
  | S fuel =>
    match expand prk (info ++ [salt]) (replicate 32 0) with
    | Ok okm =>
      match sk_from_slice okm with
      | Some sk => Some sk
      | None => derive_key_loop fuel prk info (wrap 8 (salt + 1))
      end
    | _ => None
    end
  end.

Definition derive_key (seed label : bytes) (index sub : Z) : option SecretKey :=
  let prk := extract label seed in
  let info := be_bytes 8 index ++ [sub] in
  derive_key_loop 256 prk info 0.

Definition keys_manager_new (seed : bytes) : option KeysManager :=
  sk ← derive_key seed (str "keraunos/node identity") 0 0;
  Some {| km_seed := seed; node_secret := sk; node_pubkey := sk_public_key sk |}.

Definition node_id (km : KeysManager) : PublicKey := node_pubkey km.
Definition sign_gossip (km : KeysManager) (double_sha : bytes) : Signature :=
  sign_ecdsa double_sha (node_secret km).

Definition derive_channel_signer (km : KeysManager) (channel_index : Z)
    : option InMemoryChannelSigner :=
  let label := str "keraunos/channel keys" in
  funding ← derive_key (km_seed km) label channel_index 0;
  revocation ← derive_key (km_seed km) label channel_index 1;
  payment ← derive_key (km_seed km) label channel_index 2;
  delayed ← derive_key (km_seed km) label channel_index 3;
  htlc ← derive_key (km_seed km) label channel_index 4;
  seed_key ← derive_key (km_seed km) label channel_index 5;
  Some (in_memory_new funding revocation payment delayed htlc (sk_secret_bytes seed_key)).
End Keys.
#[global] Opaque derive_key.

(** ** Private and public derivation agree *)
Section KeysLaws.
Context `{HS : Secp} {HL : SecpLaws HS}.

Lemma derive_privkey_pub base point sk :
  derive_privkey base point = Some sk ->
  derive_pubkey (sk_public_key base) point = Some (sk_public_key sk).
Proof.
  unfold derive_privkey, derive_pubkey. cbv zeta.
  destruct (tweak point (sk_public_key base)) as [t|]; [|discriminate 1].
  cbn [mbind option_bind]. apply pub_add_tweak.
Qed.

Lemma derive_revocation_privkey_pub base secret sk :
  derive_revocation_privkey base secret = Some sk ->
  derive_revocation_pubkey (sk_public_key base) (sk_public_key secret) =
    Some (sk_public_key sk).
Proof.
  unfold derive_revocation_privkey, derive_revocation_pubkey. cbv zeta.
  destruct (tweak (sk_public_key base) (sk_public_key secret)) as [ta|]; [|discriminate 1].
  cbn [mbind option_bind]. destruct (sk_mul_tweak base ta) as [a|] eqn:Ha; [|discriminate 1].
  rewrite (pub_mul_tweak _ _ _ Ha). cbn [mbind option_bind].
  destruct (tweak (sk_public_key secret) (sk_public_key base)) as [tb|]; [|discriminate 1].
  cbn [mbind option_bind]. destruct (sk_mul_tweak secret tb) as [b|] eqn:Hb; [|discriminate 1].
  rewrite (pub_mul_tweak _ _ _ Hb). cbn [mbind option_bind]. apply pub_combine.
Qed.

(** A signer made by [in_memory_new] announces the public keys of its secrets. *)
Definition ims_ok (s : InMemoryChannelSigner) : Prop :=
  s = in_memory_new (funding_key s) (revocation_base_key s) (payment_key s)
        (delayed_payment_base_key s) (htlc_base_key s) (commitment_seed s).

Lemma ims_ok_pubkeys s : ims_ok s ->
  ims_pubkeys s =
    {| funding_pubkey := sk_public_key (funding_key s);
       revocation_basepoint := sk_public_key (revocation_base_key s);
       payment_basepoint := sk_public_key (payment_key s);
       delayed_payment_basepoint := sk_public_key (delayed_payment_base_key s);
       htlc_basepoint := sk_public_key (htlc_base_key s) |}.
Proof. unfold ims_ok. intros H. rewrite H at 1. reflexivity. Qed.

Lemma in_memory_new_ok a b c d e seed : ims_ok (in_memory_new a b c d e seed).
Proof. reflexivity. Qed.

Lemma ims_revocation_verifies s h secret sg :
  ims_ok s -> ims_sign_revocation s h secret = Some sg ->
  exists point k, per_commitment_point_of secret = Some point /\
    derive_revocation_pubkey (revocation_basepoint (ims_pubkeys s)) point = Some k /\
    verify_ecdsa h sg k = true.
Proof.
  intros Hok. unfold ims_sign_revocation, per_commitment_point_of.
  destruct (sk_from_slice secret) as [cp|]; [|discriminate 1]. cbn [mbind option_bind].
  destruct (derive_revocation_privkey (revocation_base_key s) cp) as [key|] eqn:Hk;
    [|discriminate 1].
  cbn [mbind option_bind]. intros [= <-]. exists (sk_public_key cp), (sk_public_key key).
  rewrite (ims_ok_pubkeys s Hok). cbn [revocation_basepoint].
  rewrite (derive_revocation_privkey_pub _ _ _ Hk), verify_sign. auto.
Qed.

Lemma derived_sign_verifies base h point sg :
  (key ← derive_privkey base point; Some (sign_ecdsa h key)) = Some sg ->
  exists k, derive_pubkey (sk_public_key base) point = Some k /\ verify_ecdsa h sg k = true.
Proof.
  destruct (derive_privkey base point) as [key|] eqn:Hk; [|discriminate 1].
  cbn [mbind option_bind]. intros [= <-]. exists (sk_public_key key).
  rewrite (derive_privkey_pub _ _ _ Hk), verify_sign. auto.
Qed.

#[export] Instance in_memory_signer_laws : ChannelSignerLaws InMemoryChannelSigner ims_ok.
Proof.
  split; cbn [pubkeys per_commitment_point release_commitment_secret sign_with_funding_key
    sign_htlc sign_delayed_payment sign_payment sign_revocation in_memory_signer].
  - intros. unfold ims_point, per_commitment_point_of, ims_release_secret. reflexivity.
  - intros s _. exists (commitment_seed s). intros. reflexivity.
  - intros s h Hok. rewrite (ims_ok_pubkeys s Hok). apply verify_sign.
  - intros s h Hok. rewrite (ims_ok_pubkeys s Hok). apply verify_sign.
  - intros s h point sg Hok Hs. rewrite (ims_ok_pubkeys s Hok). by apply derived_sign_verifies.
  - intros s h point sg Hok Hs. rewrite (ims_ok_pubkeys s Hok). by apply derived_sign_verifies.
  - apply ims_revocation_verifies.
Qed.

(** Key derivation commutes with taking public keys: whenever the private
    derivations of a per-commitment key or of the revocation key succeed, the
    public derivations the counterparty runs give the public key of the
    result. *)
Theorem derivation_commutes base secret point :
  (forall sk, derive_privkey base point = Some sk ->
     derive_pubkey (sk_public_key base) point = Some (sk_public_key sk)) /\
  (forall sk, derive_revocation_privkey base secret = Some sk ->
     derive_revocation_pubkey (sk_public_key base) (sk_public_key secret) =
       Some (sk_public_key sk)).
Proof. split; [apply derive_privkey_pub|apply derive_revocation_privkey_pub]. Qed.

(** Every signer derived from a node seed obeys the laws. *)
Lemma derive_channel_signer_ok km n s : derive_channel_signer km n = Some s -> ims_ok s.
Proof.
  unfold derive_channel_signer. intros H.
  do 6 (apply bind_Some in H as (? & _ & H)). injection H as <-. apply in_memory_new_ok.
Qed.
End KeysLaws.

(** ** Justice *)
Section Justice.
Context `{HS : Secp} {HL : SecpLaws HS}.
Context {Sg : Type} `{HCS : !ChannelSigner Sg} (ok : Sg -> Prop) {HCL : ChannelSignerLaws Sg ok}.

(** A revealed secret always arms the justice path, for any signers that
    obey the interface: if the counterparty reveals the secret of its
    commitment [n] and we sign with the revocation key it gives, the signature
    verifies under the revocation key that commitment [n]'s outputs were
    built with. *)
Theorem justice_signature_valid ours theirs n h sg keys :
  ok ours -> ok theirs ->
  sign_revocation ours h (release_commitment_secret theirs n) = Some sg ->
  per_commitment_point theirs n ≫= (fun point =>
    tx_creation_keys point (pubkeys theirs) (pubkeys ours)) = Some keys ->
  verify_ecdsa h sg (revocation_key keys) = true.
Proof.
  intros Ho Ht Hs Hkeys.
  destruct (signer_revocation ours h _ sg Ho Hs) as (point & k & Hp & Hk & Hv).
  rewrite (signer_point theirs n Ht), Hp in Hkeys. cbn [mbind option_bind] in Hkeys.
  unfold tx_creation_keys in Hkeys. rewrite Hk in Hkeys. cbn [mbind option_bind] in Hkeys.
  do 3 (apply bind_Some in Hkeys as (? & _ & Hkeys)). injection Hkeys as <-. exact Hv.
Qed.
End Justice.

Lemma derivation_commutes_witness :
  exists sk, derive_privkey (HS := toy_secp) (toy_of 3) (toy_of 5) = Some sk /\
    derive_pubkey (sk_public_key (Secp := toy_secp) (toy_of 3)) (toy_of 5) =
      Some (sk_public_key sk).
Proof.
  eexists. split; [reflexivity|].
  apply (proj1 (derivation_commutes (HS := toy_secp) (toy_of 3) (toy_of 1) (toy_of 5))). reflexivity.
Defined.

Definition sample_signer (k : Z) : InMemoryChannelSigner (HS := toy_secp) :=
  in_memory_new (HS := toy_secp) (toy_of k) (toy_of (k + 1)) (toy_of (k + 2)) (toy_of (k + 3)) (toy_of (k + 4))
    (replicate 32 k).

Lemma justice_signature_valid_witness :
  exists sg keys,
    sign_revocation (sample_signer 10) [1]
      (release_commitment_secret (sample_signer 20) MAX_INDEX) = Some sg /\
    verify_ecdsa [1] sg (revocation_key keys) = true.
Proof.
  assert (Hsec : release_commitment_secret (sample_signer 20) MAX_INDEX = replicate 32 20)
    by (vm_compute; reflexivity).
  assert (Hpt : per_commitment_point (sample_signer 20) MAX_INDEX = Some (toy_of (of_be (replicate 32 20))))
    by (vm_compute; reflexivity).
  destruct (sign_revocation (sample_signer 10) [1]
      (release_commitment_secret (sample_signer 20) MAX_INDEX)) as [sg|] eqn:Hs.
  2: { exfalso. rewrite Hsec in Hs. discriminate Hs. }
  destruct (per_commitment_point (sample_signer 20) MAX_INDEX ≫= (fun point =>
    tx_creation_keys point (pubkeys (sample_signer 20)) (pubkeys (sample_signer 10))))
    as [keys|] eqn:Hk.
  2: { exfalso. rewrite Hpt in Hk. discriminate Hk. }
  exists sg, keys. split; [reflexivity|].
  apply (justice_signature_valid ims_ok (sample_signer 10) (sample_signer 20) MAX_INDEX
    [1] sg keys); [apply in_memory_new_ok..|exact Hs|exact Hk].
Defined.
