(* ===== verification/Commitment.v ===== *)
(** * Commitment: BOLT 3 transaction construction (src/src/commitment/mod.rs)

    Scripts, commitment transactions, second-stage HTLC transactions and the
    cooperative closing transaction.  The theorems: no value is created and no
    dust output is made; every HTLC is either trimmed or at the output index
    that is reported for it; both peers build the same transaction; the
    commitment number can be read back from the obscured fields. *)
From S2P Require Import Prelude Secp Types Sha256 Ripemd160 Encode Script Tx Keys.

Definition COMMITMENT_TX_BASE_WEIGHT : Z := 724.
Definition COMMITMENT_TX_WEIGHT_PER_HTLC : Z := 172.
Definition HTLC_TIMEOUT_TX_WEIGHT : Z := 663.
Definition HTLC_SUCCESS_TX_WEIGHT : Z := 703.
Definition CLOSING_TX_WEIGHT_BOUND : Z := 714.

Record HtlcOutputInCommitment := {
  offered : bool;
  amount_msat : Z;
  cltv_expiry : Z;
  payment_hash : bytes;
}.

#[export] Instance HtlcOutputInCommitment_eq_dec : EqDecision HtlcOutputInCommitment.
Proof. solve_decision. Defined.

Definition htlc_timeout_fee (feerate : Z) : Z := fee_for_weight feerate HTLC_TIMEOUT_TX_WEIGHT.
Definition htlc_success_fee (feerate : Z) : Z := fee_for_weight feerate HTLC_SUCCESS_TX_WEIGHT.

Definition htlc_is_trimmed (htlc : HtlcOutputInCommitment) (feerate dust_limit_sat : Z) : bool :=
  let second_stage_fee :=
    if offered htlc then htlc_timeout_fee feerate else htlc_success_fee feerate in
  to_sat_floor (amount_msat htlc) <? wrap 64 (dust_limit_sat + second_stage_fee).

(** Sortable staging of an output: (TxOut, cltv tiebreak, origin). *)
Inductive Origin : Type :=
  | Broadcaster
  | Countersignatory
  | Htlc (i : nat) (script : bytes).

Abbreviation Staged := (TxOut * Z * Origin)%type.

Section Commitment.
Context `{HS : Secp}.

(** ** Scripts *)
Definition funding_redeemscript (a b : PublicKey) : bytes :=
  let '(first, second) :=
    if bytes_leb (pk_serialize a) (pk_serialize b) then (a, b) else (b, a) in
  let s := push_int [] 2 in
  let s := push_slice s (pk_serialize first) in
  let s := push_slice s (pk_serialize second) in
  let s := push_int s 2 in
  push_opcode s OP_CHECKMULTISIG.

Definition revocable_delayed (revocation_key : PublicKey) (to_self_delay : Z)
    (delayed_payment_key : PublicKey) : bytes :=
  let s := push_opcode [] OP_IF in
  let s := push_slice s (pk_serialize revocation_key) in
  let s := push_opcode s OP_ELSE in
  let s := push_int s to_self_delay in
  let s := push_opcode s OP_CHECKSEQUENCEVERIFY in
  let s := push_opcode s OP_DROP in
  let s := push_slice s (pk_serialize delayed_payment_key) in
  let s := push_opcode s OP_ENDIF in
  push_opcode s OP_CHECKSIG.

Definition to_remote (countersignatory_payment_basepoint : PublicKey) : bytes :=
  new_p2wpkh_from_pubkey (pk_serialize countersignatory_payment_basepoint).

Definition revocation_pubkey_hash160 (revocation_key : PublicKey) : bytes :=
  Ripemd160.digest (Sha256.digest (pk_serialize revocation_key)).
Definition payment_hash_ripemd (payment_hash : bytes) : bytes := Ripemd160.digest payment_hash.

(** [ScriptBuilder] chains: opcodes, data and integers in order. *)
Inductive push_item : Type := Op (op : Z) | Data (d : bytes) | Int (n : Z).
Definition push_items (l : list push_item) : bytes :=
  foldl (fun s i =>
    match i with
    | Op op => push_opcode s op | Data d => push_slice s d | Int n => push_int s n
    end) [] l.

Definition offered_htlc (keys : TxCreationKeys) (payment_hash : bytes) : bytes :=
  push_items
    [Op OP_DUP; Op OP_HASH160; Data (revocation_pubkey_hash160 (revocation_key keys));
     Op OP_EQUAL; Op OP_IF; Op OP_CHECKSIG; Op OP_ELSE;
     Data (pk_serialize (countersignatory_htlc_key keys)); Op OP_SWAP; Op OP_SIZE; Int 32;
     Op OP_EQUAL; Op OP_NOTIF; Op OP_DROP; Int 2; Op OP_SWAP;
     Data (pk_serialize (broadcaster_htlc_key keys)); Int 2; Op OP_CHECKMULTISIG; Op OP_ELSE;
     Op OP_HASH160; Data (payment_hash_ripemd payment_hash); Op OP_EQUALVERIFY;
     Op OP_CHECKSIG; Op OP_ENDIF; Op OP_ENDIF].

Definition received_htlc (keys : TxCreationKeys) (payment_hash : bytes) (cltv_expiry : Z)
    : bytes :=
  push_items
    [Op OP_DUP; Op OP_HASH160; Data (revocation_pubkey_hash160 (revocation_key keys));
     Op OP_EQUAL; Op OP_IF; Op OP_CHECKSIG; Op OP_ELSE;
     Data (pk_serialize (countersignatory_htlc_key keys)); Op OP_SWAP; Op OP_SIZE; Int 32;
     Op OP_EQUAL; Op OP_IF; Op OP_HASH160; Data (payment_hash_ripemd payment_hash);
     Op OP_EQUALVERIFY; Int 2; Op OP_SWAP; Data (pk_serialize (broadcaster_htlc_key keys));
     Int 2; Op OP_CHECKMULTISIG; Op OP_ELSE; Op OP_DROP; Int cltv_expiry;
     Op OP_CHECKLOCKTIMEVERIFY; Op OP_DROP; Op OP_CHECKSIG; Op OP_ENDIF; Op OP_ENDIF].

Definition htlc_witness_script (keys : TxCreationKeys) (htlc : HtlcOutputInCommitment) : bytes :=
  if offered htlc then offered_htlc keys (payment_hash htlc)
  else received_htlc keys (payment_hash htlc) (cltv_expiry htlc).

Definition commit_number_obscure_factor (opener accepter : PublicKey) : Z :=
  let h := Sha256.update Sha256.new (pk_serialize opener) in
  let h := Sha256.update h (pk_serialize accepter) in
  of_be ([0; 0] ++ take 6 (drop 26 (Sha256.finalize h))).

(** ** Commitment transactions *)
Record CommitmentTxParams := {
  cp_funding_outpoint : OutPoint;
  commitment_number : Z;
  obscure_factor : Z;
  broadcaster_pays_fee : bool;
  feerate : Z;
  broadcaster_dust_limit_sat : Z;
  to_self_delay : Z;
  cp_keys : TxCreationKeys;
  countersignatory_payment_basepoint : PublicKey;
  to_broadcaster_msat : Z;
  to_countersignatory_msat : Z;
  htlcs : list HtlcOutputInCommitment;
}.

Record BuiltCommitmentTx := {
  built_tx : Transaction;
  built_txid : Txid;
  fee_sat : Z;
  htlc_output_indices : list (option Z);
  htlcs_in_output_order : list (nat * bytes);
  to_broadcaster_index : option Z;
  to_countersignatory_index : option Z;
}.

Definition trimmed (p : CommitmentTxParams) (h : HtlcOutputInCommitment) : bool :=
  htlc_is_trimmed h (feerate p) (broadcaster_dust_limit_sat p).

Definition num_untrimmed (p : CommitmentTxParams) : Z :=
  Z.of_nat (length (List.filter (fun h => negb (trimmed p h)) (htlcs p))).

Definition base_fee (p : CommitmentTxParams) : Z :=
  fee_for_weight (feerate p)
    (wrap 64 (COMMITMENT_TX_BASE_WEIGHT + COMMITMENT_TX_WEIGHT_PER_HTLC * num_untrimmed p)).

Definition to_broadcaster_sat (p : CommitmentTxParams) : Z :=
  let sat := to_sat_floor (to_broadcaster_msat p) in
  if broadcaster_pays_fee p then sat_sub sat (base_fee p) else sat.
Definition to_countersignatory_sat (p : CommitmentTxParams) : Z :=
  let sat := to_sat_floor (to_countersignatory_msat p) in
  if broadcaster_pays_fee p then sat else sat_sub sat (base_fee p).

Definition stage_htlc (p : CommitmentTxParams) (ih : nat * HtlcOutputInCommitment) : list Staged :=
  let '(i, htlc) := ih in
  if trimmed p htlc then []
  else
    let script := htlc_witness_script (cp_keys p) htlc in
    [({| out_value := to_sat_floor (amount_msat htlc); script_pubkey := new_p2wsh script |},
      cltv_expiry htlc, Htlc i script)].

Definition stage (p : CommitmentTxParams) : list Staged :=
  (if broadcaster_dust_limit_sat p <=? to_broadcaster_sat p then
     let script := revocable_delayed (revocation_key (cp_keys p)) (to_self_delay p)
                     (broadcaster_delayed_payment_key (cp_keys p)) in
     [({| out_value := to_broadcaster_sat p; script_pubkey := new_p2wsh script |},
       0, Broadcaster)]
   else []) ++
  (if broadcaster_dust_limit_sat p <=? to_countersignatory_sat p then
     [({| out_value := to_countersignatory_sat p;
          script_pubkey := to_remote (countersignatory_payment_basepoint p) |},
       0, Countersignatory)]
   else []) ++
  concat (map (stage_htlc p) (imap pair (htlcs p))).

(** Value, then scriptpubkey, then cltv. *)
Definition staged_leb (a b : Staged) : bool :=
  match out_value a.1.1 ?= out_value b.1.1 with
  | Lt => true
  | Gt => false
  | Eq =>
    match bytes_cmp (script_pubkey a.1.1) (script_pubkey b.1.1) with
    | Lt => true
    | Gt => false
    | Eq => a.1.2 <=? b.1.2
    end
  end.

Record Placed := {
  pl_indices : list (option Z);
  pl_order : list (nat * bytes);
  pl_broadcaster : option Z;
  pl_countersignatory : option Z;
}.

(** One pass of the loop that assigns output indices; [htlc_output_indices[i]]
    is in range since [i] indexes [p.htlcs]. *)
Definition place (s : Placed) (e : nat * Staged) : Placed :=
  let '(vout, (_, _, origin)) := e in
  let v := wrap 32 (Z.of_nat vout) in
  match origin with
  | Broadcaster =>
    {| pl_indices := pl_indices s; pl_order := pl_order s; pl_broadcaster := Some v;
       pl_countersignatory := pl_countersignatory s |}
  | Countersignatory =>
    {| pl_indices := pl_indices s; pl_order := pl_order s;
       pl_broadcaster := pl_broadcaster s; pl_countersignatory := Some v |}
  | Htlc i script =>
    {| pl_indices := <[i := Some v]> (pl_indices s); pl_order := pl_order s ++ [(i, script)];
       pl_broadcaster := pl_broadcaster s; pl_countersignatory := pl_countersignatory s |}
  end.

Definition place_all (n : nat) (staged : list Staged) : Placed :=
  foldl place
    {| pl_indices := replicate n None; pl_order := []; pl_broadcaster := None;
       pl_countersignatory := None |} (imap pair staged).

Definition build_commitment_tx (p : CommitmentTxParams) : BuiltCommitmentTx :=
  let obscured := Z.lxor (commitment_number p) (obscure_factor p) in
  let staged := sort_by staged_leb (stage p) in
  let placed := place_all (length (htlcs p)) staged in
  let tx :=
    {| version := 2;
       lock_time := Z.lor 0x20000000 (wrap 32 (Z.land obscured 0xffffff));
       input := [{| previous_output := cp_funding_outpoint p; script_sig := [];
                    sequence := Z.lor 0x80000000
                      (wrap 32 (Z.land (Z.shiftr obscured 24) 0xffffff));
                    witness := [] |}];
       output := map (fun e => e.1.1) staged |} in
  {| built_tx := tx;
     built_txid := txid tx;
     fee_sat := base_fee p;
     htlc_output_indices := pl_indices placed;
     htlcs_in_output_order := pl_order placed;
     to_broadcaster_index := pl_broadcaster placed;
     to_countersignatory_index := pl_countersignatory placed |}.

(** ** Second-stage HTLC transactions *)
Definition build_htlc_tx (commitment_txid : Txid) (htlc_output_index : Z)
    (htlc : HtlcOutputInCommitment) (keys : TxCreationKeys) (to_self_delay feerate : Z)
    : Transaction :=
  let fee := if offered htlc then htlc_timeout_fee feerate else htlc_success_fee feerate in
  let output_script := revocable_delayed (revocation_key keys) to_self_delay
                         (broadcaster_delayed_payment_key keys) in
  {| version := 2;
     lock_time := if offered htlc then cltv_expiry htlc else 0;
     input := [{| previous_output := {| op_txid := commitment_txid; op_vout := htlc_output_index |};
                  script_sig := []; sequence := 0; witness := [] |}];
     output := [{| out_value := sat_sub (to_sat_floor (amount_msat htlc)) fee;
                   script_pubkey := new_p2wsh output_script |}] |}.

(** ** Witnesses *)
Definition sig_with_sighash_all (sig : Signature) : bytes := sig_serialize_der sig ++ [0x01].

Definition funding_spend_witness (holder counterparty : PublicKey)
    (holder_sig counterparty_sig : Signature) : Witness :=
  let redeem := funding_redeemscript holder counterparty in
  let '(first, second) :=
    if bytes_leb (pk_serialize holder) (pk_serialize counterparty)
    then (holder_sig, counterparty_sig) else (counterparty_sig, holder_sig) in
  [[]; sig_with_sighash_all first; sig_with_sighash_all second; redeem].

Definition htlc_tx_witness (countersignatory_sig holder_sig : Signature)
    (preimage : option bytes) (witness_script : bytes) : Witness :=
  [[]; sig_with_sighash_all countersignatory_sig; sig_with_sighash_all holder_sig;
   default [] preimage; witness_script].

(** ** Closing transactions *)
Definition txout_leb (a b : TxOut) : bool :=
  match out_value a ?= out_value b with
  | Lt => true
  | Gt => false
  | Eq => bytes_leb (script_pubkey a) (script_pubkey b)
  end.

Definition build_closing_tx (funding_outpoint : OutPoint) (to_holder_sat to_counterparty_sat : Z)
    (holder_script counterparty_script : bytes) (dust_limit_sat : Z) : Transaction :=
  let outputs :=
    (if dust_limit_sat <=? to_holder_sat
     then [{| out_value := to_holder_sat; script_pubkey := holder_script |}] else []) ++
    (if dust_limit_sat <=? to_counterparty_sat
     then [{| out_value := to_counterparty_sat; script_pubkey := counterparty_script |}]
     else []) in
  {| version := 2; lock_time := 0;
     input := [{| previous_output := funding_outpoint; script_sig := [];
                  sequence := 0xffffffff; witness := [] |}];
     output := sort_by txout_leb outputs |}.
End Commitment.

(** ** The output orders *)
Lemma bytes_leb_total a b : bytes_leb a b = true \/ bytes_leb b a = true.
Proof.
  unfold bytes_leb. rewrite (bytes_cmp_antisym b a). destruct (bytes_cmp a b); simpl; auto.
Qed.

Lemma bytes_leb_trans a b c : bytes_leb a b = true -> bytes_leb b c = true -> bytes_leb a c = true.
Proof.
  unfold bytes_leb. intros Ha Hb.
  pose proof (bytes_cmp_le_trans a b c) as H.
  destruct (bytes_cmp a b), (bytes_cmp b c); try done; destruct (bytes_cmp a c); try done;
    exfalso; by apply H.
Qed.

Lemma bytes_leb_antisym a b : bytes_leb a b = true -> bytes_leb b a = true -> a = b.
Proof.
  unfold bytes_leb. rewrite (bytes_cmp_antisym b a).
  destruct (bytes_cmp a b) eqn:H; simpl; try done. intros _ _. by apply bytes_cmp_eq.
Qed.

Lemma txout_leb_spec a b :
  txout_leb a b = true <->
  out_value a < out_value b \/
  (out_value a = out_value b /\ bytes_leb (script_pubkey a) (script_pubkey b) = true).
Proof.
  unfold txout_leb. destruct (Z.compare_spec (out_value a) (out_value b)) as [H|H|H].
  - split; [by right|]. intros [?|[_ ?]]; [lia|done].
  - split; [by left|done].
  - split; [done|]. intros [?|[? _]]; lia.
Qed.

Lemma txout_leb_total a b : txout_leb a b = true \/ txout_leb b a = true.
Proof.
  rewrite !txout_leb_spec.
  destruct (Z.lt_total (out_value a) (out_value b)) as [|[H|]]; [by left; left| |by right; left].
  destruct (bytes_leb_total (script_pubkey a) (script_pubkey b)); [left|right]; right; auto.
Qed.

Lemma txout_leb_trans a b c :
  txout_leb a b = true -> txout_leb b c = true -> txout_leb a c = true.
Proof.
  rewrite !txout_leb_spec. intros [?|[? ?]] [?|[? ?]]; [left; lia..|].
  right. split; [lia|by eapply bytes_leb_trans].
Qed.

Lemma txout_leb_antisym a b : txout_leb a b = true -> txout_leb b a = true -> a = b.
Proof.
  rewrite !txout_leb_spec. intros [?|[Hv Hs]] [?|[Hv' Hs']]; try lia.
  pose proof (bytes_leb_antisym _ _ Hs Hs'). destruct a, b. simpl in *. congruence.
Qed.

Lemma staged_leb_spec a b :
  staged_leb a b = true <->
  txout_leb a.1.1 b.1.1 = true /\ (a.1.1 = b.1.1 -> a.1.2 <= b.1.2).
Proof.
  destruct a as [[[va sa] ca] oa], b as [[[vb sb] cb] ob].
  unfold staged_leb, txout_leb, bytes_leb. simpl.
  destruct (Z.compare_spec va vb) as [->|H|H].
  - destruct (bytes_cmp sa sb) eqn:Hc.
    + apply bytes_cmp_eq in Hc as ->. rewrite Z.leb_le. naive_solver.
    + split; [|done]. intros _. split; [done|]. intros [= ->].
      by rewrite (proj2 (bytes_cmp_eq sb sb)) in Hc.
    + naive_solver.
  - split; [|done]. intros _. split; [done|]. intros [= -> _]. lia.
  - naive_solver.
Qed.

Lemma staged_leb_total a b : staged_leb a b = true \/ staged_leb b a = true.
Proof.
  rewrite !staged_leb_spec. destruct (decide (a.1.1 = b.1.1)) as [He|Hne].
  - pose proof (txout_leb_total a.1.1 b.1.1). rewrite He in *.
    assert (txout_leb b.1.1 b.1.1 = true) by naive_solver.
    destruct (Z.le_ge_cases a.1.2 b.1.2); naive_solver.
  - destruct (txout_leb_total a.1.1 b.1.1); [left|right]; split; auto; congruence.
Qed.

Lemma staged_leb_trans a b c :
  staged_leb a b = true -> staged_leb b c = true -> staged_leb a c = true.
Proof.
  rewrite !staged_leb_spec. intros [H1 H2] [H3 H4].
  split; [by eapply txout_leb_trans|]. intros He. rewrite He in *.
  pose proof (txout_leb_antisym _ _ H1 H3) as Hc. rewrite <- Hc in *. specialize (H2 eq_refl). specialize (H4 eq_refl). lia.
Qed.

Section Theorems.
Context `{HS : Secp}.
Implicit Types p : CommitmentTxParams.

Definition outputs p : list TxOut := output (built_tx (build_commitment_tx p)).

Lemma outputs_perm p : outputs p ≡ₚ map (fun e => e.1.1) (stage p).
Proof. unfold outputs. simpl. apply Permutation_map, sort_by_perm. Qed.

Lemma outputs_sorted p : StronglySorted (fun a b => txout_leb a b = true) (outputs p).
Proof.
  unfold outputs. simpl.
  pose proof (sort_by_sorted staged_leb staged_leb_total staged_leb_trans (stage p)) as H.
  induction H as [|x l Hl IH Hx]; simpl; constructor; [done|].
  apply Forall_map. eapply Forall_impl; [done|]. intros y Hy. by apply staged_leb_spec in Hy as [? _].
Qed.

(** ** The peers agree whatever order they keep their HTLCs in *)
Definition htlc_txouts p (hs : list HtlcOutputInCommitment) : list TxOut :=
  concat (map (fun h => if trimmed p h then [] else
    [{| out_value := to_sat_floor (amount_msat h);
        script_pubkey := new_p2wsh (htlc_witness_script (cp_keys p) h) |}]) hs).

Lemma stage_htlc_txouts p hs (k : nat) :
  map (fun e : Staged => e.1.1) (concat (map (stage_htlc p) (imap (fun i h => ((k + i)%nat, h)) hs))) =
  htlc_txouts p hs.
Proof.
  unfold htlc_txouts. revert k. induction hs as [|h hs IH]; intros k; [reflexivity|].
  rewrite imap_cons. cbn [map concat]. rewrite map_app. f_equal.
  - unfold stage_htlc. by destruct (trimmed p h).
  - rewrite <- (IH (S k)). do 3 f_equal. apply imap_ext. intros i x _. simpl. f_equal. lia.
Qed.

Definition party_txouts p : list TxOut :=
  (if broadcaster_dust_limit_sat p <=? to_broadcaster_sat p then
     [{| out_value := to_broadcaster_sat p;
         script_pubkey := new_p2wsh (revocable_delayed (revocation_key (cp_keys p))
           (to_self_delay p) (broadcaster_delayed_payment_key (cp_keys p))) |}] else []) ++
  (if broadcaster_dust_limit_sat p <=? to_countersignatory_sat p then
     [{| out_value := to_countersignatory_sat p;
         script_pubkey := to_remote (countersignatory_payment_basepoint p) |}] else []).

Lemma outputs_parts p : outputs p ≡ₚ party_txouts p ++ htlc_txouts p (htlcs p).
Proof.
  rewrite outputs_perm. unfold stage, party_txouts. rewrite !map_app, <- app_assoc.
  rewrite <- (stage_htlc_txouts p (htlcs p) 0).
  destruct (_ <=? to_broadcaster_sat p), (_ <=? to_countersignatory_sat p); reflexivity.
Qed.

Definition with_htlcs p (hs : list HtlcOutputInCommitment) : CommitmentTxParams :=
  {| cp_funding_outpoint := cp_funding_outpoint p; commitment_number := commitment_number p;
     obscure_factor := obscure_factor p; broadcaster_pays_fee := broadcaster_pays_fee p;
     feerate := feerate p; broadcaster_dust_limit_sat := broadcaster_dust_limit_sat p;
     to_self_delay := to_self_delay p; cp_keys := cp_keys p;
     countersignatory_payment_basepoint := countersignatory_payment_basepoint p;
     to_broadcaster_msat := to_broadcaster_msat p;
     to_countersignatory_msat := to_countersignatory_msat p; htlcs := hs |}.

Lemma filter_length_perm {A} (f : A -> bool) l l' :
  l ≡ₚ l' -> length (List.filter f l) = length (List.filter f l').
Proof. induction 1; simpl; repeat case_match; simpl; congruence. Qed.

Lemma htlc_txouts_perm p hs hs' : hs ≡ₚ hs' -> htlc_txouts p hs ≡ₚ htlc_txouts p hs'.
Proof.
  intros H. unfold htlc_txouts. induction H; cbn [map concat]; [done| | |by etrans].
  - by apply Permutation_app_head.
  - rewrite !app_assoc. apply Permutation_app_tail, Permutation_app_comm.
Qed.

Lemma order_independent p hs :
  htlcs p ≡ₚ hs -> built_tx (build_commitment_tx (with_htlcs p hs)) = built_tx (build_commitment_tx p).
Proof.
  intros Hp. assert (num_untrimmed (with_htlcs p hs) = num_untrimmed p) as Hn.
  { unfold num_untrimmed. f_equal. symmetry. by apply filter_length_perm. }
  assert (base_fee (with_htlcs p hs) = base_fee p) as Hf by (unfold base_fee; by rewrite Hn).
  assert (party_txouts (with_htlcs p hs) = party_txouts p) as Hpt.
  { unfold party_txouts, to_broadcaster_sat, to_countersignatory_sat. rewrite Hf. reflexivity. }
  assert (outputs (with_htlcs p hs) = outputs p) as Ho.
  { apply (sorted_unique (fun a b => txout_leb a b = true));
      [apply txout_leb_antisym|apply outputs_sorted..|].
    rewrite !outputs_parts, Hpt. apply Permutation_app_head. symmetry.
    by apply (htlc_txouts_perm p). }
  unfold outputs in Ho. unfold build_commitment_tx in *. cbn [built_tx output] in *.
  rewrite Ho. reflexivity.
Qed.

(** ** No value is created, no dust output is made *)
Definition sat_in p : Z :=
  to_sat_floor (to_broadcaster_msat p) + to_sat_floor (to_countersignatory_msat p) +
  zsum (map (fun h => to_sat_floor (amount_msat h)) (htlcs p)).
(** What the payer's balance loses to the fee. *)
Definition fee_paid p : Z :=
  Z.min (base_fee p)
    (to_sat_floor (if broadcaster_pays_fee p then to_broadcaster_msat p
                   else to_countersignatory_msat p)).

(** Amounts and limits at the widths of their Rust types. *)
Record amounts_ok p : Prop := {
  ok_to_broadcaster : u64 (to_broadcaster_msat p);
  ok_to_countersignatory : u64 (to_countersignatory_msat p);
  ok_htlcs : Forall (fun h => u64 (amount_msat h)) (htlcs p);
}.
Record params_ok p : Prop := {
  ok_feerate : u32 (feerate p);
  ok_dust : u32 (broadcaster_dust_limit_sat p);
  ok_amounts : amounts_ok p;
  ok_count : Z.of_nat (length (htlcs p)) <= 65535;
}.

Lemma to_sat_floor_bound m : u64 m -> 0 <= to_sat_floor m <= m.
Proof.
  unfold uint, to_sat_floor. intros. split; [apply Z.div_pos; lia|].
  apply Z.div_le_upper_bound; lia.
Qed.

Lemma fee_bound f w : u32 f -> 0 <= w <= 1000 -> 0 <= fee_for_weight f w < 2 ^ 32.
Proof.
  intros Hf Hw. rewrite fee_for_weight_exact by (done || unfold uint; lia).
  unfold uint in Hf. split; [apply Z.div_pos; lia|]. apply Z.div_lt_upper_bound; nia.
Qed.

Lemma htlc_fee_bound f (h : HtlcOutputInCommitment) : u32 f ->
  0 <= (if offered h then htlc_timeout_fee f else htlc_success_fee f) < 2 ^ 32.
Proof.
  intros Hf. unfold htlc_timeout_fee, htlc_success_fee.
  destruct (offered h); apply fee_bound; try done;
    unfold HTLC_TIMEOUT_TX_WEIGHT, HTLC_SUCCESS_TX_WEIGHT; lia.
Qed.

Lemma base_fee_nonneg p : 0 <= base_fee p.
Proof.
  unfold base_fee, fee_for_weight. apply Z.div_pos; [|lia].
  apply (wrap_uint 64). lia.
Qed.

(** An untrimmed HTLC covers the dust limit and its second-stage fee. *)
Lemma untrimmed_value p h :
  params_ok p -> trimmed p h = false ->
  broadcaster_dust_limit_sat p +
    (if offered h then htlc_timeout_fee (feerate p) else htlc_success_fee (feerate p)) <=
  to_sat_floor (amount_msat h).
Proof.
  intros Hp. unfold trimmed, htlc_is_trimmed. intros H%Z.ltb_ge.
  pose proof (htlc_fee_bound (feerate p) h (ok_feerate _ Hp)) as Hf.
  pose proof (ok_dust _ Hp) as Hd. unfold uint in Hd.
  rewrite wrap_small in H by (unfold uint; lia). exact H.
Qed.

Lemma htlc_txouts_sum p hs :
  Forall (fun h => u64 (amount_msat h)) hs ->
  0 <= zsum (map out_value (htlc_txouts p hs)) <=
    zsum (map (fun h => to_sat_floor (amount_msat h)) hs).
Proof.
  induction 1 as [|h hs Hh Hhs IH]; [simpl; lia|].
  unfold htlc_txouts in *. cbn [map concat]. rewrite map_app, zsum_app.
  pose proof (to_sat_floor_bound _ Hh). destruct (trimmed p h); simpl; lia.
Qed.

Lemma party_sats p : amounts_ok p ->
  0 <= to_broadcaster_sat p /\ 0 <= to_countersignatory_sat p /\
  to_broadcaster_sat p + to_countersignatory_sat p + fee_paid p =
    to_sat_floor (to_broadcaster_msat p) + to_sat_floor (to_countersignatory_msat p).
Proof.
  intros Hp. pose proof (to_sat_floor_bound _ (ok_to_broadcaster _ Hp)).
  pose proof (to_sat_floor_bound _ (ok_to_countersignatory _ Hp)).
  pose proof (base_fee_nonneg p).
  unfold to_broadcaster_sat, to_countersignatory_sat, fee_paid, sat_sub.
  destruct (broadcaster_pays_fee p); lia.
Qed.

Lemma outputs_sum p : amounts_ok p -> zsum (map out_value (outputs p)) + fee_paid p <= sat_in p.
Proof.
  intros Hp. rewrite (zsum_perm _ _ (Permutation_map out_value (outputs_parts p))).
  rewrite map_app, zsum_app. destruct (party_sats p Hp) as (H1 & H2 & H3).
  pose proof (htlc_txouts_sum p _ (ok_htlcs _ Hp)). unfold sat_in.
  assert (zsum (map out_value (party_txouts p)) <= to_broadcaster_sat p + to_countersignatory_sat p).
  { unfold party_txouts. rewrite map_app, zsum_app.
    destruct (_ <=? to_broadcaster_sat p), (_ <=? to_countersignatory_sat p); simpl; lia. }
  lia.
Qed.

Lemma outputs_no_dust p : params_ok p ->
  Forall (fun o => broadcaster_dust_limit_sat p <= out_value o) (outputs p).
Proof.
  intros Hp. rewrite outputs_parts. apply Forall_app. split.
  - unfold party_txouts. apply Forall_app. split;
      (match goal with |- context [?a <=? ?b] => destruct (Z.leb_spec a b) end);
      repeat constructor; simpl; lia.
  - unfold htlc_txouts. apply Forall_concat, Forall_map. apply Forall_true. intros h.
    destruct (trimmed p h) eqn:Ht; [constructor|]. repeat constructor. simpl.
    pose proof (untrimmed_value p h Hp Ht).
    pose proof (htlc_fee_bound (feerate p) h (ok_feerate _ Hp)). lia.
Qed.

(** ** Output indices *)
Definition htlc_of (e : Staged) : option (nat * bytes) :=
  match e.2 with Htlc i s => Some (i, s) | _ => None end.

Lemma imap_pair_snoc {A} (l : list A) x : imap pair (l ++ [x]) = imap pair l ++ [(length l, x)].
Proof. rewrite imap_app. simpl. by rewrite Nat.add_0_r. Qed.

Lemma place_all_snoc n l e : place_all n (l ++ [e]) = place (place_all n l) (length l, e).
Proof. unfold place_all. by rewrite imap_pair_snoc, foldl_app. Qed.

Lemma place_all_order n l : pl_order (place_all n l) = omap htlc_of l.
Proof.
  induction l as [|e l IH] using rev_ind; [done|].
  rewrite place_all_snoc, omap_app. destruct e as [[o c] [| |i s]]; cbn [place pl_order];
    rewrite IH; cbn; by rewrite ?app_nil_r.
Qed.

Lemma place_all_length n l : length (pl_indices (place_all n l)) = n.
Proof.
  induction l as [|e l IH] using rev_ind; [apply length_replicate|].
  rewrite place_all_snoc. destruct e as [[o c] [| |i s]]; cbn [place pl_indices]; [done..|].
  by rewrite length_insert.
Qed.

Lemma place_all_none n l i :
  (i < n)%nat -> (i ∉ (omap htlc_of l).*1) -> pl_indices (place_all n l) !! i = Some None.
Proof.
  intros Hi. induction l as [|e l IH] using rev_ind.
  - intros _. by apply lookup_replicate_2.
  - rewrite place_all_snoc, omap_app, fmap_app. intros Hni.
    apply not_elem_of_app in Hni as [Hni He]. specialize (IH Hni).
    destruct e as [[o c] [| |j s]]; cbn [place pl_indices]; [done..|].
    cbn in He. apply not_elem_of_cons in He as [He _].
    by rewrite list_lookup_insert_ne by done.
Qed.

Lemma place_all_some n l v e i s :
  NoDup (omap htlc_of l).*1 -> Forall (fun x => x < n)%nat (omap htlc_of l).*1 ->
  l !! v = Some e -> htlc_of e = Some (i, s) ->
  pl_indices (place_all n l) !! i = Some (Some (wrap 32 (Z.of_nat v))).
Proof.
  induction l as [|e' l IH] using rev_ind; [done|].
  rewrite place_all_snoc, omap_app, fmap_app.
  intros (Hnd & Hdis & _)%NoDup_app [Hlt Hlt']%Forall_app Hv He.
  apply lookup_snoc_Some in Hv as [[Hv Hl]|[-> ->]].
  - specialize (IH Hnd Hlt Hl He). destruct e' as [[o c] [| |j s']]; cbn [place pl_indices]; [done..|].
    rewrite list_lookup_insert_ne; [done|]. intros ->.
    apply (Hdis i); [|cbn; by left]. apply list_elem_of_fmap. exists (i, s). split; [done|].
    apply list_elem_of_omap. exists e. split; [|done]. by eapply list_elem_of_lookup_2.
  - destruct e as [[o c] [| |j s']]; try discriminate He. injection He as -> ->.
    cbn [place pl_indices]. apply list_lookup_insert_eq. rewrite place_all_length.
    cbn in Hlt'. by apply Forall_cons in Hlt' as [? _].
Qed.

Lemma place_all_broadcaster n l :
  match pl_broadcaster (place_all n l) with
  | Some w => exists v e, l !! v = Some e /\ e.2 = Broadcaster /\ w = wrap 32 (Z.of_nat v)
  | None => forall e, e ∈ l -> e.2 <> Broadcaster
  end.
Proof.
  induction l as [|e l IH] using rev_ind; [intros e He; by apply elem_of_nil in He|].
  rewrite place_all_snoc.
  assert (Hkeep : e.2 <> Broadcaster -> match pl_broadcaster (place_all n l) with
    | Some w => exists v e', (l ++ [e]) !! v = Some e' /\ e'.2 = Broadcaster /\
        w = wrap 32 (Z.of_nat v)
    | None => forall e', e' ∈ l ++ [e] -> e'.2 <> Broadcaster end).
  { intros Hne. destruct (pl_broadcaster (place_all n l)) as [w|].
    - destruct IH as (v & e' & Hv & Hb & ->). exists v, e'. split; [|done].
      by apply lookup_app_l_Some.
    - intros e' [He'|He']%elem_of_app; [by apply IH|]. by apply list_elem_of_singleton in He' as ->. }
  destruct e as [[o c] [| |i s]]; cbn [place pl_broadcaster]; [|by apply Hkeep..].
  exists (length l), (o, c, Broadcaster). split; [by apply list_lookup_middle|done].
Qed.

(** [omap] keeps positions in order. *)
Lemma omap_lookup {A B} (f : A -> option B) (l : list A) (k : nat) (y : B) :
  omap f l !! k = Some y -> exists v x, l !! v = Some x /\ f x = Some y.
Proof.
  intros H. apply list_elem_of_lookup_2, list_elem_of_omap in H as (x & Hx & Hf).
  apply list_elem_of_lookup in Hx as [v Hv]. by exists v, x.
Qed.

Lemma omap_lookup_mono {A B} (f : A -> option B) (l : list A) (k1 k2 : nat) (y1 y2 : B) :
  (k1 < k2)%nat -> omap f l !! k1 = Some y1 -> omap f l !! k2 = Some y2 ->
  exists v1 v2 x1 x2, (v1 < v2)%nat /\ l !! v1 = Some x1 /\ l !! v2 = Some x2 /\
    f x1 = Some y1 /\ f x2 = Some y2.
Proof.
  revert k1 k2. induction l as [|x l IH]; intros k1 k2 Hk H1 H2; [done|].
  cbn in H1, H2. destruct (f x) as [y|] eqn:Hx.
  - destruct k2 as [|k2]; [lia|]. destruct k1 as [|k1]; cbn in H1, H2.
    + injection H1 as ->. apply omap_lookup in H2 as (v & x2 & Hv & Hf).
      exists 0%nat, (S v), x, x2. split_and!; [lia|done..].
    + destruct (IH k1 k2 ltac:(lia) H1 H2) as (v1 & v2 & x1 & x2 & ? & ? & ? & ? & ?).
      exists (S v1), (S v2), x1, x2. split_and!; [lia|done..].
  - destruct (IH k1 k2 Hk H1 H2) as (v1 & v2 & x1 & x2 & ? & ? & ? & ? & ?).
    exists (S v1), (S v2), x1, x2. split_and!; [lia|done..].
Qed.

Definition htlc_stage p (k : nat) (hs : list HtlcOutputInCommitment) : list Staged :=
  concat (map (stage_htlc p) (imap (fun i h => ((k + i)%nat, h)) hs)).

Lemma htlc_stage_cons p k h hs :
  htlc_stage p k (h :: hs) = stage_htlc p (k, h) ++ htlc_stage p (S k) hs.
Proof.
  unfold htlc_stage. rewrite imap_cons. cbn [map concat]. rewrite Nat.add_0_r.
  do 3 f_equal. apply imap_ext. intros i x _. simpl. f_equal. lia.
Qed.

Definition htlc_txout p (h : HtlcOutputInCommitment) : TxOut :=
  {| out_value := to_sat_floor (amount_msat h);
     script_pubkey := new_p2wsh (htlc_witness_script (cp_keys p) h) |}.

Lemma htlc_stage_elem p k hs e :
  e ∈ htlc_stage p k hs <->
  exists i h, hs !! i = Some h /\ trimmed p h = false /\
    e = (htlc_txout p h, cltv_expiry h, Htlc (k + i) (htlc_witness_script (cp_keys p) h)).
Proof.
  revert k. induction hs as [|h hs IH]; intros k.
  { split; [by intros ?%elem_of_nil|]. intros (i & h & Hi & _). done. }
  rewrite htlc_stage_cons, elem_of_app, IH. unfold stage_htlc. split.
  - intros [He|(i & h' & Hi & Ht & ->)].
    + destruct (trimmed p h) eqn:Ht; [by apply elem_of_nil in He|].
      apply list_elem_of_singleton in He as ->. exists 0%nat, h. rewrite Nat.add_0_r. done.
    + exists (S i), h'. rewrite Nat.add_succ_comm. done.
  - intros (i & h' & Hi & Ht & ->). destruct i as [|i].
    + injection Hi as ->. left. rewrite Ht, Nat.add_0_r. by left.
    + right. exists i, h'. rewrite <- Nat.add_succ_comm. done.
Qed.

Lemma htlc_stage_indices p k hs :
  NoDup (omap htlc_of (htlc_stage p k hs)).*1 /\
  Forall (fun i => k <= i < k + length hs)%nat (omap htlc_of (htlc_stage p k hs)).*1.
Proof.
  revert k. induction hs as [|h hs IH]; intros k; [split; constructor|].
  destruct (IH (S k)) as [Hnd Hall]. rewrite htlc_stage_cons, omap_app, fmap_app.
  assert (Hall' : Forall (fun i => k <= i < k + S (length hs))%nat
    (omap htlc_of (htlc_stage p (S k) hs)).*1).
  { eapply Forall_impl; [exact Hall|]. simpl. intros. lia. }
  unfold stage_htlc. destruct (trimmed p h); cbn [omap list_omap htlc_of fmap list_fmap snd app].
  - done.
  - split; [|constructor; [simpl; lia|done]]. constructor; [|done].
    intros Hin. rewrite Forall_forall in Hall. specialize (Hall k Hin). simpl in Hall. lia.
Qed.

Definition staged p : list Staged := sort_by staged_leb (stage p).

Lemma stage_htlcs p : omap htlc_of (stage p) = omap htlc_of (htlc_stage p 0 (htlcs p)).
Proof.
  unfold stage. change (concat _) with (htlc_stage p 0 (htlcs p)). rewrite !omap_app.
  destruct (_ <=? to_broadcaster_sat p), (_ <=? to_countersignatory_sat p); reflexivity.
Qed.

Lemma omap_perm {A B} (f : A -> option B) (l l' : list A) : l ≡ₚ l' -> omap f l ≡ₚ omap f l'.
Proof.
  induction 1 as [| |x y l|]; cbn; [done| |destruct (f x), (f y); try done; constructor|by etrans].
  case_match; [by constructor|done].
Qed.

Lemma staged_indices p :
  NoDup (omap htlc_of (staged p)).*1 /\
  Forall (fun i => i < length (htlcs p))%nat (omap htlc_of (staged p)).*1.
Proof.
  assert (Hp : (omap htlc_of (staged p)).*1 ≡ₚ (omap htlc_of (htlc_stage p 0 (htlcs p))).*1).
  { rewrite <- stage_htlcs. apply Permutation_map, omap_perm, sort_by_perm. }
  destruct (htlc_stage_indices p 0 (htlcs p)) as [Hnd Hall]. rewrite Hp. split; [done|].
  eapply Forall_impl; [done|]. simpl. lia.
Qed.

Lemma staged_htlc p e i s :
  e ∈ staged p -> htlc_of e = Some (i, s) ->
  exists h, htlcs p !! i = Some h /\ trimmed p h = false /\ e.1.1 = htlc_txout p h /\
    s = htlc_witness_script (cp_keys p) h.
Proof.
  intros He Hh. assert (Hin : (i, s) ∈ omap htlc_of (htlc_stage p 0 (htlcs p))).
  { rewrite <- stage_htlcs. apply list_elem_of_omap. exists e. split; [|done].
    by rewrite <- (sort_by_perm staged_leb (stage p)). }
  assert (He' : e ∈ stage p) by by rewrite <- (sort_by_perm staged_leb (stage p)).
  unfold stage in He'. change (concat _) with (htlc_stage p 0 (htlcs p)) in He'.
  rewrite !elem_of_app in He'. destruct He' as [He'|[He'|He']].
  - destruct (_ <=? _); [|by apply elem_of_nil in He'].
    apply list_elem_of_singleton in He' as ->. discriminate Hh.
  - destruct (_ <=? _); [|by apply elem_of_nil in He'].
    apply list_elem_of_singleton in He' as ->. discriminate Hh.
  - apply htlc_stage_elem in He' as (j & h & Hj & Ht & ->). injection Hh as <- <-.
    exists h. done.
Qed.

Lemma outputs_staged p v (e : Staged) : staged p !! v = Some e -> outputs p !! v = Some e.1.1.
Proof.
  intros H. unfold outputs, build_commitment_tx. cbn [built_tx output].
  rewrite list_lookup_fmap.
  change ((fun e : Staged => e.1.1) <$> (staged p !! v) = Some e.1.1). by rewrite H.
Qed.

Lemma staged_length p : (length (staged p) <= 2 + length (htlcs p))%nat.
Proof.
  unfold staged. rewrite sort_by_perm. unfold stage.
  change (concat _) with (htlc_stage p 0 (htlcs p)). rewrite !length_app.
  assert (forall k, length (htlc_stage p k (htlcs p)) <= length (htlcs p))%nat as Hl.
  { induction (htlcs p) as [|h hs IH]; intros k; [done|].
    rewrite htlc_stage_cons, length_app. specialize (IH (S k)).
    unfold stage_htlc. destruct (trimmed p h); simpl; lia. }
  specialize (Hl 0%nat).
  destruct (_ <=? to_broadcaster_sat p), (_ <=? to_countersignatory_sat p); cbn [length]; lia.
Qed.

Lemma staged_index_some p i h :
  htlcs p !! i = Some h -> trimmed p h = false ->
  exists v e, staged p !! v = Some e /\ htlc_of e = Some (i, htlc_witness_script (cp_keys p) h).
Proof.
  intros Hi Ht.
  assert (He : (htlc_txout p h, cltv_expiry h, Htlc i (htlc_witness_script (cp_keys p) h)) ∈ staged p).
  { unfold staged. rewrite sort_by_perm. unfold stage.
    change (concat _) with (htlc_stage p 0 (htlcs p)).
    rewrite !elem_of_app. do 2 right. apply htlc_stage_elem. exists i, h. done. }
  apply list_elem_of_lookup in He as [v Hv]. by exists v, (htlc_txout p h, cltv_expiry h, Htlc i (htlc_witness_script (cp_keys p) h)).
Qed.

Lemma stage_broadcaster p e :
  e ∈ stage p -> e.2 = Broadcaster ->
  broadcaster_dust_limit_sat p <= to_broadcaster_sat p /\
  e.1.1 = {| out_value := to_broadcaster_sat p;
             script_pubkey := new_p2wsh (revocable_delayed (revocation_key (cp_keys p))
               (to_self_delay p) (broadcaster_delayed_payment_key (cp_keys p))) |}.
Proof.
  intros He Hb. unfold stage in He. change (concat _) with (htlc_stage p 0 (htlcs p)) in He.
  rewrite !elem_of_app in He. destruct He as [He|[He|He]].
  - destruct (Z.leb_spec (broadcaster_dust_limit_sat p) (to_broadcaster_sat p)) as [Hd|];
      [|by apply elem_of_nil in He].
    by apply list_elem_of_singleton in He as ->.
  - destruct (_ <=? _); [|by apply elem_of_nil in He].
    by apply list_elem_of_singleton in He as ->.
  - apply htlc_stage_elem in He as (j & h & _ & _ & ->). discriminate Hb.
Qed.

(** The reported position of the broadcaster's own output. *)
Lemma to_broadcaster_placed p :
  Z.of_nat (length (htlcs p)) <= 65535 ->
  match to_broadcaster_index (build_commitment_tx p) with
  | Some w => exists v, w = Z.of_nat v /\ outputs p !! v =
      Some {| out_value := to_broadcaster_sat p;
              script_pubkey := new_p2wsh (revocable_delayed (revocation_key (cp_keys p))
                (to_self_delay p) (broadcaster_delayed_payment_key (cp_keys p))) |}
  | None => to_broadcaster_sat p < broadcaster_dust_limit_sat p
  end.
Proof.
  intros Hlen. pose proof (place_all_broadcaster (length (htlcs p)) (staged p)) as H.
  change (to_broadcaster_index (build_commitment_tx p))
    with (pl_broadcaster (place_all (length (htlcs p)) (staged p))).
  destruct (pl_broadcaster _) as [w|].
  - destruct H as (v & e & Hv & Hb & ->). exists v.
    pose proof (staged_length p). pose proof (lookup_lt_Some _ _ _ Hv).
    split; [apply wrap_small; unfold uint; lia|].
    destruct (stage_broadcaster p e) as [_ He]; [|done|by rewrite (outputs_staged p v e Hv), He].
    rewrite <- (sort_by_perm staged_leb (stage p)). by eapply list_elem_of_lookup_2.
  - apply Z.lt_nge. intros Hd.
    apply (H ({| out_value := to_broadcaster_sat p;
      script_pubkey := new_p2wsh (revocable_delayed (revocation_key (cp_keys p))
        (to_self_delay p) (broadcaster_delayed_payment_key (cp_keys p))) |}, 0, Broadcaster)); [|done].
    unfold staged. rewrite (sort_by_perm staged_leb (stage p)). unfold stage.
    rewrite (proj2 (Z.leb_le _ _) Hd). by left.
Qed.

(** An untrimmed HTLC has a signature slot. *)
Lemma order_complete p k h :
  htlcs p !! k = Some h -> trimmed p h = false ->
  exists j, htlcs_in_output_order (build_commitment_tx p) !! j =
    Some (k, htlc_witness_script (cp_keys p) h).
Proof.
  intros Hk Ht. destruct (staged_index_some p k h Hk Ht) as (v & e & Hv & He).
  apply list_elem_of_lookup.
  change (htlcs_in_output_order (build_commitment_tx p))
    with (pl_order (place_all (length (htlcs p)) (staged p))).
  rewrite place_all_order. apply list_elem_of_omap. exists e. split; [|done].
  by eapply list_elem_of_lookup_2.
Qed.

(** ** The obscured commitment number *)
(** What an observer reads back from a commitment transaction. *)
Definition recover_number (tx : Transaction) (factor : Z) : option Z :=
  match input tx with
  | [i] => Some (Z.lxor (Z.lor (Z.shiftl (Z.land (sequence i) 0xffffff) 24)
                           (Z.land (lock_time tx) 0xffffff)) factor)
  | _ => None
  end.

Lemma lor_high_24 c x :
  uint 24 x -> 0 <= c -> Z.lor (c * 2 ^ 24) x = c * 2 ^ 24 + x.
Proof.
  intros Hx Hc. rewrite <- Z.shiftl_mul_pow2 by lia. rewrite lor_shiftl_add; [|lia|exact Hx].
  by rewrite Z.shiftl_mul_pow2 by lia.
Qed.

Lemma obscured_fields p :
  uint 48 (commitment_number p) -> uint 48 (obscure_factor p) ->
  let tx := built_tx (build_commitment_tx p) in
  let o := Z.lxor (commitment_number p) (obscure_factor p) in
  lock_time tx = 0x20 * 2 ^ 24 + o mod 2 ^ 24 /\
  map sequence (input tx) = [0x80 * 2 ^ 24 + o / 2 ^ 24].
Proof.
  intros Hn Hf. cbv zeta. unfold build_commitment_tx. cbn [built_tx lock_time input map sequence].
  set (o := Z.lxor _ _). assert (Ho : uint 48 o) by (apply lxor_uint; [lia|done..]).
  assert (Hq : 0 <= o / 2 ^ 24 < 2 ^ 24).
  { unfold uint in Ho. split; [apply Z.div_pos; lia|apply Z.div_lt_upper_bound; lia]. }
  pose proof (Z.mod_pos_bound o (2 ^ 24) ltac:(lia)).
  change 0xffffff with (Z.ones 24). rewrite !Z.land_ones, Z.shiftr_div_pow2 by lia.
  rewrite (Z.mod_small (o / 2 ^ 24)) by lia.
  rewrite !wrap_small by (unfold uint; lia).
  split; [apply (lor_high_24 0x20)|f_equal; apply (lor_high_24 0x80)]; unfold uint; lia.
Qed.

Lemma recover_number_base p :
  uint 48 (commitment_number p) -> uint 48 (obscure_factor p) ->
  recover_number (built_tx (build_commitment_tx p)) (obscure_factor p) =
    Some (commitment_number p).
Proof.
  intros Hn Hf. destruct (obscured_fields p Hn Hf) as [Hl Hs].
  unfold recover_number. rewrite Hl.
  assert (exists i, input (built_tx (build_commitment_tx p)) = [i] /\
    sequence i = 0x80 * 2 ^ 24 + Z.lxor (commitment_number p) (obscure_factor p) / 2 ^ 24)
    as (i & -> & ->).
  { destruct (input _) as [|i [|]]; try discriminate Hs. exists i.
    split; [reflexivity|]. apply (f_equal (fun l => l !!! 0%nat)) in Hs. exact Hs. }
  f_equal. set (o := Z.lxor (commitment_number p) (obscure_factor p)). assert (Ho : uint 48 o) by (apply lxor_uint; [lia|done..]).
  unfold uint in Ho. assert (Hq : 0 <= o / 2 ^ 24 < 2 ^ 24)
    by (split; [apply Z.div_pos; lia|apply Z.div_lt_upper_bound; lia]).
  change 0xffffff with (Z.ones 24). rewrite !Z.land_ones by lia.
  rewrite !(Z.add_comm (_ * 2 ^ 24)), !Z_mod_plus_full, Z.mod_mod, (Z.mod_small (o / 2 ^ 24)) by lia.
  rewrite lor_shiftl_add by (try apply Z.mod_pos_bound; lia).
  replace (o / 2 ^ 24 * 2 ^ 24 + o mod 2 ^ 24) with o by (pose proof (Z.div_mod o (2 ^ 24)); lia).
  unfold o. by rewrite Z.lxor_assoc, Z.lxor_nilpotent, Z.lxor_0_r.
Qed.

Lemma obscure_factor_uint a b : uint 48 (commit_number_obscure_factor a b).
Proof.
  unfold commit_number_obscure_factor. cbv zeta.
  pose proof (sha256_updates [pk_serialize a; pk_serialize b]) as H. cbn [foldl] in H. rewrite H.
  rewrite <- sha256_eq_spec. pose proof (sha256_bytes_ok (concat [pk_serialize a; pk_serialize b])) as Hd.
  pose proof (length_sha256 (concat [pk_serialize a; pk_serialize b])) as Hlen.
  revert Hd Hlen. generalize (sha256 (concat [pk_serialize a; pk_serialize b])). intros d Hd Hlen.
  assert (Hz : of_be ([0; 0] ++ take 6 (drop 26 d)) = of_be (take 6 (drop 26 d)))
    by by rewrite !of_be_foldl.
  rewrite Hz. apply (of_be_uint 6); [done| |].
  - by rewrite length_take, length_drop, Hlen.
  - by apply Forall_take, Forall_drop.
Qed.

(** ** Symmetry of what both peers build *)
Lemma funding_redeemscript_comm a b : funding_redeemscript a b = funding_redeemscript b a.
Proof.
  unfold funding_redeemscript.
  destruct (bytes_leb (pk_serialize a) (pk_serialize b)) eqn:H1,
    (bytes_leb (pk_serialize b) (pk_serialize a)) eqn:H2; try reflexivity.
  - by rewrite (bytes_leb_antisym _ _ H1 H2).
  - destruct (bytes_leb_total (pk_serialize a) (pk_serialize b)); congruence.
Qed.

Lemma closing_tx_comm o a b sa sb d :
  build_closing_tx o a b sa sb d = build_closing_tx o b a sb sa d.
Proof.
  unfold build_closing_tx. f_equal.
  apply (sorted_unique (fun a b => txout_leb a b = true)); [apply txout_leb_antisym|..];
    try (apply sort_by_sorted; [apply txout_leb_total|apply txout_leb_trans]).
  rewrite !sort_by_perm. apply Permutation_app_comm.
Qed.

(** [C36] A commitment transaction creates no value and no dust: the outputs
    and the fee its payer bears add up to at most the floored balances and
    HTLC amounts, every output reaches the broadcaster's dust limit, and the
    outputs are in BOLT 3 order. *)
Theorem commitment_value_safe p :
  params_ok p ->
  zsum (map out_value (outputs p)) + fee_paid p <= sat_in p /\
  Forall (fun o => broadcaster_dust_limit_sat p <= out_value o) (outputs p) /\
  StronglySorted (fun a b => txout_leb a b = true) (outputs p).
Proof.
  intros Hp. split_and!; [apply outputs_sum, Hp|by apply outputs_no_dust|apply outputs_sorted].
Qed.

Lemma htlc_indices_base p i h :
  Z.of_nat (length (htlcs p)) <= 65535 -> htlcs p !! i = Some h ->
  if trimmed p h then htlc_output_indices (build_commitment_tx p) !! i = Some None
  else exists v, htlc_output_indices (build_commitment_tx p) !! i = Some (Some (Z.of_nat v)) /\
    outputs p !! v = Some (htlc_txout p h).
Proof.
  intros Hlen Hi. pose proof (lookup_lt_Some _ _ _ Hi) as Hil.
  destruct (staged_indices p) as [Hnd Hall].
  change (htlc_output_indices (build_commitment_tx p))
    with (pl_indices (place_all (length (htlcs p)) (staged p))).
  destruct (trimmed p h) eqn:Ht.
  - apply place_all_none; [done|]. intros Hin.
    apply list_elem_of_fmap in Hin as ([i' s] & Hi' & Hin). simpl in Hi'. subst i'.
    apply list_elem_of_omap in Hin as (e & He & Hh).
    destruct (staged_htlc p e i s He Hh) as (h' & Hh' & Ht' & _). congruence.
  - destruct (staged_index_some p i h Hi Ht) as (v & e & Hv & He). exists v.
    pose proof (staged_length p). pose proof (lookup_lt_Some _ _ _ Hv).
    rewrite (place_all_some _ _ v e i _ Hnd Hall Hv He), wrap_small by (unfold uint; lia).
    split; [done|]. rewrite (outputs_staged p v e Hv). f_equal.
    destruct (staged_htlc p e i _ (list_elem_of_lookup_2 _ _ _ Hv) He) as (h' & Hh' & _ & -> & _).
    congruence.
Qed.

Lemma commitment_index p i h :
  Z.of_nat (length (htlcs p)) <= 65535 -> htlcs p !! i = Some h -> trimmed p h = false ->
  exists v, htlc_output_indices (build_commitment_tx p) !! i = Some (Some (Z.of_nat v)) /\
    outputs p !! v = Some (htlc_txout p h).
Proof. intros Hl Hi Ht. pose proof (htlc_indices_base p i h Hl Hi) as H. by rewrite Ht in H. Qed.

(** [C38] The reported indices are right: an HTLC that is trimmed has no
    index, any other has the index of the output that pays its amount to its
    witness script. *)
Theorem commitment_htlc_indices p i h :
  Z.of_nat (length (htlcs p)) <= 65535 -> htlcs p !! i = Some h ->
  if trimmed p h then htlc_output_indices (build_commitment_tx p) !! i = Some None
  else exists v, htlc_output_indices (build_commitment_tx p) !! i = Some (Some (Z.of_nat v)) /\
    outputs p !! v = Some (htlc_txout p h).
Proof. apply htlc_indices_base. Qed.

(** HTLC signatures are exchanged in the right order:
    [htlcs_in_output_order] lists untrimmed HTLCs with their own witness
    scripts, earlier entries at strictly lower output indices. *)
Theorem commitment_signature_order p k i s :
  Z.of_nat (length (htlcs p)) <= 65535 ->
  htlcs_in_output_order (build_commitment_tx p) !! k = Some (i, s) ->
  (exists h, htlcs p !! i = Some h /\ trimmed p h = false /\
     s = htlc_witness_script (cp_keys p) h) /\
  forall k' i' s', (k < k')%nat ->
    htlcs_in_output_order (build_commitment_tx p) !! k' = Some (i', s') ->
    exists v v', v < v' /\
      htlc_output_indices (build_commitment_tx p) !! i = Some (Some v) /\
      htlc_output_indices (build_commitment_tx p) !! i' = Some (Some v').
Proof.
  intros Hlen.
  change (htlcs_in_output_order (build_commitment_tx p))
    with (pl_order (place_all (length (htlcs p)) (staged p))).
  change (htlc_output_indices (build_commitment_tx p))
    with (pl_indices (place_all (length (htlcs p)) (staged p))).
  rewrite place_all_order. intros Hk. destruct (staged_indices p) as [Hnd Hall].
  pose proof (staged_length p). split.
  - apply omap_lookup in Hk as (v & e & Hv & He).
    destruct (staged_htlc p e i s (list_elem_of_lookup_2 _ _ _ Hv) He) as (h & ? & ? & _ & ?).
    by exists h.
  - intros k' i' s' Hkk Hk'.
    destruct (omap_lookup_mono _ _ _ _ _ _ Hkk Hk Hk') as (v & v' & e & e' & Hvv & Hv & Hv' & He & He').
    exists (Z.of_nat v), (Z.of_nat v'). split; [lia|].
    pose proof (lookup_lt_Some _ _ _ Hv). pose proof (lookup_lt_Some _ _ _ Hv').
    rewrite (place_all_some _ _ v e i s Hnd Hall Hv He).
    rewrite (place_all_some _ _ v' e' i' s' Hnd Hall Hv' He').
    rewrite !wrap_small by (unfold uint; lia). done.
Qed.

(** [C37] Both peers build the same commitment transaction whatever order they
    keep the HTLCs in, so a signature made by one verifies for the other. *)
Theorem commitment_order_independent p hs :
  htlcs p ≡ₚ hs ->
  built_tx (build_commitment_tx (with_htlcs p hs)) = built_tx (build_commitment_tx p).
Proof. apply order_independent. Qed.

Lemma le_bytes_u32_inj a b : u32 a -> u32 b -> le_bytes 4 a = le_bytes 4 b -> a = b.
Proof.
  intros Ha Hb H. apply (f_equal of_le) in H. by rewrite !(of_le_le_bytes_id 4 32) in H.
Qed.

(** The bytes the txid is the hash of determine sequence and lock time. *)
Lemma legacy_fields a b i j :
  version a = version b -> input a = [i] -> input b = [j] ->
  previous_output i = previous_output j -> script_sig i = script_sig j ->
  serialize_legacy a = serialize_legacy b ->
  le_bytes 4 (sequence i) = le_bytes 4 (sequence j) /\
  le_bytes 4 (lock_time a) = le_bytes 4 (lock_time b).
Proof.
  intros Hv Hi Hj Hp Hs Heq. unfold serialize_legacy, write_inputs_outputs in Heq.
  rewrite Hv, Hi, Hj in Heq. cbn [map concat length] in Heq. rewrite !app_nil_r in Heq.
  unfold txin_write in Heq. rewrite Hp, Hs, <- !app_assoc in Heq. do 4 apply app_inv_head in Heq.
  apply app_inj_1 in Heq as [Hseq Hrest]; [|by rewrite !length_le_bytes]. split; [exact Hseq|].
  rewrite !app_assoc in Hrest. by apply app_inj_2 in Hrest as [_ Hlock]; [|by rewrite !length_le_bytes].
Qed.

(** One input, its sequence and the lock time, both within 32 bits. *)
Lemma commitment_fields p :
  uint 48 (commitment_number p) -> uint 48 (obscure_factor p) ->
  exists i, input (built_tx (build_commitment_tx p)) = [i] /\
    previous_output i = cp_funding_outpoint p /\ script_sig i = [] /\ u32 (sequence i) /\
    u32 (lock_time (built_tx (build_commitment_tx p))).
Proof.
  intros Hp Hf. destruct (obscured_fields p Hp Hf) as [Hl Hs]. cbv zeta in Hl, Hs.
  assert (Ho : uint 48 (Z.lxor (commitment_number p) (obscure_factor p)))
    by (apply lxor_uint; [lia|done..]).
  set (o := Z.lxor (commitment_number p) (obscure_factor p)) in *.
  eexists. split; [reflexivity|]. split; [reflexivity|]. split; [reflexivity|].
  apply (f_equal (fun l => l !!! 0%nat)) in Hs.
  change (u32 ((map sequence (input (built_tx (build_commitment_tx p)))) !!! 0%nat) /\
    u32 (lock_time (built_tx (build_commitment_tx p)))). rewrite Hs, Hl.
  change (u32 (0x80 * 2 ^ 24 + o / 2 ^ 24) /\ u32 (0x20 * 2 ^ 24 + o mod 2 ^ 24)).
  unfold uint in *. pose proof (Z.mod_pos_bound o (2 ^ 24) ltac:(lia)).
  pose proof (Z.div_pos o (2 ^ 24) ltac:(lia) ltac:(lia)).
  assert (o / 2 ^ 24 < 2 ^ 24) by (apply Z.div_lt_upper_bound; lia). lia.
Qed.

(** So they determine the commitment's number. *)
Lemma legacy_number p q :
  uint 48 (commitment_number p) -> uint 48 (commitment_number q) -> uint 48 (obscure_factor p) ->
  obscure_factor q = obscure_factor p -> cp_funding_outpoint q = cp_funding_outpoint p ->
  serialize_legacy (built_tx (build_commitment_tx p)) =
    serialize_legacy (built_tx (build_commitment_tx q)) ->
  commitment_number p = commitment_number q.
Proof.
  intros Hp Hq Hf Hfq Hout Heq. assert (Hf' : uint 48 (obscure_factor q)) by (by rewrite Hfq).
  pose proof (recover_number_base p Hp Hf) as Rp. pose proof (recover_number_base q Hq Hf') as Rq.
  rewrite Hfq in Rq.
  destruct (commitment_fields p Hp Hf) as (i & Hi & Pi & Si & Ui & Ul).
  destruct (commitment_fields q Hq Hf') as (j & Hj & Pj & Sj & Uj & Um).
  destruct (legacy_fields (built_tx (build_commitment_tx p)) (built_tx (build_commitment_tx q)) i j)
    as [Hseq Hlock]; [reflexivity|congruence..|].
  apply le_bytes_u32_inj in Hseq; [|done..]. apply le_bytes_u32_inj in Hlock; [|done..].
  unfold recover_number in Rp, Rq. rewrite Hi in Rp. rewrite Hj in Rq. congruence.
Qed.

(** The 48-bit commitment number survives obscuring: it is read back
    from locktime and sequence of the built transaction with the same factor,
    and the marker bytes 0x20 and 0x80 are in place. *)
Theorem commitment_number_recovered p opener accepter :
  uint 48 (commitment_number p) ->
  obscure_factor p = commit_number_obscure_factor opener accepter ->
  let tx := built_tx (build_commitment_tx p) in
  recover_number tx (obscure_factor p) = Some (commitment_number p) /\
  lock_time tx / 2 ^ 24 = 0x20 /\ map (fun i => sequence i / 2 ^ 24) (input tx) = [0x80].
Proof.
  intros Hn Hf. assert (Hf48 : uint 48 (obscure_factor p))
    by (rewrite Hf; apply obscure_factor_uint).
  cbv zeta. split; [by apply recover_number_base|].
  destruct (obscured_fields p Hn Hf48) as [Hl Hs]. cbv zeta in Hl, Hs.
  assert (Ho : uint 48 (Z.lxor (commitment_number p) (obscure_factor p)))
    by (apply lxor_uint; [lia|done..]). unfold uint in Ho.
  set (o := Z.lxor (commitment_number p) (obscure_factor p)) in *.
  assert (Hq : 0 <= o / 2 ^ 24 < 2 ^ 24)
    by (split; [apply Z.div_pos; lia|apply Z.div_lt_upper_bound; lia]).
  pose proof (Z.mod_pos_bound o (2 ^ 24) ltac:(lia)). split.
  - rewrite Hl. symmetry. apply (Z.div_unique _ _ _ (o mod 2 ^ 24)); lia.
  - rewrite <- (map_map sequence (fun s => s / 2 ^ 24)), Hs. cbn [map]. f_equal.
    symmetry. apply (Z.div_unique _ _ _ (o / 2 ^ 24)); lia.
Qed.

(** An untrimmed HTLC can always be swept: its second-stage transaction
    spends the reported output, pays exactly the weight-based fee, and its
    output reaches the dust limit. *)
Theorem htlc_tx_above_dust p h txid v :
  params_ok p -> trimmed p h = false ->
  let fee := if offered h then htlc_timeout_fee (feerate p) else htlc_success_fee (feerate p) in
  exists o, output (build_htlc_tx txid v h (cp_keys p) (to_self_delay p) (feerate p)) = [o] /\
    out_value o = out_value (htlc_txout p h) - fee /\
    broadcaster_dust_limit_sat p <= out_value o.
Proof.
  intros Hp Ht. cbv zeta. pose proof (untrimmed_value p h Hp Ht) as Hv.
  pose proof (ok_dust _ Hp) as Hd. unfold uint in Hd.
  pose proof (htlc_fee_bound (feerate p) h (ok_feerate _ Hp)) as Hf.
  eexists. split; [reflexivity|]. cbn [out_value htlc_txout]. unfold sat_sub. lia.
Qed.

(** What needs both signatures is the same for both peers: the funding
    script and the closing transaction do not depend on which side is called
    holder. *)
Theorem funding_and_closing_symmetric (a b : PublicKey) o va vb sa sb dust :
  funding_redeemscript a b = funding_redeemscript b a /\
  build_closing_tx o va vb sa sb dust = build_closing_tx o vb va sb sa dust.
Proof. split; [apply funding_redeemscript_comm|apply closing_tx_comm]. Qed.
End Theorems.

(** ** A concrete commitment *)
Definition sample_keys : TxCreationKeys (HS := toy_secp) :=
  {| tck_per_commitment_point := (toy_of 1 : PublicKey (Secp := toy_secp));
     revocation_key := toy_of 2; broadcaster_htlc_key := toy_of 3;
     countersignatory_htlc_key := toy_of 4; broadcaster_delayed_payment_key := toy_of 5 |}.

Definition sample_htlc (amount : Z) : HtlcOutputInCommitment :=
  {| offered := true; amount_msat := amount; cltv_expiry := 500; payment_hash := replicate 32 1 |}.

Definition sample_params : CommitmentTxParams (HS := toy_secp) :=
  {| cp_funding_outpoint := {| op_txid := replicate 32 7; op_vout := 1 |};
     commitment_number := 42;
     obscure_factor := commit_number_obscure_factor (HS := toy_secp) (toy_of 8) (toy_of 9);
     broadcaster_pays_fee := true; feerate := 253; broadcaster_dust_limit_sat := 546;
     to_self_delay := 144; cp_keys := sample_keys;
     countersignatory_payment_basepoint := (toy_of 6 : PublicKey (Secp := toy_secp));
     to_broadcaster_msat := 700000000; to_countersignatory_msat := 300000000;
     htlcs := [sample_htlc 5000000; sample_htlc 100000] |}.

Lemma sample_params_ok : params_ok sample_params.
Proof.
  repeat split; cbn [sample_params feerate broadcaster_dust_limit_sat to_broadcaster_msat
    to_countersignatory_msat htlcs length sample_htlc amount_msat]; unfold uint; try lia.
  apply Forall_cons_2; [unfold sample_htlc; cbn; lia|].
  apply Forall_cons_2; [unfold sample_htlc; cbn; lia|]. apply Forall_nil_2.
Qed.

Lemma commitment_value_safe_witness :
  zsum (map out_value (outputs sample_params)) + fee_paid sample_params <= sat_in sample_params.
Proof. apply commitment_value_safe, sample_params_ok. Defined.

Lemma commitment_htlc_indices_witness :
  htlc_output_indices (build_commitment_tx sample_params) !! 1%nat = Some None.
Proof.
  apply (commitment_htlc_indices sample_params 1 (sample_htlc 100000));
    [simpl; lia|reflexivity].
Defined.

Lemma commitment_signature_order_witness :
  exists h, htlcs sample_params !! 0%nat = Some h /\ trimmed sample_params h = false /\
    htlc_witness_script sample_keys (sample_htlc 5000000) =
      htlc_witness_script (cp_keys sample_params) h.
Proof.
  apply (commitment_signature_order sample_params 0 0); [simpl; lia|].
  vm_compute. reflexivity.
Defined.

Lemma commitment_order_independent_witness :
  built_tx (build_commitment_tx (with_htlcs sample_params
    [sample_htlc 100000; sample_htlc 5000000])) =
  built_tx (build_commitment_tx sample_params).
Proof. apply commitment_order_independent. apply Permutation_swap. Defined.

Lemma commitment_number_recovered_witness :
  recover_number (built_tx (build_commitment_tx sample_params)) (obscure_factor sample_params) =
    Some 42.
Proof.
  apply (commitment_number_recovered sample_params (toy_of 8) (toy_of 9));
    [unfold uint; simpl; lia|reflexivity].
Defined.

Lemma htlc_tx_above_dust_witness :
  exists o, output (build_htlc_tx (replicate 32 3) 0 (sample_htlc 5000000)
      (cp_keys sample_params) (to_self_delay sample_params) (feerate sample_params)) = [o] /\
    out_value o = out_value (htlc_txout sample_params (sample_htlc 5000000)) -
      htlc_timeout_fee (feerate sample_params) /\
    broadcaster_dust_limit_sat sample_params <= out_value o.
Proof.
  apply (htlc_tx_above_dust sample_params (sample_htlc 5000000)); [apply sample_params_ok|reflexivity].
Defined.
