(* ===== verification/Interp.v ===== *)
(** * Interp: what a node of the network runs (specification only)

    The code builds scripts and witnesses but never runs them; the network
    does.  This file is the specification side: an executable interpreter for
    scripts of data pushes and [OP_CHECKMULTISIG], and the P2WSH rule (BIP
    141): the last witness item is the script the output commits to, it runs
    on the other items, and exactly one true value is left.  The signature
    check is a parameter, and is given the signature and key bytes in the order
    the script pairs them. *)
From S2P Require Import Prelude Secp Types Codec Sha256 Script Tx Keys Commitment.

Abbreviation stack := (list bytes).

(** [CastToBool]: any non-zero byte but a negative zero. *)
Fixpoint stack_true (l : bytes) : bool :=
  match l with
  | [] => false
  | [b] => negb ((b =? 0) || (b =? 0x80))
  | b :: l => negb (b =? 0) || stack_true l
  end.

(** [n] items off the stack. *)
Definition pop_items (n : Z) (st : stack) : option (stack * stack) :=
  if (n <? 0) || (Z.of_nat (length st) <? n) then None
  else Some (take (Z.to_nat n) st, drop (Z.to_nat n) st).

(** A counted list: its length is on top of it. *)
Definition pop_counted (st : stack) : option (stack * stack) :=
  match st with n :: st => pop_items (scriptnum_decode n) st | [] => None end.

Section Interp.
Context (check : bytes -> bytes -> bool).

(** Signatures are matched with keys in order: a key that does not fit the
    next signature is skipped for good. *)
Fixpoint match_sigs (sigs keys : list bytes) : bool :=
  match keys with
  | [] => bool_decide (sigs = [])
  | k :: keys =>
    match sigs with
    | [] => true
    | s :: rest => if check s k then match_sigs rest keys else match_sigs sigs keys
    end
  end.

(** [OP_CHECKMULTISIG]: keys, signatures, and one more item that must be empty
    (BIP 147). *)
Definition check_multisig (st : stack) : option stack :=
  '(keys, st) ← pop_counted st;
  '(sigs, st) ← pop_counted st;
  match st with
  | [] :: st => Some ((if match_sigs sigs keys then [1] else []) :: st)
  | _ => None
  end.

(** One unit of fuel per operation: the length of the script is enough. *)
Fixpoint run_script (fuel : nat) (script : bytes) (st : stack) {struct fuel} : option stack :=
  match script with
  | [] => Some st
  | op :: rest =>
    match fuel with
    | O => None
    | S fuel =>
      match read_push script with
      | Some (d, rest) => run_script fuel rest (d :: st)
      | None =>
        if op =? OP_CHECKMULTISIG then st ← check_multisig st; run_script fuel rest st else None
      end
    end
  end.

(** BIP 141: a P2WSH output accepts a witness. *)
Definition p2wsh_accepts (script_pubkey : bytes) (w : Witness) : bool :=
  match rev w with
  | [] => false
  | script :: st =>
    bool_decide (script_pubkey = new_p2wsh script) &&
    match run_script (length script) script st with
    | Some [top] => stack_true top
    | _ => false
    end
  end.
End Interp.

(** Tests of the interpreter: 2 of 3 in order, out of order, and a dummy that
    is not empty. *)
Section Tests.
Let same (s k : bytes) : bool := bool_decide (s = k).
Let two_of_three : bytes := [0x52; 1; 7; 1; 8; 1; 9; 0x53; 0xae].

Example multisig_in_order : run_script same 9 two_of_three [[9]; [7]; []] = Some [[1]].
Proof. reflexivity. Qed.
Example multisig_out_of_order : run_script same 9 two_of_three [[7]; [9]; []] = Some [[]].
Proof. reflexivity. Qed.
Example multisig_dummy : run_script same 9 two_of_three [[9]; [7]; [0]] = None.
Proof. reflexivity. Qed.
End Tests.

(** ** The funding output *)
Lemma push_slice_app s d : push_slice s d = s ++ push_slice [] d.
Proof. unfold push_slice. by rewrite app_nil_l. Qed.

Lemma run_push check fuel d rest st :
  u32 (Z.of_nat (length d)) ->
  run_script check (S fuel) (push_slice [] d ++ rest) st = run_script check fuel rest (d :: st).
Proof.
  intros Hd. pose proof (read_push_slice d rest Hd) as H. cbn [run_script].
  destruct (push_slice [] d ++ rest) as [|op l]; [discriminate|]. by rewrite H.
Qed.

Section Funding.
Context `{HS : Secp} {HL : SecpLaws HS}.

Lemma pk_u32 k : u32 (Z.of_nat (length (pk_serialize k))).
Proof. rewrite pk_serialize_length. split; [lia|reflexivity]. Qed.

(** The two keys of the 2-of-2, in the order of their bytes. *)
Lemma funding_redeemscript_eq a b :
  funding_redeemscript a b =
    let '(k1, k2) := if bytes_leb (pk_serialize a) (pk_serialize b) then (a, b) else (b, a) in
    OP_2 :: push_slice [] (pk_serialize k1) ++ push_slice [] (pk_serialize k2) ++
      [OP_2; OP_CHECKMULTISIG].
Proof.
  unfold funding_redeemscript. destruct (bytes_leb _ _); cbv zeta iota beta;
    rewrite (push_slice_app (push_slice _ _)), (push_slice_app (push_int [] 2));
    unfold push_int, push_opcode; cbn -[push_slice pk_serialize]; by rewrite <- !app_assoc.
Qed.

Lemma run_two_of_two check k1 k2 s1 s2 :
  check s1 (pk_serialize k1) = true -> check s2 (pk_serialize k2) = true ->
  let script := OP_2 :: push_slice [] (pk_serialize k1) ++ push_slice [] (pk_serialize k2) ++
    [OP_2; OP_CHECKMULTISIG] in
  run_script check (length script) script [s2; s1; []] = Some [[1]].
Proof.
  intros H1 H2 script.
  assert (Hl : exists n, length script = S (S (S (S (S (S n)))))).
  { assert (H : forall k, (2 <= length (push_slice [] (pk_serialize k)))%nat).
    { intros k. pose proof (pk_serialize_length k). unfold push_slice. rewrite app_nil_l.
      repeat case_match; rewrite ?length_app; cbn [length]; lia. }
    pose proof (H k1). pose proof (H k2). exists (length script - 6)%nat.
    unfold script. cbn [length]. rewrite !length_app. cbn [length]. lia. }
  destruct Hl as [n ->]. subst script.
  change (run_script check (S (S (S (S (S n))))) (push_slice [] (pk_serialize k1) ++
    push_slice [] (pk_serialize k2) ++ [OP_2; OP_CHECKMULTISIG]) [[2]; s2; s1; []] = Some [[1]]).
  rewrite !run_push by apply pk_u32.
  change (Some [if match_sigs check [s2; s1] [pk_serialize k2; pk_serialize k1]
    then [1] else []] = Some [[1]]).
  cbn [match_sigs]. by rewrite H2, H1.
Qed.

(** The witness built for the funding output is accepted by its script: each
    signature stands where the script looks for it. *)
Lemma funding_spend_accepted check h a b sa sb :
  (forall s k, verify_ecdsa h s k = true ->
     check (sig_with_sighash_all s) (pk_serialize k) = true) ->
  verify_ecdsa h sa a = true -> verify_ecdsa h sb b = true ->
  p2wsh_accepts check (new_p2wsh (funding_redeemscript a b)) (funding_spend_witness a b sa sb) = true.
Proof.
  intros Hc Ha Hb. apply Hc in Ha, Hb. unfold p2wsh_accepts, funding_spend_witness.
  rewrite funding_redeemscript_eq.
  destruct (bytes_leb _ _); cbv zeta iota beta; cbn [rev app];
    rewrite (bool_decide_eq_true_2 _ eq_refl); cbn [andb];
    rewrite run_two_of_two by assumption; reflexivity.
Qed.
End Funding.
