(* ===== verification/Channel.v ===== *)
(** * Channel: data and opening of a channel (src/src/channel/mod.rs)

    The [Channel] struct as a record with the source's fields (prefixed
    [ch_]), its enums as inductive types, and the methods of mod.rs: opening
    (open/accept/funding/channel_ready), balances per commitment, building,
    signing and verifying commitments.  A [&mut self] method is a [stm]: it
    returns its result and the mutated channel, errors included.

    [c <| f := v |>] is a field assignment. *)
From stdpp Require Import pretty.
From S2P Require Import Prelude Sha256 Secp Types Features Msgs Script Tx Shachain Keys Commitment.

Definition MAX_HTLCS_PER_SIDE : Z := 483.

Inductive ChannelError : Type :=
  | Close (msg : string)
  | Ignore (msg : string)
  | InvalidState (msg : string).

Definition close_err {A} (msg : string) : result ChannelError A := Err (Close msg).

Record ChannelConfig := {
  cfg_announce : bool;
  cfg_dust_limit_sat : Z;
  cfg_reserve_ppm : Z;
  cfg_htlc_minimum_msat : Z;
  cfg_to_self_delay : Z;
  cfg_max_accepted_htlcs : Z;
  cfg_max_htlc_value_in_flight_ppm : Z;
  cfg_minimum_depth : Z;
}.

Definition default_config : ChannelConfig :=
  {| cfg_announce := true; cfg_dust_limit_sat := 546; cfg_reserve_ppm := 10000;
     cfg_htlc_minimum_msat := 1; cfg_to_self_delay := 144; cfg_max_accepted_htlcs := 50;
     cfg_max_htlc_value_in_flight_ppm := 1000000; cfg_minimum_depth := 3 |}.

Record ChannelParams := MkChannelParams {
  holder_dust_limit_sat : Z;
  counterparty_dust_limit_sat : Z;
  holder_selected_reserve_sat : Z;
  counterparty_selected_reserve_sat : Z;
  counterparty_max_htlc_value_in_flight_msat : Z;
  holder_max_htlc_value_in_flight_msat : Z;
  counterparty_htlc_minimum_msat : Z;
  holder_htlc_minimum_msat : Z;
  counterparty_max_accepted_htlcs : Z;
  holder_max_accepted_htlcs : Z;
  holder_selected_delay : Z;
  counterparty_selected_delay : Z;
}.
#[export] Instance ChannelParams_eta : Eta ChannelParams := fun p =>
  MkChannelParams (holder_dust_limit_sat p) (counterparty_dust_limit_sat p)
    (holder_selected_reserve_sat p) (counterparty_selected_reserve_sat p)
    (counterparty_max_htlc_value_in_flight_msat p)
    (holder_max_htlc_value_in_flight_msat p) (counterparty_htlc_minimum_msat p)
    (holder_htlc_minimum_msat p) (counterparty_max_accepted_htlcs p)
    (holder_max_accepted_htlcs p) (holder_selected_delay p)
    (counterparty_selected_delay p).

Inductive ChannelRole : Type := Opener | Accepter.
Inductive ChannelState : Type :=
  | OpenSent | AcceptSent | FundingCreatedSent | AwaitingChannelReady
  | Normal | ShuttingDown | NegotiatingClose | Closed.

#[export] Instance ChannelRole_eq_dec : EqDecision ChannelRole.
Proof. solve_decision. Defined.
#[export] Instance ChannelState_eq_dec : EqDecision ChannelState.
Proof. solve_decision. Defined.

Inductive HtlcSource : Type :=
  | Outbound (payment_id : bytes)
  | Forwarded (inbound_channel : bytes) (inbound_htlc : Z).

Inductive HtlcPhase : Type := NotYet | Pending | Committed | Removing | Gone.
#[export] Instance HtlcPhase_eq_dec : EqDecision HtlcPhase.
Proof. solve_decision. Defined.

Definition included (p : HtlcPhase) : bool :=
  match p with Pending | Committed => true | _ => false end.
Definition credited (p : HtlcPhase) : bool :=
  match p with Removing | Gone => true | _ => false end.

(** [HtlcResolution] of dance.rs. *)
Inductive HtlcResolution : Type :=
  | Fulfill (preimage : bytes)
  | Fail (reason : bytes)
  | FailMalformed (sha256_of_onion : bytes) (failure_code : Z).

Record Htlc := MkHtlc {
  h_outbound : bool;
  h_id : Z;
  h_amount_msat : Z;
  h_payment_hash : bytes;
  h_cltv_expiry : Z;
  h_onion : bytes;
  h_source : option HtlcSource;
  h_resolution : option HtlcResolution;
  h_phase_holder : HtlcPhase;
  h_phase_counterparty : HtlcPhase;
  h_processed : bool;
}.
#[export] Instance Htlc_eta : Eta Htlc := fun h =>
  MkHtlc (h_outbound h) (h_id h) (h_amount_msat h) (h_payment_hash h) (h_cltv_expiry h)
    (h_onion h) (h_source h) (h_resolution h) (h_phase_holder h) (h_phase_counterparty h)
    (h_processed h).

(** The balance effect of an HTLC on one side's commitment; the balances are
    (to_holder, to_counterparty). *)
Definition apply_balance (h : Htlc) (phase : HtlcPhase) (bal : Z * Z) : Z * Z :=
  let '(to_holder, to_counterparty) := bal in
  if included phase then
    if h_outbound h
    then (msat_saturating_sub to_holder (h_amount_msat h), to_counterparty)
    else (to_holder, msat_saturating_sub to_counterparty (h_amount_msat h))
  else if credited phase then
    match h_resolution h with
    | Some (Fulfill _) =>
      if h_outbound h
      then (msat_saturating_sub to_holder (h_amount_msat h),
            msat_add to_counterparty (h_amount_msat h))
      else (msat_add to_holder (h_amount_msat h),
            msat_saturating_sub to_counterparty (h_amount_msat h))
    | Some _ => bal
    | None => bal (* debug_assert!(false) *)
    end
  else bal.

Definition htlc_in_commitment (h : Htlc) (holder_view : bool) : HtlcOutputInCommitment :=
  {| offered := if holder_view then h_outbound h else negb (h_outbound h);
     amount_msat := h_amount_msat h; cltv_expiry := h_cltv_expiry h;
     payment_hash := h_payment_hash h |}.

Inductive HoldingCellOp : Type :=
  | CellAdd (amount_msat : Z) (payment_hash : bytes) (cltv_expiry : Z) (onion : bytes)
      (source : HtlcSource)
  | CellFulfill (id : Z) (preimage : bytes)
  | CellFail (id : Z) (reason : bytes)
  | CellFailMalformed (id : Z) (sha256_of_onion : bytes) (failure_code : Z).

Definition channel_id_from_funding (txid : Txid) (output_index : Z) : bytes :=
  let id := <[30%nat := Z.lxor (txid !!! 30%nat) (wrap 8 (Z.shiftr output_index 8))]> txid in
  <[31%nat := Z.lxor (id !!! 31%nat) (wrap 8 (Z.land output_index 0xff))]> id.

Definition reserve_for (config : ChannelConfig) (funding_sat : Z) : Z :=
  Z.max (wrap 64 (funding_sat * cfg_reserve_ppm config) / 1000000) (cfg_dust_limit_sat config).

Definition static_remotekey_channel_type : bytes := Features.set Features.empty 12.

(** [funding / 1_000_000 * ppm * 1000], left to right. *)
Definition max_in_flight_for (config : ChannelConfig) (funding_sat : Z) : Z :=
  wrap 64 (wrap 64 (funding_sat / 1000000 * cfg_max_htlc_value_in_flight_ppm config) * 1000).

(** [PaymentPreimage::payment_hash] of src/src/types.rs. *)
Definition preimage_hash (preimage : bytes) : bytes := sha256 preimage.

Section Channel.
Context `{HS : Secp} {Sg : Type} `{HCS : !ChannelSigner Sg}.

Record CounterpartyCommitmentInfo := {
  cci_number : Z;
  cci_txid : Txid;
  cci_per_commitment_point : PublicKey;
  cci_htlcs : list (HtlcOutputInCommitment * option Z);
  cci_to_holder_msat : Z;
  cci_to_counterparty_msat : Z;
  cci_feerate : Z;
}.

Record HolderCommitment := {
  hc_number : Z;
  hc_built : BuiltCommitmentTx;
  hc_counterparty_sig : Signature;
  hc_counterparty_htlc_sigs : list Signature;
  hc_htlcs : list HtlcOutputInCommitment;
  hc_keys : TxCreationKeys;
  hc_feerate : Z;
}.

Record PendingCounterpartyCommitment := {
  pcc_info : CounterpartyCommitmentInfo;
  pcc_included : list (bool * Z);
  pcc_removed : list (bool * Z);
  pcc_fee_update : option Z;
}.

Record Channel := MkChannel {
  ch_signer : Sg;
  ch_role : ChannelRole;
  ch_state : ChannelState;
  ch_config : ChannelConfig;
  ch_params : ChannelParams;
  ch_temporary_channel_id : bytes;
  ch_channel_id : bytes;
  ch_funding_outpoint : option OutPoint;
  ch_funding_amount_sat : Z;
  ch_push_msat : Z;
  ch_holder_pubkeys : ChannelPublicKeys;
  ch_counterparty_pubkeys : option ChannelPublicKeys;
  ch_obscure_factor : Z;
  ch_feerate_holder : Z;
  ch_feerate_counterparty : Z;
  ch_pending_fee_ack : option Z;
  ch_announce : bool;
  ch_to_holder_msat : Z;
  ch_to_counterparty_msat : Z;
  ch_counterparty_dirty : bool;
  ch_htlcs : list Htlc;
  ch_next_holder_htlc_id : Z;
  ch_next_counterparty_htlc_id : Z;
  ch_holder_commitment_number : Z;
  ch_counterparty_commitment_number : Z;
  ch_counterparty_current_point : option PublicKey;
  ch_counterparty_next_point : option PublicKey;
  ch_counterparty_secrets : SecretStore;
  ch_current_holder_commitment : option HolderCommitment;
  ch_current_counterparty_commitment : option CounterpartyCommitmentInfo;
  ch_pending_counterparty_commitment : option PendingCounterpartyCommitment;
  ch_awaiting_raa : bool;
  ch_holding_cell : list HoldingCellOp;
  ch_short_channel_id : option Z;
  ch_funding_confirmed : bool;
  ch_channel_ready_sent : bool;
  ch_channel_ready_received : bool;
  ch_holder_shutdown_script : option bytes;
  ch_counterparty_shutdown_script : option bytes;
  ch_shutdown_sent : bool;
  ch_shutdown_received : bool;
  ch_last_closing_fee_proposal : option Z;
  ch_closing_tx : option Transaction;
}.

#[export] Instance Channel_eta : Eta Channel := fun c =>
  MkChannel (ch_signer c) (ch_role c) (ch_state c) (ch_config c) (ch_params c)
    (ch_temporary_channel_id c) (ch_channel_id c) (ch_funding_outpoint c)
    (ch_funding_amount_sat c) (ch_push_msat c) (ch_holder_pubkeys c)
    (ch_counterparty_pubkeys c) (ch_obscure_factor c) (ch_feerate_holder c)
    (ch_feerate_counterparty c) (ch_pending_fee_ack c) (ch_announce c)
    (ch_to_holder_msat c) (ch_to_counterparty_msat c) (ch_counterparty_dirty c)
    (ch_htlcs c) (ch_next_holder_htlc_id c) (ch_next_counterparty_htlc_id c)
    (ch_holder_commitment_number c) (ch_counterparty_commitment_number c)
    (ch_counterparty_current_point c) (ch_counterparty_next_point c)
    (ch_counterparty_secrets c) (ch_current_holder_commitment c)
    (ch_current_counterparty_commitment c) (ch_pending_counterparty_commitment c)
    (ch_awaiting_raa c) (ch_holding_cell c) (ch_short_channel_id c)
    (ch_funding_confirmed c) (ch_channel_ready_sent c) (ch_channel_ready_received c)
    (ch_holder_shutdown_script c) (ch_counterparty_shutdown_script c) (ch_shutdown_sent c)
    (ch_shutdown_received c) (ch_last_closing_fee_proposal c) (ch_closing_tx c).

Definition basepoints_msg (pk : ChannelPublicKeys) : ChannelBasepoints :=
  {| bp_funding_pubkey := funding_pubkey pk; bp_revocation := revocation_basepoint pk;
     bp_payment := payment_basepoint pk; bp_delayed_payment := delayed_payment_basepoint pk;
     bp_htlc := htlc_basepoint pk |}.

Definition pubkeys_from_msg (bp : ChannelBasepoints) : ChannelPublicKeys :=
  {| funding_pubkey := bp_funding_pubkey bp; revocation_basepoint := bp_revocation bp;
     payment_basepoint := bp_payment bp; delayed_payment_basepoint := bp_delayed_payment bp;
     htlc_basepoint := bp_htlc bp |}.

Abbreviation chan := (stm Channel ChannelError).

(** ** Accessors *)
Definition counterparty (c : Channel) : result ChannelError ChannelPublicKeys :=
  ok_or (ch_counterparty_pubkeys c) (InvalidState "counterparty keys not yet known").

Definition is_usable (c : Channel) : bool := bool_decide (ch_state c = Normal).

(** ** Commitment building *)
Definition balances_for (c : Channel) (holder_side : bool) : Z * Z :=
  foldl (fun bal h =>
    apply_balance h (if holder_side then h_phase_holder h else h_phase_counterparty h) bal)
    (ch_to_holder_msat c, ch_to_counterparty_msat c) (ch_htlcs c).

Definition gone_both (h : Htlc) : bool :=
  bool_decide (h_phase_holder h = Gone) && bool_decide (h_phase_counterparty h = Gone).

Definition gc_htlcs (c : Channel) : Channel :=
  let bal := foldl (fun bal h => if gone_both h then apply_balance h Gone bal else bal)
    (ch_to_holder_msat c, ch_to_counterparty_msat c) (ch_htlcs c) in
  c <| ch_htlcs := List.filter (fun h => negb (gone_both h)) (ch_htlcs c) |>
    <| ch_to_holder_msat := bal.1 |> <| ch_to_counterparty_msat := bal.2 |>.

Definition available_to_send_msat (c : Channel) : Z :=
  let reserve := msat_from_sat (counterparty_selected_reserve_sat (ch_params c)) in
  let '(to_holder, _) := balances_for c false in
  let avail := msat_saturating_sub to_holder reserve in
  if bool_decide (ch_role c = Opener) then
    let fee := fee_for_weight (ch_feerate_counterparty c)
      (wrap 64 (COMMITMENT_TX_BASE_WEIGHT +
        wrap 64 (COMMITMENT_TX_WEIGHT_PER_HTLC * (Z.of_nat (length (ch_htlcs c)) + 1)))) in
    msat_saturating_sub avail (msat_from_sat fee)
  else avail.

Definition BuiltParts : Type :=
  BuiltCommitmentTx * TxCreationKeys * list HtlcOutputInCommitment.

Definition build_holder_commitment_at (c : Channel) (number : Z) : result ChannelError BuiltParts :=
  cp ← counterparty c;
  point ← expect (per_commitment_point (ch_signer c) number);
  keys ← expect (tx_creation_keys point (ch_holder_pubkeys c) cp);
  let htlcs := map (fun h => htlc_in_commitment h true)
    (List.filter (fun h => included (h_phase_holder h)) (ch_htlcs c)) in
  let '(to_holder, to_counterparty) := balances_for c true in
  funding ← ok_or (ch_funding_outpoint c) (InvalidState "no funding outpoint");
  let built := build_commitment_tx
    {| cp_funding_outpoint := funding; commitment_number := number;
       obscure_factor := ch_obscure_factor c;
       broadcaster_pays_fee := bool_decide (ch_role c = Opener);
       feerate := ch_feerate_holder c;
       broadcaster_dust_limit_sat := holder_dust_limit_sat (ch_params c);
       to_self_delay := counterparty_selected_delay (ch_params c);
       cp_keys := keys; countersignatory_payment_basepoint := payment_basepoint cp;
       to_broadcaster_msat := to_holder; to_countersignatory_msat := to_counterparty;
       htlcs := htlcs |} in
  Ok (built, keys, htlcs).

Definition build_counterparty_commitment_at (c : Channel) (number : Z) (point : PublicKey)
    : result ChannelError BuiltParts :=
  cp ← counterparty c;
  keys ← expect (tx_creation_keys point cp (ch_holder_pubkeys c));
  let htlcs := map (fun h => htlc_in_commitment h false)
    (List.filter (fun h => included (h_phase_counterparty h)) (ch_htlcs c)) in
  let '(to_holder, to_counterparty) := balances_for c false in
  funding ← ok_or (ch_funding_outpoint c) (InvalidState "no funding outpoint");
  let built := build_commitment_tx
    {| cp_funding_outpoint := funding; commitment_number := number;
       obscure_factor := ch_obscure_factor c;
       broadcaster_pays_fee := bool_decide (ch_role c = Accepter);
       feerate := ch_feerate_counterparty c;
       broadcaster_dust_limit_sat := counterparty_dust_limit_sat (ch_params c);
       to_self_delay := holder_selected_delay (ch_params c);
       cp_keys := keys;
       countersignatory_payment_basepoint := payment_basepoint (ch_holder_pubkeys c);
       to_broadcaster_msat := to_counterparty; to_countersignatory_msat := to_holder;
       htlcs := htlcs |} in
  Ok (built, keys, htlcs).

Definition counterparty_info_from_built (c : Channel) (number : Z) (point : PublicKey)
    (built : BuiltCommitmentTx) (htlcs : list HtlcOutputInCommitment)
    : CounterpartyCommitmentInfo :=
  let '(to_holder, to_counterparty) := balances_for c false in
  {| cci_number := number; cci_txid := built_txid built; cci_per_commitment_point := point;
     cci_htlcs := imap (fun i h => (h, mjoin (htlc_output_indices built !! i))) htlcs;
     cci_to_holder_msat := to_holder; cci_to_counterparty_msat := to_counterparty;
     cci_feerate := ch_feerate_counterparty c |}.

Definition funding_sighash (c : Channel) (tx : Transaction) : result ChannelError bytes :=
  cp ← counterparty c;
  let redeem := funding_redeemscript (funding_pubkey (ch_holder_pubkeys c)) (funding_pubkey cp) in
  or_panic (segwit_v0_sighash (sighash_cache_new tx) 0 redeem (ch_funding_amount_sat c) All).

Definition sign_counterparty_commitment_tx (c : Channel) (built : BuiltCommitmentTx)
    : result ChannelError Signature :=
  sighash ← funding_sighash c (built_tx built);
  Ok (sign_with_funding_key (ch_signer c) sighash).

Definition verify_counterparty_funding_sig (c : Channel) (built : BuiltCommitmentTx)
    (sig : Signature) : result ChannelError unit :=
  cp ← counterparty c;
  sighash ← funding_sighash c (built_tx built);
  fail_if (negb (verify_ecdsa sighash sig (funding_pubkey cp)))
    (Close "invalid commitment signature").

(** [tx.input[0].witness = w]. *)
Definition set_witness0 (tx : Transaction) (w : Witness) : result ChannelError Transaction :=
  match input tx with
  | [] => Panic
  | i :: rest =>
    Ok {| version := version tx; lock_time := lock_time tx;
          input := {| previous_output := previous_output i; script_sig := script_sig i;
                      sequence := sequence i; witness := w |} :: rest;
          output := output tx |}
  end.

Definition signed_holder_commitment_tx (c : Channel) : result ChannelError Transaction :=
  hc ← ok_or (ch_current_holder_commitment c) (InvalidState "no holder commitment yet");
  cp ← counterparty c;
  sighash ← funding_sighash c (built_tx (hc_built hc));
  let our_sig := sign_with_funding_key (ch_signer c) sighash in
  set_witness0 (built_tx (hc_built hc))
    (funding_spend_witness (funding_pubkey (ch_holder_pubkeys c)) (funding_pubkey cp)
       our_sig (hc_counterparty_sig hc)).

(** ** Opening *)
(** The fields both constructors start with. *)
Definition fresh_channel (signer : Sg) (role : ChannelRole) (state : ChannelState)
    (config : ChannelConfig) (params : ChannelParams) (temporary_channel_id : bytes)
    (funding_amount_sat push_msat : Z) (holder_pubkeys : ChannelPublicKeys)
    (counterparty_pubkeys : option ChannelPublicKeys) (obscure_factor feerate : Z)
    (announce : bool) (to_holder_msat to_counterparty_msat : Z)
    (counterparty_current_point : option PublicKey) : Channel :=
  {| ch_signer := signer; ch_role := role; ch_state := state; ch_config := config;
     ch_params := params; ch_temporary_channel_id := temporary_channel_id;
     ch_channel_id := temporary_channel_id; ch_funding_outpoint := None;
     ch_funding_amount_sat := funding_amount_sat; ch_push_msat := push_msat;
     ch_holder_pubkeys := holder_pubkeys; ch_counterparty_pubkeys := counterparty_pubkeys;
     ch_obscure_factor := obscure_factor; ch_feerate_holder := feerate;
     ch_feerate_counterparty := feerate; ch_pending_fee_ack := None; ch_announce := announce;
     ch_to_holder_msat := to_holder_msat; ch_to_counterparty_msat := to_counterparty_msat;
     ch_counterparty_dirty := false; ch_htlcs := []; ch_next_holder_htlc_id := 0;
     ch_next_counterparty_htlc_id := 0; ch_holder_commitment_number := 0;
     ch_counterparty_commitment_number := 0;
     ch_counterparty_current_point := counterparty_current_point;
     ch_counterparty_next_point := None; ch_counterparty_secrets := store_new;
     ch_current_holder_commitment := None; ch_current_counterparty_commitment := None;
     ch_pending_counterparty_commitment := None; ch_awaiting_raa := false;
     ch_holding_cell := []; ch_short_channel_id := None; ch_funding_confirmed := false;
     ch_channel_ready_sent := false; ch_channel_ready_received := false;
     ch_holder_shutdown_script := None; ch_counterparty_shutdown_script := None;
     ch_shutdown_sent := false; ch_shutdown_received := false;
     ch_last_closing_fee_proposal := None; ch_closing_tx := None |}.

Definition new_outbound (signer : Sg) (config : ChannelConfig) (network : Network)
    (temporary_channel_id : bytes) (funding_amount_sat push_msat feerate : Z)
    : result ChannelError (Channel * OpenChannel) :=
  _ ← fail_if (wrap 64 (funding_amount_sat * 1000) <? push_msat)
        (InvalidState "push exceeds funding");
  let holder_pubkeys := pubkeys signer in
  let reserve := reserve_for config funding_amount_sat in
  let max_in_flight := max_in_flight_for config funding_amount_sat in
  first_point ← expect (per_commitment_point signer 0);
  let msg :=
    {| oc_chain_hash := chain_hash network; oc_temporary_channel_id := temporary_channel_id;
       oc_funding_satoshis := funding_amount_sat; oc_push_msat := push_msat;
       oc_dust_limit_satoshis := cfg_dust_limit_sat config;
       oc_max_htlc_value_in_flight_msat := max_in_flight;
       oc_channel_reserve_satoshis := reserve;
       oc_htlc_minimum_msat := cfg_htlc_minimum_msat config; oc_feerate_per_kw := feerate;
       oc_to_self_delay := cfg_to_self_delay config;
       oc_max_accepted_htlcs := cfg_max_accepted_htlcs config;
       oc_basepoints := basepoints_msg holder_pubkeys;
       oc_first_per_commitment_point := first_point;
       oc_channel_flags := if cfg_announce config then 1 else 0;
       oc_upfront_shutdown_script := None;
       oc_channel_type := Some static_remotekey_channel_type |} in
  let params :=
    {| holder_dust_limit_sat := cfg_dust_limit_sat config; counterparty_dust_limit_sat := 0;
       holder_selected_reserve_sat := reserve; counterparty_selected_reserve_sat := 0;
       counterparty_max_htlc_value_in_flight_msat := 0;
       holder_max_htlc_value_in_flight_msat := max_in_flight;
       counterparty_htlc_minimum_msat := 0;
       holder_htlc_minimum_msat := cfg_htlc_minimum_msat config;
       counterparty_max_accepted_htlcs := 0;
       holder_max_accepted_htlcs := cfg_max_accepted_htlcs config;
       holder_selected_delay := cfg_to_self_delay config; counterparty_selected_delay := 0 |} in
  let c := fresh_channel signer Opener OpenSent config params temporary_channel_id
    funding_amount_sat push_msat holder_pubkeys None 0 feerate (cfg_announce config)
    (msat_sub (wrap 64 (funding_amount_sat * 1000)) push_msat) push_msat None in
  Ok (c, msg).

Definition new_inbound (signer : Sg) (config : ChannelConfig) (network : Network)
    (msg : OpenChannel) : result ChannelError (Channel * AcceptChannel) :=
  _ ← fail_if (negb (bool_decide (oc_chain_hash msg = chain_hash network))) (Close "unknown chain");
  _ ← fail_if (wrap 64 (oc_funding_satoshis msg * 1000) <? oc_push_msat msg)
        (Close "push exceeds funding");
  _ ← fail_if (oc_channel_reserve_satoshis msg <? oc_dust_limit_satoshis msg)
        (Close "dust limit above reserve");
  _ ← fail_if (2016 <? oc_to_self_delay msg) (Close "to_self_delay unreasonably large");
  _ ← fail_if (MAX_HTLCS_PER_SIDE <? oc_max_accepted_htlcs msg)
        (Close "max_accepted_htlcs above 483");
  _ ← fail_if (oc_feerate_per_kw msg <? 253) (Close "feerate too low");
  _ ← match oc_channel_type msg with
      | Some ct => fail_if (negb (bool_decide (ct = static_remotekey_channel_type)))
                     (Close "unsupported channel_type")
      | None => Ok tt
      end;
  let holder_pubkeys := pubkeys signer in
  let reserve := reserve_for config (oc_funding_satoshis msg) in
  _ ← fail_if (reserve <? oc_dust_limit_satoshis msg) (Close "our reserve below their dust limit");
  let max_in_flight := max_in_flight_for config (oc_funding_satoshis msg) in
  first_point ← expect (per_commitment_point signer 0);
  let accept :=
    {| ac_temporary_channel_id := oc_temporary_channel_id msg;
       ac_dust_limit_satoshis := cfg_dust_limit_sat config;
       ac_max_htlc_value_in_flight_msat := max_in_flight;
       ac_channel_reserve_satoshis := reserve;
       ac_htlc_minimum_msat := cfg_htlc_minimum_msat config;
       ac_minimum_depth := cfg_minimum_depth config;
       ac_to_self_delay := cfg_to_self_delay config;
       ac_max_accepted_htlcs := cfg_max_accepted_htlcs config;
       ac_basepoints := basepoints_msg holder_pubkeys;
       ac_first_per_commitment_point := first_point;
       ac_upfront_shutdown_script := None; ac_channel_type := oc_channel_type msg |} in
  let counterparty_pubkeys := pubkeys_from_msg (oc_basepoints msg) in
  let obscure_factor := commit_number_obscure_factor (bp_payment (oc_basepoints msg))
    (payment_basepoint holder_pubkeys) in
  let params :=
    {| holder_dust_limit_sat := cfg_dust_limit_sat config;
       counterparty_dust_limit_sat := oc_dust_limit_satoshis msg;
       holder_selected_reserve_sat := reserve;
       counterparty_selected_reserve_sat := oc_channel_reserve_satoshis msg;
       counterparty_max_htlc_value_in_flight_msat := oc_max_htlc_value_in_flight_msat msg;
       holder_max_htlc_value_in_flight_msat := max_in_flight;
       counterparty_htlc_minimum_msat := oc_htlc_minimum_msat msg;
       holder_htlc_minimum_msat := cfg_htlc_minimum_msat config;
       counterparty_max_accepted_htlcs := oc_max_accepted_htlcs msg;
       holder_max_accepted_htlcs := cfg_max_accepted_htlcs config;
       holder_selected_delay := cfg_to_self_delay config;
       counterparty_selected_delay := oc_to_self_delay msg |} in
  let announce := negb (Z.land (oc_channel_flags msg) 1 =? 0) && cfg_announce config in
  let c := fresh_channel signer Accepter AcceptSent config params (oc_temporary_channel_id msg)
    (oc_funding_satoshis msg) (oc_push_msat msg) holder_pubkeys (Some counterparty_pubkeys)
    obscure_factor (oc_feerate_per_kw msg) announce (oc_push_msat msg)
    (msat_sub (wrap 64 (oc_funding_satoshis msg * 1000)) (oc_push_msat msg))
    (Some (oc_first_per_commitment_point msg)) in
  Ok (c, accept).

Definition on_accept_channel (msg : AcceptChannel) : chan unit :=
  _ ← throw_if (fun c => negb (bool_decide (ch_state c = OpenSent)))
        (Close "accept_channel in wrong state");
  _ ← throw_if (fun c => negb (bool_decide (ac_temporary_channel_id msg = ch_temporary_channel_id c)))
        (Close "accept_channel for unknown channel");
  _ ← throw_if (fun c => holder_selected_reserve_sat (ch_params c) <? ac_dust_limit_satoshis msg)
        (Close "their dust limit above our selected reserve");
  _ ← throw_if (fun c => ac_channel_reserve_satoshis msg <? holder_dust_limit_sat (ch_params c))
        (Close "their reserve below our dust limit");
  _ ← throw_if (fun _ => 2016 <? ac_to_self_delay msg) (Close "to_self_delay unreasonably large");
  _ ← throw_if (fun _ => 144 <? ac_minimum_depth msg) (Close "minimum_depth unreasonably large");
  _ ← throw_if (fun _ => MAX_HTLCS_PER_SIDE <? ac_max_accepted_htlcs msg)
        (Close "max_accepted_htlcs above 483");
  let cp := pubkeys_from_msg (ac_basepoints msg) in
  modify (fun c =>
    c <| ch_obscure_factor := commit_number_obscure_factor
           (payment_basepoint (ch_holder_pubkeys c)) (payment_basepoint cp) |>
      <| ch_counterparty_pubkeys := Some cp |>
      <| ch_counterparty_current_point := Some (ac_first_per_commitment_point msg) |>
      <| ch_params :=
           (ch_params c)
             <| counterparty_dust_limit_sat := ac_dust_limit_satoshis msg |>
             <| counterparty_selected_reserve_sat := ac_channel_reserve_satoshis msg |>
             <| counterparty_max_htlc_value_in_flight_msat := ac_max_htlc_value_in_flight_msat msg |>
             <| counterparty_htlc_minimum_msat := ac_htlc_minimum_msat msg |>
             <| counterparty_max_accepted_htlcs := ac_max_accepted_htlcs msg |>
             <| counterparty_selected_delay := ac_to_self_delay msg |> |>).

Definition funding_script_pubkey (c : Channel) : result ChannelError bytes :=
  cp ← counterparty c;
  Ok (new_p2wsh (funding_redeemscript (funding_pubkey (ch_holder_pubkeys c)) (funding_pubkey cp))).

(** Sign the counterparty's commitment 0 and record it. *)
Definition sign_counterparty_0 : chan Signature :=
  point ← reads_self (fun c => expect (ch_counterparty_current_point c));
  '(built, _, htlcs) ← reads_self (fun c => build_counterparty_commitment_at c 0 point);
  sig ← reads_self (fun c => sign_counterparty_commitment_tx c built);
  _ ← modify (fun c => c <| ch_current_counterparty_commitment :=
        Some (counterparty_info_from_built c 0 point built htlcs) |>);
  mret sig.

Definition funding_created (funding_txid : Txid) (funding_output_index : Z) : chan FundingCreated :=
  _ ← throw_if (fun c => negb (bool_decide (ch_state c = OpenSent)) ||
                         negb (bool_decide (ch_role c = Opener)))
        (InvalidState "funding_created in wrong state");
  _ ← throw_if (fun c => match ch_counterparty_pubkeys c with None => true | Some _ => false end)
        (InvalidState "accept_channel not processed");
  _ ← modify (fun c =>
        c <| ch_funding_outpoint :=
               Some {| op_txid := funding_txid; op_vout := funding_output_index |} |>
          <| ch_channel_id := channel_id_from_funding funding_txid funding_output_index |>);
  sig ← sign_counterparty_0;
  _ ← modify (fun c => c <| ch_state := FundingCreatedSent |>);
  temporary_channel_id ← gets ch_temporary_channel_id;
  mret {| fc_temporary_channel_id := temporary_channel_id; fc_funding_txid := funding_txid;
          fc_funding_output_index := funding_output_index; fc_signature := sig |}.

(** Verify their signature over our commitment 0 and store it. *)
Definition accept_holder_0 (signature : Signature) : chan unit :=
  '(built, keys, htlcs) ← reads_self (fun c => build_holder_commitment_at c 0);
  _ ← reads_self (fun c => verify_counterparty_funding_sig c built signature);
  modify (fun c => c <| ch_current_holder_commitment :=
    Some {| hc_number := 0; hc_built := built; hc_counterparty_sig := signature;
            hc_counterparty_htlc_sigs := []; hc_htlcs := htlcs; hc_keys := keys;
            hc_feerate := ch_feerate_holder c |} |>).

Definition on_funding_created (msg : FundingCreated) : chan FundingSigned :=
  _ ← throw_if (fun c => negb (bool_decide (ch_state c = AcceptSent)))
        (Close "funding_created in wrong state");
  _ ← modify (fun c =>
        c <| ch_funding_outpoint :=
               Some {| op_txid := fc_funding_txid msg; op_vout := fc_funding_output_index msg |} |>
          <| ch_channel_id :=
               channel_id_from_funding (fc_funding_txid msg) (fc_funding_output_index msg) |>);
  _ ← accept_holder_0 (fc_signature msg);
  sig ← sign_counterparty_0;
  _ ← modify (fun c => c <| ch_state := AwaitingChannelReady |>);
  channel_id ← gets ch_channel_id;
  mret {| fs_channel_id := channel_id; fs_signature := sig |}.

Definition on_funding_signed (msg : FundingSigned) : chan unit :=
  _ ← throw_if (fun c => negb (bool_decide (ch_state c = FundingCreatedSent)))
        (Close "funding_signed in wrong state");
  _ ← throw_if (fun c => negb (bool_decide (fs_channel_id msg = ch_channel_id c)))
        (Close "funding_signed wrong channel id");
  _ ← accept_holder_0 (fs_signature msg);
  modify (fun c => c <| ch_state := AwaitingChannelReady |>).

Definition maybe_become_normal (c : Channel) : Channel :=
  if bool_decide (ch_state c = AwaitingChannelReady) && ch_channel_ready_sent c &&
     ch_channel_ready_received c
  then c <| ch_state := Normal |> else c.

Definition awaiting_or_normal (c : Channel) : bool :=
  match ch_state c with AwaitingChannelReady | Normal => true | _ => false end.

Definition funding_confirmed (short_channel_id : Z) : chan (option ChannelReady) :=
  _ ← throw_if (fun c => negb (awaiting_or_normal c))
        (InvalidState "funding_confirmed in wrong state");
  _ ← modify (fun c => c <| ch_short_channel_id := Some short_channel_id |>
                         <| ch_funding_confirmed := true |>);
  sent ← gets ch_channel_ready_sent;
  if sent : bool then mret None
  else
    _ ← modify (fun c => c <| ch_channel_ready_sent := true |>);
    channel_id ← gets ch_channel_id;
    point ← reads_self (fun c => expect (per_commitment_point (ch_signer c) 1));
    _ ← modify maybe_become_normal;
    mret (Some {| cr_channel_id := channel_id; cr_second_per_commitment_point := point;
                  cr_short_channel_id_alias := None |}).

Definition on_channel_ready (msg : ChannelReady) : chan unit :=
  _ ← throw_if (fun c => negb (awaiting_or_normal c)) (Close "channel_ready in wrong state");
  started ← gets (fun c => (0 <? ch_counterparty_commitment_number c) || ch_awaiting_raa c);
  if started : bool then mret tt
  else modify (fun c => maybe_become_normal
    (c <| ch_counterparty_next_point := Some (cr_second_per_commitment_point msg) |>
       <| ch_channel_ready_received := true |>)).
End Channel.
