(* ===== verification/Monitor.v ===== *)
(** * Monitor: on-chain enforcement (src/src/chain/monitor.rs)

    A [ChannelMonitor] is what the node must keep to defend a channel once
    its funding output is spent.  [classify] recognises the spend,
    [handle_funding_spend] builds the transactions that answer it: the justice
    transaction for a revoked commitment, the sweeps of the peer's current
    commitment, and those of our own.  A function of the model returns
    [Panic] where the code panics ([expect], an index out of range).

    The theorems say that the transactions built are valid spends: each
    input's witness opens the script of the output it spends and its signature
    verifies over the digest of the very transaction returned. *)
From stdpp Require Import gmap.
From S2P Require Import Prelude Secp Types Sha256 Ripemd160 Encode Script Tx Shachain Keys Commitment Channel.

Section Monitor.
Context `{HS : Secp} {Sg : Type} `{HCS : !ChannelSigner Sg}.
Abbreviation Channel := (Channel (Sg := Sg)).

(** ** Data *)
Record CounterpartyCommitmentData := {
  cpd_number : Z;
  cpd_txid : Txid;
  cpd_per_commitment_point : PublicKey;
  cpd_htlcs : list (HtlcOutputInCommitment * option Z);
}.

Inductive FundingSpend : Type :=
  | CooperativeClose
  | HolderCommitmentSpend
  | CounterpartyCurrent
  | CounterpartyRevoked (commitment_number : Z)
  | UnknownCommitment.

(** The only constructor of the enum is [Claim]. *)
Record MonitorResponse := Claim {
  claim_tx : Transaction;
  valid_after_height : option Z;
  claim_what : string;
}.

Record ChannelMonitor := {
  cm_funding_outpoint : OutPoint;
  cm_capacity_sat : Z;
  cm_obscure_factor : Z;
  cm_holder_pubkeys : ChannelPublicKeys;
  cm_counterparty_pubkeys : ChannelPublicKeys;
  cm_holder_selected_delay : Z;
  cm_counterparty_selected_delay : Z;
  cm_counterparty_secrets : SecretStore;
  cm_counterparty_current : option CounterpartyCommitmentData;
  cm_holder_commitment : option HolderCommitment;
  cm_holder_commitment_feerate : Z;
  cm_preimages : gmap bytes bytes;
}.

Definition commitment_data (i : CounterpartyCommitmentInfo) : CounterpartyCommitmentData :=
  {| cpd_number := cci_number i; cpd_txid := cci_txid i;
     cpd_per_commitment_point := cci_per_commitment_point i; cpd_htlcs := cci_htlcs i |}.

Definition from_channel (c : Channel) : option ChannelMonitor :=
  cp ← ch_counterparty_pubkeys c;
  funding ← ch_funding_outpoint c;
  Some
    {| cm_funding_outpoint := funding; cm_capacity_sat := ch_funding_amount_sat c;
       cm_obscure_factor := ch_obscure_factor c; cm_holder_pubkeys := ch_holder_pubkeys c;
       cm_counterparty_pubkeys := cp;
       cm_holder_selected_delay := holder_selected_delay (ch_params c);
       cm_counterparty_selected_delay := counterparty_selected_delay (ch_params c);
       cm_counterparty_secrets := ch_counterparty_secrets c;
       cm_counterparty_current := commitment_data <$> ch_current_counterparty_commitment c;
       cm_holder_commitment := ch_current_holder_commitment c;
       cm_holder_commitment_feerate := ch_feerate_holder c; cm_preimages := ∅ |}.

Definition add_preimage (m : ChannelMonitor) (preimage : bytes) : ChannelMonitor :=
  {| cm_funding_outpoint := cm_funding_outpoint m; cm_capacity_sat := cm_capacity_sat m;
     cm_obscure_factor := cm_obscure_factor m; cm_holder_pubkeys := cm_holder_pubkeys m;
     cm_counterparty_pubkeys := cm_counterparty_pubkeys m;
     cm_holder_selected_delay := cm_holder_selected_delay m;
     cm_counterparty_selected_delay := cm_counterparty_selected_delay m;
     cm_counterparty_secrets := cm_counterparty_secrets m;
     cm_counterparty_current := cm_counterparty_current m;
     cm_holder_commitment := cm_holder_commitment m;
     cm_holder_commitment_feerate := cm_holder_commitment_feerate m;
     cm_preimages := <[preimage_hash preimage := preimage]> (cm_preimages m) |}.

(** ** Classification *)
Definition is_commitment_shape (tx : Transaction) (i : TxIn) : bool :=
  (Z.shiftr (lock_time tx) 24 =? 0x20) && (Z.shiftr (sequence i) 24 =? 0x80) &&
  (version tx =? 2).

Definition obscured_number (tx : Transaction) (i : TxIn) : Z :=
  Z.lor (Z.shiftl (Z.land (sequence i) 0xffffff) 24) (Z.land (lock_time tx) 0xffffff).

Definition spends (o : OutPoint) (i : TxIn) : bool := bool_decide (previous_output i = o).

Definition classify (m : ChannelMonitor) (tx : Transaction) : option FundingSpend :=
  i ← List.find (spends (cm_funding_outpoint m)) (input tx);
  let txid := txid tx in
  if match cm_holder_commitment m with
     | Some hc => bool_decide (built_txid (hc_built hc) = txid)
     | None => false
     end then Some HolderCommitmentSpend
  else if match cm_counterparty_current m with
          | Some cp => bool_decide (cpd_txid cp = txid)
          | None => false
          end then Some CounterpartyCurrent
  else if negb (is_commitment_shape tx i) then Some CooperativeClose
  else
    let commitment_number := Z.lxor (obscured_number tx i) (cm_obscure_factor m) in
    match secret_for (cm_counterparty_secrets m) (index_for_commitment commitment_number) with
    | Some _ => Some (CounterpartyRevoked commitment_number)
    | None => Some UnknownCommitment
    end.

(** ** Building a claim *)
Definition set_witness (i : TxIn) (w : Witness) : TxIn :=
  {| previous_output := previous_output i; script_sig := script_sig i;
     sequence := sequence i; witness := w |}.

Definition claim_input (txid : Txid) (vout sequence : Z) : TxIn :=
  {| previous_output := {| op_txid := txid; op_vout := vout |}; script_sig := [];
     sequence := sequence; witness := [] |}.

(** A version-2 transaction with locktime 0 and a single output. *)
Definition sweep_to (ins : list TxIn) (value : Z) (destination : bytes) : Transaction :=
  {| version := 2; lock_time := 0; input := ins;
     output := [{| out_value := value; script_pubkey := destination |}] |}.

(** [feerate.fee_for_weight(weight) + 1]. *)
Definition claim_fee (feerate weight : Z) : Z :=
  wrap 64 (fee_for_weight feerate (wrap 64 weight) + 1).

(** The sweeps with one input: fee, digest, signature, witness. *)
Definition single_claim (txid : Txid) (vout sequence value : Z) (destination : bytes)
    (feerate extra_weight : Z) (script_code : bytes) (sign : bytes -> option Signature)
    (stack : bytes -> Witness) : result unit Transaction :=
  let sweep := sweep_to [claim_input txid vout sequence] value destination in
  let fee := claim_fee feerate (weight sweep + extra_weight) in
  let sweep := sweep_to [claim_input txid vout sequence] (sat_sub value fee) destination in
  sighash ← segwit_v0_sighash (sighash_cache_new sweep) 0 script_code value All;
  sig ← expect (sign sighash);
  Ok (sweep_to [set_witness (claim_input txid vout sequence) (stack (sig_with_sighash_all sig))]
        (sat_sub value fee) destination).

(** ** Justice *)
Record In := {
  in_vout : Z;
  in_value : Z;
  in_witness_script : bytes;
  in_control : bytes;
}.

(** The outputs of [tx] with this script pubkey, in order. *)
Definition outputs_with (tx : Transaction) (script control : bytes) : list In :=
  omap (fun '(vout, out) =>
    if bool_decide (script_pubkey out = new_p2wsh script) then
      Some {| in_vout := wrap 32 (Z.of_nat vout); in_value := out_value out;
              in_witness_script := script; in_control := control |}
    else None) (imap pair (output tx)).

Definition flip (htlc : HtlcOutputInCommitment) : HtlcOutputInCommitment :=
  {| offered := negb (offered htlc); amount_msat := amount_msat htlc;
     cltv_expiry := cltv_expiry htlc; payment_hash := payment_hash htlc |}.

Definition htlc_scripts (m : ChannelMonitor) (tx_keys : TxCreationKeys) : list bytes :=
  match cm_counterparty_current m with
  | Some cp =>
    concat (map (fun '(htlc, _) =>
      [htlc_witness_script tx_keys htlc; htlc_witness_script tx_keys (flip htlc)])
      (cpd_htlcs cp))
  | None => []
  end.

Definition to_local_script (m : ChannelMonitor) (tx_keys : TxCreationKeys) : bytes :=
  revocable_delayed (revocation_key tx_keys) (cm_holder_selected_delay m)
    (broadcaster_delayed_payment_key tx_keys).

Definition justice_inputs (m : ChannelMonitor) (tx_keys : TxCreationKeys) (tx : Transaction)
    : list In :=
  outputs_with tx (to_local_script m tx_keys) [0x01] ++
  concat (map (fun script => outputs_with tx script (pk_serialize (revocation_key tx_keys)))
            (htlc_scripts m tx_keys)).

Definition justice_txins (txid : Txid) (inputs : list In) : list TxIn :=
  map (fun i => claim_input txid (in_vout i) 0xfffffffd) inputs.

Definition justice_weight (inputs : list In) : Z :=
  zsum (map (fun i => 80 + Z.of_nat (length (in_witness_script i)) +
                      Z.of_nat (length (in_control i))) inputs).

(** The witness of input [idx]. *)
Definition justice_witness (signer : Sg) (secret : bytes) (cache : SighashCache)
    (e : nat * In) : result unit Witness :=
  let '(idx, i) := e in
  sighash ← segwit_v0_sighash cache idx (in_witness_script i) (in_value i) All;
  sig ← expect (sign_revocation signer sighash secret);
  Ok [sig_with_sighash_all sig; in_control i; in_witness_script i].

Definition justice_tx (signer : Sg) (secret : bytes) (txid : Txid) (inputs : list In)
    (destination : bytes) (feerate : Z) : result unit Transaction :=
  let total := wrap 64 (zsum (map in_value inputs)) in
  let justice := sweep_to (justice_txins txid inputs) total destination in
  let fee := claim_fee feerate (weight justice + justice_weight inputs) in
  let justice := sweep_to (justice_txins txid inputs) (sat_sub total fee) destination in
  witnesses ← mapM (justice_witness signer secret (sighash_cache_new justice))
                (imap pair inputs);
  Ok (sweep_to (zip_with set_witness (justice_txins txid inputs) witnesses)
        (sat_sub total fee) destination).

Definition punish_revoked (m : ChannelMonitor) (signer : Sg) (revoked_tx : Transaction)
    (commitment_number : Z) (destination : bytes) (feerate : Z)
    : result unit (list MonitorResponse) :=
  match secret_for (cm_counterparty_secrets m) (index_for_commitment commitment_number) with
  | None => Ok []
  | Some secret =>
    point ← expect (per_commitment_point_of secret);
    tx_keys ← expect (tx_creation_keys point (cm_counterparty_pubkeys m) (cm_holder_pubkeys m));
    match justice_inputs m tx_keys revoked_tx with
    | [] => Ok []
    | inputs =>
      justice ← justice_tx signer secret (txid revoked_tx) inputs destination feerate;
      Ok [Claim justice None "justice (revoked commitment punished)"]
    end
  end.

(** ** Their current commitment *)
Definition our_to_remote (m : ChannelMonitor) : bytes :=
  new_p2wpkh_from_pubkey (pk_serialize (payment_basepoint (cm_holder_pubkeys m))).

Definition claim_to_remote (m : ChannelMonitor) (signer : Sg) (txid : Txid) (destination : bytes)
    (feerate : Z) (e : nat * TxOut) : result unit (list MonitorResponse) :=
  let '(vout, out) := e in
  if bool_decide (script_pubkey out = our_to_remote m) then
    script_code ← expect (p2wpkh_script_code (script_pubkey out));
    tx ← single_claim txid (wrap 32 (Z.of_nat vout)) 0xfffffffd (out_value out) destination
           feerate 110 script_code (fun h => Some (sign_payment signer h))
           (fun der => [der; pk_serialize (payment_basepoint (cm_holder_pubkeys m))]);
    Ok [Claim tx None "to_remote sweep (their force close)"]
  else Ok [].

Definition claim_with_preimage (m : ChannelMonitor) (signer : Sg) (txid : Txid)
    (destination : bytes) (feerate : Z) (point : PublicKey) (tx_keys : TxCreationKeys)
    (e : HtlcOutputInCommitment * option Z) : result unit (list MonitorResponse) :=
  let '(htlc, vout) := e in
  if negb (offered htlc) then Ok []
  else
    match cm_preimages m !! payment_hash htlc with
    | None => Ok []
    | Some preimage =>
      match vout with
      | None => Ok []
      | Some vout =>
        let witness_script := htlc_witness_script tx_keys htlc in
        tx ← single_claim txid vout 0xfffffffd (to_sat_floor (amount_msat htlc)) destination
               feerate (160 + Z.of_nat (length witness_script)) witness_script
               (fun h => sign_htlc signer h point)
               (fun der => [der; preimage; witness_script]);
        Ok [Claim tx None "preimage claim (their force close)"]
      end
    end.

Definition claim_counterparty_outputs (m : ChannelMonitor) (signer : Sg)
    (commitment_tx : Transaction) (destination : bytes) (feerate : Z)
    : result unit (list MonitorResponse) :=
  let txid := txid commitment_tx in
  remote ← mapM (claim_to_remote m signer txid destination feerate)
             (imap pair (output commitment_tx));
  match cm_counterparty_current m with
  | None => Ok (concat remote)
  | Some cp =>
    tx_keys ← expect (tx_creation_keys (cpd_per_commitment_point cp)
                        (cm_counterparty_pubkeys m) (cm_holder_pubkeys m));
    htlc ← mapM (claim_with_preimage m signer txid destination feerate
                   (cpd_per_commitment_point cp) tx_keys) (cpd_htlcs cp);
    Ok (concat remote ++ concat htlc)
  end.

(** ** Our own commitment *)
Definition claim_to_local (m : ChannelMonitor) (signer : Sg) (hc : HolderCommitment)
    (commitment_tx : Transaction) (destination : bytes) (feerate current_height : Z)
    : result unit (list MonitorResponse) :=
  match to_broadcaster_index (hc_built hc) with
  | None => Ok []
  | Some vout =>
    let delay := cm_counterparty_selected_delay m in
    let script := revocable_delayed (revocation_key (hc_keys hc)) delay
                    (broadcaster_delayed_payment_key (hc_keys hc)) in
    out ← expect (output commitment_tx !! Z.to_nat vout);
    tx ← single_claim (txid commitment_tx) vout delay (out_value out) destination feerate
           (120 + Z.of_nat (length script)) script
           (fun h => sign_delayed_payment signer h (tck_per_commitment_point (hc_keys hc)))
           (fun der => [der; []; script]);
    Ok [Claim tx (Some (wrap 32 (current_height + delay)))
          "to_local sweep after CSV (our force close)"]
  end.

(** [tx.input[0].witness = w]: the HTLC transactions have one input. *)
Definition with_witness0 (tx : Transaction) (w : Witness) : Transaction :=
  {| version := version tx; lock_time := lock_time tx;
     input := match input tx with [] => [] | i :: rest => set_witness i w :: rest end;
     output := output tx |}.

(** One HTLC of [htlcs_in_output_order]. *)
Definition claim_htlc (m : ChannelMonitor) (signer : Sg) (hc : HolderCommitment)
    (commitment_txid : Txid) (e : nat * (nat * bytes)) : result unit (list MonitorResponse) :=
  let '(sig_idx, (htlc_idx, witness_script)) := e in
  htlc ← expect (hc_htlcs hc !! htlc_idx);
  slot ← expect (htlc_output_indices (hc_built hc) !! htlc_idx);
  vout ← expect slot;
  let preimage := cm_preimages m !! payment_hash htlc in
  if negb (offered htlc) && bool_decide (preimage = None) then Ok []
  else
    let preimage := if offered htlc then None else preimage in
    let htlc_tx := build_htlc_tx commitment_txid vout htlc (hc_keys hc)
                     (cm_counterparty_selected_delay m) (hc_feerate hc) in
    sighash ← segwit_v0_sighash (sighash_cache_new htlc_tx) 0 witness_script
                (to_sat_floor (amount_msat htlc)) All;
    our_sig ← expect (sign_htlc signer sighash (tck_per_commitment_point (hc_keys hc)));
    match hc_counterparty_htlc_sigs hc !! sig_idx with
    | None => Ok []
    | Some their_sig =>
      Ok [Claim (with_witness0 htlc_tx (htlc_tx_witness their_sig our_sig preimage witness_script))
            (if offered htlc then Some (cltv_expiry htlc) else None)
            (if offered htlc then "HTLC-timeout (our force close)"
             else "HTLC-success (our force close)")]
    end.

Definition claim_holder_outputs (m : ChannelMonitor) (signer : Sg) (commitment_tx : Transaction)
    (destination : bytes) (feerate current_height : Z) : result unit (list MonitorResponse) :=
  match cm_holder_commitment m with
  | None => Ok []
  | Some hc =>
    local ← claim_to_local m signer hc commitment_tx destination feerate current_height;
    htlcs ← mapM (claim_htlc m signer hc (txid commitment_tx))
              (imap pair (htlcs_in_output_order (hc_built hc)));
    Ok (local ++ concat htlcs)
  end.

(** ** The entry point *)
Definition handle_funding_spend (m : ChannelMonitor) (signer : Sg) (tx : Transaction)
    (destination : bytes) (feerate current_height : Z)
    : result unit (option (FundingSpend * list MonitorResponse)) :=
  match classify m tx with
  | None => Ok None
  | Some class =>
    responses ←
      match class with
      | CooperativeClose => Ok []
      | CounterpartyRevoked commitment_number =>
        punish_revoked m signer tx commitment_number destination feerate
      | CounterpartyCurrent => claim_counterparty_outputs m signer tx destination feerate
      | HolderCommitmentSpend =>
        claim_holder_outputs m signer tx destination feerate current_height
      | UnknownCommitment => Ok []
      end;
    Ok (Some (class, responses))
  end.
End Monitor.


(** ** Claims are valid spends *)
Section Claims.
Context `{HS : Secp}.

(** Input [idx] of [tx] carries a witness that starts with a signature of the
    digest of [tx] itself, for this script code and value, valid under
    [key]; [rest] is what follows the signature. *)
Definition opens (tx : Transaction) (idx : nat) (script_code : bytes) (value : Z)
    (key : PublicKey) (rest : list bytes) : Prop :=
  exists i sig h, input tx !! idx = Some i /\ witness i = sig_with_sighash_all sig :: rest /\
    segwit_v0_sighash (sighash_cache_new tx) idx script_code value All = Ok h /\
    verify_ecdsa h sig key = true.

Lemma sighash_ok tx idx code value ty i :
  input tx !! idx = Some i ->
  exists h, segwit_v0_sighash (sighash_cache_new tx) idx code value ty = Ok h.
Proof.
  intros Hi. unfold segwit_v0_sighash. cbn [sighash_cache_new sc_tx]. rewrite Hi.
  cbn [expect mbind result_bind]. eexists. reflexivity.
Qed.

Lemma strip_set_witness i w : strip (set_witness i w) = strip i.
Proof. reflexivity. Qed.

Lemma strip_zip ins ws :
  length ws = length ins -> map strip (zip_with set_witness ins ws) = map strip ins.
Proof.
  revert ws. induction ins as [|i ins IH]; intros [|w ws]; intros Hl; try done.
  cbn [zip_with map]. rewrite strip_set_witness, IH; [done|]. cbn in Hl. lia.
Qed.

Lemma sweep_skeleton ins ins' v d :
  map strip ins' = map strip ins -> same_skeleton (sweep_to ins' v d) (sweep_to ins v d).
Proof. intros H. split_and!; [reflexivity..|exact H]. Qed.

Section Single.
Context (txid : Txid) (vout sequence value : Z) (destination : bytes) (feerate extra : Z)
  (code : bytes) (sign : bytes -> option Signature) (rest : list bytes).

(** What a one-input claim is: the input, the output minus the fee, and a
    witness that opens it. *)
Definition is_claim (key : PublicKey) (tx : Transaction) : Prop :=
  (exists w, input tx = [set_witness (claim_input txid vout sequence) w]) /\
  output tx = [{| out_value := sat_sub value
                    (claim_fee feerate (weight (sweep_to [claim_input txid vout sequence]
                       value destination) + extra));
                  script_pubkey := destination |}] /\
  lock_time tx = 0 /\ opens tx 0 code value key rest.

Lemma single_claim_spec key tx :
  (forall h sg, sign h = Some sg -> verify_ecdsa h sg key = true) ->
  single_claim txid vout sequence value destination feerate extra code sign
    (fun der => der :: rest) = Ok tx ->
  is_claim key tx.
Proof.
  intros Hsign Hrun. unfold single_claim in Hrun.
  apply bind_Ok in Hrun as (h & Hh & Hrun). apply bind_Ok in Hrun as (sg & Hsg & Hrun).
  apply expect_Ok in Hsg. apply Ok_inj in Hrun. subst tx.
  split; [by eexists|]. split; [reflexivity|]. split; [reflexivity|].
  eexists _, sg, h. split; [reflexivity|]. split; [reflexivity|]. split; [|by apply Hsign].
  rewrite <- Hh. apply witness_not_signed. apply sweep_skeleton. reflexivity.
Qed.

Lemma single_claim_total stack :
  (forall h, sign h <> None) ->
  exists tx, single_claim txid vout sequence value destination feerate extra code sign stack = Ok tx.
Proof.
  intros Hsign. unfold single_claim.
  destruct (sighash_ok (sweep_to [claim_input txid vout sequence]
    (sat_sub value (claim_fee feerate (weight (sweep_to [claim_input txid vout sequence] value
       destination) + extra))) destination) 0 code value All _ eq_refl) as [h Hh].
  cbv zeta. rewrite Hh. cbn [mbind result_bind]. specialize (Hsign h).
  destruct (sign h) as [sg|]; [|done]. cbn [expect mbind result_bind]. by eexists.
Qed.
End Single.
End Claims.

(** ** Justice *)
Section Justice.
Context `{HS : Secp} {Sg : Type} `{HCS : !ChannelSigner Sg}.
Context (ok : Sg -> Prop) {HCL : ChannelSignerLaws Sg ok}.

(** The outputs of a revoked commitment that the monitor can take: to_local
    and the HTLCs it knows, each with the stack item that selects the
    revocation branch. *)
Definition sweepable (m : ChannelMonitor) (keys : TxCreationKeys) (script control : bytes) : Prop :=
  (script = to_local_script m keys /\ control = [0x01]) \/
  (script ∈ htlc_scripts m keys /\ control = pk_serialize (revocation_key keys)).

Lemma outputs_with_elem tx script control i :
  i ∈ outputs_with tx script control <->
  exists v o, output tx !! v = Some o /\ script_pubkey o = new_p2wsh script /\
    i = {| in_vout := wrap 32 (Z.of_nat v); in_value := out_value o;
           in_witness_script := script; in_control := control |}.
Proof.
  unfold outputs_with. rewrite list_elem_of_omap. split.
  - intros ((v & o) & Hin & Hi). apply elem_of_lookup_imap in Hin as (v' & o' & Heq & Hv).
    injection Heq as -> ->. case_bool_decide as Hs; [|discriminate].
    injection Hi as <-. by exists v', o'.
  - intros (v & o & Hv & Hs & ->). exists (v, o). split.
    + apply elem_of_lookup_imap. by exists v, o.
    + by rewrite bool_decide_true.
Qed.

Lemma justice_inputs_elem m keys tx i :
  i ∈ justice_inputs m keys tx <->
  exists v o script control, output tx !! v = Some o /\ script_pubkey o = new_p2wsh script /\
    sweepable m keys script control /\
    i = {| in_vout := wrap 32 (Z.of_nat v); in_value := out_value o;
           in_witness_script := script; in_control := control |}.
Proof.
  unfold justice_inputs. rewrite elem_of_app, outputs_with_elem, list_elem_of_In, in_concat.
  split.
  - intros [(v & o & Hv & Hs & ->)|(l & Hl & Hi)].
    + exists v, o, (to_local_script m keys), [0x01]. split_and!; [done..|by left|done].
    + apply in_map_iff in Hl as (script & <- & Hscript). apply list_elem_of_In in Hi, Hscript.
      apply outputs_with_elem in Hi as (v & o & Hv & Hs & ->).
      exists v, o, script, (pk_serialize (revocation_key keys)). split_and!; [done..|by right|done].
  - intros (v & o & script & control & Hv & Hs & [[-> ->]|[Hscript ->]] & ->).
    + left. by exists v, o.
    + right. exists (outputs_with tx script (pk_serialize (revocation_key keys))).
      rewrite in_map_iff, <- list_elem_of_In, outputs_with_elem. split; [|by exists v, o].
      exists script. by rewrite <- list_elem_of_In.
Qed.

Lemma justice_txins_lookup txid inputs (idx : nat) :
  justice_txins txid inputs !! idx =
    (fun i => claim_input txid (in_vout i) 0xfffffffd) <$> (inputs !! idx).
Proof. unfold justice_txins. apply list_lookup_fmap. Qed.

Lemma length_justice_txins txid inputs : length (justice_txins txid inputs) = length inputs.
Proof. unfold justice_txins. apply length_map. Qed.

Lemma justice_tx_spec signer secret point keys theirs txid inputs destination feerate tx :
  ok signer -> per_commitment_point_of secret = Some point ->
  tx_creation_keys point theirs (pubkeys signer) = Some keys ->
  justice_tx signer secret txid inputs destination feerate = Ok tx ->
  map previous_output (input tx) =
    map (fun i => {| op_txid := txid; op_vout := in_vout i |}) inputs /\
  (exists fee, output tx = [{| out_value := sat_sub (wrap 64 (zsum (map in_value inputs))) fee;
                               script_pubkey := destination |}]) /\
  lock_time tx = 0 /\
  forall (idx : nat) i, inputs !! idx = Some i ->
    opens tx idx (in_witness_script i) (in_value i) (revocation_key keys)
      [in_control i; in_witness_script i].
Proof.
  intros Hok Hpoint Hkeys Hrun. unfold justice_tx in Hrun. cbv zeta in Hrun.
  apply bind_Ok in Hrun as (ws & Hws & Hrun). apply Ok_inj in Hrun. subst tx.
  apply mapM_Ok in Hws. pose proof (Forall2_length _ _ _ Hws) as Hlen. rewrite length_imap in Hlen.
  set (ins := justice_txins txid inputs) in *.
  assert (Hstrip : map strip (zip_with set_witness ins ws) = map strip ins)
    by (apply strip_zip; unfold ins; rewrite length_justice_txins; lia).
  split; [|split; [by eexists|split; [reflexivity|]]].
  - cbn [sweep_to input]. rewrite (map_strip_ext previous_output _ ins); [|done|done].
    unfold ins, justice_txins. by rewrite map_map.
  - intros idx i Hi. unfold opens.
    destruct (Forall2_lookup_l _ _ _ idx (idx, i) Hws) as (w & Hw & Hrun).
    { rewrite list_lookup_imap, Hi. reflexivity. }
    unfold justice_witness in Hrun. apply bind_Ok in Hrun as (h & Hh & Hrun).
    apply bind_Ok in Hrun as (sg & Hsg & Hrun). apply expect_Ok in Hsg. apply Ok_inj in Hrun.
    exists (set_witness (claim_input txid (in_vout i) 0xfffffffd) w), sg, h.
    split; [|split; [by rewrite <- Hrun|split]].
    + cbn [sweep_to input]. apply lookup_zip_with_Some.
      exists (claim_input txid (in_vout i) 0xfffffffd), w. split; [done|]. split; [|done].
      unfold ins. by rewrite justice_txins_lookup, Hi.
    + rewrite <- Hh. apply witness_not_signed. by apply sweep_skeleton.
    + destruct (signer_revocation _ h _ sg Hok Hsg) as (point' & k & Hp & Hk & Hv).
      rewrite Hpoint in Hp. injection Hp as <-. unfold tx_creation_keys in Hkeys.
      rewrite Hk in Hkeys. cbn [mbind option_bind] in Hkeys.
      do 3 (apply bind_Some in Hkeys as (? & _ & Hkeys)). injection Hkeys as <-. exact Hv.
Qed.

Lemma justice_tx_total signer secret txid inputs destination feerate :
  (forall h, sign_revocation signer h secret <> None) ->
  exists tx, justice_tx signer secret txid inputs destination feerate = Ok tx.
Proof.
  intros Hsign. unfold justice_tx. cbv zeta.
  match goal with |- context [sighash_cache_new ?t] => set (just := t) end.
  destruct (mapM_total (justice_witness signer secret (sighash_cache_new just)) (imap pair inputs))
    as [ws Hws].
  - apply Forall_lookup. intros k [idx i] Hk. rewrite list_lookup_imap in Hk.
    apply fmap_Some in Hk as (i' & Hi & Heq). injection Heq as -> ->.
    destruct (sighash_ok just k (in_witness_script i') (in_value i') All
      (claim_input txid (in_vout i') 0xfffffffd)) as [h Hh].
    { cbn [just sweep_to input]. by rewrite justice_txins_lookup, Hi. }
    unfold justice_witness. rewrite Hh. cbn [mbind result_bind]. specialize (Hsign h).
    destruct (sign_revocation signer h secret); [|done]. cbn [expect mbind result_bind]. by eexists.
  - rewrite Hws. cbn [mbind result_bind]. by eexists.
Qed.
End Justice.

(** ** Recognising a commitment *)
Section Classify.
Context `{HS : Secp} {Sg : Type} `{HCS : !ChannelSigner Sg}.

(** [tx] is the commitment transaction of [p], signatures added. *)
Definition broadcast_of (p : CommitmentTxParams) (tx : Transaction) : Prop :=
  same_skeleton tx (built_tx (build_commitment_tx p)).

Lemma broadcast_input p tx :
  broadcast_of p tx ->
  exists i, input tx = [i] /\ previous_output i = cp_funding_outpoint p /\
    map sequence (input (built_tx (build_commitment_tx p))) = [sequence i] /\
    lock_time tx = lock_time (built_tx (build_commitment_tx p)) /\ version tx = 2.
Proof.
  intros (Hv & Hl & _ & Hi). destruct (input tx) as [|i [|]]; try discriminate Hi.
  exists i. injection Hi as Hp _ Hs. split_and!; [done|by rewrite Hp| |done|done].
  cbn [build_commitment_tx built_tx input map sequence]. by rewrite Hs.
Qed.

Lemma broadcast_output p tx : broadcast_of p tx -> output tx = outputs p.
Proof. by intros (_ & _ & Ho & _). Qed.

(** A commitment that is neither of the two current ones is judged by the
    secret of its number alone. *)
Lemma classify_commitment m p tx :
  broadcast_of p tx -> cp_funding_outpoint p = cm_funding_outpoint m ->
  obscure_factor p = cm_obscure_factor m ->
  uint 48 (commitment_number p) -> uint 48 (obscure_factor p) ->
  (forall hc, cm_holder_commitment m = Some hc -> built_txid (hc_built hc) <> txid tx) ->
  (forall cp, cm_counterparty_current m = Some cp -> cpd_txid cp <> txid tx) ->
  classify m tx =
    match secret_for (cm_counterparty_secrets m) (index_for_commitment (commitment_number p)) with
    | Some _ => Some (CounterpartyRevoked (commitment_number p))
    | None => Some UnknownCommitment
    end.
Proof.
  intros Htx Hf Hob Hn Hob48 Hhc Hcp. unfold classify.
  destruct (broadcast_input p tx Htx) as (i & Hi & Hpo & Hseq & Hlock & Hver).
  rewrite Hi. cbn [List.find]. unfold spends at 1. rewrite Hpo, bool_decide_true by done.
  cbn [mbind option_bind].
  assert ((match cm_holder_commitment m with
     | Some hc => bool_decide (built_txid (hc_built hc) = txid tx) | None => false end) = false) as ->.
  { destruct (cm_holder_commitment m) as [hc|]; [|done]. apply bool_decide_eq_false. by apply Hhc. }
  assert ((match cm_counterparty_current m with
     | Some cp => bool_decide (cpd_txid cp = txid tx) | None => false end) = false) as ->.
  { destruct (cm_counterparty_current m) as [cp|]; [|done]. apply bool_decide_eq_false. by apply Hcp. }
  destruct (obscured_fields p Hn Hob48) as [Hl Hs]. cbv zeta in Hl, Hs.
  pose proof (recover_number_base p Hn Hob48) as Hrec.
  assert (Hsh : is_commitment_shape tx i = true).
  { unfold is_commitment_shape. rewrite Hver, Hlock, Hl.
    rewrite Hs in Hseq. injection Hseq as <-.
    assert (Ho : uint 48 (Z.lxor (commitment_number p) (obscure_factor p)))
      by (apply lxor_uint; [lia|done..]). unfold uint in Ho.
    set (o := Z.lxor (commitment_number p) (obscure_factor p)) in *.
    rewrite !Z.shiftr_div_pow2 by lia.
    rewrite !(Z.add_comm (_ * 2 ^ 24)), !Z_div_plus_full by lia.
    rewrite (Z.div_small (o mod 2 ^ 24)) by (apply Z.mod_pos_bound; lia).
    rewrite (Z.div_small (o / 2 ^ 24)); [done|].
    split; [apply Z.div_pos; lia|apply Z.div_lt_upper_bound; lia]. }
  rewrite Hsh. cbn [negb].
  assert (Hnum : Z.lxor (obscured_number tx i) (cm_obscure_factor m) = commitment_number p).
  { rewrite <- Hob. unfold recover_number in Hrec.
    destruct (input (built_tx (build_commitment_tx p))) as [|i' [|]]; try discriminate Hrec.
    injection Hrec as Hrec. injection Hseq as Hseq'. unfold obscured_number.
    by rewrite <- Hseq', Hlock. }
  rewrite Hnum. reflexivity.
Qed.

Lemma classify_holder m hc tx i :
  cm_holder_commitment m = Some hc -> built_txid (hc_built hc) = txid tx ->
  input tx = [i] -> previous_output i = cm_funding_outpoint m ->
  classify m tx = Some HolderCommitmentSpend.
Proof.
  intros Hhc Ht Hi Hp. unfold classify. rewrite Hi. cbn [List.find]. unfold spends at 1.
  rewrite Hp, bool_decide_true by done. cbn [mbind option_bind]. by rewrite Hhc, bool_decide_true.
Qed.

Lemma classify_current m cp tx i :
  cm_counterparty_current m = Some cp -> cpd_txid cp = txid tx ->
  input tx = [i] -> previous_output i = cm_funding_outpoint m ->
  (forall hc, cm_holder_commitment m = Some hc -> built_txid (hc_built hc) <> txid tx) ->
  classify m tx = Some CounterpartyCurrent.
Proof.
  intros Hcp Ht Hi Hp Hhc. unfold classify. rewrite Hi. cbn [List.find]. unfold spends at 1.
  rewrite Hp, bool_decide_true by done. cbn [mbind option_bind].
  assert ((match cm_holder_commitment m with
     | Some hc => bool_decide (built_txid (hc_built hc) = txid tx) | None => false end) = false) as ->.
  { destruct (cm_holder_commitment m) as [hc|]; [|done]. apply bool_decide_eq_false. by apply Hhc. }
  by rewrite Hcp, bool_decide_true.
Qed.
End Classify.

(** ** What each branch claims *)
Section Branches.
Context `{HS : Secp} {Sg : Type} `{HCS : !ChannelSigner Sg}.
Context (ok : Sg -> Prop) {HCL : ChannelSignerLaws Sg ok}.

(** The signer never panics: its key tweaks are in range. *)
Record signs (signer : Sg) : Prop := {
  signs_revocation : forall h secret, per_commitment_point_of secret <> None ->
    sign_revocation signer h secret <> None;
  signs_htlc : forall h point, sign_htlc signer h point <> None;
  signs_delayed : forall h point, sign_delayed_payment signer h point <> None;
}.

Lemma punish_revoked_spec m signer tx n secret point keys destination feerate :
  ok signer -> pubkeys signer = cm_holder_pubkeys m ->
  (forall h, sign_revocation signer h secret <> None) ->
  secret_for (cm_counterparty_secrets m) (index_for_commitment n) = Some secret ->
  per_commitment_point_of secret = Some point ->
  tx_creation_keys point (cm_counterparty_pubkeys m) (cm_holder_pubkeys m) = Some keys ->
  justice_inputs m keys tx <> [] ->
  exists justice,
    punish_revoked m signer tx n destination feerate =
      Ok [Claim justice None "justice (revoked commitment punished)"] /\
    map previous_output (input justice) =
      map (fun i => {| op_txid := txid tx; op_vout := in_vout i |}) (justice_inputs m keys tx) /\
    map script_pubkey (output justice) = [destination] /\ lock_time justice = 0 /\
    forall (idx : nat) i, justice_inputs m keys tx !! idx = Some i ->
      opens justice idx (in_witness_script i) (in_value i) (revocation_key keys)
        [in_control i; in_witness_script i].
Proof.
  intros Hok Hpub Hsigns Hsec Hpoint Hkeys Hne. unfold punish_revoked. rewrite Hsec, Hpoint.
  cbn [expect mbind result_bind]. rewrite Hkeys. cbn [expect mbind result_bind].
  rewrite <- Hpub in Hkeys.
  destruct (justice_inputs m keys tx) as [|i l] eqn:E; [done|]. rewrite <- E.
  destruct (justice_tx_total signer secret (txid tx) (justice_inputs m keys tx) destination feerate Hsigns)
    as [justice Hj].
  rewrite Hj. cbn [mbind result_bind]. exists justice. split; [reflexivity|].
  destruct (justice_tx_spec ok signer secret point keys _ _ _ _ _ _ Hok Hpoint Hkeys Hj)
    as (Hin & [fee Hout] & Hl & Hopen).
  split; [done|]. split; [by rewrite Hout|]. done.
Qed.

(** A response that claims output [vout] of transaction [t]. *)
Definition claims (r : MonitorResponse) (t : Txid) (vout sequence value : Z) (destination : bytes)
    (code : bytes) (key : PublicKey) (rest : list bytes) : Prop :=
  exists feerate extra,
    is_claim t vout sequence value destination feerate extra code rest key (claim_tx r).

Lemma p2wpkh_code k :
  exists code, p2wpkh_script_code (new_p2wpkh_from_pubkey k) = Some code.
Proof.
  unfold new_p2wpkh_from_pubkey. change ([OP_0; 20] ++ hash160 k) with (new_p2wpkh (hash160 k)).
  destruct (p2wpkh_recognised (hash160 k)) as (_ & _ & H); [apply length_hash160|]. by eexists.
Qed.

(** A loop that pushes at most one response per element. *)
Lemma mapM_concat {A} (f : A -> result unit (list MonitorResponse)) l rs x r :
  mapM f l = Ok rs -> x ∈ l -> f x = Ok [r] -> r ∈ concat rs.
Proof.
  intros H Hx Hf. apply mapM_Ok in H. apply list_elem_of_lookup in Hx as [k Hk].
  destruct (Forall2_lookup_l _ _ _ _ _ H Hk) as (y & Hy & Hxy). rewrite Hf in Hxy.
  apply Ok_inj in Hxy. subst y. apply list_elem_of_In, in_concat. exists [r].
  split; [by eapply list_elem_of_In, list_elem_of_lookup_2|by left].
Qed.

Lemma claim_to_remote_spec m signer t destination feerate v o :
  ok signer -> pubkeys signer = cm_holder_pubkeys m ->
  script_pubkey o = our_to_remote m ->
  exists r code, claim_to_remote m signer t destination feerate (v, o) = Ok [r] /\
    p2wpkh_script_code (script_pubkey o) = Some code /\
    claims r t (wrap 32 (Z.of_nat v)) 0xfffffffd (out_value o) destination code
      (payment_basepoint (cm_holder_pubkeys m)) [pk_serialize (payment_basepoint (cm_holder_pubkeys m))].
Proof.
  intros Hok Hpub Hs. unfold claim_to_remote. rewrite bool_decide_true by done.
  destruct (p2wpkh_code (pk_serialize (payment_basepoint (cm_holder_pubkeys m)))) as [code Hcode].
  rewrite Hs. unfold our_to_remote. rewrite Hcode. cbn [expect mbind result_bind].
  match goal with |- context [single_claim ?t ?v ?s ?x ?d ?f ?e ?c ?sg ?st] =>
    destruct (single_claim_total t v s x d f e c sg st) as [tx Htx]; [done|] end.
  rewrite Htx. cbn [mbind result_bind]. eexists _, code. split; [reflexivity|]. split; [done|].
  do 2 eexists. eapply single_claim_spec; [|exact Htx]. intros h sg [= <-]. rewrite <- Hpub.
  by apply signer_payment.
Qed.

Lemma claim_to_remote_total m signer t destination feerate e :
  exists rs, claim_to_remote m signer t destination feerate e = Ok rs.
Proof.
  destruct e as [v o]. unfold claim_to_remote. case_bool_decide as Hs; [|by eexists].
  destruct (p2wpkh_code (pk_serialize (payment_basepoint (cm_holder_pubkeys m)))) as [code Hcode].
  rewrite Hs. unfold our_to_remote. rewrite Hcode. cbn [expect mbind result_bind].
  match goal with |- context [single_claim ?t ?v ?s ?x ?d ?f ?e ?c ?sg ?st] =>
    destruct (single_claim_total t v s x d f e c sg st) as [tx Htx]; [done|] end.
  rewrite Htx. by eexists.
Qed.

Lemma htlc_key_derived point theirs ours keys k :
  tx_creation_keys point theirs ours = Some keys ->
  derive_pubkey (htlc_basepoint ours) point = Some k -> k = countersignatory_htlc_key keys.
Proof.
  intros Hkeys Hk. unfold tx_creation_keys in Hkeys.
  apply bind_Some in Hkeys as (rk & _ & Hkeys). apply bind_Some in Hkeys as (bh & _ & Hkeys).
  apply bind_Some in Hkeys as (ch & Hch & Hkeys). apply bind_Some in Hkeys as (bd & _ & Hkeys).
  injection Hkeys as <-. cbn. congruence.
Qed.

Lemma own_keys_derived point ours theirs keys :
  tx_creation_keys point ours theirs = Some keys ->
  tck_per_commitment_point keys = point /\
  derive_pubkey (htlc_basepoint ours) point = Some (broadcaster_htlc_key keys) /\
  derive_pubkey (delayed_payment_basepoint ours) point = Some (broadcaster_delayed_payment_key keys).
Proof.
  intros Hkeys. unfold tx_creation_keys in Hkeys.
  apply bind_Some in Hkeys as (rk & _ & Hkeys). apply bind_Some in Hkeys as (bh & Hbh & Hkeys).
  apply bind_Some in Hkeys as (ch & _ & Hkeys). apply bind_Some in Hkeys as (bd & Hbd & Hkeys).
  injection Hkeys as <-. done.
Qed.

(** *** Their current commitment *)
Lemma claim_with_preimage_spec m signer t destination feerate point keys htlc vout preimage :
  ok signer -> signs signer -> pubkeys signer = cm_holder_pubkeys m ->
  tx_creation_keys point (cm_counterparty_pubkeys m) (cm_holder_pubkeys m) = Some keys ->
  offered htlc = true -> cm_preimages m !! payment_hash htlc = Some preimage ->
  exists r, claim_with_preimage m signer t destination feerate point keys (htlc, Some vout) = Ok [r] /\
    claims r t vout 0xfffffffd (to_sat_floor (amount_msat htlc)) destination
      (htlc_witness_script keys htlc) (countersignatory_htlc_key keys)
      [preimage; htlc_witness_script keys htlc].
Proof.
  intros Hok Hsigns Hpub Hkeys Hoff Hpre. unfold claim_with_preimage. rewrite Hoff, Hpre.
  cbn [negb]. cbv zeta.
  match goal with |- context [single_claim ?t ?v ?s ?x ?d ?f ?e ?c ?sg ?st] =>
    destruct (single_claim_total t v s x d f e c sg st) as [tx Htx];
      [intros h; apply signs_htlc, Hsigns|] end.
  rewrite Htx. cbn [mbind result_bind]. eexists. split; [reflexivity|]. do 2 eexists.
  eapply single_claim_spec; [|exact Htx]. intros h sg Hsg.
  destruct (signer_htlc _ h point sg Hok Hsg) as (k & Hk & Hv). rewrite Hpub in Hk.
  by rewrite <- (htlc_key_derived _ _ _ _ _ Hkeys Hk).
Qed.

Lemma claim_with_preimage_total m signer t destination feerate point keys e :
  signs signer ->
  exists rs, claim_with_preimage m signer t destination feerate point keys e = Ok rs.
Proof.
  intros Hsigns. destruct e as [htlc vout]. unfold claim_with_preimage.
  destruct (negb (offered htlc)); [by eexists|].
  destruct (cm_preimages m !! payment_hash htlc); [|by eexists]. destruct vout; [|by eexists].
  cbv zeta.
  match goal with |- context [single_claim ?t ?v ?s ?x ?d ?f ?e ?c ?sg ?st] =>
    destruct (single_claim_total t v s x d f e c sg st) as [tx Htx];
      [intros h; apply signs_htlc, Hsigns|] end.
  rewrite Htx. by eexists.
Qed.

Lemma claim_counterparty_spec m signer tx cp keys destination feerate :
  ok signer -> signs signer -> pubkeys signer = cm_holder_pubkeys m ->
  cm_counterparty_current m = Some cp ->
  tx_creation_keys (cpd_per_commitment_point cp) (cm_counterparty_pubkeys m)
    (cm_holder_pubkeys m) = Some keys ->
  exists rs, claim_counterparty_outputs m signer tx destination feerate = Ok rs /\
    (forall v o, output tx !! v = Some o -> script_pubkey o = our_to_remote m ->
       exists r code, r ∈ rs /\ p2wpkh_script_code (script_pubkey o) = Some code /\
         claims r (txid tx) (wrap 32 (Z.of_nat v)) 0xfffffffd (out_value o) destination code
           (payment_basepoint (cm_holder_pubkeys m))
           [pk_serialize (payment_basepoint (cm_holder_pubkeys m))]) /\
    (forall htlc vout preimage, (htlc, Some vout) ∈ cpd_htlcs cp -> offered htlc = true ->
       cm_preimages m !! payment_hash htlc = Some preimage ->
       exists r, r ∈ rs /\
         claims r (txid tx) vout 0xfffffffd (to_sat_floor (amount_msat htlc)) destination
           (htlc_witness_script keys htlc) (countersignatory_htlc_key keys)
           [preimage; htlc_witness_script keys htlc]).
Proof.
  intros Hok Hsigns Hpub Hcp Hkeys. unfold claim_counterparty_outputs. cbv zeta. rewrite Hcp.
  destruct (mapM_total (claim_to_remote m signer (txid tx) destination feerate)
    (imap pair (output tx))) as [remote Hr].
  { apply Forall_forall. intros e _. apply claim_to_remote_total. }
  destruct (mapM_total (claim_with_preimage m signer (txid tx) destination feerate
    (cpd_per_commitment_point cp) keys) (cpd_htlcs cp)) as [htlc Hh].
  { apply Forall_forall. intros e _. by apply claim_with_preimage_total. }
  rewrite Hr. cbn [mbind result_bind]. rewrite Hkeys. cbn [expect mbind result_bind].
  rewrite Hh. cbn [mbind result_bind]. eexists. split; [reflexivity|]. split.
  - intros v o Hv Hs.
    destruct (claim_to_remote_spec m signer (txid tx) destination feerate v o Hok Hpub Hs)
      as (r & code & Hrun & Hcode & Hcl).
    exists r, code. split; [|done]. apply elem_of_app. left. eapply mapM_concat; [exact Hr| |exact Hrun].
    apply elem_of_lookup_imap. by exists v, o.
  - intros h vout preimage Hin Hoff Hpre.
    destruct (claim_with_preimage_spec m signer (txid tx) destination feerate _ keys h vout preimage
      Hok Hsigns Hpub Hkeys Hoff Hpre) as (r & Hrun & Hcl).
    exists r. split; [|done]. apply elem_of_app. right. by eapply mapM_concat.
Qed.

(** *** Our own commitment *)
Lemma claim_to_local_spec m signer hc tx destination feerate height theirs v o :
  ok signer -> signs signer -> pubkeys signer = cm_holder_pubkeys m ->
  tx_creation_keys (tck_per_commitment_point (hc_keys hc)) (cm_holder_pubkeys m) theirs =
    Some (hc_keys hc) ->
  to_broadcaster_index (hc_built hc) = Some (Z.of_nat v) -> output tx !! v = Some o ->
  exists r, claim_to_local m signer hc tx destination feerate height = Ok [r] /\
    valid_after_height r = Some (wrap 32 (height + cm_counterparty_selected_delay m)) /\
    let script := revocable_delayed (revocation_key (hc_keys hc))
      (cm_counterparty_selected_delay m) (broadcaster_delayed_payment_key (hc_keys hc)) in
    claims r (txid tx) (Z.of_nat v) (cm_counterparty_selected_delay m) (out_value o) destination
      script (broadcaster_delayed_payment_key (hc_keys hc)) [[]; script].
Proof.
  intros Hok Hsigns Hpub Hkeys Hidx Ho. unfold claim_to_local. rewrite Hidx. cbv zeta.
  rewrite Nat2Z.id, Ho. cbn [expect mbind result_bind].
  match goal with |- context [single_claim ?t ?v ?s ?x ?d ?f ?e ?c ?sg ?st] =>
    destruct (single_claim_total t v s x d f e c sg st) as [stx Htx];
      [intros h; apply signs_delayed, Hsigns|] end.
  rewrite Htx. cbn [mbind result_bind]. eexists. split; [reflexivity|]. split; [reflexivity|].
  do 2 eexists. eapply single_claim_spec; [|exact Htx]. intros h sg Hsg.
  destruct (signer_delayed _ h _ sg Hok Hsg) as (k & Hk & Hv). rewrite Hpub in Hk.
  destruct (own_keys_derived _ _ _ _ Hkeys) as (_ & _ & Hd). rewrite Hd in Hk. by injection Hk as <-.
Qed.

(** A second-stage transaction with both signatures. *)
Definition htlc_tx_opened (tx : Transaction) (hc : HolderCommitment) (script : bytes) (value : Z)
    (preimage : option bytes) : Prop :=
  exists i theirs ours h, input tx !! 0%nat = Some i /\
    witness i = htlc_tx_witness theirs ours preimage script /\
    segwit_v0_sighash (sighash_cache_new tx) 0 script value All = Ok h /\
    verify_ecdsa h theirs (countersignatory_htlc_key (hc_keys hc)) = true /\
    verify_ecdsa h ours (broadcaster_htlc_key (hc_keys hc)) = true.

Lemma with_witness0_skeleton tx w : same_skeleton (with_witness0 tx w) tx.
Proof.
  split_and!; [reflexivity..|]. cbn [with_witness0 input]. by destruct (input tx).
Qed.

Lemma claim_htlc_spec m signer hc t theirs k idx script htlc v sig h preimage :
  ok signer -> signs signer -> pubkeys signer = cm_holder_pubkeys m ->
  tx_creation_keys (tck_per_commitment_point (hc_keys hc)) (cm_holder_pubkeys m) theirs =
    Some (hc_keys hc) ->
  hc_htlcs hc !! idx = Some htlc ->
  htlc_output_indices (hc_built hc) !! idx = Some (Some v) ->
  hc_counterparty_htlc_sigs hc !! k = Some sig ->
  segwit_v0_sighash (sighash_cache_new (build_htlc_tx t v htlc (hc_keys hc)
    (cm_counterparty_selected_delay m) (hc_feerate hc))) 0 script
    (to_sat_floor (amount_msat htlc)) All = Ok h ->
  verify_ecdsa h sig (countersignatory_htlc_key (hc_keys hc)) = true ->
  (if offered htlc then preimage = None
   else preimage = cm_preimages m !! payment_hash htlc /\ preimage <> None) ->
  exists r, claim_htlc m signer hc t (k, (idx, script)) = Ok [r] /\
    valid_after_height r = (if offered htlc then Some (cltv_expiry htlc) else None) /\
    same_skeleton (claim_tx r) (build_htlc_tx t v htlc (hc_keys hc)
      (cm_counterparty_selected_delay m) (hc_feerate hc)) /\
    htlc_tx_opened (claim_tx r) hc script (to_sat_floor (amount_msat htlc)) preimage.
Proof.
  intros Hok Hsigns Hpub Hkeys Hhtlc Hidx Hsig Hh Hv Hpre. unfold claim_htlc.
  rewrite Hhtlc, Hidx, Hsig. cbn [expect mbind result_bind]. cbv zeta. rewrite Hh.
  cbn [mbind result_bind].
  set (tx := build_htlc_tx t v htlc (hc_keys hc) (cm_counterparty_selected_delay m)
    (hc_feerate hc)) in *.
  destruct (sign_htlc signer h (tck_per_commitment_point (hc_keys hc))) as [our|] eqn:Hour;
    [|by apply signs_htlc in Hour].
  cbn [expect mbind result_bind].
  assert ((if offered htlc then None else cm_preimages m !! payment_hash htlc) = preimage) as ->.
  { destruct (offered htlc); [done|]. by destruct Hpre. }
  assert (negb (offered htlc) && bool_decide (cm_preimages m !! payment_hash htlc = None) = false) as ->.
  { destruct (offered htlc); [done|]. destruct Hpre as [<- Hne]. by apply bool_decide_eq_false. }
  eexists. split; [reflexivity|]. split; [reflexivity|].
  split; [apply with_witness0_skeleton|]. unfold htlc_tx_opened. cbn [claim_tx].
  destruct (input tx) as [|i rest] eqn:Ei; [discriminate Ei|].
  eexists _, sig, our, h. split; [cbn [with_witness0 input]; rewrite Ei; reflexivity|].
  split; [reflexivity|]. split; [|split; [done|]].
  - rewrite <- Hh. apply witness_not_signed, with_witness0_skeleton.
  - destruct (signer_htlc _ h _ our Hok Hour) as (key & Hk & Hvk). rewrite Hpub in Hk.
    destruct (own_keys_derived _ _ _ _ Hkeys) as (_ & Hb & _). rewrite Hb in Hk. by injection Hk as <-.
Qed.
End Branches.

(** ** Two HTLCs with one payment hash *)
Section Duplicates.
Context `{HS : Secp} {Sg : Type} `{HCS : !ChannelSigner Sg}.
Context (ok : Sg -> Prop) {HCL : ChannelSignerLaws Sg ok}.

Lemma justice_input_from tx keys script scripts v o :
  script ∈ scripts -> output tx !! v = Some o -> script_pubkey o = new_p2wsh script ->
  wrap 32 (Z.of_nat v) ∈ map in_vout (concat (map (fun s =>
    outputs_with tx s (pk_serialize (revocation_key keys))) scripts)).
Proof.
  intros Hs Hv Ho. apply list_elem_of_fmap. exists {| in_vout := wrap 32 (Z.of_nat v); in_value := out_value o;
    in_witness_script := script; in_control := pk_serialize (revocation_key keys) |}.
  split; [reflexivity|]. apply list_elem_of_In, in_concat.
  exists (outputs_with tx script (pk_serialize (revocation_key keys))). split.
  - apply in_map_iff. exists script. split; [done|]. by apply list_elem_of_In.
  - apply list_elem_of_In, outputs_with_elem. by exists v, o.
Qed.

Lemma justice_inputs_repeat m keys tx cp l1 l2 script v o :
  cm_counterparty_current m = Some cp -> cpd_htlcs cp = l1 ++ l2 ->
  (exists e, e ∈ l1 /\ htlc_witness_script keys e.1 = script) ->
  (exists e, e ∈ l2 /\ htlc_witness_script keys e.1 = script) ->
  output tx !! v = Some o -> script_pubkey o = new_p2wsh script ->
  ~ NoDup (map in_vout (justice_inputs m keys tx)).
Proof.
  intros Hcp Hl (e1 & He1 & Hs1) (e2 & He2 & Hs2) Hv Ho Hnd.
  unfold justice_inputs, htlc_scripts in Hnd. rewrite Hcp, Hl, !map_app, !concat_app, !map_app in Hnd.
  rewrite concat_app, map_app in Hnd.
  apply NoDup_app in Hnd as (_ & _ & Hnd). apply NoDup_app in Hnd as (_ & Hnd & _).
  assert (Hin : forall l e, e ∈ l -> htlc_witness_script keys e.1 = script ->
    script ∈ concat (map (fun '(htlc, _) => [htlc_witness_script keys htlc;
      htlc_witness_script keys (flip htlc)]) (l : list (HtlcOutputInCommitment * option Z)))).
  { intros l [h x] He Hsc. apply list_elem_of_In, in_concat.
    exists [htlc_witness_script keys h; htlc_witness_script keys (flip h)]. split.
    - apply in_map_iff. exists (h, x). split; [done|]. by apply list_elem_of_In.
    - by left. }
  apply (Hnd (wrap 32 (Z.of_nat v))); eapply justice_input_from; eauto.
Qed.

End Duplicates.

(** *** A concrete monitor *)
Definition sample_secret : bytes := replicate 32 20.
Definition sample_commitment_point : PublicKey (Secp := toy_secp) := toy_of (of_be sample_secret).
Definition sample_current (htlcs : list (HtlcOutputInCommitment * option Z)) :
    CounterpartyCommitmentData (HS := toy_secp) :=
  {| cpd_number := 1; cpd_txid := replicate 32 3;
     cpd_per_commitment_point := (toy_of 77 : PublicKey (Secp := toy_secp));
     cpd_htlcs := htlcs |}.
Definition sample_monitor (htlcs : list (HtlcOutputInCommitment * option Z)) :
    ChannelMonitor (HS := toy_secp) :=
  {| cm_funding_outpoint := {| op_txid := replicate 32 9; op_vout := 0 |};
     cm_capacity_sat := 1000000; cm_obscure_factor := 0;
     cm_holder_pubkeys := pubkeys (sample_signer 10);
     cm_counterparty_pubkeys := pubkeys (sample_signer 20);
     cm_holder_selected_delay := 144; cm_counterparty_selected_delay := 144;
     cm_counterparty_secrets := {| known := Some (MAX_INDEX, sample_secret) :: replicate 48 None |};
     cm_counterparty_current := Some (sample_current htlcs);
     cm_holder_commitment := None; cm_holder_commitment_feerate := 253; cm_preimages := ∅ |}.

Definition sample_commitment_keys : TxCreationKeys (HS := toy_secp) :=
  default sample_keys (tx_creation_keys (HS := toy_secp) sample_commitment_point
    (pubkeys (sample_signer 20)) (pubkeys (sample_signer 10))).

Lemma sample_commitment_keys_ok :
  tx_creation_keys (HS := toy_secp) sample_commitment_point (pubkeys (sample_signer 20))
    (pubkeys (sample_signer 10)) = Some sample_commitment_keys.
Proof. reflexivity. Qed.

(** Two parts of one payment, and a revoked commitment with one of them. *)
Definition sample_parts : list (HtlcOutputInCommitment * option Z) :=
  [(sample_htlc 5000000, Some 0); (sample_htlc 6000000, Some 1)].
Definition sample_revoked (value : Z) (script : bytes) : Transaction :=
  {| version := 2; lock_time := 0x20000000; input := [];
     output := [{| out_value := value; script_pubkey := new_p2wsh script |}] |}.

