(* ===== verification/Dance.v ===== *)
(** * Dance: the commitment dance (src/src/channel/dance.rs)

    Adding, fulfilling and failing HTLCs, fee updates, [commitment_signed] and
    [revoke_and_ack], with the holding cell for what is issued while a
    commitment of ours is in flight. *)
From stdpp Require Import pretty.
From S2P Require Import Prelude Secp Types Sha256 Msgs Tx Shachain Keys Commitment Channel.

Record CommittedInboundHtlc := {
  cih_id : Z;
  cih_amount_msat : Z;
  cih_payment_hash : bytes;
  cih_cltv_expiry : Z;
  cih_onion : bytes;
}.

Section Dance.
Context `{HS : Secp} {Sg : Type} `{HCS : !ChannelSigner Sg}.
Abbreviation Channel := (Channel (Sg := Sg)).
Abbreviation chan := (stm Channel ChannelError).

Record RaaOutcome := MkRaaOutcome {
  ro_messages : list Message;
  ro_commitment_signed : option CommitmentSigned;
  ro_forwardable : list CommittedInboundHtlc;
  ro_failed_adds : list (HtlcSource * string);
}.
#[export] Instance RaaOutcome_eta : Eta RaaOutcome := fun o =>
  MkRaaOutcome (ro_messages o) (ro_commitment_signed o) (ro_forwardable o) (ro_failed_adds o).
Definition raa_outcome_default : RaaOutcome := MkRaaOutcome [] None [] [].

(** ** Sending updates *)
(** Unresolved HTLCs of one direction. *)
Definition live_htlcs (c : Channel) (outbound : bool) : list Htlc :=
  List.filter (fun h => Bool.eqb (h_outbound h) outbound &&
    match h_resolution h with None => true | Some _ => false end) (ch_htlcs c).

Definition count_included (f : Htlc -> HtlcPhase) (c : Channel) : Z :=
  Z.of_nat (length (List.filter (fun h => included (f h)) (ch_htlcs c))).

Definition commitment_fee (feerate n : Z) : Z :=
  fee_for_weight feerate
    (wrap 64 (COMMITMENT_TX_BASE_WEIGHT + wrap 64 (COMMITMENT_TX_WEIGHT_PER_HTLC * n))).

Definition validate_outbound_add (c : Channel) (amount cltv : Z) : result ChannelError unit :=
  _ ← fail_if (amount =? 0) (Ignore "zero-amount HTLC");
  _ ← fail_if (amount <? counterparty_htlc_minimum_msat (ch_params c))
        (Ignore "below counterparty htlc_minimum");
  _ ← fail_if (500000000 <=? cltv) (Ignore "cltv_expiry too large");
  let live := live_htlcs c true in
  _ ← fail_if (counterparty_max_accepted_htlcs (ch_params c) <=?
               wrap 16 (Z.of_nat (length live)))
        (Ignore "counterparty max_accepted_htlcs reached");
  let in_flight := msat_add (msat_sum (map h_amount_msat live)) amount in
  _ ← fail_if (counterparty_max_htlc_value_in_flight_msat (ch_params c) <? in_flight)
        (Ignore "counterparty max_htlc_value_in_flight exceeded");
  let '(to_holder, _) := balances_for c false in
  let needed := msat_add amount
    (msat_from_sat (counterparty_selected_reserve_sat (ch_params c))) in
  let needed :=
    if bool_decide (ch_role c = Opener) then
      let untrimmed := count_included h_phase_counterparty c in
      msat_add needed
        (msat_from_sat (commitment_fee (ch_feerate_counterparty c) (untrimmed + 2)))
    else needed in
  fail_if (to_holder <? needed) (Ignore "insufficient balance for HTLC").

Definition push_cell (op : HoldingCellOp) : chan unit :=
  modify (fun c => c <| ch_holding_cell := ch_holding_cell c ++ [op] |>).

Definition send_add_htlc (amount : Z) (hash : bytes) (cltv : Z) (onion : bytes)
    (source : HtlcSource) : chan (option UpdateAddHtlc) :=
  _ ← throw_if (fun c => negb (bool_decide (ch_state c = Normal)))
        (Ignore "channel not in normal state");
  _ ← throw_if (fun c => ch_shutdown_sent c || ch_shutdown_received c)
        (Ignore "channel is shutting down");
  awaiting ← gets ch_awaiting_raa;
  if awaiting : bool then
    _ ← push_cell (CellAdd amount hash cltv onion source);
    mret None
  else
    _ ← reads_self (fun c => validate_outbound_add c amount cltv);
    id ← gets ch_next_holder_htlc_id;
    _ ← modify (fun c =>
          c <| ch_next_holder_htlc_id := wrap 64 (id + 1) |>
            <| ch_htlcs := ch_htlcs c ++
                 [{| h_outbound := true; h_id := id; h_amount_msat := amount;
                     h_payment_hash := hash; h_cltv_expiry := cltv; h_onion := onion;
                     h_source := Some source; h_resolution := None; h_phase_holder := NotYet;
                     h_phase_counterparty := Pending; h_processed := false |}] |>
            <| ch_counterparty_dirty := true |>);
    channel_id ← gets ch_channel_id;
    mret (Some {| add_channel_id := channel_id; add_id := id; add_amount_msat := amount;
                  add_payment_hash := hash; add_cltv_expiry := cltv;
                  add_onion_routing_packet := onion |}).

Definition is_htlc (outbound : bool) (id : Z) (h : Htlc) : bool :=
  Bool.eqb (h_outbound h) outbound && (h_id h =? id).

Definition inbound_committed (c : Channel) (id : Z) : result ChannelError Htlc :=
  htlc ← ok_or (List.find (is_htlc false id) (ch_htlcs c))
           (InvalidState "unknown inbound HTLC id");
  _ ← fail_if (match h_resolution htlc with Some _ => true | None => false end)
        (InvalidState "HTLC already resolved");
  _ ← fail_if (negb (bool_decide (h_phase_holder htlc = Committed)) ||
               negb (bool_decide (h_phase_counterparty htlc = Committed)))
        (InvalidState "HTLC not irrevocably committed");
  Ok htlc.

(** The mutation the three resolving senders share. *)
Definition resolve_inbound (id : Z) (r : HtlcResolution) (c : Channel) : Channel :=
  c <| ch_htlcs := update_first (is_htlc false id)
         (fun h => h <| h_resolution := Some r |> <| h_phase_counterparty := Removing |>)
         (ch_htlcs c) |>
    <| ch_counterparty_dirty := true |>.

Definition send_fulfill_htlc (id : Z) (preimage : bytes) : chan (option UpdateFulfillHtlc) :=
  awaiting ← gets ch_awaiting_raa;
  if awaiting : bool then _ ← push_cell (CellFulfill id preimage); mret None
  else
    channel_id ← gets ch_channel_id;
    htlc ← reads_self (fun c => inbound_committed c id);
    _ ← throw_if (fun _ => negb (bool_decide (preimage_hash preimage = h_payment_hash htlc)))
          (InvalidState "preimage does not match payment hash");
    _ ← modify (resolve_inbound id (Fulfill preimage));
    mret (Some {| ful_channel_id := channel_id; ful_id := id;
                  ful_payment_preimage := preimage |}).

Definition send_fail_htlc (id : Z) (reason : bytes) : chan (option UpdateFailHtlc) :=
  awaiting ← gets ch_awaiting_raa;
  if awaiting : bool then _ ← push_cell (CellFail id reason); mret None
  else
    channel_id ← gets ch_channel_id;
    _ ← reads_self (fun c => inbound_committed c id);
    _ ← modify (resolve_inbound id (Fail reason));
    mret (Some {| fail_channel_id := channel_id; fail_id := id; fail_reason := reason |}).

Definition send_fail_malformed_htlc (id : Z) (sha : bytes) (failure_code : Z)
    : chan (option UpdateFailMalformedHtlc) :=
  awaiting ← gets ch_awaiting_raa;
  if awaiting : bool then _ ← push_cell (CellFailMalformed id sha failure_code); mret None
  else
    channel_id ← gets ch_channel_id;
    _ ← reads_self (fun c => inbound_committed c id);
    _ ← modify (resolve_inbound id (FailMalformed sha failure_code));
    mret (Some {| mal_channel_id := channel_id; mal_id := id; mal_sha256_of_onion := sha;
                  mal_failure_code := failure_code |}).

Definition send_update_fee (feerate : Z) : chan (option UpdateFee) :=
  _ ← throw_if (fun c => negb (bool_decide (ch_role c = Opener)))
        (InvalidState "only the opener sends update_fee");
  _ ← throw_if (fun c => negb (bool_decide (ch_state c = Normal)))
        (Ignore "channel not in normal state");
  _ ← throw_if ch_awaiting_raa (Ignore "commitment in flight; retry after RAA");
  _ ← throw_if (fun _ => feerate <? 253) (Ignore "feerate below floor");
  _ ← modify (fun c => c <| ch_feerate_counterparty := feerate |>
                         <| ch_counterparty_dirty := true |>);
  channel_id ← gets ch_channel_id;
  mret (Some {| fee_channel_id := channel_id; fee_feerate_per_kw := feerate |}).

(** ** Receiving updates *)
Definition validate_inbound_add (c : Channel) (msg : UpdateAddHtlc) : result ChannelError unit :=
  _ ← fail_if (negb (bool_decide (ch_state c = Normal)))
        (Close "update_add_htlc outside normal operation");
  _ ← fail_if (ch_shutdown_sent c || ch_shutdown_received c)
        (Close "update_add_htlc during shutdown");
  _ ← fail_if (negb (add_id msg =? ch_next_counterparty_htlc_id c))
        (Close ("non-sequential htlc id " +:+ pretty (add_id msg) +:+ " (expected " +:+
                pretty (ch_next_counterparty_htlc_id c) +:+ ")"));
  _ ← fail_if (add_amount_msat msg =? 0) (Close "zero-amount HTLC");
  _ ← fail_if (add_amount_msat msg <? holder_htlc_minimum_msat (ch_params c))
        (Close "HTLC below our htlc_minimum");
  _ ← fail_if (500000000 <=? add_cltv_expiry msg) (Close "cltv_expiry too large");
  let live := live_htlcs c false in
  _ ← fail_if (holder_max_accepted_htlcs (ch_params c) <=? wrap 16 (Z.of_nat (length live)))
        (Close "our max_accepted_htlcs exceeded");
  let in_flight := msat_add (msat_sum (map h_amount_msat live)) (add_amount_msat msg) in
  _ ← fail_if (holder_max_htlc_value_in_flight_msat (ch_params c) <? in_flight)
        (Close "our max_htlc_value_in_flight exceeded");
  let '(_, to_counterparty) := balances_for c true in
  let needed := msat_add (add_amount_msat msg)
    (msat_from_sat (holder_selected_reserve_sat (ch_params c))) in
  let needed :=
    if bool_decide (ch_role c = Accepter) then
      let untrimmed := count_included h_phase_holder c in
      msat_add needed (msat_from_sat (commitment_fee (ch_feerate_holder c) (untrimmed + 1)))
    else needed in
  fail_if (to_counterparty <? needed) (Close "peer cannot afford HTLC").

Definition on_update_add_htlc (msg : UpdateAddHtlc) : chan unit :=
  _ ← reads_self (fun c => validate_inbound_add c msg);
  modify (fun c =>
    c <| ch_next_counterparty_htlc_id := wrap 64 (ch_next_counterparty_htlc_id c + 1) |>
      <| ch_htlcs := ch_htlcs c ++
           [{| h_outbound := false; h_id := add_id msg; h_amount_msat := add_amount_msat msg;
               h_payment_hash := add_payment_hash msg; h_cltv_expiry := add_cltv_expiry msg;
               h_onion := add_onion_routing_packet msg; h_source := None;
               h_resolution := None; h_phase_holder := Pending;
               h_phase_counterparty := NotYet; h_processed := false |}] |>).

Definition outbound_committed (c : Channel) (id : Z) : result ChannelError Htlc :=
  htlc ← ok_or (List.find (is_htlc true id) (ch_htlcs c))
           (Close ("unknown outbound HTLC id " +:+ pretty id));
  _ ← fail_if (match h_resolution htlc with Some _ => true | None => false end)
        (Close ("HTLC " +:+ pretty id +:+ " resolved twice"));
  _ ← fail_if (negb (bool_decide (h_phase_holder htlc = Committed)) ||
               negb (bool_decide (h_phase_counterparty htlc = Committed)))
        (Close ("HTLC " +:+ pretty id +:+ " resolved before being irrevocably committed"));
  Ok htlc.

(** The mutation and result the three resolving receivers share. *)
Definition resolve_outbound (id : Z) (htlc : Htlc) (r : HtlcResolution) : chan (HtlcSource * Z) :=
  _ ← modify (fun c => c <| ch_htlcs := update_first (is_htlc true id)
        (fun h => h <| h_resolution := Some r |> <| h_phase_holder := Removing |>)
        (ch_htlcs c) |>);
  source ← reads_self (fun _ => expect (h_source htlc));
  mret (source, h_amount_msat htlc).

Definition on_update_fulfill_htlc (msg : UpdateFulfillHtlc) : chan (HtlcSource * Z) :=
  htlc ← reads_self (fun c => outbound_committed c (ful_id msg));
  _ ← throw_if (fun _ => negb (bool_decide
          (preimage_hash (ful_payment_preimage msg) = h_payment_hash htlc)))
        (Close "fulfill preimage does not match payment hash");
  resolve_outbound (ful_id msg) htlc (Fulfill (ful_payment_preimage msg)).

Definition on_update_fail_htlc (msg : UpdateFailHtlc) : chan (HtlcSource * Z) :=
  htlc ← reads_self (fun c => outbound_committed c (fail_id msg));
  resolve_outbound (fail_id msg) htlc (Fail (fail_reason msg)).

Definition on_update_fail_malformed_htlc (msg : UpdateFailMalformedHtlc)
    : chan (HtlcSource * Z) :=
  _ ← throw_if (fun _ => Z.land (mal_failure_code msg) 0x8000 =? 0)
        (Close "update_fail_malformed_htlc without BADONION bit");
  htlc ← reads_self (fun c => outbound_committed c (mal_id msg));
  resolve_outbound (mal_id msg) htlc
    (FailMalformed (mal_sha256_of_onion msg) (mal_failure_code msg)).

Definition on_update_fee (msg : UpdateFee) : chan unit :=
  _ ← throw_if (fun c => bool_decide (ch_role c = Opener)) (Close "non-opener sent update_fee");
  _ ← throw_if (fun _ => fee_feerate_per_kw msg <? 253) (Close "update_fee below floor");
  _ ← throw_if (fun _ => 10000000 <? fee_feerate_per_kw msg) (Close "update_fee absurdly high");
  modify (fun c => c <| ch_feerate_holder := fee_feerate_per_kw msg |>
                     <| ch_pending_fee_ack := Some (fee_feerate_per_kw msg) |>).

(** ** commitment_signed *)
Definition normal_or_shutting_down (c : Channel) : bool :=
  match ch_state c with Normal | ShuttingDown => true | _ => false end.

Definition can_send_commitment (c : Channel) : bool :=
  ch_counterparty_dirty c && negb (ch_awaiting_raa c) &&
  match ch_counterparty_next_point c with Some _ => true | None => false end &&
  normal_or_shutting_down c.

(** The sighash of the second-stage transaction of HTLC [e.1] of a built
    commitment, with the key it pays and the delay and feerate of that side. *)
Definition htlc_tx_sighash (built : BuiltCommitmentTx) (keys : TxCreationKeys)
    (htlcs : list HtlcOutputInCommitment) (delay feerate : Z) (e : nat * bytes)
    : result ChannelError bytes :=
  let '(htlc_idx, witness_script) := e in
  htlc ← expect (htlcs !! htlc_idx);
  vout ← expect (mjoin (htlc_output_indices built !! htlc_idx));
  let htlc_tx := build_htlc_tx (built_txid built) vout htlc keys delay feerate in
  or_panic (segwit_v0_sighash (sighash_cache_new htlc_tx) 0 witness_script
    (to_sat_floor (amount_msat htlc)) All).

(** The loop that signs every second-stage transaction of their commitment. *)
Definition sign_htlcs (c : Channel) (built : BuiltCommitmentTx) (keys : TxCreationKeys)
    (htlcs : list HtlcOutputInCommitment) (point : PublicKey)
    : result ChannelError (list Signature) :=
  collect (fun e =>
    sighash ← htlc_tx_sighash built keys htlcs (holder_selected_delay (ch_params c))
                (ch_feerate_counterparty c) e;
    expect (sign_htlc (ch_signer c) sighash point)) (htlcs_in_output_order built).

Definition phase_keys (phase : HtlcPhase) (c : Channel) : list (bool * Z) :=
  map (fun h => (h_outbound h, h_id h))
    (List.filter (fun h => bool_decide (h_phase_counterparty h = phase)) (ch_htlcs c)).

Definition send_commitment_signed : chan CommitmentSigned :=
  _ ← throw_if ch_awaiting_raa (InvalidState "commitment already in flight");
  _ ← throw_if (fun c => negb (ch_counterparty_dirty c)) (InvalidState "no changes to sign");
  number ← gets (fun c => wrap 64 (ch_counterparty_commitment_number c + 1));
  point ← reads_self (fun c => ok_or (ch_counterparty_next_point c)
            (InvalidState "next per-commitment point unknown"));
  '(built, keys, htlcs) ← reads_self (fun c => build_counterparty_commitment_at c number point);
  signature ← reads_self (fun c => sign_counterparty_commitment_tx c built);
  htlc_signatures ← reads_self (fun c => sign_htlcs c built keys htlcs point);
  _ ← modify (fun c =>
        c <| ch_pending_counterparty_commitment := Some
               {| pcc_info := counterparty_info_from_built c number point built htlcs;
                  pcc_included := phase_keys Pending c;
                  pcc_removed := phase_keys Removing c;
                  pcc_fee_update :=
                    if negb (ch_feerate_holder c =? ch_feerate_counterparty c) &&
                       bool_decide (ch_role c = Opener)
                    then Some (ch_feerate_counterparty c) else None |} |>
          <| ch_awaiting_raa := true |>
          <| ch_counterparty_dirty := false |>);
  channel_id ← gets ch_channel_id;
  mret {| cs_channel_id := channel_id; cs_signature := signature;
          cs_htlc_signatures := htlc_signatures |}.

(** The loop that verifies the peer's HTLC signatures, in output order. *)
Fixpoint verify_htlc_sigs (c : Channel) (built : BuiltCommitmentTx) (keys : TxCreationKeys)
    (htlcs : list HtlcOutputInCommitment) (pairs : list (Signature * (nat * bytes)))
    : result ChannelError unit :=
  match pairs with
  | [] => Ok tt
  | (sig, e) :: pairs =>
    sighash ← htlc_tx_sighash built keys htlcs (counterparty_selected_delay (ch_params c))
                (ch_feerate_holder c) e;
    _ ← fail_if (negb (verify_ecdsa sighash sig (countersignatory_htlc_key keys)))
          (Close "invalid htlc signature");
    verify_htlc_sigs c built keys htlcs pairs
  end.

(** The first loop: transitions locked on our side. *)
Definition lock_holder (h : Htlc) : Htlc :=
  match h_phase_holder h with
  | Pending => h <| h_phase_holder := Committed |>
  | Removing => h <| h_phase_holder := Gone |>
  | _ => h
  end.

(** The second loop: their adds and removals, acknowledged by this revocation,
    may enter their commitment; the flag says whether [h] makes it dirty. *)
Definition ack_counterparty (h : Htlc) : Htlc * bool :=
  let '(h, d1) :=
    if negb (h_outbound h) && bool_decide (h_phase_counterparty h = NotYet) &&
       bool_decide (h_phase_holder h = Committed)
    then (h <| h_phase_counterparty := Pending |>, true) else (h, false) in
  if h_outbound h && match h_resolution h with Some _ => true | None => false end &&
     bool_decide (h_phase_holder h = Gone) && bool_decide (h_phase_counterparty h = Committed)
  then (h <| h_phase_counterparty := Removing |>, true) else (h, d1).

(** Everything [on_commitment_signed] does to the channel once the signatures
    are verified and the new commitment is stored. *)
Definition lock_in (c : Channel) : Channel :=
  let acked := map ack_counterparty (map lock_holder (ch_htlcs c)) in
  let dirty := existsb snd acked in
  let c := c <| ch_htlcs := map fst acked |> in
  let '(c, dirty) :=
    match ch_pending_fee_ack c with
    | Some fee => (c <| ch_pending_fee_ack := None |> <| ch_feerate_counterparty := fee |>, true)
    | None => (c, dirty)
    end in
  let c := if dirty : bool then c <| ch_counterparty_dirty := true |> else c in
  gc_htlcs c.

Definition on_commitment_signed (msg : CommitmentSigned) : chan RevokeAndAck :=
  _ ← throw_if (fun c => negb (normal_or_shutting_down c))
        (Close "commitment_signed outside normal operation");
  number ← gets (fun c => wrap 64 (ch_holder_commitment_number c + 1));
  '(built, keys, htlcs) ← reads_self (fun c => build_holder_commitment_at c number);
  _ ← reads_self (fun c => verify_counterparty_funding_sig c built (cs_signature msg));
  _ ← throw_if (fun _ => negb (length (cs_htlc_signatures msg) =?
                               length (htlcs_in_output_order built))%nat)
        (Close ("expected " +:+ pretty (Z.of_nat (length (htlcs_in_output_order built))) +:+
                " htlc signatures, got " +:+
                pretty (Z.of_nat (length (cs_htlc_signatures msg)))));
  _ ← reads_self (fun c => verify_htlc_sigs c built keys htlcs
        (combine (cs_htlc_signatures msg) (htlcs_in_output_order built)));
  _ ← modify (fun c =>
        c <| ch_current_holder_commitment := Some
               {| hc_number := number; hc_built := built;
                  hc_counterparty_sig := cs_signature msg;
                  hc_counterparty_htlc_sigs := cs_htlc_signatures msg;
                  hc_htlcs := htlcs; hc_keys := keys; hc_feerate := ch_feerate_holder c |} |>
          <| ch_holder_commitment_number := number |>);
  _ ← modify lock_in;
  channel_id ← gets ch_channel_id;
  secret ← gets (fun c => release_commitment_secret (ch_signer c) (wrap 64 (number - 1)));
  next ← reads_self (fun c => expect (per_commitment_point (ch_signer c) (wrap 64 (number + 1))));
  mret {| raa_channel_id := channel_id; raa_per_commitment_secret := secret;
          raa_next_per_commitment_point := next |}.

(** ** revoke_and_ack *)
Definition upd_htlc (outbound : bool) (id : Z) (f : Htlc -> Htlc) (hs : list Htlc) : list Htlc :=
  update_first (is_htlc outbound id) f hs.

Definition lock_included (outbound : bool) (h : Htlc) : Htlc :=
  let h := if bool_decide (h_phase_counterparty h = Pending)
           then h <| h_phase_counterparty := Committed |> else h in
  if outbound && bool_decide (h_phase_holder h = NotYet)
  then h <| h_phase_holder := Pending |> else h.

Definition lock_removed (outbound : bool) (h : Htlc) : Htlc :=
  let h := if bool_decide (h_phase_counterparty h = Removing)
           then h <| h_phase_counterparty := Gone |> else h in
  if negb outbound && bool_decide (h_phase_holder h = Committed)
  then h <| h_phase_holder := Removing |> else h.

(** The snapshotted transitions of the commitment they just locked. *)
Definition apply_pending (p : PendingCounterpartyCommitment) (c : Channel) : Channel :=
  let hs := foldl (fun hs '(o, id) => upd_htlc o id (lock_included o) hs) (ch_htlcs c)
              (pcc_included p) in
  let hs := foldl (fun hs '(o, id) => upd_htlc o id (lock_removed o) hs) hs (pcc_removed p) in
  let c := c <| ch_htlcs := hs |> in
  let c := match pcc_fee_update p with
           | Some fee => c <| ch_feerate_holder := fee |>
           | None => c
           end in
  gc_htlcs c.

Definition forwardable (h : Htlc) : bool :=
  negb (h_outbound h) && negb (h_processed h) &&
  match h_resolution h with None => true | Some _ => false end &&
  bool_decide (h_phase_holder h = Committed) && bool_decide (h_phase_counterparty h = Committed).

Definition collect_forwardable : chan (list CommittedInboundHtlc) :=
  out ← gets (fun c => map (fun h =>
    {| cih_id := h_id h; cih_amount_msat := h_amount_msat h;
       cih_payment_hash := h_payment_hash h; cih_cltv_expiry := h_cltv_expiry h;
       cih_onion := h_onion h |}) (List.filter forwardable (ch_htlcs c)));
  _ ← modify (fun c => c <| ch_htlcs := map (fun h =>
        if forwardable h then h <| h_processed := true |> else h) (ch_htlcs c) |>);
  mret out.

Definition push_message (o : RaaOutcome) (m : Message) : RaaOutcome :=
  o <| ro_messages := ro_messages o ++ [m] |>.

(** One operation of the holding cell; an add that no longer fits is reported,
    a resolution of a vanished HTLC is dropped. *)
Definition flush_resolution {A} (mk : A -> Message) (o : RaaOutcome)
    (r : result ChannelError (option A)) : result ChannelError RaaOutcome :=
  match r with
  | Ok (Some msg) => Ok (push_message o (mk msg))
  | Ok None => Panic
  | Err (InvalidState _) | Err (Ignore _) => Ok o
  | Err e => Err e
  | Panic => Panic
  end.

Definition flush_op (o : RaaOutcome) (op : HoldingCellOp) : chan RaaOutcome :=
  match op with
  | CellAdd amount hash cltv onion source =>
    r ← catch (send_add_htlc amount hash cltv onion source);
    reads_self (fun _ =>
      match r with
      | Ok (Some msg) => Ok (push_message o (MUpdateAddHtlc msg))
      | Ok None => Panic
      | Err (Ignore _) =>
        Ok (o <| ro_failed_adds := ro_failed_adds o ++ [(source, "no longer routable on flush"%string)] |>)
      | Err e => Err e
      | Panic => Panic
      end)
  | CellFulfill id preimage =>
    r ← catch (send_fulfill_htlc id preimage);
    reads_self (fun _ => flush_resolution MUpdateFulfillHtlc o r)
  | CellFail id reason =>
    r ← catch (send_fail_htlc id reason);
    reads_self (fun _ => flush_resolution MUpdateFailHtlc o r)
  | CellFailMalformed id sha code =>
    r ← catch (send_fail_malformed_htlc id sha code);
    reads_self (fun _ => flush_resolution MUpdateFailMalformedHtlc o r)
  end.

Fixpoint flush (ops : list HoldingCellOp) (o : RaaOutcome) : chan RaaOutcome :=
  match ops with
  | [] => mret o
  | op :: ops => o ← flush_op o op; flush ops o
  end.

(** Verify the revealed secret against their current point and the shachain;
    on failure the pending commitment stays. *)
Definition accept_secret (msg : RevokeAndAck) : chan PendingCounterpartyCommitment :=
  pending ← reads_self (fun c => expect (ch_pending_counterparty_commitment c));
  expected_point ← reads_self (fun c => expect (ch_counterparty_current_point c));
  revealed ← reads_self (fun _ => expect (per_commitment_point_of (raa_per_commitment_secret msg)));
  _ ← throw_if (fun _ => negb (bool_decide (revealed = expected_point)))
        (Close "revoked secret does not match per-commitment point");
  store ← reads_self (fun c =>
    match insert (ch_counterparty_secrets c)
            (index_for_commitment (ch_counterparty_commitment_number c))
            (raa_per_commitment_secret msg) with
    | Ok s => Ok s
    | Err _ => Err (Close "per-commitment secret inconsistent with chain")
    | Panic => Panic
    end);
  _ ← modify (fun c =>
        c <| ch_counterparty_secrets := store |>
          <| ch_pending_counterparty_commitment := None |>
          <| ch_counterparty_commitment_number :=
               wrap 64 (ch_counterparty_commitment_number c + 1) |>
          <| ch_counterparty_current_point := ch_counterparty_next_point c |>
          <| ch_counterparty_next_point := Some (raa_next_per_commitment_point msg) |>
          <| ch_current_counterparty_commitment := Some (pcc_info pending) |>
          <| ch_awaiting_raa := false |>);
  mret pending.

Definition on_revoke_and_ack (msg : RevokeAndAck) : chan RaaOutcome :=
  _ ← throw_if (fun c => negb (ch_awaiting_raa c)) (Close "unexpected revoke_and_ack");
  pending ← accept_secret msg;
  _ ← modify (apply_pending pending);
  fwd ← collect_forwardable;
  let outcome := raa_outcome_default <| ro_forwardable := fwd |> in
  ops ← gets ch_holding_cell;
  _ ← modify (fun c => c <| ch_holding_cell := [] |>);
  outcome ← flush ops outcome;
  ready ← gets can_send_commitment;
  if ready : bool then
    cs ← send_commitment_signed;
    mret (outcome <| ro_commitment_signed := Some cs |>)
  else mret outcome.

Definition live_htlc_count (c : Channel) : nat := length (ch_htlcs c).
End Dance.
