(* ===== verification/Close.v ===== *)
(** * Close: cooperative close (src/src/channel/close.rs)

    [shutdown] exchange and the [closing_signed] fee negotiation, with the
    [fee_range] fast path and the legacy path. *)
From S2P Require Import Prelude Secp Types Msgs Script Tx Shachain Keys Commitment Channel Dance.

(** [x.clamp(min, max)] panics when [min > max]. *)
Definition clamp (x min max : Z) : option Z :=
  if max <? min then None else Some (Z.min (Z.max x min) max).

Section Close.
Context `{HS : Secp} {Sg : Type} `{HCS : !ChannelSigner Sg}.
Abbreviation Channel := (Channel (Sg := Sg)).
Abbreviation chan := (stm Channel ChannelError).

Inductive ClosingSignedOutcome : Type :=
  | Reply (msg : ClosingSigned) (tx : option Transaction)
  | Done (tx : Transaction).

Definition shutdown_allowed (c : Channel) : bool :=
  match ch_state c with Normal | AwaitingChannelReady | ShuttingDown => true | _ => false end.

Definition send_shutdown (script : bytes) : chan Shutdown :=
  _ ← throw_if (fun c => negb (shutdown_allowed c)) (InvalidState "shutdown in wrong state");
  _ ← throw_if ch_shutdown_sent (InvalidState "shutdown already sent");
  _ ← throw_if (fun _ => negb (is_witness_program script))
        (InvalidState "shutdown script must be a witness program");
  _ ← modify (fun c =>
        let c := c <| ch_holder_shutdown_script := Some script |> <| ch_shutdown_sent := true |> in
        if bool_decide (ch_state c = Normal) then c <| ch_state := ShuttingDown |> else c);
  channel_id ← gets ch_channel_id;
  mret {| sd_channel_id := channel_id; sd_scriptpubkey := script |}.

Definition on_shutdown (msg : Shutdown) (our_script : bytes) : chan (option Shutdown) :=
  _ ← throw_if (fun c => negb (shutdown_allowed c)) (Close "shutdown in wrong state");
  _ ← throw_if (fun _ => negb (is_witness_program (sd_scriptpubkey msg)))
        (Close "shutdown script is not a witness program");
  _ ← modify (fun c =>
        let c := c <| ch_counterparty_shutdown_script := Some (sd_scriptpubkey msg) |>
                   <| ch_shutdown_received := true |> in
        if awaiting_or_normal c then c <| ch_state := ShuttingDown |> else c);
  sent ← gets ch_shutdown_sent;
  if sent : bool then mret None
  else reply ← send_shutdown our_script; mret (Some reply).

Definition ready_to_negotiate_close (c : Channel) : bool :=
  match ch_state c with ShuttingDown | NegotiatingClose => true | _ => false end &&
  ch_shutdown_sent c && ch_shutdown_received c &&
  match ch_htlcs c with [] => true | _ => false end &&
  negb (ch_awaiting_raa c) && negb (ch_counterparty_dirty c) &&
  match ch_holding_cell c with [] => true | _ => false end.

(** (fee, min, max) *)
Definition closing_fee_bounds (c : Channel) (target_feerate : Z) : option (Z * Z * Z) :=
  let fee := fee_for_weight target_feerate CLOSING_TX_WEIGHT_BOUND in
  let min := fee_for_weight 253 CLOSING_TX_WEIGHT_BOUND in
  let '(to_holder, _) := balances_for c true in
  let funder_balance :=
    if bool_decide (ch_role c = Opener) then to_sat_floor to_holder else u64_max in
  let max := Z.min (wrap 64 (fee * 2)) funder_balance in
  fee ← clamp fee min max;
  Some (fee, min, max).

Definition build_and_sign_closing (c : Channel) (fee_sat : Z)
    : result ChannelError (Transaction * Signature) :=
  holder_script ← ok_or (ch_holder_shutdown_script c) (InvalidState "no holder shutdown script");
  counterparty_script ← ok_or (ch_counterparty_shutdown_script c)
    (InvalidState "no counterparty shutdown script");
  funding ← ok_or (ch_funding_outpoint c) (InvalidState "no funding outpoint");
  let '(to_holder, to_counterparty) := balances_for c true in
  let holder_sat := to_sat_floor to_holder in
  let counterparty_sat := to_sat_floor to_counterparty in
  let '(holder_sat, counterparty_sat) :=
    match ch_role c with
    | Opener => (sat_sub holder_sat fee_sat, counterparty_sat)
    | Accepter => (holder_sat, sat_sub counterparty_sat fee_sat)
    end in
  let dust := Z.max (holder_dust_limit_sat (ch_params c)) 546 in
  let tx := build_closing_tx funding holder_sat counterparty_sat holder_script
              counterparty_script dust in
  _ ← fail_if (match output tx with [] => true | _ => false end)
        (InvalidState "closing tx would have no outputs");
  sighash ← funding_sighash c tx;
  Ok (tx, sign_with_funding_key (ch_signer c) sighash).

Definition verify_their_closing_sig (c : Channel) (fee_sat : Z) (sig : Signature)
    : result ChannelError Transaction :=
  '(tx, _) ← build_and_sign_closing c fee_sat;
  cp ← counterparty c;
  sighash ← funding_sighash c tx;
  _ ← fail_if (negb (verify_ecdsa sighash sig (funding_pubkey cp)))
        (Close "invalid closing signature");
  Ok tx.

Definition finalize_closing (fee_sat : Z) (their_sig : Signature) : chan Transaction :=
  '(tx, our_sig) ← reads_self (fun c => build_and_sign_closing c fee_sat);
  cp ← reads_self counterparty;
  holder ← gets (fun c => funding_pubkey (ch_holder_pubkeys c));
  tx ← reads_self (fun _ => set_witness0 tx
         (funding_spend_witness holder (funding_pubkey cp) our_sig their_sig));
  _ ← modify (fun c => c <| ch_closing_tx := Some tx |> <| ch_state := Closed |>);
  mret tx.

Definition closing_signed_msg (fee : Z) (range : option (Z * Z)) : chan ClosingSigned :=
  '(_, sig) ← reads_self (fun c => build_and_sign_closing c fee);
  channel_id ← gets ch_channel_id;
  mret {| cls_channel_id := channel_id; cls_fee_satoshis := fee; cls_signature := sig;
          cls_fee_range := (fun '(lo, hi) =>
            {| min_fee_satoshis := lo; max_fee_satoshis := hi |}) <$> range |}.

Definition maybe_send_closing_signed (target_feerate : Z) : chan (option ClosingSigned) :=
  ready ← gets ready_to_negotiate_close;
  if negb ready then mret None
  else
    skip ← gets (fun c => negb (bool_decide (ch_role c = Opener)) ||
      match ch_last_closing_fee_proposal c with Some _ => true | None => false end);
    if skip : bool then mret None
    else
      '(fee, min, max) ← reads_self (fun c => expect (closing_fee_bounds c target_feerate));
      '(_, sig) ← reads_self (fun c => build_and_sign_closing c fee);
      _ ← modify (fun c => c <| ch_state := NegotiatingClose |>
                             <| ch_last_closing_fee_proposal := Some fee |>);
      channel_id ← gets ch_channel_id;
      mret (Some {| cls_channel_id := channel_id; cls_fee_satoshis := fee; cls_signature := sig;
                    cls_fee_range := Some {| min_fee_satoshis := min; max_fee_satoshis := max |} |}).

(** [fee_range] present: pick inside the overlap. *)
Definition on_closing_range (msg : ClosingSigned) (our_fee our_min our_max : Z)
    (range : ClosingSignedFeeRange) : chan ClosingSignedOutcome :=
  let their_fee := cls_fee_satoshis msg in
  let lo := Z.max our_min (min_fee_satoshis range) in
  let hi := Z.min our_max (max_fee_satoshis range) in
  _ ← throw_if (fun _ => hi <? lo) (Ignore "no overlap between closing fee ranges");
  role ← gets ch_role;
  match role with
  | Opener =>
    _ ← throw_if (fun _ => (their_fee <? lo) || (hi <? their_fee))
          (Close "closing fee outside negotiated range");
    tx ← finalize_closing their_fee (cls_signature msg);
    reply ← closing_signed_msg their_fee (Some (our_min, our_max));
    _ ← modify (fun c => c <| ch_last_closing_fee_proposal := Some their_fee |>);
    mret (Reply reply (Some tx))
  | Accepter =>
    last ← gets ch_last_closing_fee_proposal;
    match last with
    | Some sent =>
      _ ← throw_if (fun _ => negb (their_fee =? sent))
            (Close "funder moved fee after our range proposal");
      tx ← finalize_closing their_fee (cls_signature msg);
      mret (Done tx)
    | None =>
      fee ← reads_self (fun _ => expect (clamp our_fee lo hi));
      _ ← modify (fun c => c <| ch_last_closing_fee_proposal := Some fee |>);
      if fee =? their_fee then
        tx ← finalize_closing fee (cls_signature msg);
        reply ← closing_signed_msg fee (Some (our_min, our_max));
        mret (Reply reply (Some tx))
      else
        reply ← closing_signed_msg fee (Some (our_min, our_max));
        mret (Reply reply None)
    end
  end.

(** The next legacy proposal. *)
Definition legacy_next (last : option Z) (our_fee their_fee : Z) : Z :=
  match last with
  | None => our_fee
  | Some sent =>
    if Z.abs (their_fee - sent) <=? 1 then their_fee else wrap 64 (their_fee + sent) / 2
  end.

Definition on_closing_legacy (msg : ClosingSigned) (our_fee : Z) : chan ClosingSignedOutcome :=
  let their_fee := cls_fee_satoshis msg in
  our_next ← gets (fun c => legacy_next (ch_last_closing_fee_proposal c) our_fee their_fee);
  _ ← modify (fun c => c <| ch_last_closing_fee_proposal := Some our_next |>);
  if our_next =? their_fee then
    tx ← finalize_closing their_fee (cls_signature msg);
    reply ← closing_signed_msg their_fee None;
    mret (Reply reply (Some tx))
  else
    reply ← closing_signed_msg our_next None;
    mret (Reply reply None).

Definition on_closing_signed (msg : ClosingSigned) (target_feerate : Z)
    : chan ClosingSignedOutcome :=
  _ ← throw_if (fun c => negb (ready_to_negotiate_close c))
        (Close "closing_signed before channel is quiescent");
  _ ← modify (fun c => c <| ch_state := NegotiatingClose |>);
  let their_fee := cls_fee_satoshis msg in
  _ ← reads_self (fun c => verify_their_closing_sig c their_fee (cls_signature msg));
  last ← gets ch_last_closing_fee_proposal;
  if bool_decide (Some their_fee = last) then
    tx ← finalize_closing their_fee (cls_signature msg);
    mret (Done tx)
  else
    '(our_fee, our_min, our_max) ←
      reads_self (fun c => expect (closing_fee_bounds c target_feerate));
    match cls_fee_range msg with
    | Some range => on_closing_range msg our_fee our_min our_max range
    | None => on_closing_legacy msg our_fee
    end.
End Close.
