(* ===== verification/Reestablish.v ===== *)
(** * Reestablish: reconnection (src/src/channel/reestablish.rs)

    Rollback of updates that never reached a signed commitment, and the
    retransmissions after [channel_reestablish]. *)
From S2P Require Import Prelude Secp Types Msgs Tx Shachain Keys Commitment Channel Dance.

Section Reestablish.
Context `{HS : Secp} {Sg : Type} `{HCS : !ChannelSigner Sg}.
Abbreviation Channel := (Channel (Sg := Sg)).
Abbreviation chan := (stm Channel ChannelError).

Record ReestablishActions := MkReestablishActions {
  ra_messages : list Message;
  ra_data_loss_detected : bool;
}.

(** ** on_disconnect *)
(** What the closure of [retain_mut] does to one HTLC: the HTLC kept (or
    [None]), the operations re-queued, the next counterparty id.  The
    [expect] on the source of an outbound HTLC panics. *)
Record Rollback := MkRollback {
  rb_htlcs : list Htlc;
  rb_requeue : list HoldingCellOp;
  rb_next_id : Z;
}.
#[export] Instance Rollback_eta : Eta Rollback := fun r =>
  MkRollback (rb_htlcs r) (rb_requeue r) (rb_next_id r).

Definition requeue_op (h : Htlc) : list HoldingCellOp :=
  match h_resolution h with
  | Some (Fulfill p) => [CellFulfill (h_id h) p]
  | Some (Fail r) => [CellFail (h_id h) r]
  | _ => []
  end.

Definition in_our_current (c : Channel) (h : Htlc) : bool :=
  match ch_current_holder_commitment c with
  | Some hc => existsb (fun x =>
      negb (offered x) && bool_decide (payment_hash x = h_payment_hash h) &&
      (amount_msat x =? h_amount_msat h) && (cltv_expiry x =? h_cltv_expiry h)) (hc_htlcs hc)
  | None => false
  end.

(** The part of the closure after the add that was never signed is dealt with. *)
Definition rollback_removals (in_flight_removed : list (bool * Z)) (h : Htlc)
    : Htlc * list HoldingCellOp :=
  if bool_decide (h_phase_counterparty h = Removing) &&
     negb (bool_decide ((h_outbound h, h_id h) ∈ in_flight_removed))
  then
    if negb (h_outbound h) then
      (h <| h_resolution := None |> <| h_phase_counterparty := Committed |>, requeue_op h)
    else
      (h <| h_resolution := None |> <| h_phase_counterparty := Committed |>
         <| h_phase_holder := Committed |>, [])
  else (h, []).

Definition rollback_htlc (c : Channel) (in_flight in_flight_removed : list (bool * Z))
    (r : Rollback) (h : Htlc) : result ChannelError Rollback :=
  let snapshotted := bool_decide ((h_outbound h, h_id h) ∈ in_flight) in
  if bool_decide (h_phase_counterparty h = Pending) && h_outbound h && negb snapshotted then
    source ← expect (h_source h);
    Ok (r <| rb_requeue := rb_requeue r ++
          [CellAdd (h_amount_msat h) (h_payment_hash h) (h_cltv_expiry h) (h_onion h) source] |>)
  else
    let h :=
      if bool_decide (h_phase_counterparty h = Pending) && negb (h_outbound h) && negb snapshotted
      then h <| h_phase_counterparty := NotYet |> else h in
    let '(h, ops) := rollback_removals in_flight_removed h in
    let r := r <| rb_requeue := rb_requeue r ++ ops |> in
    if negb (h_outbound h) && bool_decide (h_phase_holder h = Pending) &&
       negb (in_our_current c h)
    then Ok (r <| rb_next_id := Z.min (rb_next_id r) (h_id h) |>)
    else
      let h :=
        if h_outbound h && bool_decide (h_phase_holder h = Removing)
        then h <| h_resolution := None |> <| h_phase_holder := Committed |> else h in
      Ok (r <| rb_htlcs := rb_htlcs r ++ [h] |>).

Fixpoint rollback_all (c : Channel) (in_flight in_flight_removed : list (bool * Z))
    (r : Rollback) (hs : list Htlc) : result ChannelError Rollback :=
  match hs with
  | [] => Ok r
  | h :: hs =>
    r ← rollback_htlc c in_flight in_flight_removed r h;
    rollback_all c in_flight in_flight_removed r hs
  end.

Definition on_disconnect : chan unit :=
  in_flight ← gets (fun c => match ch_pending_counterparty_commitment c with
                             | Some p => pcc_included p | None => [] end);
  in_flight_removed ← gets (fun c => match ch_pending_counterparty_commitment c with
                                     | Some p => pcc_removed p | None => [] end);
  r ← reads_self (fun c => rollback_all c in_flight in_flight_removed
        (MkRollback [] [] (ch_next_counterparty_htlc_id c)) (ch_htlcs c));
  modify (fun c =>
    let c := c <| ch_htlcs := rb_htlcs r |>
               <| ch_next_counterparty_htlc_id := rb_next_id r |>
               <| ch_holding_cell := rb_requeue r ++ ch_holding_cell c |> in
    match ch_pending_fee_ack c with
    | Some _ => c <| ch_pending_fee_ack := None |> <| ch_feerate_holder := ch_feerate_counterparty c |>
    | None => c
    end).

(** ** channel_reestablish *)
Definition make_channel_reestablish (c : Channel) : result ChannelError ChannelReestablish :=
  let next_revocation_number := ch_counterparty_commitment_number c in
  let secret :=
    if next_revocation_number =? 0 then replicate 32 0
    else default (replicate 32 0)
      (secret_for (ch_counterparty_secrets c)
         (index_for_commitment (wrap 64 (next_revocation_number - 1)))) in
  point ← expect (per_commitment_point (ch_signer c) (ch_holder_commitment_number c));
  Ok {| re_channel_id := ch_channel_id c;
        re_next_commitment_number := wrap 64 (ch_holder_commitment_number c + 1);
        re_next_revocation_number := next_revocation_number;
        re_your_last_per_commitment_secret := secret;
        re_my_current_per_commitment_point := point |}.

(** What the first part of [on_channel_reestablish] decides. *)
Inductive RevocationView : Type :=
  | SendRaa (msg : RevokeAndAck)
  | InSync
  | DataLoss.

Definition revocation_view (c : Channel) (msg : ChannelReestablish)
    : result ChannelError RevocationView :=
  let ours := ch_holder_commitment_number c in
  if (re_next_revocation_number msg =? sat_sub ours 1) && (0 <? ours) then
    let revoked := wrap 64 (ours - 1) in
    point ← expect (per_commitment_point (ch_signer c) (wrap 64 (ours + 1)));
    Ok (SendRaa {| raa_channel_id := ch_channel_id c;
                   raa_per_commitment_secret := release_commitment_secret (ch_signer c) revoked;
                   raa_next_per_commitment_point := point |})
  else if ours <? re_next_revocation_number msg then Ok DataLoss
  else if negb (re_next_revocation_number msg =? ours) then
    Err (Close "peer requests an ancient revocation; unrecoverable")
  else Ok InSync.

(** Validate their proof of our last released secret. *)
Definition check_last_secret (c : Channel) (msg : ChannelReestablish) : result ChannelError unit :=
  if 0 <? re_next_revocation_number msg then
    let expected := release_commitment_secret (ch_signer c)
      (wrap 64 (re_next_revocation_number msg - 1)) in
    fail_if (negb (bool_decide (re_your_last_per_commitment_secret msg = expected)))
      (Close "peer presented incorrect last per-commitment secret")
  else
    fail_if (negb (bool_decide (re_your_last_per_commitment_secret msg = replicate 32 0)))
      (Close "peer presented a secret before any revocation").

Definition add_msg (c : Channel) (h : Htlc) : Message :=
  MUpdateAddHtlc {| add_channel_id := ch_channel_id c; add_id := h_id h;
    add_amount_msat := h_amount_msat h; add_payment_hash := h_payment_hash h;
    add_cltv_expiry := h_cltv_expiry h; add_onion_routing_packet := h_onion h |}.

Definition removal_msg (c : Channel) (h : Htlc) : list Message :=
  match h_resolution h with
  | Some (Fulfill p) =>
    [MUpdateFulfillHtlc {| ful_channel_id := ch_channel_id c; ful_id := h_id h;
                           ful_payment_preimage := p |}]
  | Some (Fail r) =>
    [MUpdateFailHtlc {| fail_channel_id := ch_channel_id c; fail_id := h_id h;
                        fail_reason := r |}]
  | Some (FailMalformed sha code) =>
    [MUpdateFailMalformedHtlc {| mal_channel_id := ch_channel_id c; mal_id := h_id h;
                                 mal_sha256_of_onion := sha; mal_failure_code := code |}]
  | None => []
  end.

(** [find] each listed HTLC of one direction. *)
Definition find_all (c : Channel) (outbound : bool) (keys : list (bool * Z)) : list Htlc :=
  omap (fun '(o, id) => if Bool.eqb o outbound then List.find (is_htlc o id) (ch_htlcs c) else None)
    keys.

(** The updates of the in-flight commitment, then the commitment itself,
    signed again. *)
Definition retransmit (c : Channel) : result ChannelError (list Message) :=
  pending ← expect (ch_pending_counterparty_commitment c);
  let adds := sort_by (fun a b => h_id a <=? h_id b) (find_all c true (pcc_included pending)) in
  let removals := find_all c false (pcc_removed pending) in
  let fee := match pcc_fee_update pending with
             | Some fee => [MUpdateFee {| fee_channel_id := ch_channel_id c;
                                          fee_feerate_per_kw := fee |}]
             | None => []
             end in
  let number := wrap 64 (ch_counterparty_commitment_number c + 1) in
  point ← ok_or (ch_counterparty_next_point c) (InvalidState "missing next point on reestablish");
  '(built, keys, htlcs) ← build_counterparty_commitment_at c number point;
  signature ← sign_counterparty_commitment_tx c built;
  htlc_signatures ← sign_htlcs c built keys htlcs point;
  Ok (map (add_msg c) adds ++ concat (map (removal_msg c) removals) ++ fee ++
      [MCommitmentSigned {| cs_channel_id := ch_channel_id c; cs_signature := signature;
                            cs_htlc_signatures := htlc_signatures |}]).

(** The second part: their proof of our last secret, then what they miss of
    our commitments; [messages] are the ones queued so far. *)
Definition reestablish_commitments (c : Channel) (msg : ChannelReestablish)
    (messages : list Message) : result ChannelError ReestablishActions :=
  _ ← check_last_secret c msg;
  let our_last_sent :=
    wrap 64 (ch_counterparty_commitment_number c + (if ch_awaiting_raa c then 1 else 0)) in
  let next := re_next_commitment_number msg in
  r ← (if (next =? our_last_sent) && ch_awaiting_raa c then
         more ← retransmit c; Ok (Some (messages ++ more))
       else if next =? wrap 64 (our_last_sent + 1) then Ok (Some messages)
       else if wrap 64 (our_last_sent + 1) <? next then Ok None
       else Err (Close "peer expects an ancient commitment; unrecoverable"));
  match r with
  | None => Ok (MkReestablishActions messages true)
  | Some messages =>
    if (next =? 1) && (ch_holder_commitment_number c =? 0) && ch_channel_ready_sent c then
      point ← expect (per_commitment_point (ch_signer c) 1);
      Ok (MkReestablishActions
        (MChannelReady {| cr_channel_id := ch_channel_id c;
                          cr_second_per_commitment_point := point;
                          cr_short_channel_id_alias := None |} :: messages) false)
    else Ok (MkReestablishActions messages false)
  end.

Definition on_channel_reestablish (c : Channel) (msg : ChannelReestablish)
    : result ChannelError ReestablishActions :=
  view ← revocation_view c msg;
  match view with
  | DataLoss => Ok (MkReestablishActions [] true)
  | SendRaa raa => reestablish_commitments c msg [MRevokeAndAck raa]
  | InSync => reestablish_commitments c msg []
  end.
End Reestablish.
