(* ===== verification/Ledger.v ===== *)
(** * Ledger: who owes what, on a list of HTLCs

    The two balances of a commitment are the base balances moved by the HTLCs
    of the list, in list order and with saturating subtraction.  This file
    holds, on plain lists of HTLCs, the life cycle of an HTLC, the exact
    (unsaturated) effect of an HTLC at each level of agreement, and the
    invariant [ledger] that keeps every prefix of every level solvent, with
    the moves of the protocol: proposing, signing, revoking, locking in,
    rolling back. *)
From stdpp Require Import sorting.
From S2P Require Import Prelude Types Channel Dance.

(** ** Keys and snapshots *)
Definition key (h : Htlc) : bool * Z := (h_outbound h, h_id h).

(** The HTLCs a commitment of ours in flight includes and removes. *)
Definition snapshot : Type := option (list (bool * Z) * list (bool * Z)).
Definition snap_included (p : snapshot) : list (bool * Z) :=
  match p with Some (i, _) => i | None => [] end.
Definition snap_removed (p : snapshot) : list (bool * Z) :=
  match p with Some (_, r) => r | None => [] end.
Definition inc (p : snapshot) (h : Htlc) : bool := bool_decide (key h ∈ snap_included p).
Definition rem (p : snapshot) (h : Htlc) : bool := bool_decide (key h ∈ snap_removed p).

(** ** The life of an HTLC

    (phase on our commitment, phase on theirs, resolved?) *)
Definition resolved (h : Htlc) : bool :=
  match h_resolution h with Some _ => true | None => false end.
Definition fulfilled (h : Htlc) : bool :=
  match h_resolution h with Some (Fulfill _) => true | _ => false end.

Definition stage_ok (h : Htlc) : bool :=
  match h_outbound h, h_phase_holder h, h_phase_counterparty h, resolved h with
  | true, NotYet, Pending, false | true, Pending, Committed, false
  | true, Committed, Committed, false | true, Removing, Committed, true
  | true, Gone, Removing, true => true
  | false, Pending, NotYet, false | false, Committed, NotYet, false
  | false, Committed, Pending, false | false, Committed, Committed, false
  | false, Committed, Removing, true | false, Removing, Gone, true => true
  | _, _, _, _ => false
  end.

(** ** Levels

    What an HTLC does to our balance (its amount is taken by our adds, given
    by our fulfills) when only some of the updates count: [own_all] all we
    have proposed, [own_sig p] what is signed in the snapshot [p] or already
    revoked to, so [own_sig None] what our own commitment may contain;
    [own_locked] is what we owe for adds that are in a commitment of ours. *)
Definition own_all (h : Htlc) : Z :=
  if h_outbound h then
    if credited (h_phase_counterparty h) && negb (fulfilled h) then 0 else - h_amount_msat h
  else if credited (h_phase_counterparty h) && fulfilled h then h_amount_msat h else 0.

Definition own_sigb (i r : bool) (h : Htlc) : Z :=
  if h_outbound h then
    if bool_decide (h_phase_counterparty h = Removing) && r && negb (fulfilled h) then 0
    else if bool_decide (h_phase_holder h = NotYet) && negb i then 0
    else - h_amount_msat h
  else if (bool_decide (h_phase_counterparty h = Gone) ||
           bool_decide (h_phase_counterparty h = Removing) && r) && fulfilled h
  then h_amount_msat h else 0.
Definition own_sig (p : snapshot) (h : Htlc) : Z := own_sigb (inc p h) (rem p h) h.

Definition own_locked (h : Htlc) : Z :=
  if h_outbound h &&
     negb (bool_decide (h_phase_holder h = NotYet) || bool_decide (h_phase_holder h = Pending))
  then h_amount_msat h else 0.

(** The same for the peer's balance: [peer_all] all it has proposed,
    [peer_acked] what is in our commitment, [peer_sig p] what the snapshot
    signs or they have revoked to. *)
Definition peer_all (h : Htlc) : Z :=
  if h_outbound h then
    if credited (h_phase_holder h) && fulfilled h then h_amount_msat h else 0
  else if credited (h_phase_holder h) && negb (fulfilled h) then 0 else - h_amount_msat h.

Definition peer_acked (h : Htlc) : Z :=
  if h_outbound h then
    if bool_decide (h_phase_holder h = Gone) && fulfilled h then h_amount_msat h else 0
  else if bool_decide (h_phase_holder h = Pending) then 0 else - h_amount_msat h.

Definition peer_sigb (i r : bool) (h : Htlc) : Z :=
  if h_outbound h then
    if bool_decide (h_phase_counterparty h = Removing) && r && fulfilled h
    then h_amount_msat h else 0
  else match h_phase_counterparty h with
       | NotYet => 0
       | Pending => if i then - h_amount_msat h else 0
       | _ => - h_amount_msat h
       end.
Definition peer_sig (p : snapshot) (h : Htlc) : Z := peer_sigb (inc p h) (rem p h) h.

Definition peer_locked (h : Htlc) : Z :=
  if h_outbound h then 0
  else match h_phase_counterparty h with NotYet | Pending => 0 | _ => h_amount_msat h end.

(** How far an add has come; along the list it never increases. *)
Definition own_rank (h : Htlc) : Z :=
  match h_phase_holder h with NotYet => 0 | Pending => 1 | _ => 2 end.
Definition peer_rankb (i : bool) (h : Htlc) : Z :=
  match h_phase_counterparty h with
  | NotYet => if bool_decide (h_phase_holder h = Pending) then 0 else 1
  | Pending => if i then 3 else 2
  | _ => 4
  end.
Definition peer_rank (p : snapshot) (h : Htlc) : Z := peer_rankb (inc p h) h.

Definition own_before (x y : Htlc) : Prop :=
  h_outbound x = true -> h_outbound y = true -> own_rank y <= own_rank x.
Definition peer_before (p : snapshot) (x y : Htlc) : Prop :=
  h_outbound x = false -> h_outbound y = false -> peer_rank p y <= peer_rank p x.

(** ** Solvency of prefixes *)
Definition total (f : Htlc -> Z) (hs : list Htlc) : Z := zsum (map f hs).

(** Every prefix leaves at least what the rest of the list may still take. *)
Fixpoint mixed (f w : Htlc -> Z) (b : Z) (hs : list Htlc) : Prop :=
  match hs with
  | [] => 0 <= b
  | h :: t => total w (h :: t) <= b /\ mixed f w (b + f h) t
  end.
Definition covered (f : Htlc -> Z) : Z -> list Htlc -> Prop := mixed f (fun _ => 0).

Lemma total_cons f h t : total f (h :: t) = f h + total f t.
Proof. reflexivity. Qed.
Lemma total_app f l l' : total f (l ++ l') = total f l + total f l'.
Proof. unfold total. by rewrite map_app, zsum_app. Qed.
Lemma total_0 hs : total (fun _ => 0) hs = 0.
Proof. induction hs as [|h t IH]; [done|]. rewrite total_cons, IH. done. Qed.
Lemma total_le f g hs : Forall (fun h => f h <= g h) hs -> total f hs <= total g hs.
Proof. apply zsum_le. Qed.
Lemma total_nonneg f hs : Forall (fun h => 0 <= f h) hs -> 0 <= total f hs.
Proof. intros H. rewrite <- (total_0 hs). by apply total_le. Qed.

Lemma mixed_base f w b b' hs : b <= b' -> mixed f w b hs -> mixed f w b' hs.
Proof.
  revert b b'; induction hs as [|h t IH]; intros b b' Hb; cbn [mixed]; [lia|].
  intros [H1 H2]. split; [lia|]. eapply IH; [|exact H2]. lia.
Qed.

Lemma mixed_locked f w b hs : mixed f w b hs -> total w hs <= b.
Proof. destruct hs; cbn [mixed]; [by unfold total; cbn|]. by intros [? _]. Qed.

Lemma mixed_total f w b hs : mixed f w b hs -> 0 <= b + total f hs.
Proof.
  revert b; induction hs as [|h t IH]; intros b; cbn [mixed]; [unfold total; cbn; lia|].
  intros [_ H%IH]. rewrite total_cons. lia.
Qed.

Lemma covered_total f b hs : covered f b hs -> 0 <= b + total f hs.
Proof. apply mixed_total. Qed.
Lemma covered_base f b hs : covered f b hs -> 0 <= b.
Proof. intros H%mixed_locked. by rewrite total_0 in H. Qed.

Lemma covered_snoc f b hs h :
  covered f b (hs ++ [h]) <-> covered f b hs /\ 0 <= b + total f hs + f h.
Proof.
  unfold covered. revert b; induction hs as [|x t IH]; intros b; cbn [app mixed].
  - unfold total. cbn. split; [intros []; lia|intros []; lia].
  - rewrite IH, !total_cons, !total_0.
    split; [intros (H1 & H2 & H3)|intros ((H1 & H2) & H3)]; repeat split; try done; try lia.
Qed.

(** A pass over the list that changes or drops HTLCs; the dropped ones move
    the base by [d]. *)
Lemma mixed_omap (f w f' w' d : Htlc -> Z) (phi : Htlc -> option Htlc) b hs :
  mixed f w b hs ->
  Forall (fun h => match phi h with
    | Some h' => f h <= f' h' /\ w' h' <= w h /\ d h = 0
    | None => f h <= d h /\ - w h <= d h
    end) hs ->
  mixed f' w' (b + total d hs) (omap phi hs).
Proof.
  intros Hm Hall. revert b Hm. induction Hall as [|h t Hh Ht IH]; intros b; cbn [mixed omap list_omap].
  { unfold total. cbn. lia. }
  intros [Hw Hm].
  assert (Hlock : total w' (omap phi t) <= total w t + total d t).
  { clear -Ht. induction Ht as [|x t Hx _ IH]; [done|]. cbn [omap list_omap]. rewrite !total_cons.
    destruct (phi x); [rewrite total_cons; lia|lia]. }
  rewrite total_cons in *. specialize (IH _ Hm). destruct (phi h) as [h'|].
  - destruct Hh as (Hf & Hw' & Hd). cbn [mixed]. rewrite total_cons. split; [lia|].
    eapply mixed_base; [|exact IH]. lia.
  - eapply mixed_base; [|exact IH]. lia.
Qed.

Lemma covered_omap (f f' d : Htlc -> Z) (phi : Htlc -> option Htlc) b hs :
  covered f b hs ->
  Forall (fun h => match phi h with
    | Some h' => f h <= f' h' /\ d h = 0
    | None => f h <= d h /\ 0 <= d h
    end) hs ->
  covered f' (b + total d hs) (omap phi hs).
Proof.
  intros Hc Hall. eapply mixed_omap; [exact Hc|]. eapply Forall_impl; [exact Hall|].
  intros h. cbn. destruct (phi h); lia.
Qed.

Lemma total_omap (f' d : Htlc -> Z) (g : Htlc -> Z) (phi : Htlc -> option Htlc) hs :
  Forall (fun h => match phi h with Some h' => g h <= f' h' + d h | None => g h <= d h end) hs ->
  total g hs <= total f' (omap phi hs) + total d hs.
Proof.
  induction 1 as [|h t Hh _ IH]; [done|]. cbn [omap list_omap]. rewrite !total_cons.
  destruct (phi h); rewrite ?total_cons; lia.
Qed.

(** Solvent prefixes and locked amounts, when the adds that are locked come
    first. *)
Lemma mixed_intro f w (R : Htlc -> Htlc -> Prop) b hs :
  covered f b hs -> total w hs <= b -> StronglySorted R hs ->
  Forall (fun h => 0 <= w h) hs ->
  (forall x y, x ∈ hs -> y ∈ hs -> R x y -> w y <> 0 -> 0 <= f x + w x) ->
  mixed f w b hs.
Proof.
  intros Hc Hw Hs Hpos Hfw. revert b Hc Hw.
  induction Hs as [|h t Hs IH Hh]; intros b Hc Hw; [done|].
  destruct Hc as [_ Hc]. cbn [mixed]. split; [done|]. rewrite total_cons in Hw.
  assert (Hpt : 0 <= total w t) by (apply total_nonneg; by inversion Hpos).
  apply IH; [by inversion Hpos| |exact Hc|].
  { intros x y Hx Hy. apply Hfw; by right. }
  destruct (decide (total w t = 0)) as [Hz|Hnz].
  - rewrite Hz. apply covered_base in Hc. lia.
  - assert (Hex : exists y, y ∈ t /\ w y <> 0).
    { clear -Hnz. induction t as [|y t IH]; [done|]. rewrite total_cons in Hnz.
      destruct (decide (w y = 0)); [|exists y; split; [by left|done]].
      destruct IH as (z & Hz & Hwz); [lia|]. exists z. split; [by right|done]. }
    destruct Hex as (y & Hy & Hwy). rewrite Forall_forall in Hh.
    assert (0 <= f h + w h); [|lia].
    apply (Hfw h y); [by left|by right|by apply Hh|done].
Qed.

(** ** Passes keep keys and order *)
Lemma sorted_snoc {A} (R : A -> A -> Prop) l x :
  StronglySorted R l -> Forall (fun y => R y x) l -> StronglySorted R (l ++ [x]).
Proof.
  induction 1 as [|y l Hs IH Hy]; intros Hall; cbn; [by repeat constructor|].
  inversion Hall; subst. constructor; [auto|]. apply Forall_app. auto.
Qed.

Lemma sorted_omap {A B} (R : A -> A -> Prop) (R' : B -> B -> Prop) (phi : A -> option B) l :
  StronglySorted R l ->
  (forall x y x' y', x ∈ l -> y ∈ l -> R x y -> phi x = Some x' -> phi y = Some y' -> R' x' y') ->
  StronglySorted R' (omap phi l).
Proof.
  induction 1 as [|x l Hs IH Hx]; intros Hphi; cbn [omap list_omap]; [constructor|].
  assert (Hl : StronglySorted R' (omap phi l)).
  { apply IH. intros ? ? ? ? ? ?. apply Hphi; by right. }
  destruct (phi x) as [x'|] eqn:E; [|done]. constructor; [done|].
  apply Forall_forall. intros y' (y & Hy & Ey)%list_elem_of_omap.
  rewrite Forall_forall in Hx. apply (Hphi x y); [by left|by right|by apply Hx|done|done].
Qed.

Lemma keys_omap_in (phi : Htlc -> option Htlc) hs k :
  (forall h h', h ∈ hs -> phi h = Some h' -> key h' = key h) ->
  k ∈ map key (omap phi hs) -> k ∈ map key hs.
Proof.
  intros Hphi (h' & -> & (h & Hh & E)%list_elem_of_omap)%list_elem_of_fmap.
  rewrite (Hphi h h' Hh E). apply list_elem_of_fmap. eauto.
Qed.

Lemma keys_omap (phi : Htlc -> option Htlc) hs :
  (forall h h', h ∈ hs -> phi h = Some h' -> key h' = key h) ->
  NoDup (map key hs) -> NoDup (map key (omap phi hs)).
Proof.
  induction hs as [|h t IH]; intros Hphi Hnd; [done|].
  cbn [map] in Hnd. apply NoDup_cons in Hnd as [Hn Hnd]. cbn [omap list_omap].
  assert (Ht : forall h h', h ∈ t -> phi h = Some h' -> key h' = key h)
    by (intros ? ? ?; apply Hphi; by right).
  destruct (phi h) as [h'|] eqn:E; [|by apply IH]. cbn [map]. apply NoDup_cons.
  split; [|by apply IH]. rewrite (Hphi h h'); [|by left|done].
  contradict Hn. by apply keys_omap_in in Hn.
Qed.

(** ** The invariant *)
Record snap_ok (p : snapshot) (hs : list Htlc) : Prop := {
  so_inc : forall h, h ∈ hs -> inc p h = true -> h_phase_counterparty h = Pending;
  so_rem : forall h, h ∈ hs -> rem p h = true -> h_phase_counterparty h = Removing;
  so_keys : forall k, k ∈ snap_included p \/ k ∈ snap_removed p -> k ∈ map key hs;
  so_all : p <> None -> forall h, h ∈ hs ->
    (h_outbound h = true -> h_phase_holder h = NotYet -> inc p h = true) /\
    (h_outbound h = false -> h_phase_counterparty h = Removing -> rem p h = true);
}.

Record ledger (T bh bc nh nc : Z) (p : snapshot) (hs : list Htlc) : Prop := {
  lg_total : bh + bc = T;
  lg_stage : forall h, h ∈ hs -> stage_ok h = true /\ 0 <= h_amount_msat h;
  lg_keys : NoDup (map key hs);
  lg_fresh : forall h, h ∈ hs -> h_id h < (if h_outbound h then nh else nc);
  lg_new : forall h h', h ∈ hs -> h' ∈ hs -> h_outbound h = false -> h_outbound h' = false ->
    h_phase_holder h = Pending -> h_phase_holder h' <> Pending -> h_id h' < h_id h;
  lg_snap : snap_ok p hs;
  lg_own_all : covered own_all bh hs;
  lg_own_sig : covered (own_sig p) bh hs;
  lg_own_rev : covered (own_sig None) bh hs;
  lg_own_locked : total own_locked hs <= bh;
  lg_peer_all : covered peer_all bc hs;
  lg_peer_acked : covered peer_acked bc hs;
  lg_peer_sig : 0 <= bc + total (peer_sig p) hs;
  lg_peer_rev : 0 <= bc + total (peer_sig None) hs;
  lg_own_order : StronglySorted own_before hs;
  lg_peer_order : StronglySorted (peer_before p) hs;
}.

Arguments lg_total {_ _ _ _ _ _ _} _.
Arguments lg_stage {_ _ _ _ _ _ _} _.
Arguments lg_keys {_ _ _ _ _ _ _} _.
Arguments lg_fresh {_ _ _ _ _ _ _} _.
Arguments lg_new {_ _ _ _ _ _ _} _.
Arguments lg_snap {_ _ _ _ _ _ _} _.
Arguments lg_own_all {_ _ _ _ _ _ _} _.
Arguments lg_own_sig {_ _ _ _ _ _ _} _.
Arguments lg_own_rev {_ _ _ _ _ _ _} _.
Arguments lg_own_locked {_ _ _ _ _ _ _} _.
Arguments lg_peer_all {_ _ _ _ _ _ _} _.
Arguments lg_peer_acked {_ _ _ _ _ _ _} _.
Arguments lg_peer_sig {_ _ _ _ _ _ _} _.
Arguments lg_peer_rev {_ _ _ _ _ _ _} _.
Arguments lg_own_order {_ _ _ _ _ _ _} _.
Arguments lg_peer_order {_ _ _ _ _ _ _} _.
Arguments so_inc {_ _} _.
Arguments so_rem {_ _} _.
Arguments so_keys {_ _} _.
Arguments so_all {_ _} _.

Lemma inc_key p h h' : key h' = key h -> inc p h' = inc p h.
Proof. unfold inc. by intros ->. Qed.
Lemma rem_key p h h' : key h' = key h -> rem p h' = rem p h.
Proof. unfold rem. by intros ->. Qed.
Lemma inc_None h : inc None h = false.
Proof. unfold inc. cbn. apply bool_decide_eq_false. apply not_elem_of_nil. Qed.
Lemma rem_None h : rem None h = false.
Proof. unfold rem. cbn. apply bool_decide_eq_false. apply not_elem_of_nil. Qed.

(** What collecting a dead HTLC adds to our base balance. *)
Definition settle (h : Htlc) : Z :=
  if fulfilled h then (if h_outbound h then - h_amount_msat h else h_amount_msat h) else 0.

(** Evaluate comparisons of phases. *)
Ltac red_phases :=
  cbv beta iota zeta delta [andb orb negb fst h_outbound h_id h_amount_msat h_resolution
    h_phase_holder h_phase_counterparty].
Ltac eval_phases :=
  red_phases;
  repeat (
    match goal with
    | |- context [bool_decide (@eq HtlcPhase ?x ?y)] =>
      let b := eval vm_compute in (bool_decide (x = y)) in
      match b with true => idtac | false => idtac end;
      change (bool_decide (@eq HtlcPhase x y)) with b
    end; red_phases).

(** Case analysis on the stage of one HTLC, of which [Hs] is the stage. *)
Ltac stage_split h Hs :=
  let o := fresh "o" in let hp := fresh "hp" in let cp := fresh "cp" in let re := fresh "re" in
  destruct h as [o ? ? ? ? ? ? re hp cp ?];
  cbv [stage_ok resolved h_outbound h_phase_holder h_phase_counterparty h_resolution] in Hs;
  destruct o, hp, cp, re as [[]|]; try discriminate Hs.

(** Unfold the levels of the HTLCs at hand. *)
Ltac stage_levels :=
  cbv [stage_ok resolved fulfilled own_all own_sigb own_locked peer_all peer_acked peer_sigb
       peer_locked own_rank peer_rankb key included credited settle
       h_outbound h_id h_amount_msat h_resolution h_phase_holder h_phase_counterparty] in *;
  eval_phases.
Ltac stage_cases h Hs := stage_split h Hs; stage_levels.

(** Run a pass on a concrete HTLC. *)
Ltac run_pass t :=
  let x := eval vm_compute in t in change t with x; cbv beta iota.

(** ** Locking in: the pass of [on_commitment_signed] *)
Definition lock_pass (h : Htlc) : option Htlc :=
  let h' := (ack_counterparty (lock_holder h)).1 in if gone_both h' then None else Some h'.
Definition lock_gain (h : Htlc) : Z :=
  match lock_pass h with None => settle h | Some _ => 0 end.

Lemma lock_elem i r h :
  stage_ok h = true -> 0 <= h_amount_msat h ->
  (i = true -> h_phase_counterparty h = Pending) ->
  (r = true -> h_phase_counterparty h = Removing) ->
  match lock_pass h with
  | Some h' =>
    (key h' = key h /\ h_amount_msat h' = h_amount_msat h /\ stage_ok h' = true /\
     (h_outbound h = false -> h_phase_holder h' <> Pending) /\
     (i = true -> h_phase_counterparty h' = Pending) /\
     (r = true -> h_phase_counterparty h' = Removing) /\
     (h_outbound h = true -> h_phase_holder h' = NotYet -> h_phase_holder h = NotYet) /\
     (h_outbound h = false -> h_phase_counterparty h' = Removing ->
        h_phase_counterparty h = Removing) /\
     (h_outbound h = true -> own_rank h' = if own_rank h =? 0 then 0 else 2) /\
     (h_outbound h = false -> peer_rankb i h' = Z.max 2 (peer_rankb i h))) /\
    own_all h <= own_all h' /\ own_sigb i r h <= own_sigb i r h' /\
    own_sigb false false h <= own_sigb false false h' /\
    own_locked h' <= - own_sigb false false h /\
    peer_all h <= peer_all h' /\ peer_all h <= peer_acked h' /\ peer_locked h' = peer_locked h /\
    peer_sigb i r h <= peer_sigb i r h' /\ peer_sigb false false h <= peer_sigb false false h'
  | None => h_outbound h = false /\ i = false /\ r = false /\
    own_all h <= settle h /\ own_sigb i r h <= settle h /\ own_sigb false false h <= settle h /\
    0 <= settle h /\ peer_all h <= - settle h /\ settle h <= peer_locked h /\
    peer_sigb i r h <= - settle h /\ peer_sigb false false h <= - settle h
  end.
Proof.
  intros Hs Ha Hi Hr. stage_split h Hs; destruct i, r;
    try (discriminate (Hi eq_refl)); try (discriminate (Hr eq_refl));
    match goal with |- context [lock_pass ?h] => run_pass (lock_pass h) end;
    stage_levels; repeat split; first [done|lia|idtac].
Qed.

(** The locked amounts of the peer are what [peer_sig None] counts. *)
Lemma peer_sig_None h : stage_ok h = true -> peer_sig None h = - peer_locked h.
Proof.
  unfold peer_sig. rewrite inc_None, rem_None. intros Hs. stage_cases h Hs; lia.
Qed.

(** What precedes a locked add is locked. *)
Lemma own_mono i r x y :
  stage_ok x = true -> stage_ok y = true -> 0 <= h_amount_msat x -> own_before x y ->
  own_locked y <> 0 ->
  0 <= own_all x + own_locked x /\ 0 <= own_sigb i r x + own_locked x.
Proof.
  intros Hx Hy Ha Hb Hl.
  assert (Hr : h_outbound x = true -> 2 <= own_rank x).
  { intros Hox. assert (Hy' : h_outbound y = true /\ own_rank y = 2).
    { clear -Hy Hl. revert Hl. stage_cases y Hy; done. }
    destruct Hy' as [Hoy Hry]. specialize (Hb Hox Hoy). lia. }
  clear -Hx Ha Hr. stage_cases x Hx; destruct i, r; eval_phases; try lia;
    exfalso; by specialize (Hr eq_refl).
Qed.

Lemma peer_mono p x y :
  stage_ok x = true -> stage_ok y = true -> 0 <= h_amount_msat x -> peer_before p x y ->
  peer_locked y <> 0 -> 0 <= peer_all x + peer_locked x.
Proof.
  intros Hx Hy Ha Hb Hl. unfold peer_before, peer_rank in Hb.
  assert (Hr : h_outbound x = false -> 4 <= peer_rankb (inc p x) x).
  { intros Hox. assert (Hy' : h_outbound y = false /\ peer_rankb (inc p y) y = 4).
    { clear -Hy Hl. generalize (inc p y). intros b. revert Hl. stage_cases y Hy; done. }
    destruct Hy' as [Hoy Hry]. specialize (Hb Hox Hoy). lia. }
  clear -Hx Ha Hr. revert Hr. generalize (inc p x). intros b Hr.
  revert Hr. stage_cases x Hx; intros Hr; try lia; exfalso; specialize (Hr eq_refl);
    destruct b; lia.
Qed.

Lemma locked_nonneg h : 0 <= h_amount_msat h -> 0 <= own_locked h /\ 0 <= peer_locked h.
Proof. unfold own_locked, peer_locked. intros. split; repeat case_match; lia. Qed.

(** ** Revoking: the pass of [on_revoke_and_ack] *)
Definition revoke_passb (i r : bool) (h : Htlc) : option Htlc :=
  let h1 := if i then lock_included (h_outbound h) h else h in
  let h2 := if r then lock_removed (h_outbound h) h1 else h1 in
  if gone_both h2 then None else Some h2.

Lemma revoke_elem i r h :
  stage_ok h = true -> 0 <= h_amount_msat h ->
  (i = true -> h_phase_counterparty h = Pending) ->
  (r = true -> h_phase_counterparty h = Removing) ->
  (h_outbound h = true -> h_phase_holder h = NotYet -> i = true) ->
  (h_outbound h = false -> h_phase_counterparty h = Removing -> r = true) ->
  match revoke_passb i r h with
  | Some h' =>
    (key h' = key h /\ h_amount_msat h' = h_amount_msat h /\ stage_ok h' = true /\
     (h_outbound h = false -> h_phase_holder h' = Pending -> h_phase_holder h = Pending) /\
     (h_outbound h = false -> h_phase_holder h = Pending -> h_phase_holder h' = Pending) /\
     (h_outbound h = true -> own_rank h' = Z.max 1 (own_rank h)) /\
     (h_outbound h = false ->
        peer_rankb false h' = if 3 <=? peer_rankb i h then 4 else peer_rankb i h)) /\
    own_all h <= own_all h' /\ own_sigb i r h <= own_sigb false false h' /\
    own_locked h' = own_locked h /\ peer_all h <= peer_all h' /\ peer_acked h <= peer_acked h' /\
    peer_sigb i r h <= peer_sigb false false h'
  | None => h_outbound h = true /\
    own_all h <= settle h /\ own_sigb i r h <= settle h /\ - own_locked h <= settle h /\
    settle h <= 0 /\ peer_all h <= - settle h /\ peer_acked h <= - settle h /\
    peer_sigb i r h <= - settle h
  end.
Proof.
  intros Hs Ha Hi Hr Ho Hn. stage_split h Hs; destruct i, r;
    try (discriminate (Hi eq_refl)); try (discriminate (Hr eq_refl));
    try (discriminate (Ho eq_refl eq_refl)); try (discriminate (Hn eq_refl eq_refl));
    match goal with |- context [revoke_passb ?i ?r ?h] => run_pass (revoke_passb i r h) end;
    stage_levels; repeat split; first [done|lia|idtac].
Qed.

(** ** Signing: a snapshot of everything proposed *)
Lemma sign_elem h :
  stage_ok h = true -> 0 <= h_amount_msat h ->
  let i := bool_decide (h_phase_counterparty h = Pending) in
  let r := bool_decide (h_phase_counterparty h = Removing) in
  own_all h <= own_sigb i r h /\ peer_acked h <= peer_sigb i r h /\
  (h_outbound h = false ->
     peer_rankb i h = if peer_rankb false h =? 2 then 3 else peer_rankb false h).
Proof.
  intros Hs Ha. cbv zeta. stage_cases h Hs; repeat split; first [done|lia|idtac].
Qed.

(** ** Rolling back: the pass of [on_disconnect], when every removal of an
    outbound HTLC is in the snapshot and no pending inbound HTLC is kept *)
Definition rollback_passb (i r : bool) (h : Htlc) : option Htlc :=
  if bool_decide (h_phase_counterparty h = Pending) && h_outbound h && negb i then None
  else
    let h := if bool_decide (h_phase_counterparty h = Pending) && negb (h_outbound h) && negb i
             then h <| h_phase_counterparty := NotYet |> else h in
    let h :=
      if bool_decide (h_phase_counterparty h = Removing) && negb r then
        if negb (h_outbound h)
        then h <| h_resolution := None |> <| h_phase_counterparty := Committed |>
        else h <| h_resolution := None |> <| h_phase_counterparty := Committed |>
               <| h_phase_holder := Committed |>
      else h in
    if negb (h_outbound h) && bool_decide (h_phase_holder h = Pending) then None
    else Some (if h_outbound h && bool_decide (h_phase_holder h = Removing)
               then h <| h_resolution := None |> <| h_phase_holder := Committed |> else h).

Lemma rollback_elem (aw i r : bool) h :
  stage_ok h = true -> 0 <= h_amount_msat h ->
  (i = true -> h_phase_counterparty h = Pending) ->
  (r = true -> h_phase_counterparty h = Removing) ->
  (aw = true -> h_outbound h = true -> h_phase_holder h = NotYet -> i = true) ->
  (aw = true -> h_outbound h = false -> h_phase_counterparty h = Removing -> r = true) ->
  (aw = false -> i = false /\ r = false) ->
  (h_outbound h = true -> h_phase_counterparty h = Removing -> r = true) ->
  match rollback_passb i r h with
  | Some h' =>
    (key h' = key h /\ h_amount_msat h' = h_amount_msat h /\ stage_ok h' = true /\
     (h_outbound h = false -> h_phase_holder h <> Pending /\ h_phase_holder h' <> Pending) /\
     (i = true -> h_phase_counterparty h' = Pending) /\
     (r = true -> h_phase_counterparty h' = Removing) /\
     (h_outbound h = true -> h_phase_holder h' = NotYet -> h_phase_holder h = NotYet) /\
     (h_outbound h = false -> h_phase_counterparty h' = Removing ->
        h_phase_counterparty h = Removing) /\
     (h_outbound h = true -> own_rank h' = own_rank h) /\
     (h_outbound h = false ->
        peer_rankb i h' = if peer_rankb i h =? 2 then 1 else peer_rankb i h)) /\
    (if aw then own_all h else own_sigb false false h) <= own_all h' /\
    own_sigb i r h <= own_sigb i r h' /\ own_sigb false false h <= own_sigb false false h' /\
    own_locked h' = own_locked h /\ peer_acked h <= peer_all h' /\ peer_acked h <= peer_acked h' /\
    peer_sigb i r h <= peer_sigb i r h' /\ peer_sigb false false h <= peer_sigb false false h'
  | None => (h_outbound h = false -> h_phase_holder h = Pending) /\ i = false /\ r = false /\
    (if aw then own_all h else own_sigb false false h) <= 0 /\
    own_sigb i r h <= 0 /\ own_sigb false false h <= 0 /\ own_locked h = 0 /\
    peer_acked h <= 0 /\ peer_sigb i r h <= 0 /\ peer_sigb false false h <= 0
  end.
Proof.
  intros Hs Ha Hi Hr Ho Hn Haw Hcl. stage_split h Hs; destruct aw, i, r;
    try (discriminate (Hi eq_refl)); try (discriminate (Hr eq_refl));
    try (discriminate (Ho eq_refl eq_refl eq_refl)); try (discriminate (Hn eq_refl eq_refl eq_refl));
    try (discriminate (Hcl eq_refl eq_refl)); try (destruct (Haw eq_refl); discriminate);
    match goal with |- context [rollback_passb ?i ?r ?h] => run_pass (rollback_passb i r h) end;
    stage_levels; repeat split; first [done|lia|idtac].
Qed.
