(* ===== verification/Moves.v ===== *)
(** * Moves: the protocol's moves keep the ledger solvent

    Each move of the commitment dance on the list of HTLCs, from one [ledger]
    to the next. *)
From stdpp Require Import sorting.
From S2P Require Import Prelude Types Channel Dance Ledger.

Lemma total_opp f hs : total (fun h => - f h) hs = - total f hs.
Proof. induction hs as [|h t IH]; [done|]. rewrite !total_cons, IH. lia. Qed.

Lemma total_ext f g hs : (forall h, h ∈ hs -> f h = g h) -> total f hs = total g hs.
Proof.
  induction hs as [|h t IH]; intros H; [done|]. rewrite !total_cons, IH.
  - rewrite (H h); [done|by left].
  - intros x Hx. apply H. by right.
Qed.

Lemma covered_ext f g b hs : (forall h, h ∈ hs -> f h = g h) -> covered f b hs -> covered g b hs.
Proof.
  unfold covered. revert b; induction hs as [|h t IH]; intros b H; cbn [mixed]; [done|].
  rewrite (H h) by by left. intros [H1 H2]. split; [done|]. apply IH; [|done].
  intros x Hx. apply H. by right.
Qed.

Lemma mixed_covered f w b hs : Forall (fun h => 0 <= w h) hs -> mixed f w b hs -> covered f b hs.
Proof.
  unfold covered. intros Hw. revert b. induction Hw as [|h t Hh Ht IH]; intros b; cbn [mixed]; [done|].
  intros [H1 H2]. split; [|by apply IH]. rewrite total_0.
  rewrite total_cons in H1. pose proof (total_nonneg w t Ht). lia.
Qed.

Lemma omap_id (hs : list Htlc) : omap Some hs = hs.
Proof. induction hs as [|h t IH]; [done|]. cbn. by rewrite IH. Qed.

Section Moves.
Context (T bh bc nh nc : Z) (p : snapshot) (hs : list Htlc).
Hypothesis L : ledger T bh bc nh nc p hs.

Lemma stage_of h : h ∈ hs -> stage_ok h = true /\ 0 <= h_amount_msat h.
Proof. apply (lg_stage L). Qed.

Lemma own_sig_None h : own_sig None h = own_sigb false false h.
Proof. unfold own_sig. by rewrite inc_None, rem_None. Qed.
Lemma peer_sig_Noneb h : peer_sig None h = peer_sigb false false h.
Proof. unfold peer_sig. by rewrite inc_None, rem_None. Qed.

Lemma peer_locked_le : total peer_locked hs <= bc.
Proof.
  pose proof (lg_peer_rev L) as H.
  rewrite (total_ext _ (fun h => - peer_locked h)), total_opp in H; [lia|].
  intros h Hh. by apply peer_sig_None, stage_of.
Qed.

Lemma mixed_own f :
  (f = own_all \/ exists i r, f = fun h => own_sigb (i h) (r h) h) -> covered f bh hs ->
  mixed f own_locked bh hs.
Proof.
  intros Hf Hc. apply (mixed_intro f own_locked own_before); [done|apply L|apply L| |].
  - apply Forall_forall. intros h Hh. by apply locked_nonneg, stage_of.
  - intros x y Hx Hy Hb Hl. destruct (stage_of x Hx), (stage_of y Hy).
    destruct Hf as [->|(i & r & ->)].
    + by apply (own_mono true true x y).
    + by apply (own_mono (i x) (r x) x y).
Qed.

Lemma mixed_peer : mixed peer_all peer_locked bc hs.
Proof.
  apply (mixed_intro peer_all peer_locked (peer_before p)); [apply L|apply peer_locked_le|apply L| |].
  - apply Forall_forall. intros h Hh. by apply locked_nonneg, stage_of.
  - intros x y Hx Hy Hb Hl. destruct (stage_of x Hx), (stage_of y Hy).
    by apply (peer_mono p x y).
Qed.

(** ** Passes: order and snapshot *)
Lemma own_order_pass (pass : Htlc -> option Htlc) (g : Z -> Z) :
  (forall a b, a <= b -> g a <= g b) ->
  (forall h h', h ∈ hs -> pass h = Some h' ->
     key h' = key h /\ (h_outbound h = true -> own_rank h' = g (own_rank h))) ->
  StronglySorted own_before (omap pass hs).
Proof.
  intros Hg Hpass. eapply sorted_omap; [apply (lg_own_order L)|].
  intros x y x' y' Hx Hy Hb Ex Ey Ho Ho'.
  destruct (Hpass x x' Hx Ex) as [[= Kx _] Rx], (Hpass y y' Hy Ey) as [[= Ky _] Ry].
  rewrite Kx in Ho. rewrite Ky in Ho'. rewrite (Rx Ho), (Ry Ho'). by apply Hg, Hb.
Qed.

Lemma peer_order_pass p' (pass : Htlc -> option Htlc) (g : Z -> Z) :
  (forall a b, a <= b -> g a <= g b) ->
  (forall h h', h ∈ hs -> pass h = Some h' ->
     key h' = key h /\ (h_outbound h = false -> peer_rank p' h' = g (peer_rank p h))) ->
  StronglySorted (peer_before p') (omap pass hs).
Proof.
  intros Hg Hpass. eapply sorted_omap; [apply (lg_peer_order L)|].
  intros x y x' y' Hx Hy Hb Ex Ey Ho Ho'.
  destruct (Hpass x x' Hx Ex) as [[= Kx _] Rx], (Hpass y y' Hy Ey) as [[= Ky _] Ry].
  rewrite Kx in Ho. rewrite Ky in Ho'. rewrite (Rx Ho), (Ry Ho'). by apply Hg, Hb.
Qed.

Lemma snap_pass (pass : Htlc -> option Htlc) :
  (forall h, h ∈ hs -> match pass h with
    | Some h' => key h' = key h /\
       (inc p h = true -> h_phase_counterparty h' = Pending) /\
       (rem p h = true -> h_phase_counterparty h' = Removing) /\
       (h_outbound h = true -> h_phase_holder h' = NotYet -> h_phase_holder h = NotYet) /\
       (h_outbound h = false -> h_phase_counterparty h' = Removing ->
          h_phase_counterparty h = Removing)
    | None => inc p h = false /\ rem p h = false
    end) -> snap_ok p (omap pass hs).
Proof.
  intros Hpass.
  assert (Hkept : forall h', h' ∈ omap pass hs -> exists h, h ∈ hs /\ pass h = Some h')
    by (intros h' (h & Hh & E)%list_elem_of_omap; eauto).
  split.
  - intros h' (h & Hh & E)%Hkept Hi. specialize (Hpass h Hh). rewrite E in Hpass.
    destruct Hpass as (Hk & Hinc & _). apply Hinc. by rewrite <- (inc_key p _ _ Hk).
  - intros h' (h & Hh & E)%Hkept Hi. specialize (Hpass h Hh). rewrite E in Hpass.
    destruct Hpass as (Hk & _ & Hrem & _). apply Hrem. by rewrite <- (rem_key p _ _ Hk).
  - intros k Hk. destruct (proj1 (list_elem_of_fmap key hs k) (so_keys (lg_snap L) k Hk)) as (h & -> & Hh).
    specialize (Hpass h Hh). destruct (pass h) as [h'|] eqn:E.
    + destruct Hpass as [Hkey _]. rewrite <- Hkey. apply list_elem_of_fmap. exists h'. split; [done|].
      apply list_elem_of_omap. eauto.
    + destruct Hpass as [Hi Hr]. unfold inc, rem in *.
      rewrite bool_decide_eq_false in Hi, Hr. tauto.
  - intros Hp h' (h & Hh & E)%Hkept. specialize (Hpass h Hh). rewrite E in Hpass.
    destruct Hpass as (Hk & _ & _ & Hn & Hr). destruct (so_all (lg_snap L) Hp h Hh) as [H1 H2].
    rewrite (inc_key p _ _ Hk), (rem_key p _ _ Hk). injection Hk as Hk _. rewrite Hk.
    split; intros; [apply H1|apply H2]; auto.
Qed.

(** ** Locking in *)
Definition lock_facts h (Hh : h ∈ hs) :=
  lock_elem (inc p h) (rem p h) h (proj1 (stage_of h Hh)) (proj2 (stage_of h Hh))
    (so_inc (lg_snap L) h Hh) (so_rem (lg_snap L) h Hh).

Lemma lock_kept h h' : h ∈ hs -> lock_pass h = Some h' -> key h' = key h.
Proof. intros Hh E. pose proof (lock_facts h Hh) as H. rewrite E in H. apply H. Qed.

(** Prove a pointwise condition of a pass from its facts. *)
Ltac pointwise facts pass :=
  let h := fresh "h" in let Hh := fresh "Hh" in let F := fresh "F" in let E := fresh "E" in
  apply Forall_forall; intros h Hh; pose proof (facts h Hh) as F;
  unfold own_sig, peer_sig, lock_gain;
  destruct (pass h) eqn:E; rewrite ?inc_None, ?rem_None;
  [ destruct F as [(Hk & Ham & ?) F]; rewrite ?(inc_key p _ _ Hk), ?(rem_key p _ _ Hk) | ];
  lia.

Lemma lock_stage h' : h' ∈ omap lock_pass hs -> stage_ok h' = true /\ 0 <= h_amount_msat h'.
Proof.
  intros (h & Hh & E)%list_elem_of_omap. pose proof (lock_facts h Hh) as F. rewrite E in F.
  destruct F as [(_ & -> & -> & _) _]. split; [done|]. by apply stage_of.
Qed.

Lemma move_lock :
  ledger T (bh + total lock_gain hs) (bc - total lock_gain hs) nh nc p (omap lock_pass hs).
Proof.
  pose proof lock_stage as Hst'.
  assert (Hpos : Forall (fun h => 0 <= peer_locked h) (omap lock_pass hs)).
  { apply Forall_forall. intros h' Hh'. by apply locked_nonneg, Hst'. }
  set (g := total lock_gain hs).
  assert (Hopp : bc - g = bc + total (fun h => - lock_gain h) hs) by (rewrite total_opp; unfold g; lia).
  split.
  - pose proof (lg_total L). lia.
  - apply Hst'.
  - apply keys_omap; [apply lock_kept|apply L].
  - intros h' (h & Hh & E)%list_elem_of_omap. pose proof (lock_kept h h' Hh E) as [= -> ->].
    by apply (lg_fresh L).
  - intros h1 h2 (h & Hh & E)%list_elem_of_omap _ Ho _ Hp _. exfalso.
    pose proof (lock_facts h Hh) as F. rewrite E in F. destruct F as [(Hk & _ & _ & Hn & _) _].
    injection Hk as Hk _. apply Hn; congruence.
  - apply snap_pass. intros h Hh. pose proof (lock_facts h Hh) as F.
    destruct (lock_pass h); [destruct F as [F _]|]; tauto.
  - eapply covered_omap; [apply (lg_own_all L)|]. pointwise lock_facts lock_pass.
  - eapply covered_omap; [apply (lg_own_sig L)|]. pointwise lock_facts lock_pass.
  - eapply covered_omap; [apply (lg_own_rev L)|]. pointwise lock_facts lock_pass.
  - assert (H : total (own_sig None) hs <=
      total (fun h => - own_locked h) (omap lock_pass hs) + total lock_gain hs)
      by (apply total_omap; pointwise lock_facts lock_pass).
    rewrite total_opp in H. pose proof (covered_total _ _ _ (lg_own_rev L)). unfold g. lia.
  - rewrite Hopp. apply (mixed_covered _ peer_locked); [done|].
    eapply mixed_omap; [apply mixed_peer|]. pointwise lock_facts lock_pass.
  - rewrite Hopp. apply (mixed_covered _ peer_locked); [done|].
    eapply mixed_omap; [apply mixed_peer|]. pointwise lock_facts lock_pass.
  - assert (H : total (peer_sig p) hs <=
      total (peer_sig p) (omap lock_pass hs) + total (fun h => - lock_gain h) hs)
      by (apply total_omap; pointwise lock_facts lock_pass).
    pose proof (lg_peer_sig L). lia.
  - assert (H : total (peer_sig None) hs <=
      total (peer_sig None) (omap lock_pass hs) + total (fun h => - lock_gain h) hs)
      by (apply total_omap; pointwise lock_facts lock_pass).
    pose proof (lg_peer_rev L). lia.
  - apply (own_order_pass _ (fun z => if z =? 0 then 0 else if z <? 0 then z else 2)).
    { intros. repeat case_match; lia. }
    intros h h' Hh E. pose proof (lock_facts h Hh) as F. rewrite E in F. destruct F as [F _].
    split; [apply F|]. intros Ho. assert (0 <= own_rank h) by (unfold own_rank; destruct (h_phase_holder h); lia).
    destruct F as (_ & _ & _ & _ & _ & _ & _ & _ & -> & _); [|done].
    destruct (own_rank h =? 0); [done|]. destruct (Z.ltb_spec (own_rank h) 0); [lia|done].
  - apply (peer_order_pass _ _ (Z.max 2)); [lia|].
    intros h h' Hh E. pose proof (lock_facts h Hh) as F. rewrite E in F. destruct F as [F _].
    split; [apply F|]. intros Ho. unfold peer_rank.
    rewrite (inc_key p h h') by apply F. by apply F.
Qed.

(** ** Revoking *)
Definition revoke_pass (h : Htlc) : option Htlc := revoke_passb (inc p h) (rem p h) h.
Definition revoke_gain (h : Htlc) : Z :=
  match revoke_pass h with None => settle h | Some _ => 0 end.

Section Revoke.
Hypothesis Hp : p <> None.

Definition revoke_facts h (Hh : h ∈ hs) :=
  revoke_elem (inc p h) (rem p h) h (proj1 (stage_of h Hh)) (proj2 (stage_of h Hh))
    (so_inc (lg_snap L) h Hh) (so_rem (lg_snap L) h Hh)
    (proj1 (so_all (lg_snap L) Hp h Hh)) (proj2 (so_all (lg_snap L) Hp h Hh)).

Ltac pointwise_revoke :=
  let h := fresh "h" in let Hh := fresh "Hh" in let F := fresh "F" in let E := fresh "E" in
  apply Forall_forall; intros h Hh; pose proof (revoke_facts h Hh) as F;
  fold (revoke_pass h) in F; unfold own_sig, peer_sig, revoke_gain;
  destruct (revoke_pass h) eqn:E; rewrite ?inc_None, ?rem_None;
  [ destruct F as [(Hk & Ham & ?) F] | ]; lia.

Lemma revoke_stage h' : h' ∈ omap revoke_pass hs ->
  stage_ok h' = true /\ 0 <= h_amount_msat h' /\ exists h, h ∈ hs /\ revoke_pass h = Some h' /\
    key h' = key h /\ (h_outbound h = false -> h_phase_holder h' = Pending <-> h_phase_holder h = Pending).
Proof.
  intros (h & Hh & E)%list_elem_of_omap. pose proof (revoke_facts h Hh) as F.
  fold (revoke_pass h) in F. rewrite E in F.
  destruct F as [(Hk & -> & -> & H1 & H2 & _) _]. split; [done|]. split; [by apply stage_of|].
  exists h. split; [done|]. split; [done|]. split; [done|]. split; auto.
Qed.

Lemma move_revoke :
  ledger T (bh + total revoke_gain hs) (bc - total revoke_gain hs) nh nc None (omap revoke_pass hs).
Proof.
  set (g := total revoke_gain hs).
  assert (Hopp : bc - g = bc + total (fun h => - revoke_gain h) hs) by (rewrite total_opp; unfold g; lia).
  assert (Hpos : Forall (fun h => 0 <= own_locked h) (omap revoke_pass hs)).
  { apply Forall_forall. intros h' (_ & Ha & _)%revoke_stage. by apply locked_nonneg. }
  assert (Hsig : covered (own_sig None) (bh + g) (omap revoke_pass hs)).
  { apply (mixed_covered _ own_locked); [done|].
    eapply mixed_omap; [apply (mixed_own (own_sig p)); [|apply (lg_own_sig L)]|pointwise_revoke].
    right. by exists (inc p), (rem p). }
  assert (Hrev : 0 <= bc - g + total (peer_sig None) (omap revoke_pass hs)).
  { assert (H : total (peer_sig p) hs <=
      total (peer_sig None) (omap revoke_pass hs) + total (fun h => - revoke_gain h) hs)
      by (apply total_omap; pointwise_revoke).
    pose proof (lg_peer_sig L). lia. }
  split; try done.
  - pose proof (lg_total L). lia.
  - intros h' Hh'. destruct (revoke_stage h' Hh') as (? & ? & _). done.
  - apply keys_omap; [|apply L]. intros h h' Hh E. pose proof (revoke_facts h Hh) as F.
    fold (revoke_pass h) in F. rewrite E in F. apply F.
  - intros h' (_ & _ & h & Hh & _ & [= -> ->] & _)%revoke_stage. by apply (lg_fresh L).
  - intros h1' h2' (_ & _ & h1 & Hh1 & _ & [= -> ->] & H1)%revoke_stage
      (_ & _ & h2 & Hh2 & _ & [= -> ->] & H2)%revoke_stage Ho1 Ho2 Hp1 Hp2.
    apply (lg_new L h1 h2 Hh1 Hh2 Ho1 Ho2); [by apply H1|]. by rewrite <- (H2 Ho2).
  - split; [intros h _; by rewrite inc_None|intros h _; by rewrite rem_None| |done].
    intros k [H|H]; by apply not_elem_of_nil in H.
  - apply (mixed_covered _ own_locked); [done|].
    eapply mixed_omap; [apply (mixed_own own_all); [by left|apply (lg_own_all L)]|pointwise_revoke].
  - assert (H : total (fun h => - own_locked h) hs <=
      total (fun h => - own_locked h) (omap revoke_pass hs) + total revoke_gain hs)
      by (apply total_omap; pointwise_revoke).
    rewrite !total_opp in H. pose proof (lg_own_locked L). unfold g. lia.
  - rewrite Hopp. eapply covered_omap; [apply (lg_peer_all L)|pointwise_revoke].
  - rewrite Hopp. eapply covered_omap; [apply (lg_peer_acked L)|pointwise_revoke].
  - apply (own_order_pass _ (Z.max 1)); [lia|]. intros h h' Hh E. pose proof (revoke_facts h Hh) as F.
    fold (revoke_pass h) in F. rewrite E in F. split; apply F.
  - apply (peer_order_pass _ _ (fun z => if 3 <=? z then Z.max 4 z else z)).
    { intros. repeat case_match; lia. }
    intros h h' Hh E. pose proof (revoke_facts h Hh) as F.
    fold (revoke_pass h) in F. rewrite E in F. split; [apply F|]. intros Ho. unfold peer_rank.
    rewrite inc_None. destruct F as [(_ & _ & _ & _ & _ & _ & ->) _]; [|done].
    assert (peer_rankb (inc p h) h <= 4)
      by (unfold peer_rankb; destruct (h_phase_counterparty h), (inc p h); try case_match; lia).
    case_match; lia.
Qed.
End Revoke.

(** ** Signing *)
Definition keys_at (phase : HtlcPhase) : list (bool * Z) :=
  map key (List.filter (fun h => bool_decide (h_phase_counterparty h = phase)) hs).

Lemma keys_at_in h phase : h ∈ hs ->
  bool_decide (key h ∈ keys_at phase) = bool_decide (h_phase_counterparty h = phase).
Proof.
  intros Hh. apply bool_decide_ext. unfold keys_at. rewrite list_elem_of_fmap. split.
  - intros (h' & Hk & Hh'). apply list_elem_of_In, filter_In in Hh' as [Hin Hph].
    apply list_elem_of_In in Hin. apply bool_decide_eq_true in Hph.
    assert (h = h') as ->; [|done].
    pose proof (lg_keys L) as Hnd.
    apply list_elem_of_lookup in Hh as [i Hi], Hin as [j Hj].
    assert (i = j) as ->; [|congruence].
    apply (NoDup_lookup _ i j (key h) Hnd);
      change (map key hs) with (key <$> hs); rewrite list_lookup_fmap; [by rewrite Hi|by rewrite Hj; cbn; rewrite Hk].
  - intros Hph. exists h. split; [done|]. apply list_elem_of_In, filter_In.
    split; [by apply list_elem_of_In|]. by apply bool_decide_eq_true.
Qed.

Definition signed_snapshot : snapshot := Some (keys_at Pending, keys_at Removing).

Lemma move_sign : p = None -> ledger T bh bc nh nc signed_snapshot hs.
Proof.
  intros Hp.
  assert (Hi : forall h, h ∈ hs -> inc signed_snapshot h = bool_decide (h_phase_counterparty h = Pending))
    by (intros; by apply keys_at_in).
  assert (Hr : forall h, h ∈ hs -> rem signed_snapshot h = bool_decide (h_phase_counterparty h = Removing))
    by (intros; by apply keys_at_in).
  assert (F : forall h, h ∈ hs -> own_all h <= own_sig signed_snapshot h /\
    peer_acked h <= peer_sig signed_snapshot h /\ (h_outbound h = false ->
      peer_rank signed_snapshot h = if peer_rank p h =? 2 then 3 else peer_rank p h)).
  { intros h Hh. unfold own_sig, peer_sig, peer_rank. rewrite (Hi h Hh), (Hr h Hh), Hp, inc_None.
    destruct (stage_of h Hh) as [Hs Ha]. apply (sign_elem h Hs Ha). }
  split; try apply L.
  - split.
    + intros h Hh. rewrite (Hi h Hh). apply bool_decide_eq_true.
    + intros h Hh. rewrite (Hr h Hh). apply bool_decide_eq_true.
    + cbn. unfold keys_at. intros k [H|H]; apply list_elem_of_fmap in H as (h & -> & H);
        apply list_elem_of_In, filter_In in H as [H _]; apply list_elem_of_In in H;
        apply list_elem_of_fmap; eauto.
    + intros _ h Hh. rewrite (Hi h Hh), (Hr h Hh). split; intros Ho Hn; apply bool_decide_eq_true; [|done].
      destruct (stage_of h Hh) as [Hs _]. clear -Hs Ho Hn. unfold stage_ok in Hs. rewrite Ho, Hn in Hs.
      by destruct (h_phase_counterparty h).
  - assert (H : covered (own_sig signed_snapshot) (bh + total (fun _ => 0) hs) (omap Some hs)).
    { eapply covered_omap; [apply (lg_own_all L)|]. apply Forall_forall. intros h Hh.
      split; [apply (F h Hh)|done]. }
    by rewrite total_0, Z.add_0_r, omap_id in H.
  - pose proof (covered_total _ _ _ (lg_peer_acked L)).
    assert (total peer_acked hs <= total (peer_sig signed_snapshot) hs); [|lia].
    apply total_le, Forall_forall. intros h Hh. apply (F h Hh).
  - rewrite <- (omap_id hs).
    apply (peer_order_pass _ _ (fun z => if z =? 2 then 3 else z)).
    { intros. repeat case_match; lia. }
    intros h h' Hh [= <-]. split; [done|]. apply (F h Hh).
Qed.

(** ** Rolling back *)
Definition rollback_pass (h : Htlc) : option Htlc := rollback_passb (inc p h) (rem p h) h.
Definition awaiting : bool := match p with Some _ => true | None => false end.

Section Rollback.
Hypothesis Hclean : forall h, h ∈ hs -> h_outbound h = true ->
  h_phase_counterparty h = Removing -> rem p h = true.

Lemma rollback_facts h : h ∈ hs ->
  ltac:(let t := type of (rollback_elem awaiting (inc p h) (rem p h) h) in
        match t with _ -> _ -> _ -> _ -> _ -> _ -> _ -> _ -> ?G => exact G end).
Proof.
  intros Hh. apply rollback_elem.
  - by apply stage_of.
  - by apply stage_of.
  - by apply (so_inc (lg_snap L)).
  - by apply (so_rem (lg_snap L)).
  - intros Ha. apply (so_all (lg_snap L)); [|done]. unfold awaiting in Ha. by destruct p.
  - intros Ha. apply (so_all (lg_snap L)); [|done]. unfold awaiting in Ha. by destruct p.
  - unfold awaiting. intros Ha. destruct p; [done|]. by rewrite inc_None, rem_None.
  - by apply Hclean.
Qed.

Lemma rollback_kept h' : h' ∈ omap rollback_pass hs ->
  stage_ok h' = true /\ 0 <= h_amount_msat h' /\
  (h_outbound h' = false -> h_phase_holder h' <> Pending) /\
  exists h, h ∈ hs /\ rollback_pass h = Some h' /\ key h' = key h /\
    (h_outbound h = false -> h_phase_holder h <> Pending).
Proof.
  intros (h & Hh & E)%list_elem_of_omap. pose proof (rollback_facts h Hh) as F.
  fold (rollback_pass h) in F. rewrite E in F. destruct F as [(Hk & -> & -> & Hn & _) _].
  pose proof Hk as [= Hko _]. rewrite Hko. split; [done|]. split; [by apply stage_of|].
  split; [apply Hn|]. exists h. split; [done|]. split; [done|]. split; [done|]. apply Hn.
Qed.

Ltac pointwise_rollback :=
  let h := fresh "h" in let Hh := fresh "Hh" in let F := fresh "F" in let E := fresh "E" in
  apply Forall_forall; intros h Hh; pose proof (rollback_facts h Hh) as F;
  fold (rollback_pass h) in F; unfold own_sig, peer_sig;
  destruct (rollback_pass h) eqn:E; rewrite ?inc_None, ?rem_None;
  [ destruct F as [(Hk & Ham & ?) F]; rewrite ?(inc_key p _ _ Hk), ?(rem_key p _ _ Hk)
  | destruct F as (_ & _ & _ & F) ];
  try match goal with H : awaiting = _ |- _ => rewrite H in F end; lia.

Lemma rollback_covered f f' b :
  covered f b hs ->
  Forall (fun h => match rollback_pass h with Some h' => f h <= f' h' | None => f h <= 0 end) hs ->
  covered f' b (omap rollback_pass hs).
Proof.
  intros Hc Hf. rewrite <- (Z.add_0_r b), <- (total_0 hs). eapply covered_omap; [exact Hc|].
  eapply Forall_impl; [exact Hf|]. intros h. cbn. destruct (rollback_pass h); lia.
Qed.

Lemma rollback_total f f' b :
  0 <= b + total f hs ->
  Forall (fun h => match rollback_pass h with Some h' => f h <= f' h' | None => f h <= 0 end) hs ->
  0 <= b + total f' (omap rollback_pass hs).
Proof.
  intros Hc Hf. assert (total f hs <= total f' (omap rollback_pass hs) + total (fun _ => 0) hs).
  { apply total_omap. eapply Forall_impl; [exact Hf|]. intros h. cbn. destruct (rollback_pass h); lia. }
  rewrite total_0 in *. lia.
Qed.

Lemma move_rollback nc' :
  nc' = nc \/ (exists h, h ∈ hs /\ h_outbound h = false /\ h_phase_holder h = Pending /\ h_id h = nc') ->
  ledger T bh bc nh nc' p (omap rollback_pass hs).
Proof.
  intros Hnc. split; try apply L.
  - intros h' Hh'. destruct (rollback_kept h' Hh') as (? & ? & _). done.
  - apply keys_omap; [|apply L]. intros h h' Hh E. pose proof (rollback_facts h Hh) as F.
    fold (rollback_pass h) in F. rewrite E in F. apply F.
  - intros h' (_ & _ & _ & h & Hh & _ & [= -> ->] & Hn)%rollback_kept.
    pose proof (lg_fresh L h Hh) as Hf. destruct (h_outbound h) eqn:Ho; [done|].
    destruct Hnc as [->|(x & Hx & Hox & Hpx & <-)]; [done|].
    apply (lg_new L x h); auto.
  - intros h1 h2 (_ & _ & Hn & _)%rollback_kept _ Ho _ Hpend. by destruct (Hn Ho).
  - apply snap_pass. intros h Hh. pose proof (rollback_facts h Hh) as F.
    fold (rollback_pass h) in F. destruct (rollback_pass h); [destruct F as [F _]|]; tauto.
  - destruct awaiting eqn:Haw.
    + eapply rollback_covered; [apply (lg_own_all L)|pointwise_rollback].
    + eapply rollback_covered; [apply (lg_own_rev L)|pointwise_rollback].
  - eapply rollback_covered; [apply (lg_own_sig L)|pointwise_rollback].
  - eapply rollback_covered; [apply (lg_own_rev L)|pointwise_rollback].
  - assert (H : 0 <= bh + total (fun h => - own_locked h) (omap rollback_pass hs)).
    { eapply (rollback_total (fun h => - own_locked h)); [|pointwise_rollback].
      rewrite total_opp. pose proof (lg_own_locked L). lia. }
    rewrite total_opp in H. lia.
  - eapply rollback_covered; [apply (lg_peer_acked L)|pointwise_rollback].
  - eapply rollback_covered; [apply (lg_peer_acked L)|pointwise_rollback].
  - eapply rollback_total; [apply (lg_peer_sig L)|pointwise_rollback].
  - eapply rollback_total; [apply (lg_peer_rev L)|pointwise_rollback].
  - apply (own_order_pass _ (fun z => z)); [done|]. intros h h' Hh E. pose proof (rollback_facts h Hh) as F.
    fold (rollback_pass h) in F. rewrite E in F. split; apply F.
  - apply (peer_order_pass _ _ (fun z => if z =? 2 then 1 else z)).
    { intros. repeat case_match; lia. }
    intros h h' Hh E. pose proof (rollback_facts h Hh) as F.
    fold (rollback_pass h) in F. rewrite E in F. split; [apply F|]. intros Ho. unfold peer_rank.
    rewrite (inc_key p h h') by apply F. by apply F.
Qed.
End Rollback.

(** ** Adding *)
(** A new HTLC at the end of the list: ours (nothing in flight) or the peer's. *)
Definition is_new (h : Htlc) : Prop :=
  h_resolution h = None /\
  (if h_outbound h then h_phase_holder h = NotYet /\ h_phase_counterparty h = Pending /\ p = None
   else h_phase_holder h = Pending /\ h_phase_counterparty h = NotYet).

Lemma new_facts h : is_new h -> 0 <= h_amount_msat h -> inc p h = false -> rem p h = false ->
  stage_ok h = true /\ own_sig p h = 0 /\ own_sig None h = 0 /\ own_locked h = 0 /\
  peer_acked h = 0 /\ peer_sig p h = 0 /\ peer_sig None h = 0 /\
  own_all h = (if h_outbound h then - h_amount_msat h else 0) /\
  peer_all h = (if h_outbound h then 0 else - h_amount_msat h) /\
  (h_outbound h = true -> own_rank h = 0) /\ (h_outbound h = false -> peer_rank p h = 0).
Proof.
  intros [Hr Hn] Ha Hi Hm. unfold own_sig, peer_sig, peer_rank. rewrite Hi, Hm, inc_None, rem_None.
  destruct h as [[] ? ? ? ? ? ? re hp cp ?]; cbn in Hr, Hn; subst re; destruct_conj; subst;
    stage_levels; repeat split; try done.
Qed.

Lemma rank_nonneg h : 0 <= own_rank h /\ 0 <= peer_rank p h.
Proof.
  unfold own_rank, peer_rank, peer_rankb. split; [destruct (h_phase_holder h); lia|].
  destruct (h_phase_counterparty h); repeat case_match; lia.
Qed.

Lemma fresh_key h : h_id h = (if h_outbound h then nh else nc) ->
  (key h ∉ map key hs) /\ inc p h = false /\ rem p h = false.
Proof.
  intros Hid. assert (Hk : key h ∉ map key hs).
  { intros (h' & Hk & Hh')%list_elem_of_fmap. pose proof (lg_fresh L h' Hh') as Hf.
    injection Hk as Ho Hi. rewrite <- Ho, <- Hi, Hid in Hf. lia. }
  split; [done|]. unfold inc, rem. rewrite !bool_decide_eq_false.
  split; intros H; apply Hk, (so_keys (lg_snap L)); auto.
Qed.

Lemma move_add h nh' nc' :
  is_new h -> 0 <= h_amount_msat h -> h_id h = (if h_outbound h then nh else nc) ->
  nh' = (if h_outbound h then nh + 1 else nh) -> nc' = (if h_outbound h then nc else nc + 1) ->
  h_amount_msat h <= (if h_outbound h then bh + total own_all hs else bc + total peer_all hs) ->
  ledger T bh bc nh' nc' p (hs ++ [h]).
Proof.
  intros Hnew Ha Hid Hnh Hnc Hbal. destruct (fresh_key h Hid) as (Hk & Hi & Hm).
  destruct (new_facts h Hnew Ha Hi Hm) as (Hst & E1 & E2 & E3 & E4 & E5 & E6 & E7 & E8 & R1 & R2).
  pose proof (covered_total _ _ _ (lg_own_all L)). pose proof (covered_total _ _ _ (lg_peer_all L)).
  pose proof (covered_total _ _ _ (lg_own_sig L)). pose proof (covered_total _ _ _ (lg_own_rev L)).
  pose proof (covered_total _ _ _ (lg_peer_acked L)).
  assert (Hone : forall f, total f [h] = f h) by (intros f; unfold total; cbn; lia).
  split; try apply L.
  - intros x [Hx|[= ->]%list_elem_of_singleton]%elem_of_app; [by apply stage_of|done].
  - rewrite map_app. apply NoDup_app. split; [apply L|]. split; [|apply NoDup_singleton].
    intros k Hk1 [= ->]%list_elem_of_singleton. done.
  - intros x [Hx|[= ->]%list_elem_of_singleton]%elem_of_app.
    + pose proof (lg_fresh L x Hx). destruct (h_outbound h), (h_outbound x); lia.
    + destruct (h_outbound h); lia.
  - intros x y [Hx|[= ->]%list_elem_of_singleton]%elem_of_app
      [Hy|[= ->]%list_elem_of_singleton]%elem_of_app Hox Hoy Hpx Hpy.
    + by apply (lg_new L).
    + exfalso. destruct Hnew as [_ Hnew]. rewrite Hoy in Hnew. tauto.
    + pose proof (lg_fresh L y Hy) as Hf. rewrite Hoy in Hf. rewrite Hox in Hid. lia.
    + done.
  - split.
    + intros x [Hx|[= ->]%list_elem_of_singleton]%elem_of_app; [by apply (so_inc (lg_snap L))|congruence].
    + intros x [Hx|[= ->]%list_elem_of_singleton]%elem_of_app; [by apply (so_rem (lg_snap L))|congruence].
    + intros k Hk'. rewrite map_app. apply elem_of_app. left. by apply (so_keys (lg_snap L)).
    + intros Hp x [Hx|[= ->]%list_elem_of_singleton]%elem_of_app; [by apply (so_all (lg_snap L))|].
      destruct Hnew as [_ Hnew]. destruct (h_outbound h); [tauto|]. split; [done|]. intros _ Hc.
      destruct Hnew. congruence.
  - apply covered_snoc. split; [apply L|]. rewrite E7. destruct (h_outbound h); lia.
  - apply covered_snoc. split; [apply L|]. lia.
  - apply covered_snoc. split; [apply L|]. lia.
  - rewrite total_app, Hone, E3. pose proof (lg_own_locked L). lia.
  - apply covered_snoc. split; [apply L|]. rewrite E8. destruct (h_outbound h); lia.
  - apply covered_snoc. split; [apply L|]. lia.
  - rewrite total_app, Hone, E5. pose proof (lg_peer_sig L). lia.
  - rewrite total_app, Hone, E6. pose proof (lg_peer_rev L). lia.
  - apply sorted_snoc; [apply L|]. apply Forall_forall. intros x Hx _ Ho. rewrite (R1 Ho).
    apply rank_nonneg.
  - apply sorted_snoc; [apply L|]. apply Forall_forall. intros x Hx _ Ho. rewrite (R2 Ho).
    apply rank_nonneg.
Qed.

(** ** Changing HTLCs in place *)
Definition improves (i m : bool) (h h' : Htlc) : Prop :=
  (key h' = key h /\ h_amount_msat h' = h_amount_msat h /\ stage_ok h' = true /\
   (h_outbound h = false -> h_phase_holder h' = h_phase_holder h) /\
   (i = true -> h_phase_counterparty h' = h_phase_counterparty h) /\
   (m = true -> h_phase_counterparty h' = h_phase_counterparty h) /\
   (h_outbound h = true -> h_phase_holder h' = NotYet -> h_phase_holder h = NotYet) /\
   (p <> None -> h_outbound h = false -> h_phase_counterparty h' = Removing ->
      h_phase_counterparty h = Removing) /\
   own_rank h' = own_rank h /\ peer_rankb i h' = peer_rankb i h) /\
  own_all h <= own_all h' /\ own_sigb i m h <= own_sigb i m h' /\
  own_sigb false false h <= own_sigb false false h' /\ own_locked h' = own_locked h /\
  peer_all h <= peer_all h' /\ peer_acked h <= peer_acked h' /\
  peer_sigb i m h <= peer_sigb i m h' /\ peer_sigb false false h <= peer_sigb false false h'.

Section Improve.
Context (g : Htlc -> Htlc).
Hypothesis Hg : forall h, h ∈ hs -> improves (inc p h) (rem p h) h (g h).

Lemma map_omap : map g hs = omap (fun h => Some (g h)) hs.
Proof. clear. induction hs as [|h t IH]; [done|]. cbn. by rewrite IH. Qed.

Lemma improve_total f f' : Forall (fun h => f h <= f' (g h)) hs -> total f hs <= total f' (map g hs).
Proof.
  intros Hf. rewrite map_omap, <- (Z.add_0_r (total f' _)), <- (total_0 hs). apply total_omap.
  eapply Forall_impl; [exact Hf|]. intros h. cbn. lia.
Qed.
Lemma improve_covered f f' b :
  covered f b hs -> Forall (fun h => f h <= f' (g h)) hs -> covered f' b (map g hs).
Proof.
  intros Hc Hf. rewrite map_omap, <- (Z.add_0_r b), <- (total_0 hs).
  eapply covered_omap; [exact Hc|]. eapply Forall_impl; [exact Hf|]. intros h. cbn. lia.
Qed.

Ltac pointwise_improve :=
  let h := fresh "h" in let Hh := fresh "Hh" in let F := fresh "F" in
  apply Forall_forall; intros h Hh; destruct (Hg h Hh) as [(Hkey & _) F];
  unfold own_sig, peer_sig;
  rewrite ?inc_None, ?rem_None, ?(inc_key p _ _ Hkey), ?(rem_key p _ _ Hkey); lia.

Lemma move_improve : ledger T bh bc nh nc p (map g hs).
Proof.
  assert (Hkept : forall h', h' ∈ map g hs -> exists h, h ∈ hs /\ h' = g h /\
    improves (inc p h) (rem p h) h h').
  { intros h' (h & -> & Hh)%list_elem_of_fmap. eauto. }
  split; try apply L.
  - intros h' (h & Hh & _ & (_ & -> & -> & _) & _)%Hkept. split; [done|]. by apply stage_of.
  - rewrite map_omap. apply keys_omap; [|apply L]. intros h h' Hh [= <-]. by apply (Hg h Hh).
  - intros h' (h & Hh & _ & ([= -> ->] & _) & _)%Hkept. by apply (lg_fresh L).
  - intros h1' h2' (h1 & Hh1 & _ & ([= -> ->] & _ & _ & E1 & _) & _)%Hkept
      (h2 & Hh2 & _ & ([= -> ->] & _ & _ & E2 & _) & _)%Hkept Ho1 Ho2.
    rewrite (E1 Ho1), (E2 Ho2). by apply (lg_new L).
  - rewrite map_omap. destruct (decide (p = None)) as [Hpn|Hpn].
    + rewrite Hpn. split; [intros h _; by rewrite inc_None|intros h _; by rewrite rem_None| |done].
      intros x [H|H]; by apply not_elem_of_nil in H.
    + apply snap_pass. intros h Hh. destruct (Hg h Hh) as [(F1 & _ & _ & _ & F2 & F3 & F4 & F5 & _) _].
      split; [done|]. split; [intros Hi; rewrite (F2 Hi); by apply (so_inc (lg_snap L))|].
      split; [intros Hi; rewrite (F3 Hi); by apply (so_rem (lg_snap L))|]. auto.
  - eapply improve_covered; [apply (lg_own_all L)|pointwise_improve].
  - eapply improve_covered; [apply (lg_own_sig L)|pointwise_improve].
  - eapply improve_covered; [apply (lg_own_rev L)|pointwise_improve].
  - assert (H : total (fun h => - own_locked h) hs <= total (fun h => - own_locked h) (map g hs))
      by (apply improve_total; pointwise_improve).
    rewrite !total_opp in H. pose proof (lg_own_locked L). lia.
  - eapply improve_covered; [apply (lg_peer_all L)|pointwise_improve].
  - eapply improve_covered; [apply (lg_peer_acked L)|pointwise_improve].
  - pose proof (lg_peer_sig L). pose proof (improve_total (peer_sig p) (peer_sig p)) as H'.
    lapply H'; [lia|pointwise_improve].
  - pose proof (lg_peer_rev L). pose proof (improve_total (peer_sig None) (peer_sig None)) as H'.
    lapply H'; [lia|pointwise_improve].
  - rewrite map_omap. apply (own_order_pass _ (fun z => z)); [done|]. intros h h' Hh [= <-].
    destruct (Hg h Hh) as [F _]. split; [apply F|]. intros _. apply F.
  - rewrite map_omap. apply (peer_order_pass _ _ (fun z => z)); [done|]. intros h h' Hh [= <-].
    destruct (Hg h Hh) as [F _]. split; [apply F|]. intros _. unfold peer_rank.
    erewrite inc_key; apply F.
Qed.
End Improve.

Lemma improves_refl i m h h' :
  stage_ok h = true -> (h_outbound h', h_id h', h_amount_msat h', h_resolution h', h_phase_holder h',
    h_phase_counterparty h') = (h_outbound h, h_id h, h_amount_msat h, h_resolution h,
    h_phase_holder h, h_phase_counterparty h) -> improves i m h h'.
Proof.
  destruct h, h'. cbn. intros Hs [= -> -> -> -> -> ->]. unfold improves. cbn in *.
  repeat split; try done; apply Z.le_refl.
Qed.

(** ** Resolving *)
Definition at_stake (h : Htlc) : Prop :=
  h_resolution h = None /\ h_phase_holder h = Committed /\ h_phase_counterparty h = Committed.

(** The HTLC gets the resolution [r]. *)
Definition resolve_htlc (r : HtlcResolution) (h : Htlc) : Htlc :=
  if h_outbound h then h <| h_resolution := Some r |> <| h_phase_holder := Removing |>
  else h <| h_resolution := Some r |> <| h_phase_counterparty := Removing |>.

Lemma resolve_improves r h :
  0 <= h_amount_msat h -> at_stake h -> (h_outbound h = false -> p = None) ->
  improves false false h (resolve_htlc r h).
Proof.
  intros Ha (Hr & Hh & Hc) Hp. unfold improves, resolve_htlc.
  destruct h as [o ? ? ? ? ? ? re hp cp ?]. cbn in Hr, Hh, Hc, Hp. subst re hp cp.
  destruct o, r; unfold upd; stage_levels; repeat split; try done; try lia;
    intros Hp'; by rewrite Hp in Hp'.
Qed.

(** Ours only with nothing in flight. *)
Lemma move_resolve k r :
  (forall h, h ∈ hs -> key h = k -> at_stake h) -> (k.1 = false -> p = None) ->
  ledger T bh bc nh nc p
    (map (fun h => if bool_decide (key h = k) then resolve_htlc r h else h) hs).
Proof.
  intros Hk Hp. apply move_improve. intros h Hh. destruct (stage_of h Hh) as [Hs Ha].
  case_bool_decide as Hkey; [|by apply improves_refl].
  pose proof (Hk h Hh Hkey) as Hst. pose proof Hst as (_ & _ & Hc).
  pose proof (so_inc (lg_snap L) h Hh). pose proof (so_rem (lg_snap L) h Hh).
  assert (inc p h = false) as -> by (destruct (inc p h); [exfalso; intuition congruence|done]).
  assert (rem p h = false) as -> by (destruct (rem p h); [exfalso; intuition congruence|done]).
  apply resolve_improves; [done..|]. intros Ho. apply Hp. by rewrite <- Hkey.
Qed.
End Moves.
