(* ===== verification/Machine.v ===== *)
(** * Machine: the channel as a state machine

    Every public operation of [Channel] that changes state, as an event; a
    step runs one of them to any outcome but a panic, an error included (the
    mutations made before the error stay), and a channel is reachable when it
    comes out of [new_outbound] or [new_inbound] by steps.  The invariants of
    the next files are proved over these steps with the weakest-precondition
    calculus of this file. *)
From stdpp Require Import relations.
From S2P Require Import Prelude Secp Types Msgs Tx Shachain Keys Commitment Channel Dance Close Reestablish.

(** ** Weakest preconditions for [stm]

    [Q] holds of the state an operation leaves, with [Some] value on success
    and [None] on an error. *)
Definition wp {S E A} (m : stm S E A) (Q : option A -> S -> Prop) (s : S) : Prop :=
  match m s with
  | (Ok a, s') => Q (Some a) s'
  | (Err _, s') => Q None s'
  | (Panic, _) => True
  end.

Section Wp.
Context {S E : Type}.
Implicit Types s : S.

Lemma wp_mono {A} (m : stm S E A) (Q R : option A -> S -> Prop) s :
  wp m Q s -> (forall o s', Q o s' -> R o s') -> wp m R s.
Proof. unfold wp. destruct (m s) as [[]]; auto. Qed.

Lemma wp_and {A} (m : stm S E A) (Q R : option A -> S -> Prop) s :
  wp m Q s -> wp m R s -> wp m (fun o s' => Q o s' /\ R o s') s.
Proof. unfold wp. destruct (m s) as [[]]; auto. Qed.

Lemma wp_bind {A B} (m : stm S E A) (f : A -> stm S E B) Q s :
  wp m (fun o s' => match o with Some a => wp (f a) Q s' | None => Q None s' end) s ->
  wp (m ≫= f) Q s.
Proof. unfold wp, mbind, stm_bind. destruct (m s) as [[]]; auto. Qed.

Lemma wp_ret {A} (a : A) (Q : option A -> S -> Prop) s :
  Q (Some a) s -> wp (E := E) (mret a) Q s.
Proof. auto. Qed.

Lemma wp_modify (f : S -> S) Q s : Q (Some tt) (f s) -> wp (E := E) (modify f) Q s.
Proof. auto. Qed.

Lemma wp_gets {A} (f : S -> A) Q s : Q (Some (f s)) s -> wp (E := E) (gets f) Q s.
Proof. auto. Qed.

Lemma wp_throw_if (f : S -> bool) (e : E) Q s :
  (f s = true -> Q None s) -> (f s = false -> Q (Some tt) s) -> wp (throw_if f e) Q s.
Proof. unfold wp, throw_if. destruct (f s); cbn [fail_if]; auto. Qed.

Lemma wp_reads_self {A} (f : S -> result E A) (Q : option A -> S -> Prop) s :
  (forall a, f s = Ok a -> Q (Some a) s) -> (forall e, f s = Err e -> Q None s) ->
  wp (reads_self f) Q s.
Proof. unfold wp, reads_self. destruct (f s); eauto. Qed.

Lemma expect_not_Err {A} (o : option A) (e : E) : expect o = Err e -> False.
Proof. by destruct o. Qed.

Lemma wp_catch {A} (m : stm S E A) (Q : option (result E A) -> S -> Prop) s :
  wp m (fun o s' => forall r, r <> Panic -> (forall a, r = Ok a -> o = Some a) -> Q (Some r) s') s ->
  wp (catch m) Q s.
Proof.
  unfold wp, catch. destruct (m s) as [[a|e|] s']; intros H; [| |done].
  - apply (H (Ok a)); congruence.
  - apply (H (Err e)); congruence.
Qed.

(** Run the first operation of a sequence. *)
Lemma stm_run {A B} (m : stm S E A) (f : A -> stm S E B) s a s1 r :
  m s = (Ok a, s1) -> f a s1 = r -> (m ≫= f) s = r.
Proof. intros H <-. unfold mbind, stm_bind. by rewrite H. Qed.

(** An operation that leaves a predicate on the state alone, whatever it
    returns. *)
Definition preserves (I : S -> Prop) {A} (m : stm S E A) : Prop :=
  forall s, I s -> wp m (fun _ s' => I s') s.

Lemma wp_preserves (I : S -> Prop) {A} (m : stm S E A) s :
  preserves I m -> I s -> wp m (fun _ => I) s.
Proof. intros H. apply H. Qed.

Lemma preserves_bind (I : S -> Prop) {A B} (m : stm S E A) (f : A -> stm S E B) :
  preserves I m -> (forall a, preserves I (f a)) -> preserves I (m ≫= f).
Proof.
  intros Hm Hf s Hs. apply wp_bind. eapply wp_mono; [by apply Hm|]. intros [a|] s' H; [|done].
  by apply Hf.
Qed.
Lemma preserves_ret (I : S -> Prop) {A} (a : A) : preserves I (mret a).
Proof. intros s Hs. by apply wp_ret. Qed.
Lemma preserves_gets (I : S -> Prop) {A} (f : S -> A) : preserves I (gets f).
Proof. intros s Hs. by apply wp_gets. Qed.
Lemma preserves_throw_if (I : S -> Prop) f (e : E) : preserves I (throw_if f e).
Proof. intros s Hs. by apply wp_throw_if. Qed.
Lemma preserves_reads_self (I : S -> Prop) {A} (f : S -> result E A) : preserves I (reads_self f).
Proof. intros s Hs. by apply wp_reads_self. Qed.
Lemma preserves_modify (I : S -> Prop) (f : S -> S) :
  (forall s, I s -> I (f s)) -> preserves I (modify f).
Proof. intros H s Hs. apply wp_modify. auto. Qed.
Lemma preserves_catch (I : S -> Prop) {A} (m : stm S E A) : preserves I m -> preserves I (catch m).
Proof. intros H s Hs. apply wp_catch. eapply wp_mono; [by apply H|]. auto. Qed.
Lemma preserves_if (I : S -> Prop) {A} (b : bool) (m n : stm S E A) :
  preserves I m -> preserves I n -> preserves I (if b then m else n).
Proof. by destruct b. Qed.
End Wp.

(** One symbolic step of the operation under [wp]. *)
Ltac wp_step :=
  match goal with
  | |- wp (_ ≫= _) _ _ => apply wp_bind
  | |- wp (mret _) _ _ => apply wp_ret
  | |- wp (modify _) _ _ => apply wp_modify
  | |- wp (gets _) _ _ => apply wp_gets
  | |- wp (throw_if _ _) _ _ => apply wp_throw_if; intros ?
  | |- wp (reads_self _) _ _ => apply wp_reads_self; intros ? ?
  | H : expect _ = Err _ |- _ => destruct (expect_not_Err _ _ H)
  | |- wp (if _ then _ else _) _ _ => case_match
  | |- wp (match _ with _ => _ end) _ _ => case_match
  | |- match Some _ with _ => _ end => cbv beta iota
  | |- match None with _ => _ end => cbv beta iota
  end.
Ltac wp_steps := cbv beta zeta; repeat (wp_step; cbv beta iota).

(** Decompose [preserves I m] down to the mutations. *)
Ltac preserve_step :=
  match goal with
  | |- preserves _ (_ ≫= _) => apply preserves_bind; [|intros ?]
  | |- preserves _ (mret _) => apply preserves_ret
  | |- preserves _ (gets _) => apply preserves_gets
  | |- preserves _ (throw_if _ _) => apply preserves_throw_if
  | |- preserves _ (reads_self _) => apply preserves_reads_self
  | |- preserves _ (catch _) => apply preserves_catch
  | |- preserves _ (if _ then _ else _) => apply preserves_if
  | |- preserves _ (match ?x with _ => _ end) => destruct x
  end.
Ltac preserve := cbv beta zeta; repeat preserve_step.

(** ** Events and steps *)
Section Machine.
Context `{HS : Secp} {Sg : Type} `{HCS : !ChannelSigner Sg}.
Abbreviation Channel := (Channel (Sg := Sg)).
Abbreviation chan := (stm Channel ChannelError).

Inductive event : Type :=
  | EvAcceptChannel (msg : AcceptChannel)
  | EvFund (txid : Txid) (vout : Z)
  | EvFundingCreated (msg : FundingCreated)
  | EvFundingSigned (msg : FundingSigned)
  | EvFundingConfirmed (scid : Z)
  | EvChannelReady (msg : ChannelReady)
  | EvSendAdd (amount : Z) (hash : bytes) (cltv : Z) (onion : bytes) (source : HtlcSource)
  | EvSendFulfill (id : Z) (preimage : bytes)
  | EvSendFail (id : Z) (reason : bytes)
  | EvSendFailMalformed (id : Z) (sha : bytes) (code : Z)
  | EvSendFee (feerate : Z)
  | EvAdd (msg : UpdateAddHtlc)
  | EvFulfill (msg : UpdateFulfillHtlc)
  | EvFail (msg : UpdateFailHtlc)
  | EvFailMalformed (msg : UpdateFailMalformedHtlc)
  | EvFee (msg : UpdateFee)
  | EvSendCommitment
  | EvCommitment (msg : CommitmentSigned)
  | EvRevoke (msg : RevokeAndAck)
  | EvSendShutdown (script : bytes)
  | EvShutdown (msg : Shutdown) (our_script : bytes)
  | EvSendClosing (feerate : Z)
  | EvClosing (msg : ClosingSigned) (feerate : Z)
  | EvDisconnect.

Definition discard {A} (m : chan A) : chan unit := _ ← m; mret tt.

(** The operation of each event, its answer dropped. *)
Definition run_event (e : event) : chan unit :=
  match e with
  | EvAcceptChannel msg => on_accept_channel msg
  | EvFund txid vout => discard (funding_created txid vout)
  | EvFundingCreated msg => discard (on_funding_created msg)
  | EvFundingSigned msg => on_funding_signed msg
  | EvFundingConfirmed scid => discard (funding_confirmed scid)
  | EvChannelReady msg => on_channel_ready msg
  | EvSendAdd a h t o s => discard (send_add_htlc a h t o s)
  | EvSendFulfill id p => discard (send_fulfill_htlc id p)
  | EvSendFail id r => discard (send_fail_htlc id r)
  | EvSendFailMalformed id s f => discard (send_fail_malformed_htlc id s f)
  | EvSendFee f => discard (send_update_fee f)
  | EvAdd msg => on_update_add_htlc msg
  | EvFulfill msg => discard (on_update_fulfill_htlc msg)
  | EvFail msg => discard (on_update_fail_htlc msg)
  | EvFailMalformed msg => discard (on_update_fail_malformed_htlc msg)
  | EvFee msg => on_update_fee msg
  | EvSendCommitment => discard send_commitment_signed
  | EvCommitment msg => discard (on_commitment_signed msg)
  | EvRevoke msg => discard (on_revoke_and_ack msg)
  | EvSendShutdown s => discard (send_shutdown s)
  | EvShutdown msg s => discard (on_shutdown msg s)
  | EvSendClosing f => discard (maybe_send_closing_signed f)
  | EvClosing msg f => discard (on_closing_signed msg f)
  | EvDisconnect => on_disconnect
  end.

(** Commitment numbers have 48 bits on the wire and in the shachain; a channel
    that reaches 2^48 commitments is outside of the protocol. *)
Definition numbers_fit (c : Channel) : Prop :=
  ch_holder_commitment_number c <= MAX_INDEX /\ ch_counterparty_commitment_number c <= MAX_INDEX.

Definition step_by (e : event) (c c' : Channel) : Prop :=
  (exists r, run_event e c = (r, c') /\ r <> Panic) /\ numbers_fit c'.
Definition step (c c' : Channel) : Prop := exists e, step_by e c c'.

Definition opened (c : Channel) : Prop :=
  (exists signer config network id funding push feerate msg,
     new_outbound signer config network id funding push feerate = Ok (c, msg)) \/
  (exists signer config network msg accept,
     new_inbound signer config network msg = Ok (c, accept)).

Definition reachable (c : Channel) : Prop := exists c0, opened c0 /\ rtc step c0 c.

Lemma preserves_discard (I : Channel -> Prop) {A} (m : chan A) :
  preserves I m -> preserves I (discard m).
Proof. intros. apply preserves_bind; [done|]. intros. apply preserves_ret. Qed.

Lemma wp_step_by (Q : Channel -> Prop) e c c' :
  step_by e c c' -> wp (run_event e) (fun _ s' => Q s') c -> Q c'.
Proof. intros [(r & Hr & Hnp) _]. unfold wp. rewrite Hr. by destruct r. Qed.

(** An invariant holds in every reachable state. *)
Lemma reachable_ind_inv (I : Channel -> Prop) :
  (forall c, opened c -> I c) -> (forall e c c', I c -> step_by e c c' -> I c') ->
  forall c, reachable c -> I c.
Proof.
  intros H0 Hs c (c0 & Ho & Hrun). specialize (H0 _ Ho). clear Ho.
  induction Hrun as [|c1 c2 c3 (e & He) _ IH]; eauto.
Qed.

Lemma steps_inv (I : Channel -> Prop) :
  (forall e c c', I c -> step_by e c c' -> I c') ->
  forall c c', rtc step c c' -> I c -> I c'.
Proof. intros Hs c c'. induction 1 as [|c1 c2 c3 (e & He) _ IH]; eauto. Qed.

Lemma reachable_steps c c' : reachable c -> rtc step c c' -> reachable c'.
Proof. intros (c0 & Ho & Hr) H. exists c0. split; [done|]. by etrans. Qed.

(** What the two constructors give. *)
Lemma opened_fresh c : opened c ->
  ch_htlcs c = [] /\ ch_awaiting_raa c = false /\
  ch_pending_counterparty_commitment c = None /\ ch_holding_cell c = [] /\
  ch_counterparty_secrets c = store_new /\ ch_counterparty_commitment_number c = 0 /\
  ch_holder_commitment_number c = 0 /\ ch_current_holder_commitment c = None /\
  ch_current_counterparty_commitment c = None /\ ch_counterparty_next_point c = None /\
  ch_next_holder_htlc_id c = 0 /\ ch_next_counterparty_htlc_id c = 0 /\
  ch_funding_outpoint c = None /\ ch_counterparty_dirty c = false /\
  (ch_state c = OpenSent \/ ch_state c = AcceptSent /\ exists k, ch_counterparty_pubkeys c = Some k) /\
  ch_holder_pubkeys c = pubkeys (ch_signer c) /\ ch_closing_tx c = None.
Proof.
  intros [(?&?&?&?&?&?&?&?& H)|(?&?&?&?&?& H)].
  - unfold new_outbound in H. bind_inv. cbn. repeat split; auto.
  - unfold new_inbound in H. cbv zeta in H. bind_inv. cbn. repeat split; eauto.
Qed.
End Machine.
