(* ===== verification/Revocation.v ===== *)
(** * Revocation: every revoked commitment stays punishable

    The invariant that ties the counterparty's commitment numbers, its
    per-commitment points and the secrets it revealed, over every operation of
    the channel. *)
From stdpp Require Import relations.
From S2P Require Import Prelude Secp Types Msgs Tx Shachain Keys Commitment Channel Dance Close Reestablish Machine.

Create HintDb rev.

Section Revocation.
Context `{HS : Secp} {Sg : Type} `{HCS : !ChannelSigner Sg}.
Abbreviation Channel := (Channel (Sg := Sg)).

(** Past the point where the first commitment of the peer is signed. *)
Definition late (c : Channel) : bool :=
  match ch_state c with OpenSent | AcceptSent => false | _ => true end.

(** A commitment of the peer that we have signed and it has not revoked. *)
Definition signed (c : Channel) (i : CounterpartyCommitmentInfo) : Prop :=
  ch_current_counterparty_commitment c = Some i \/
  exists p, ch_pending_counterparty_commitment c = Some p /\ pcc_info p = i.

(** A commitment for which the secret of its per-commitment point can be
    retrieved from the store. *)
Definition punishable (c : Channel) (i : CounterpartyCommitmentInfo) : Prop :=
  0 <= cci_number i < ch_counterparty_commitment_number c /\
  exists secret,
    secret_for (ch_counterparty_secrets c) (index_for_commitment (cci_number i)) = Some secret /\
    per_commitment_point_of secret = Some (cci_per_commitment_point i).

Record rev_inv (c : Channel) : Prop := {
  ri_bound : 0 <= ch_counterparty_commitment_number c <= MAX_INDEX + 1;
  ri_await : ch_awaiting_raa c = true <-> ch_pending_counterparty_commitment c <> None;
  ri_late : late c = true <-> ch_current_counterparty_commitment c <> None;
  ri_early : late c = false ->
    ch_counterparty_next_point c = None /\ ch_counterparty_commitment_number c = 0 /\
    ch_pending_counterparty_commitment c = None;
  ri_current : forall i, ch_current_counterparty_commitment c = Some i ->
    cci_number i = ch_counterparty_commitment_number c /\
    ch_counterparty_current_point c = Some (cci_per_commitment_point i);
  ri_pending : forall p, ch_pending_counterparty_commitment c = Some p ->
    cci_number (pcc_info p) = ch_counterparty_commitment_number c + 1 /\
    ch_counterparty_next_point c = Some (cci_per_commitment_point (pcc_info p));
  ri_secrets : exists secrets,
    Z.of_nat (length secrets) = ch_counterparty_commitment_number c /\
    insert_all store_new 0 secrets = Ok (ch_counterparty_secrets c);
}.

(** What a step may do to the commitments signed so far. *)
Definition keeps (c c' : Channel) : Prop :=
  forall i, (signed c i \/ punishable c i) -> signed c' i \/ punishable c' i.

Definition rev_ok (c0 c : Channel) : Prop := rev_inv c /\ keeps c0 c.

(** The part of the state these depend on. *)
Definition rev_view (c : Channel) :=
  (late c, ch_awaiting_raa c, ch_pending_counterparty_commitment c,
   ch_current_counterparty_commitment c, ch_counterparty_next_point c,
   ch_counterparty_current_point c, ch_counterparty_commitment_number c,
   ch_counterparty_secrets c).

Lemma rev_ok_view c0 c c' : rev_view c' = rev_view c -> rev_ok c0 c -> rev_ok c0 c'.
Proof.
  unfold rev_view. intros [= E1 E2 E3 E4 E5 E6 E7 E8] [[] Hk]. split.
  - split; rewrite ?E1, ?E2, ?E3, ?E4, ?E5, ?E6, ?E7, ?E8; assumption.
  - intros i Hi. specialize (Hk i Hi). unfold signed, punishable in *.
    rewrite E3, E4, E7, E8. exact Hk.
Qed.

Lemma rev_ok_refl c : rev_inv c -> rev_ok c c.
Proof. intros H. by split; [|intros i]. Qed.

Lemma preserves_view c0 (f : Channel -> Channel) :
  (forall c, rev_view (f c) = rev_view c) ->
  preserves (E := ChannelError) (rev_ok c0) (modify f).
Proof. intros H. apply preserves_modify. intros c Hc. by apply (rev_ok_view c0 c). Qed.

Lemma gc_htlcs_view c : rev_view (gc_htlcs c) = rev_view c.
Proof. reflexivity. Qed.

Lemma lock_in_view c : rev_view (lock_in c) = rev_view c.
Proof.
  unfold lock_in. cbv zeta. destruct (ch_pending_fee_ack _); [reflexivity|].
  destruct (existsb snd _); reflexivity.
Qed.

Lemma apply_pending_view p c : rev_view (apply_pending p c) = rev_view c.
Proof. unfold apply_pending. destruct (pcc_fee_update p); reflexivity. Qed.

Lemma maybe_become_normal_view c : rev_view (maybe_become_normal c) = rev_view c.
Proof.
  unfold maybe_become_normal. destruct (bool_decide_reflect (ch_state c = AwaitingChannelReady)) as [E|];
    [|reflexivity].
  destruct (ch_channel_ready_sent c), (ch_channel_ready_received c); try reflexivity.
  unfold rev_view, late. rewrite E. reflexivity.
Qed.

(** The mutations of no consequence here. *)
Ltac view_tac :=
  apply preserves_view; intros ?; cbv zeta;
  first [ reflexivity | apply gc_htlcs_view | apply lock_in_view | apply apply_pending_view
        | apply maybe_become_normal_view
        | repeat case_match; reflexivity ].
Ltac rev_tac := preserve; try view_tac.

Lemma send_add_htlc_rev c0 a h t o s : preserves (rev_ok c0) (send_add_htlc a h t o s).
Proof. unfold send_add_htlc, push_cell. rev_tac. Qed.
Lemma send_fulfill_htlc_rev c0 id p : preserves (rev_ok c0) (send_fulfill_htlc id p).
Proof. unfold send_fulfill_htlc, push_cell. rev_tac. Qed.
Lemma send_fail_htlc_rev c0 id p : preserves (rev_ok c0) (send_fail_htlc id p).
Proof. unfold send_fail_htlc, push_cell. rev_tac. Qed.
Lemma send_fail_malformed_htlc_rev c0 id s f :
  preserves (rev_ok c0) (send_fail_malformed_htlc id s f).
Proof. unfold send_fail_malformed_htlc, push_cell. rev_tac. Qed.

Lemma flush_rev c0 ops o : preserves (rev_ok c0) (flush ops o).
Proof.
  revert o; induction ops as [|op ops IH]; intros o; cbn [flush]; [apply preserves_ret|].
  apply preserves_bind; [|done].
  destruct op; cbn [flush_op]; (apply preserves_bind; [apply preserves_catch|intros ?; preserve]);
    auto using send_add_htlc_rev, send_fulfill_htlc_rev, send_fail_htlc_rev,
      send_fail_malformed_htlc_rev.
Qed.

Lemma collect_forwardable_rev c0 : preserves (rev_ok c0) collect_forwardable.
Proof. unfold collect_forwardable. rev_tac. Qed.

(** State changes after the funding. *)
Definition late_ok (c0 c : Channel) : Prop := rev_ok c0 c /\ late c = true.

Lemma preserves_late c0 (f : Channel -> Channel) :
  (forall c, late c = true -> rev_view (f c) = rev_view c) ->
  preserves (E := ChannelError) (late_ok c0) (modify f).
Proof.
  intros H. apply preserves_modify. intros c [Hc Hl]. specialize (H c Hl). split.
  - by apply (rev_ok_view c0 c).
  - unfold rev_view in H. by injection H as ->.
Qed.

Ltac late_tac := preserve; try
  (let Hlate := fresh in
   apply preserves_late; unfold rev_view; intros ? Hlate; cbv zeta; repeat case_match;
   first [reflexivity | (rewrite Hlate; reflexivity)]).

Lemma finalize_closing_rev c0 fee sig : preserves (late_ok c0) (finalize_closing fee sig).
Proof. unfold finalize_closing. late_tac. Qed.
Lemma closing_signed_msg_rev c0 fee range : preserves (late_ok c0) (closing_signed_msg fee range).
Proof. unfold closing_signed_msg. late_tac. Qed.
#[local] Hint Resolve finalize_closing_rev closing_signed_msg_rev : rev.

Lemma on_closing_signed_rev c0 msg f c :
  rev_ok c0 c -> wp (on_closing_signed msg f) (fun _ => rev_ok c0) c.
Proof.
  intros Hc. unfold on_closing_signed. apply wp_bind, wp_throw_if; intros Hr; [done|].
  assert (Hl : late c = true).
  { unfold ready_to_negotiate_close in Hr. unfold late. by destruct (ch_state c). }
  apply (wp_mono _ (fun _ => late_ok c0)); [|by intros ? ? []].
  apply wp_preserves; [|by split].
  unfold on_closing_range, on_closing_legacy. late_tac; auto with rev.
Qed.

Lemma maybe_send_closing_signed_rev c0 f c :
  rev_ok c0 c -> wp (maybe_send_closing_signed f) (fun _ => rev_ok c0) c.
Proof.
  intros Hc. unfold maybe_send_closing_signed. apply wp_bind, wp_gets.
  destruct (ready_to_negotiate_close c) eqn:Hr; cbn [negb]; [|by apply wp_ret].
  assert (Hl : late c = true).
  { unfold ready_to_negotiate_close in Hr. unfold late. by destruct (ch_state c). }
  apply (wp_mono _ (fun _ => late_ok c0)); [|by intros ? ? []].
  apply wp_preserves; [|by split]. late_tac.
Qed.

Lemma send_shutdown_rev c0 script : preserves (rev_ok c0) (send_shutdown script).
Proof.
  intros c Hc. unfold send_shutdown. apply wp_bind, wp_throw_if; intros Hs; [done|].
  assert (Hl : late c = true) by (unfold late; unfold shutdown_allowed in Hs; by destruct (ch_state c)).
  apply (wp_mono _ (fun _ => late_ok c0)); [|by intros ? ? []].
  apply wp_preserves; [|by split]. late_tac.
Qed.

Lemma on_shutdown_rev c0 msg script : preserves (rev_ok c0) (on_shutdown msg script).
Proof.
  intros c Hc. unfold on_shutdown. apply wp_bind, wp_throw_if; intros Hs; [done|].
  assert (Hl : late c = true) by (unfold late; unfold shutdown_allowed in Hs; by destruct (ch_state c)).
  apply wp_bind, wp_throw_if; intros _; [done|].
  apply wp_bind, (wp_mono _ (fun _ => late_ok c0)).
  { apply wp_preserves; [|by split]. late_tac. }
  intros [[]|] c' [Hc' _]; [|done]. apply wp_preserves; [|done].
  preserve. apply send_shutdown_rev.
Qed.

(** The operations that move the commitments. *)
Lemma info_number (c : Channel) n point b h :
  cci_number (counterparty_info_from_built c n point b h) = n.
Proof. unfold counterparty_info_from_built. by destruct (balances_for c false). Qed.
Lemma info_point (c : Channel) n point b h :
  cci_per_commitment_point (counterparty_info_from_built c n point b h) = point.
Proof. unfold counterparty_info_from_built. by destruct (balances_for c false). Qed.

Lemma sign_counterparty_0_spec c :
  wp sign_counterparty_0 (fun o c' => match o with
    | Some _ => exists i, cci_number i = 0 /\
        ch_counterparty_current_point c = Some (cci_per_commitment_point i) /\
        c' = c <| ch_current_counterparty_commitment := Some i |>
    | None => c' = c end) c.
Proof.
  unfold sign_counterparty_0. wp_steps; try done.
  match goal with H : expect _ = Ok _ |- _ => apply expect_Ok in H as Hpt end.
  eexists. rewrite info_number, info_point. eauto.
Qed.

Lemma rev_ok_first_signed c0 c i s :
  rev_ok c0 c -> late c = false -> cci_number i = 0 ->
  ch_counterparty_current_point c = Some (cci_per_commitment_point i) ->
  late (c <| ch_state := s |>) = true ->
  rev_ok c0 (c <| ch_current_counterparty_commitment := Some i |> <| ch_state := s |>).
Proof.
  intros [Hc Hk] Hl Hi Hpt Hs. destruct (ri_early c Hc Hl) as (Hnp & Hn & Hp).
  assert (Hs' : late (c <| ch_current_counterparty_commitment := Some i |> <| ch_state := s |>) = true)
    by exact Hs.
  assert (Hnone : ch_current_counterparty_commitment c = None).
  { destruct (ch_current_counterparty_commitment c) eqn:E; [|done].
    assert (late c = true) by (apply (ri_late c Hc); by rewrite E). congruence. }
  split; [split; rewrite ?Hs'; cbn|].
  - apply Hc.
  - apply Hc.
  - split; [by intros _ [=]|done].
  - done.
  - intros j [= <-]. exact (conj (eq_trans Hi (eq_sym Hn)) Hpt).
  - intros p Hp'. change (ch_pending_counterparty_commitment c = Some p) in Hp'. congruence.
  - apply Hc.
  - intros j Hj. destruct (Hk j Hj) as [[Hcur|Hpend]|Hpun].
    + congruence.
    + left; right. exact Hpend.
    + right. exact Hpun.
Qed.

Lemma funding_created_rev c0 txid vout : preserves (rev_ok c0) (funding_created txid vout).
Proof.
  intros c Hc. unfold funding_created. apply wp_bind, wp_throw_if; intros Hs; [done|].
  assert (Hl : late c = false).
  { unfold late. destruct (ch_state c), (ch_role c); done. }
  apply wp_bind, wp_throw_if; intros Hk; [done|].
  apply wp_bind, wp_modify. apply wp_bind.
  set (c1 := c <| _ := _ |> <| ch_channel_id := _ |>).
  assert (Hc1 : rev_ok c0 c1) by (by apply (rev_ok_view c0 c)).
  eapply wp_mono; [apply sign_counterparty_0_spec|].
  intros [sig|] c2; [|by intros ->]. intros (i & Hi & Hpt & ->).
  wp_steps. by apply rev_ok_first_signed.
Qed.

Lemma accept_holder_0_rev c0 sig : preserves (rev_ok c0) (accept_holder_0 sig).
Proof. unfold accept_holder_0. rev_tac. Qed.
Lemma accept_holder_0_late c0 sig : preserves (late_ok c0) (accept_holder_0 sig).
Proof. unfold accept_holder_0. late_tac. Qed.

Lemma on_funding_created_rev c0 msg : preserves (rev_ok c0) (on_funding_created msg).
Proof.
  intros c Hc. unfold on_funding_created. apply wp_bind, wp_throw_if; intros Hs; [done|].
  assert (Hl : late c = false) by (unfold late; by destruct (ch_state c)).
  apply wp_bind, wp_modify. apply wp_bind.
  set (c1 := c <| _ := _ |> <| ch_channel_id := _ |>).
  apply (wp_mono _ (fun _ c2 => rev_ok c0 c2 /\ late c2 = false)).
  { apply wp_preserves; [|by split; [apply (rev_ok_view c0 c)|]].
    unfold accept_holder_0. preserve. apply preserves_modify. intros c2 [H2 Hl2].
    split; [by apply (rev_ok_view c0 c2)|done]. }
  intros [[]|] c2 [Hc2 Hl2]; [|done]. apply wp_bind.
  eapply wp_mono; [apply sign_counterparty_0_spec|].
  intros [sig|] c3; [|by intros ->]. intros (i & Hi & Hpt & ->).
  wp_steps. by apply rev_ok_first_signed.
Qed.

Lemma on_funding_signed_rev c0 msg : preserves (rev_ok c0) (on_funding_signed msg).
Proof.
  intros c Hc. unfold on_funding_signed. apply wp_bind, wp_throw_if; intros Hs; [done|].
  assert (Hl : late c = true) by (unfold late; by destruct (ch_state c)).
  apply (wp_mono _ (fun _ => late_ok c0)); [|by intros ? ? []].
  apply wp_preserves; [|by split]. late_tac. apply accept_holder_0_late.
Qed.

Lemma on_accept_channel_rev c0 msg : preserves (rev_ok c0) (on_accept_channel msg).
Proof.
  intros c [Hc Hk]. unfold on_accept_channel. apply wp_bind, wp_throw_if; intros Hs; [done|].
  assert (Hl : late c = false) by (unfold late; by destruct (ch_state c)).
  destruct (ri_early c Hc Hl) as (Hnp & Hn & Hp).
  assert (Hnone : ch_current_counterparty_commitment c = None).
  { destruct (ch_current_counterparty_commitment c) eqn:E; [|done].
    assert (late c = true) by (apply (ri_late c Hc); by rewrite E). congruence. }
  wp_steps; try done. split; [|exact Hk]. split; try apply Hc.
  intros i Hi. change (ch_current_counterparty_commitment c = Some i) in Hi. congruence.
Qed.

Lemma on_channel_ready_rev c0 msg : preserves (rev_ok c0) (on_channel_ready msg).
Proof.
  intros c [Hc Hk]. unfold on_channel_ready. apply wp_bind, wp_throw_if; intros Hs; [done|].
  assert (Hl : late c = true) by (unfold late; unfold awaiting_or_normal in Hs; by destruct (ch_state c)).
  apply wp_bind, wp_gets.
  destruct ((0 <? ch_counterparty_commitment_number c) || ch_awaiting_raa c) eqn:Hst;
    [by apply wp_ret|].
  apply orb_false_iff in Hst as [Hn Ha].
  assert (Hp : ch_pending_counterparty_commitment c = None).
  { destruct (ch_pending_counterparty_commitment c) eqn:E; [|done].
    assert (ch_awaiting_raa c = true) by (apply (ri_await c Hc); by rewrite E). congruence. }
  apply wp_modify. set (c1 := c <| _ := _ |> <| _ := _ |>).
  apply (rev_ok_view c0 c1 _ (maybe_become_normal_view c1)).
  split; [|exact Hk]. split; try apply Hc.
  - intros Hl'. change (late c = false) in Hl'. congruence.
  - intros p Hp'. change (ch_pending_counterparty_commitment c = Some p) in Hp'. congruence.
Qed.

Lemma funding_confirmed_rev c0 scid : preserves (rev_ok c0) (funding_confirmed scid).
Proof. unfold funding_confirmed. rev_tac. Qed.

Lemma send_update_fee_rev c0 f : preserves (rev_ok c0) (send_update_fee f).
Proof. unfold send_update_fee. rev_tac. Qed.
Lemma on_update_add_htlc_rev c0 msg : preserves (rev_ok c0) (on_update_add_htlc msg).
Proof. unfold on_update_add_htlc. rev_tac. Qed.
Lemma on_update_fulfill_htlc_rev c0 msg : preserves (rev_ok c0) (on_update_fulfill_htlc msg).
Proof. unfold on_update_fulfill_htlc, resolve_outbound. rev_tac. Qed.
Lemma on_update_fail_htlc_rev c0 msg : preserves (rev_ok c0) (on_update_fail_htlc msg).
Proof. unfold on_update_fail_htlc, resolve_outbound. rev_tac. Qed.
Lemma on_update_fail_malformed_htlc_rev c0 msg :
  preserves (rev_ok c0) (on_update_fail_malformed_htlc msg).
Proof. unfold on_update_fail_malformed_htlc, resolve_outbound. rev_tac. Qed.
Lemma on_update_fee_rev c0 msg : preserves (rev_ok c0) (on_update_fee msg).
Proof. unfold on_update_fee. rev_tac. Qed.
Lemma on_commitment_signed_rev c0 msg : preserves (rev_ok c0) (on_commitment_signed msg).
Proof. unfold on_commitment_signed. rev_tac. Qed.
Lemma on_disconnect_rev c0 : preserves (rev_ok c0) on_disconnect.
Proof. unfold on_disconnect. rev_tac. Qed.

Lemma send_commitment_signed_rev c0 : preserves (rev_ok c0) send_commitment_signed.
Proof.
  intros c [Hc Hk]. unfold send_commitment_signed. wp_steps; try done.
  repeat match goal with H : ok_or _ _ = Ok _ |- _ => apply ok_or_Ok in H end.
  set (pcc := Build_PendingCounterpartyCommitment _ _ _ _).
  assert (Hnp : ch_pending_counterparty_commitment c = None).
  { destruct (ch_pending_counterparty_commitment c) eqn:E; [|done].
    assert (ch_awaiting_raa c = true) by (apply (ri_await c Hc); by rewrite E). congruence. }
  assert (Hpn : cci_number (pcc_info pcc) = ch_counterparty_commitment_number c + 1).
  { unfold pcc. cbn [pcc_info]. rewrite info_number. apply wrap_small.
    pose proof (ri_bound c Hc) as Hb. unfold uint, MAX_INDEX in *. lia. }
  assert (Hpp : ch_counterparty_next_point c = Some (cci_per_commitment_point (pcc_info pcc))).
  { unfold pcc. cbn [pcc_info]. by rewrite info_point. }
  assert (Hl : late c = true).
  { destruct (late c) eqn:Hl; [done|]. destruct (ri_early c Hc Hl) as [? _]. congruence. }
  split; [split; try apply Hc|].
  - split; [by intros _ [=]|done].
  - intros Hl'. change (late c = false) in Hl'. congruence.
  - intros q [= <-]. exact (conj Hpn Hpp).
  - intros i Hi. destruct (Hk i Hi) as [[Hcur|(q & Hq & _)]|Hpun]; [|congruence|].
    + left; left. exact Hcur.
    + right. exact Hpun.
Qed.

(** The channel after [accept_secret] stored a secret. *)
Definition advanced (c : Channel) (store : SecretStore) (p : PendingCounterpartyCommitment)
    (next : PublicKey) : Channel :=
  c <| ch_counterparty_secrets := store |>
    <| ch_pending_counterparty_commitment := None |>
    <| ch_counterparty_commitment_number := wrap 64 (ch_counterparty_commitment_number c + 1) |>
    <| ch_counterparty_current_point := ch_counterparty_next_point c |>
    <| ch_counterparty_next_point := Some next |>
    <| ch_current_counterparty_commitment := Some (pcc_info p) |>
    <| ch_awaiting_raa := false |>.

Lemma accept_secret_spec msg c :
  wp (accept_secret msg) (fun o c' => match o with
    | Some p => exists store point,
        ch_pending_counterparty_commitment c = Some p /\
        ch_counterparty_current_point c = Some point /\
        per_commitment_point_of (raa_per_commitment_secret msg) = Some point /\
        insert (ch_counterparty_secrets c)
          (index_for_commitment (ch_counterparty_commitment_number c))
          (raa_per_commitment_secret msg) = Ok store /\
        c' = advanced c store p (raa_next_per_commitment_point msg)
    | None => c' = c end) c.
Proof.
  unfold accept_secret. wp_steps; try done.
  repeat match goal with H : expect _ = Ok _ |- _ => apply expect_Ok in H end.
  match goal with H : negb _ = false |- _ => apply negb_false_iff, bool_decide_eq_true in H end.
  match goal with H : match ?x with _ => _ end = Ok _ |- _ =>
    destruct x eqn:?; try discriminate H; injection H as -> end.
  subst. eauto 10.
Qed.

Lemma punishable_advanced c store p next secret i :
  rev_inv c -> ch_counterparty_commitment_number c <= MAX_INDEX ->
  insert (ch_counterparty_secrets c)
    (index_for_commitment (ch_counterparty_commitment_number c)) secret = Ok store ->
  (punishable c i \/ cci_number i = ch_counterparty_commitment_number c /\
     per_commitment_point_of secret = Some (cci_per_commitment_point i)) ->
  punishable (advanced c store p next) i.
Proof.
  intros Hc Hb Hins Hi. destruct (ri_secrets c Hc) as (secrets & Hlen & Hall).
  pose proof (ri_bound c Hc) as H0.
  assert (Hn : wrap 64 (ch_counterparty_commitment_number c + 1) =
    ch_counterparty_commitment_number c + 1)
    by (apply wrap_small; unfold uint, MAX_INDEX in *; lia).
  assert (Hall' : insert_all store_new 0 (secrets ++ [secret]) = Ok store).
  { eapply insert_all_snoc; [exact Hall|]. by rewrite Z.add_0_l, Hlen. }
  assert (Hlen' : Z.of_nat (length (secrets ++ [secret])) <= 2 ^ 48)
    by (rewrite length_app; cbn; unfold MAX_INDEX in *; lia).
  unfold punishable.
  change (ch_counterparty_commitment_number (advanced c store p next))
    with (wrap 64 (ch_counterparty_commitment_number c + 1)).
  change (ch_counterparty_secrets (advanced c store p next)) with store. rewrite Hn.
  destruct Hi as [[Hi (s & Hs & Hpt)]|[Hi Hpt]].
  - split; [lia|]. exists s. split; [|done].
    destruct (lookup_lt_is_Some_2 secrets (Z.to_nat (cci_number i))) as [x Hx]; [lia|].
    assert (s = x) as ->.
    { assert (H : Z.of_nat (length secrets) <= 2 ^ 48) by (unfold MAX_INDEX in *; lia).
      pose proof (secret_for_insert_all _ _ _ _ H Hall Hx) as Hx'.
      rewrite Z2Nat.id in Hx' by lia. congruence. }
    rewrite <- (Z2Nat.id (cci_number i)) by lia.
    apply (secret_for_insert_all (secrets ++ [secret])); [done..|]. by apply lookup_app_l_Some.
  - split; [lia|]. exists secret. split; [|done].
    rewrite Hi, <- Hlen.
    apply (secret_for_insert_all (secrets ++ [secret])); [done..|].
    by apply list_lookup_middle.
Qed.

Lemma rev_ok_advanced c0 c store p next secret point :
  rev_ok c0 c -> ch_counterparty_commitment_number c <= MAX_INDEX ->
  ch_pending_counterparty_commitment c = Some p ->
  ch_counterparty_current_point c = Some point -> per_commitment_point_of secret = Some point ->
  insert (ch_counterparty_secrets c)
    (index_for_commitment (ch_counterparty_commitment_number c)) secret = Ok store ->
  rev_ok c0 (advanced c store p next).
Proof.
  intros [Hc Hk] Hb Hp Hpt Hsec Hins. pose proof (ri_bound c Hc) as H0.
  destruct (ri_pending c Hc p Hp) as [Hpn Hpp]. destruct (ri_secrets c Hc) as (secrets & Hlen & Hall).
  assert (Hn : wrap 64 (ch_counterparty_commitment_number c + 1) =
    ch_counterparty_commitment_number c + 1)
    by (apply wrap_small; unfold uint, MAX_INDEX in *; lia).
  assert (Hl : late c = true).
  { destruct (late c) eqn:Hl; [done|]. destruct (ri_early c Hc Hl) as (_ & _ & ?). congruence. }
  split; [split|].
  - change (ch_counterparty_commitment_number _)
      with (wrap 64 (ch_counterparty_commitment_number c + 1)). lia.
  - split; [discriminate 1|]. intros H. by destruct H.
  - split; [by intros _ [=]|]. intros _. exact Hl.
  - intros Hl'. change (late c = false) in Hl'. congruence.
  - intros i [= <-]. exact (conj (eq_trans Hpn (eq_sym Hn)) Hpp).
  - discriminate 1.
  - exists (secrets ++ [secret]). split.
    + change (ch_counterparty_commitment_number _)
        with (wrap 64 (ch_counterparty_commitment_number c + 1)).
      rewrite length_app, Hn. cbn. lia.
    + eapply insert_all_snoc; [exact Hall|]. by rewrite Z.add_0_l, Hlen.
  - intros i Hi. destruct (Hk i Hi) as [[Hcur|(q & Hq & <-)]|Hpun].
    + right. eapply punishable_advanced; [done..|]. right.
      destruct (ri_current c Hc i Hcur) as [? ?]. split; [done|]. congruence.
    + left; left. change (Some (pcc_info p) = Some (pcc_info q)). congruence.
    + right. eapply punishable_advanced; [done..|]. by left.
Qed.

Lemma on_revoke_and_ack_rev c0 msg c :
  rev_ok c0 c -> ch_counterparty_commitment_number c <= MAX_INDEX ->
  wp (on_revoke_and_ack msg) (fun _ => rev_ok c0) c.
Proof.
  intros Hc Hb. unfold on_revoke_and_ack. apply wp_bind, wp_throw_if; intros _; [done|].
  apply wp_bind. eapply wp_mono; [apply accept_secret_spec|].
  intros [p|] c1; [|by intros ->]. intros (store & point & Hp & Hpt & Hsec & Hins & ->).
  apply wp_preserves; [|by eapply rev_ok_advanced].
  rev_tac; auto using flush_rev, collect_forwardable_rev, send_commitment_signed_rev.
Qed.

Lemma step_rev e c c' : rev_inv c -> ch_counterparty_commitment_number c <= MAX_INDEX ->
  step_by e c c' -> rev_ok c c'.
Proof.
  intros Hc Hb Hstep. apply (wp_step_by (rev_ok c) e c c' Hstep). clear Hstep c'.
  apply rev_ok_refl in Hc.
  destruct e; cbn [run_event];
    try (apply wp_preserves; [|exact Hc]; try apply preserves_discard;
      auto using on_accept_channel_rev, funding_created_rev, on_funding_created_rev,
        on_funding_signed_rev, funding_confirmed_rev, on_channel_ready_rev, send_add_htlc_rev,
        send_fulfill_htlc_rev, send_fail_htlc_rev, send_fail_malformed_htlc_rev,
        send_update_fee_rev, on_update_add_htlc_rev, on_update_fulfill_htlc_rev,
        on_update_fail_htlc_rev, on_update_fail_malformed_htlc_rev, on_update_fee_rev,
        send_commitment_signed_rev, on_commitment_signed_rev, send_shutdown_rev, on_shutdown_rev,
        on_disconnect_rev; fail).
  all: apply wp_bind.
  - eapply wp_mono; [by apply on_revoke_and_ack_rev|]. intros [] ? ?; [by apply wp_ret|done].
  - eapply wp_mono; [by apply maybe_send_closing_signed_rev|]. intros [] ? ?; [by apply wp_ret|done].
  - eapply wp_mono; [by apply on_closing_signed_rev|]. intros [] ? ?; [by apply wp_ret|done].
Qed.

Lemma opened_rev c : opened c -> rev_inv c.
Proof.
  intros H%opened_fresh. destruct_conj.
  assert (Hl : late c = false).
  { unfold late. match goal with H : _ \/ _ |- _ => destruct H as [->|[-> _]] end; done. }
  split; rewrite ?Hl; try congruence.
  - unfold MAX_INDEX. lia.
  - split; congruence.
  - split; congruence.
  - auto.
  - exists []. split; [cbn; lia|]. cbn [insert_all]. congruence.
Qed.

Lemma reachable_rev c : reachable c -> rev_inv c /\ ch_counterparty_commitment_number c <= MAX_INDEX.
Proof.
  apply (reachable_ind_inv (fun c => rev_inv c /\ ch_counterparty_commitment_number c <= MAX_INDEX)).
  - intros c0 H. split; [by apply opened_rev|]. apply opened_fresh in H as (_ & _ & _ & _ & _ & -> & _).
    unfold MAX_INDEX. lia.
  - intros e c1 c2 [H1 Hb] Hs. split; [|apply Hs]. by apply (step_rev e c1 c2).
Qed.

Lemma steps_keep c0 c : reachable c0 -> rtc step c0 c -> keeps c0 c.
Proof.
  intros Hr H. apply reachable_rev in Hr as [Hr Hb].
  induction H as [|c1 c2 c3 (e & He) _ IH]; [by intros i|].
  destruct (step_rev e c1 c2 Hr Hb He) as [Hr2 Hk]. intros i Hi.
  by apply IH; [|apply He|apply Hk].
Qed.

Context (ok : Sg -> Prop) {HCL : ChannelSignerLaws Sg ok}.

(** [C1] No revoked state can be profitably broadcast: take any reachable
    channel, any commitment of the counterparty that we have signed, and any
    later state of the channel (updates, fee changes, disconnections, errors
    in between).  Either the commitment is still unrevoked, or the channel's
    49-entry store gives back a secret for it such that whatever our signer
    signs with that secret verifies under the revocation key of that very
    commitment. *)
Theorem revoked_commitments_punishable c0 c i :
  reachable c0 -> rtc step c0 c -> signed c0 i ->
  signed c i \/
  exists secret,
    secret_for (ch_counterparty_secrets c) (index_for_commitment (cci_number i)) = Some secret /\
    forall h sg theirs keys, ok (ch_signer c) ->
      sign_revocation (ch_signer c) h secret = Some sg ->
      tx_creation_keys (cci_per_commitment_point i) theirs (pubkeys (ch_signer c)) = Some keys ->
      verify_ecdsa h sg (revocation_key keys) = true.
Proof.
  intros Hr Hsteps Hs. destruct (steps_keep c0 c Hr Hsteps i (or_introl Hs)) as [H|(_ & secret & Hsec & Hpt)];
    [by left|right]. exists secret. split; [done|]. intros h sg theirs keys Hok Hsg Hkeys.
  destruct (signer_revocation _ h _ sg Hok Hsg) as (point & k & Hp & Hk & Hv).
  rewrite Hpt in Hp. injection Hp as <-. unfold tx_creation_keys in Hkeys. rewrite Hk in Hkeys.
  cbn [mbind option_bind] in Hkeys.
  do 3 (apply bind_Some in Hkeys as (? & _ & Hkeys)). injection Hkeys as <-. exact Hv.
Qed.

(** [C10] At most one commitment of ours is unacknowledged: in every reachable
    state the awaiting flag says exactly whether a commitment is in flight,
    it is then numbered one above the last revoked-to commitment and uses the
    point the peer announced for it, and a second [commitment_signed] or an
    unsolicited [revoke_and_ack] is refused without a change. *)
Theorem one_commitment_in_flight c :
  reachable c ->
  (ch_awaiting_raa c = true <-> ch_pending_counterparty_commitment c <> None) /\
  (forall p, ch_pending_counterparty_commitment c = Some p ->
     cci_number (pcc_info p) = ch_counterparty_commitment_number c + 1 /\
     ch_counterparty_next_point c = Some (cci_per_commitment_point (pcc_info p)) /\
     send_commitment_signed c = (Err (InvalidState "commitment already in flight"), c)) /\
  (ch_pending_counterparty_commitment c = None ->
     forall msg, on_revoke_and_ack msg c = (Err (Close "unexpected revoke_and_ack"), c)).
Proof.
  intros [H _]%reachable_rev. split; [apply H|]. split.
  - intros p Hp. destruct (ri_pending c H p Hp) as [Hn Hpt]. do 2 (split; [done|]).
    assert (Ha : ch_awaiting_raa c = true) by (apply (ri_await c H); congruence).
    unfold send_commitment_signed, throw_if, mbind, stm_bind. rewrite Ha. reflexivity.
  - intros Hp msg. assert (Ha : ch_awaiting_raa c = false).
    { destruct (ch_awaiting_raa c) eqn:E; [|done]. by apply (ri_await c H) in E. }
    unfold on_revoke_and_ack, throw_if, mbind, stm_bind. rewrite Ha. reflexivity.
Qed.

End Revocation.
