(* ===== verification/Holder.v ===== *)
(** * Holder: our own commitment can always be broadcast, and is never revealed

    The invariant on the holder side: the stored commitment carries a valid
    signature of the counterparty and its number is the holder's commitment
    number, over every operation of the channel. *)
From stdpp Require Import relations.
From S2P Require Import Prelude Secp Types Msgs Tx Shachain Keys Commitment Interp Channel Dance Close Reestablish Machine.

Create HintDb holder.

Lemma sighash_total tx redeem amount ty :
  input tx <> [] ->
  exists h, segwit_v0_sighash (sighash_cache_new tx) 0 redeem amount ty = Ok h.
Proof.
  intros H. unfold segwit_v0_sighash. cbn [sc_tx sighash_cache_new].
  destruct (input tx) as [|i l] eqn:E; [done|]. eexists. reflexivity.
Qed.

Section Holder.
Context `{HS : Secp} {Sg : Type} `{HCS : !ChannelSigner Sg}.
Abbreviation Channel := (Channel (Sg := Sg)).

Lemma funding_sighash_total (c : Channel) cp tx :
  ch_counterparty_pubkeys c = Some cp -> input tx <> [] -> exists h, funding_sighash c tx = Ok h.
Proof.
  intros Hcp Htx. unfold funding_sighash, counterparty. rewrite Hcp. cbn [ok_or mbind result_bind].
  destruct (sighash_total tx (funding_redeemscript (funding_pubkey (ch_holder_pubkeys c))
    (funding_pubkey cp)) (ch_funding_amount_sat c) All Htx) as [h Hh].
  exists h. cbv zeta. rewrite Hh. reflexivity.
Qed.

Lemma build_holder_input (c : Channel) n built keys hs :
  build_holder_commitment_at c n = Ok (built, keys, hs) -> input (built_tx built) <> [].
Proof.
  unfold build_holder_commitment_at. intros H. bind_inv. destruct (balances_for c true).
  bind_inv. discriminate.
Qed.

(** The states in which the channel is funded. *)
Definition funded (c : Channel) : bool :=
  match ch_state c with OpenSent | AcceptSent | FundingCreatedSent => false | _ => true end.
Definition accepting (c : Channel) : bool := bool_decide (ch_state c = OpenSent).

(** A stored commitment the counterparty has signed. *)
Definition holder_signed (c : Channel) (hc : HolderCommitment) : Prop :=
  input (built_tx (hc_built hc)) <> [] /\
  exists cp h, ch_counterparty_pubkeys c = Some cp /\
    funding_sighash c (built_tx (hc_built hc)) = Ok h /\
    verify_ecdsa h (hc_counterparty_sig hc) (funding_pubkey cp) = true.

Record hold_inv (c : Channel) : Prop := {
  hi_bound : 0 <= ch_holder_commitment_number c <= MAX_INDEX + 1;
  hi_keys : ch_holder_pubkeys c = pubkeys (ch_signer c);
  hi_funded : funded c = true -> ch_current_holder_commitment c <> None;
  hi_accepting : accepting c = true -> ch_current_holder_commitment c = None;
  hi_unfunded : funded c = false -> ch_holder_commitment_number c = 0;
  hi_stored : forall hc, ch_current_holder_commitment c = Some hc ->
    hc_number hc = ch_holder_commitment_number c /\ holder_signed c hc;
}.

(** What it depends on. *)
Definition hold_view (c : Channel) :=
  (funded c, accepting c, ch_signer c, ch_holder_pubkeys c, ch_counterparty_pubkeys c,
   ch_funding_amount_sat c, ch_holder_commitment_number c, ch_current_holder_commitment c).

Lemma funding_sighash_ext (c c' : Channel) tx :
  ch_counterparty_pubkeys c' = ch_counterparty_pubkeys c ->
  ch_holder_pubkeys c' = ch_holder_pubkeys c ->
  ch_funding_amount_sat c' = ch_funding_amount_sat c ->
  funding_sighash c' tx = funding_sighash c tx.
Proof. intros E1 E2 E3. unfold funding_sighash, counterparty. by rewrite E1, E2, E3. Qed.

Lemma hold_inv_view c c' : hold_view c' = hold_view c -> hold_inv c -> hold_inv c'.
Proof.
  unfold hold_view. intros [= E1 E2 E3 E4 E5 E6 E7 E8] [].
  split; rewrite ?E1, ?E2, ?E3, ?E4, ?E5, ?E6, ?E7, ?E8; try assumption.
  intros hc Hhc. destruct (hi_stored0 hc Hhc) as [Hn [Hi Hs]]. split; [done|split; [done|]].
  setoid_rewrite E5. by setoid_rewrite (funding_sighash_ext c c' _ E5 E4 E6).
Qed.

Lemma preserves_hold (f : Channel -> Channel) :
  (forall c, hold_view (f c) = hold_view c) ->
  preserves (E := ChannelError) hold_inv (modify f).
Proof. intros H. apply preserves_modify. intros c Hc. by apply (hold_inv_view c). Qed.

Lemma lock_in_hold c : hold_view (lock_in c) = hold_view c.
Proof.
  unfold lock_in. cbv zeta. destruct (ch_pending_fee_ack _); [reflexivity|].
  destruct (existsb snd _); reflexivity.
Qed.
Lemma lock_in_signer (c : Channel) : ch_signer (lock_in c) = ch_signer c.
Proof. pose proof (lock_in_hold c) as H. unfold hold_view in H. by injection H. Qed.
Lemma apply_pending_hold p c : hold_view (apply_pending p c) = hold_view c.
Proof. unfold apply_pending. destruct (pcc_fee_update p); reflexivity. Qed.
Lemma maybe_become_normal_hold c : hold_view (maybe_become_normal c) = hold_view c.
Proof.
  unfold maybe_become_normal. destruct (bool_decide_reflect (ch_state c = AwaitingChannelReady)) as [E|];
    [|reflexivity].
  destruct (ch_channel_ready_sent c), (ch_channel_ready_received c); try reflexivity.
  unfold hold_view, funded, accepting. rewrite E. reflexivity.
Qed.

Ltac hold_tac := preserve; try
  (apply preserves_hold; intros ?; cbv zeta;
   first [ reflexivity | apply lock_in_hold | apply apply_pending_hold
         | (etransitivity; [apply maybe_become_normal_hold|reflexivity])
         | repeat case_match; reflexivity ]).

(** Moving between funded states. *)
Definition funded_inv (c : Channel) : Prop := hold_inv c /\ funded c = true.

Lemma funded_accepting c : funded c = true -> accepting c = false.
Proof. unfold funded, accepting. by destruct (ch_state c). Qed.

Lemma preserves_funded (f : Channel -> Channel) :
  (forall c, funded c = true -> hold_view (f c) = hold_view c) ->
  preserves (E := ChannelError) funded_inv (modify f).
Proof.
  intros H. apply preserves_modify. intros c [Hc Hl]. specialize (H c Hl). split.
  - by apply (hold_inv_view c).
  - unfold hold_view in H. by injection H as ->.
Qed.

Ltac funded_tac := preserve; try
  (let Hf := fresh in
   apply preserves_funded; unfold hold_view; intros ? Hf; cbv zeta; repeat case_match;
   first [reflexivity | (rewrite Hf, (funded_accepting _ Hf); reflexivity)]).

Lemma in_funded {A} (m : stm Channel ChannelError A) c :
  preserves funded_inv m -> hold_inv c -> funded c = true -> wp m (fun _ => hold_inv) c.
Proof.
  intros Hm Hc Hf. apply (wp_mono _ (fun _ => funded_inv)); [|by intros ? ? []].
  by apply wp_preserves.
Qed.

Lemma send_add_htlc_hold a h t o s : preserves hold_inv (send_add_htlc a h t o s).
Proof. unfold send_add_htlc, push_cell. hold_tac. Qed.
Lemma send_fulfill_htlc_hold id p : preserves hold_inv (send_fulfill_htlc id p).
Proof. unfold send_fulfill_htlc, push_cell. hold_tac. Qed.
Lemma send_fail_htlc_hold id p : preserves hold_inv (send_fail_htlc id p).
Proof. unfold send_fail_htlc, push_cell. hold_tac. Qed.
Lemma send_fail_malformed_htlc_hold id s f : preserves hold_inv (send_fail_malformed_htlc id s f).
Proof. unfold send_fail_malformed_htlc, push_cell. hold_tac. Qed.
#[local] Hint Resolve send_add_htlc_hold send_fulfill_htlc_hold send_fail_htlc_hold
  send_fail_malformed_htlc_hold : holder.

Lemma flush_hold ops o : preserves hold_inv (flush ops o).
Proof.
  revert o; induction ops as [|op ops IH]; intros o; cbn [flush]; [apply preserves_ret|].
  apply preserves_bind; [|done].
  destruct op; cbn [flush_op]; preserve; auto with holder.
Qed.

Lemma send_commitment_signed_hold : preserves hold_inv send_commitment_signed.
Proof. unfold send_commitment_signed. hold_tac. Qed.
Lemma on_revoke_and_ack_hold msg : preserves hold_inv (on_revoke_and_ack msg).
Proof.
  unfold on_revoke_and_ack, accept_secret, collect_forwardable.
  hold_tac; auto using flush_hold, send_commitment_signed_hold.
Qed.
Lemma funding_confirmed_hold scid : preserves hold_inv (funding_confirmed scid).
Proof. unfold funding_confirmed. hold_tac. Qed.
Lemma on_channel_ready_hold msg : preserves hold_inv (on_channel_ready msg).
Proof. unfold on_channel_ready. hold_tac. Qed.
Lemma send_update_fee_hold f : preserves hold_inv (send_update_fee f).
Proof. unfold send_update_fee. hold_tac. Qed.
Lemma on_update_add_htlc_hold msg : preserves hold_inv (on_update_add_htlc msg).
Proof. unfold on_update_add_htlc. hold_tac. Qed.
Lemma on_update_fulfill_htlc_hold msg : preserves hold_inv (on_update_fulfill_htlc msg).
Proof. unfold on_update_fulfill_htlc, resolve_outbound. hold_tac. Qed.
Lemma on_update_fail_htlc_hold msg : preserves hold_inv (on_update_fail_htlc msg).
Proof. unfold on_update_fail_htlc, resolve_outbound. hold_tac. Qed.
Lemma on_update_fail_malformed_htlc_hold msg :
  preserves hold_inv (on_update_fail_malformed_htlc msg).
Proof. unfold on_update_fail_malformed_htlc, resolve_outbound. hold_tac. Qed.
Lemma on_update_fee_hold msg : preserves hold_inv (on_update_fee msg).
Proof. unfold on_update_fee. hold_tac. Qed.
Lemma on_disconnect_hold : preserves hold_inv on_disconnect.
Proof. unfold on_disconnect. hold_tac. Qed.

Lemma shutdown_allowed_funded (c : Channel) : negb (shutdown_allowed c) = false -> funded c = true.
Proof. unfold shutdown_allowed, funded. by destruct (ch_state c). Qed.
Lemma ready_funded (c : Channel) : ready_to_negotiate_close c = true -> funded c = true.
Proof. unfold ready_to_negotiate_close, funded. by destruct (ch_state c). Qed.

Lemma send_shutdown_funded script : preserves funded_inv (send_shutdown script).
Proof. unfold send_shutdown. funded_tac. Qed.

Lemma send_shutdown_hold script : preserves hold_inv (send_shutdown script).
Proof.
  intros c Hc. unfold send_shutdown. apply wp_bind, wp_throw_if; intros Hs; [done|].
  apply in_funded; [funded_tac|done|by apply shutdown_allowed_funded].
Qed.

Lemma on_shutdown_hold msg script : preserves hold_inv (on_shutdown msg script).
Proof.
  intros c Hc. unfold on_shutdown. apply wp_bind, wp_throw_if; intros Hs; [done|].
  apply in_funded; [funded_tac; apply send_shutdown_funded|done|by apply shutdown_allowed_funded].
Qed.

Lemma maybe_send_closing_signed_hold f : preserves hold_inv (maybe_send_closing_signed f).
Proof.
  intros c Hc. unfold maybe_send_closing_signed. apply wp_bind, wp_gets.
  destruct (ready_to_negotiate_close c) eqn:Hr; cbn [negb]; [|by apply wp_ret].
  apply in_funded; [funded_tac|done|by apply ready_funded].
Qed.

Lemma finalize_closing_funded fee sig : preserves funded_inv (finalize_closing fee sig).
Proof. unfold finalize_closing. funded_tac. Qed.
Lemma closing_signed_msg_funded fee range : preserves funded_inv (closing_signed_msg fee range).
Proof. unfold closing_signed_msg. funded_tac. Qed.

Lemma on_closing_signed_hold msg f : preserves hold_inv (on_closing_signed msg f).
Proof.
  intros c Hc. unfold on_closing_signed. apply wp_bind, wp_throw_if; intros Hs; [done|].
  apply negb_false_iff in Hs.
  apply in_funded; [|done|by apply ready_funded].
  unfold on_closing_range, on_closing_legacy. funded_tac;
    auto using finalize_closing_funded, closing_signed_msg_funded.
Qed.

(** The operations that store a commitment. *)
Lemma verify_sig_signed (c : Channel) built sig u n keys hs hsigs fr :
  input (built_tx built) <> [] -> verify_counterparty_funding_sig c built sig = Ok u ->
  holder_signed c {| hc_number := n; hc_built := built; hc_counterparty_sig := sig;
    hc_counterparty_htlc_sigs := hsigs; hc_htlcs := hs; hc_keys := keys; hc_feerate := fr |}.
Proof.
  intros Hi H. unfold verify_counterparty_funding_sig, counterparty in H. bind_inv.
  split; [done|]. do 2 eexists. split; [done|]. split; [done|]. by apply negb_false_iff.
Qed.

Lemma hold_inv_store (c : Channel) n hc :
  hold_inv c -> accepting c = false -> 0 <= n <= MAX_INDEX + 1 -> (funded c = false -> n = 0) ->
  hc_number hc = n -> holder_signed c hc ->
  hold_inv (c <| ch_current_holder_commitment := Some hc |> <| ch_holder_commitment_number := n |>).
Proof.
  intros Hc Ha Hn H0 Hnum Hs. split; try done.
  - apply Hc.
  - intros Hacc. change (accepting c = true) in Hacc. congruence.
  - intros hc' [= <-]. split; [done|exact Hs].
Qed.

Lemma accept_holder_0_hold sig c :
  hold_inv c -> accepting c = false -> funded c = false ->
  wp (accept_holder_0 sig) (fun o c' => hold_inv c' /\ ch_state c' = ch_state c /\
    (o <> None -> ch_current_holder_commitment c' <> None)) c.
Proof.
  intros Hc Ha Hf. unfold accept_holder_0. wp_steps; try done.
  split; [|by split].
  apply (hold_inv_view (c <| ch_current_holder_commitment := Some
    {| hc_number := 0; hc_built := b; hc_counterparty_sig := sig;
       hc_counterparty_htlc_sigs := []; hc_htlcs := l; hc_keys := t;
       hc_feerate := ch_feerate_holder c |} |> <| ch_holder_commitment_number := 0 |>)).
  { unfold hold_view. rewrite (hi_unfunded c Hc Hf) at 1. reflexivity. }
  apply hold_inv_store; [done|done|unfold MAX_INDEX; lia|done|done|].
  eapply verify_sig_signed; [by eapply build_holder_input|done].
Qed.

Lemma on_accept_channel_hold msg : preserves hold_inv (on_accept_channel msg).
Proof.
  intros c Hc. unfold on_accept_channel. apply wp_bind, wp_throw_if; intros Hs; [done|].
  apply negb_false_iff in Hs. wp_steps; try done.
  pose proof (hi_accepting c Hc Hs) as Hnone. split; try apply Hc.
  intros hc Hhc. change (ch_current_holder_commitment c = Some hc) in Hhc. congruence.
Qed.

Lemma sign_counterparty_0_hold c :
  wp sign_counterparty_0 (fun _ c' => hold_view c' = hold_view c) c.
Proof. unfold sign_counterparty_0. wp_steps; reflexivity. Qed.

Lemma hold_inv_state (c : Channel) s :
  hold_inv c -> ch_current_holder_commitment c <> None -> s <> OpenSent ->
  (funded (c <| ch_state := s |>) = false -> funded c = false) -> hold_inv (c <| ch_state := s |>).
Proof.
  intros Hc Hsome Hs Hf. split; try apply Hc.
  - done.
  - intros Hacc. apply bool_decide_eq_true in Hacc. done.
  - intros H. by apply Hc, Hf.
Qed.

Lemma funding_created_hold txid vout : preserves hold_inv (funding_created txid vout).
Proof.
  intros c Hc. unfold funding_created. apply wp_bind, wp_throw_if; intros Hs; [done|].
  assert (Hst : ch_state c = OpenSent) by (by destruct (ch_state c), (ch_role c)).
  apply wp_bind, wp_throw_if; intros _; [done|]. apply wp_bind, wp_modify, wp_bind.
  set (c1 := c <| _ := _ |> <| ch_channel_id := _ |>).
  assert (Hv : hold_view c1 = hold_view c) by reflexivity. clearbody c1.
  eapply wp_mono; [apply sign_counterparty_0_hold|]. intros o c2 Hv2. rewrite Hv in Hv2.
  assert (Hc2 : hold_inv c2) by (by apply (hold_inv_view c)). destruct o; [|done].
  wp_steps. unfold hold_view in Hv2. injection Hv2 as E1 E2 E3 E4 E5 E6 E7 E8.
  assert (Ha : accepting c = true) by (unfold accepting; by rewrite Hst).
  assert (Hnone : ch_current_holder_commitment c2 = None) by (rewrite E8; by apply (hi_accepting c)).
  assert (H0 : ch_holder_commitment_number c2 = 0).
  { apply (hi_unfunded c2 Hc2). rewrite E1. unfold funded. by rewrite Hst. }
  split; try apply Hc2; try done.
Qed.

Lemma on_funding_created_hold msg : preserves hold_inv (on_funding_created msg).
Proof.
  intros c Hc. unfold on_funding_created. apply wp_bind, wp_throw_if; intros Hs; [done|].
  assert (Hst : ch_state c = AcceptSent) by (by destruct (ch_state c)).
  apply wp_bind, wp_modify, wp_bind.
  set (c1 := c <| _ := _ |> <| ch_channel_id := _ |>).
  assert (Hv : hold_view c1 = hold_view c) by reflexivity.
  assert (Hst1 : ch_state c1 = AcceptSent) by exact Hst. clearbody c1.
  assert (Hc1 : hold_inv c1) by (by apply (hold_inv_view c)).
  eapply wp_mono; [apply accept_holder_0_hold; [done|..]|].
  { unfold accepting. by rewrite Hst1. } { unfold funded. by rewrite Hst1. }
  intros o c2 (Hc2 & Hst2 & Hsome). destruct o as [[]|]; [|done]. apply wp_bind.
  eapply wp_mono; [apply sign_counterparty_0_hold|]. intros o c3 Hv3.
  assert (Hc3 : hold_inv c3) by (by apply (hold_inv_view c2)). destruct o; [|done].
  unfold hold_view in Hv3. injection Hv3 as E1 E2 E3 E4 E5 E6 E7 E8.
  wp_steps. apply hold_inv_state; [done| |done|done]. rewrite E8. by apply Hsome.
Qed.

Lemma on_funding_signed_hold msg : preserves hold_inv (on_funding_signed msg).
Proof.
  intros c Hc. unfold on_funding_signed. apply wp_bind, wp_throw_if; intros Hs; [done|].
  assert (Hst : ch_state c = FundingCreatedSent) by (by destruct (ch_state c)).
  apply wp_bind, wp_throw_if; intros _; [done|]. apply wp_bind.
  eapply wp_mono; [apply accept_holder_0_hold; [done|..]|].
  { unfold accepting. by rewrite Hst. } { unfold funded. by rewrite Hst. }
  intros o c2 (Hc2 & Hst2 & Hsome). destruct o as [[]|]; [|done].
  apply wp_modify. apply hold_inv_state; [done| |done|done]. by apply Hsome.
Qed.

(** What a successful [on_commitment_signed] did. *)
Lemma on_commitment_signed_spec msg c :
  wp (on_commitment_signed msg) (fun o c' => match o with
    | None => c' = c
    | Some raa => normal_or_shutting_down c = true /\
        exists built keys hs hc,
        let n := wrap 64 (ch_holder_commitment_number c + 1) in
        build_holder_commitment_at c n = Ok (built, keys, hs) /\
        hc_number hc = n /\ hc_built hc = built /\ hc_counterparty_sig hc = cs_signature msg /\
        hc_htlcs hc = hs /\ hc_keys hc = keys /\
        hc_counterparty_htlc_sigs hc = cs_htlc_signatures msg /\
        hc_feerate hc = ch_feerate_holder c /\
        holder_signed c hc /\
        length (cs_htlc_signatures msg) = length (htlcs_in_output_order built) /\
        verify_htlc_sigs c built keys hs
          (combine (cs_htlc_signatures msg) (htlcs_in_output_order built)) = Ok tt /\
        raa_per_commitment_secret raa = release_commitment_secret (ch_signer c) (wrap 64 (n - 1)) /\
        c' = lock_in (c <| ch_current_holder_commitment := Some hc |>
                        <| ch_holder_commitment_number := n |>)
    end) c.
Proof.
  unfold on_commitment_signed. wp_steps; try done.
  split; [by apply negb_false_iff|]. do 3 eexists. eexists (Build_HolderCommitment _ _ _ _ _ _ _). cbv zeta. split; [done|].
  do 7 (split; [reflexivity|]).
  split; [eapply verify_sig_signed; [by eapply build_holder_input|done]|].
  split; [by apply Nat.eqb_eq, negb_false_iff|].
  split; [by match goal with a : unit |- _ => destruct a end|].
  split; [|reflexivity]. cbn [raa_per_commitment_secret]. by rewrite lock_in_signer.
Qed.

Lemma on_commitment_signed_hold msg c :
  hold_inv c -> ch_holder_commitment_number c <= MAX_INDEX ->
  wp (on_commitment_signed msg) (fun _ => hold_inv) c.
Proof.
  intros Hc Hb. eapply wp_mono; [apply on_commitment_signed_spec|].
  intros [raa|] c'; [|by intros ->].
  intros (Hst & built & keys & hs & hc & Hbuilt & Hn & _ & _ & _ & _ & _ & _ & Hs & _ & _ & _ & ->).
  eapply hold_inv_view; [apply lock_in_hold|].
  pose proof (hi_bound c Hc) as H0.
  assert (Hwrap : wrap 64 (ch_holder_commitment_number c + 1) = ch_holder_commitment_number c + 1)
    by (apply wrap_small; unfold uint, MAX_INDEX in *; lia).
  assert (Hf : funded c = true)
    by (unfold normal_or_shutting_down in Hst; unfold funded; by destruct (ch_state c)).
  apply hold_inv_store; [done|by apply funded_accepting|rewrite Hwrap; lia|congruence|done|done].
Qed.

Lemma step_hold e c c' : hold_inv c -> ch_holder_commitment_number c <= MAX_INDEX ->
  step_by e c c' -> hold_inv c'.
Proof.
  intros Hc Hb Hstep. apply (wp_step_by hold_inv e c c' Hstep). clear Hstep c'.
  destruct e; cbn [run_event];
    try (apply wp_preserves; [|exact Hc]; try apply preserves_discard;
      auto using on_accept_channel_hold, funding_created_hold, on_funding_created_hold,
        on_funding_signed_hold, funding_confirmed_hold, on_channel_ready_hold,
        send_update_fee_hold, on_update_add_htlc_hold, on_update_fulfill_htlc_hold,
        on_update_fail_htlc_hold, on_update_fail_malformed_htlc_hold, on_update_fee_hold,
        send_commitment_signed_hold, on_revoke_and_ack_hold, send_shutdown_hold,
        on_shutdown_hold, maybe_send_closing_signed_hold, on_closing_signed_hold,
        on_disconnect_hold with holder; fail).
  apply wp_bind. eapply wp_mono; [by apply on_commitment_signed_hold|].
  intros [] ? ?; [by apply wp_ret|done].
Qed.

Lemma opened_hold c : opened c -> hold_inv c.
Proof.
  intros H%opened_fresh. destruct_conj.
  assert (Hf : funded c = false).
  { unfold funded. match goal with H : _ \/ _ |- _ => destruct H as [->|[-> _]] end; done. }
  split; rewrite ?Hf; try congruence. unfold MAX_INDEX. lia.
Qed.

Lemma reachable_hold c : reachable c -> hold_inv c /\ ch_holder_commitment_number c <= MAX_INDEX.
Proof.
  apply (reachable_ind_inv (fun c => hold_inv c /\ ch_holder_commitment_number c <= MAX_INDEX)).
  - intros c0 H. split; [by apply opened_hold|].
    apply opened_fresh in H as (_ & _ & _ & _ & _ & _ & -> & _). unfold MAX_INDEX. lia.
  - intros e c1 c2 [H1 Hb] Hs. split; [|apply Hs]. by apply (step_hold e c1 c2).
Qed.

(** The revocations [on_channel_reestablish] may send. *)
Lemma in_updates_not_raa (c : Channel) (raa : RevokeAndAck) adds removals :
  MRevokeAndAck raa ∈ map (add_msg c) adds ++ concat (map (removal_msg c) removals) -> False.
Proof.
  rewrite elem_of_app, list_elem_of_fmap. intros [(h & [=] & _)|H].
  apply list_elem_of_In, in_concat in H as (l & Hl & Hin).
  apply in_map_iff in Hl as (h & <- & _). unfold removal_msg in Hin.
  destruct (h_resolution h) as [[]|]; cbn in Hin; intuition discriminate.
Qed.

Lemma retransmit_no_raa (c : Channel) msgs raa :
  retransmit c = Ok msgs -> MRevokeAndAck raa ∈ msgs -> False.
Proof.
  unfold retransmit. intros H Hin. bind_inv. destruct_conj.
  repeat match goal with x : _ * _ |- _ => destruct x end. bind_inv.
  rewrite app_assoc in Hin. apply elem_of_app in Hin as [Hin|Hin]; [by eapply in_updates_not_raa|].
  destruct (pcc_fee_update _); cbn [app] in Hin;
    repeat apply elem_of_cons in Hin as [[=]|Hin]; by apply not_elem_of_nil in Hin.
Qed.

Lemma reestablish_commitments_raa (c : Channel) msg msgs acts raa :
  reestablish_commitments c msg msgs = Ok acts -> MRevokeAndAck raa ∈ ra_messages acts ->
  MRevokeAndAck raa ∈ msgs.
Proof.
  unfold reestablish_commitments. cbv zeta. intros H Hin.
  apply bind_Ok in H as (_ & _ & H). apply bind_Ok in H as (r & Hr & H).
  destruct r as [msgs'|]; [|by injection H as <-].
  assert (Hin' : MRevokeAndAck raa ∈ msgs').
  { case_match; [|by injection H as <-]. apply bind_Ok in H as (pt & _ & H). injection H as <-.
    by apply elem_of_cons in Hin as [[=]|Hin]. }
  clear H Hin. destruct (_ && ch_awaiting_raa c); [|by repeat case_match; simplify_eq].
  apply bind_Ok in Hr as (more & Hmore & [= <-]).
  apply elem_of_app in Hin' as [|Hin']; [done|]. by destruct (retransmit_no_raa c more raa Hmore).
Qed.

Lemma reestablish_raa (c : Channel) msg acts raa :
  on_channel_reestablish c msg = Ok acts -> MRevokeAndAck raa ∈ ra_messages acts ->
  0 < ch_holder_commitment_number c /\
  raa_per_commitment_secret raa =
    release_commitment_secret (ch_signer c) (wrap 64 (ch_holder_commitment_number c - 1)).
Proof.
  unfold on_channel_reestablish. intros H Hin. apply bind_Ok in H as (view & Hview & H).
  destruct view as [r| |]; [| |by injection H as <-; apply not_elem_of_nil in Hin];
    apply (reestablish_commitments_raa _ _ _ _ raa) in H; try done;
    [|by apply not_elem_of_nil in H].
  apply list_elem_of_singleton in H as [= <-]. unfold revocation_view in Hview. cbv zeta in Hview.
  destruct (_ && (0 <? ch_holder_commitment_number c)) eqn:E; [|by repeat case_match].
  apply andb_true_iff in E as [_ E]. apply bind_Ok in Hview as (pt & _ & [= <-]).
  split; [lia|done].
Qed.

Context (ok : Sg -> Prop) {HCL : ChannelSignerLaws Sg ok} {HL : SecpLaws HS}.

(** [C3] The funds are never locked in: in every reachable funded state (mid
    update, mid dance, after errors and disconnections) the channel can
    broadcast its current commitment.  The transaction is the stored one with
    a witness of two signatures over its BIP 143 hash, ours valid under our
    funding key and the peer's under its own.  Run by an interpreter of the
    network's rules ([Interp]) against the script of the funding output, that
    witness is accepted: each signature stands where the 2-of-2 looks for it,
    whichever of the two keys sorts first. *)
Theorem unilateral_close_available c :
  reachable c -> funded c = true -> ok (ch_signer c) ->
  exists hc cp h our_sig tx spk w,
    ch_current_holder_commitment c = Some hc /\
    ch_counterparty_pubkeys c = Some cp /\
    hc_number hc = ch_holder_commitment_number c /\
    signed_holder_commitment_tx c = Ok tx /\
    serialize_legacy tx = serialize_legacy (built_tx (hc_built hc)) /\
    funding_sighash c (built_tx (hc_built hc)) = Ok h /\
    verify_ecdsa h our_sig (funding_pubkey (pubkeys (ch_signer c))) = true /\
    verify_ecdsa h (hc_counterparty_sig hc) (funding_pubkey cp) = true /\
    witness <$> head (input tx) = Some w /\
    w = funding_spend_witness (funding_pubkey (ch_holder_pubkeys c)) (funding_pubkey cp)
      our_sig (hc_counterparty_sig hc) /\
    funding_script_pubkey c = Ok spk /\
    forall check : bytes -> bytes -> bool,
      (forall s k, verify_ecdsa h s k = true ->
         check (sig_with_sighash_all s) (pk_serialize k) = true) ->
      p2wsh_accepts check spk w = true.
Proof.
  intros [Hc _]%reachable_hold Hf Hok.
  destruct (ch_current_holder_commitment c) as [hc|] eqn:Hhc; [|by apply (hi_funded c Hc) in Hf].
  destruct (hi_stored c Hc hc Hhc) as (Hn & Hin & cp & h & Hcp & Hh & Hv).
  destruct (input (built_tx (hc_built hc))) as [|i rest] eqn:Ei; [done|].
  pose proof (signer_funding (ch_signer c) h Hok) as Hours.
  exists hc, cp, h, (sign_with_funding_key (ch_signer c) h). do 3 eexists.
  do 3 (split; [done|]).
  split. { unfold signed_holder_commitment_tx, counterparty. rewrite Hhc, Hcp.
    cbn [ok_or mbind result_bind]. rewrite Hh. cbn [mbind result_bind]. cbv zeta.
    unfold set_witness0. rewrite Ei. reflexivity. }
  split. { apply skeleton_legacy. unfold same_skeleton. cbn [version input lock_time output map].
    by rewrite Ei. }
  do 3 (split; [done|]). do 2 (split; [reflexivity|]).
  split. { unfold funding_script_pubkey, counterparty. rewrite Hcp. reflexivity. }
  intros check Hcheck. apply (funding_spend_accepted check h); [done| |done].
  by rewrite (hi_keys c Hc).
Qed.

(** [C2] A secret is revealed only for a commitment that has been replaced.
    When [commitment_signed] is accepted the answer carries the secret of the
    old number, and the stored commitment is then the next number, built for
    the updates of the moment, with the peer's signature and every HTLC
    signature verified; when it is refused nothing changes.  After a
    reconnection the only secret ever repeated is the one below the stored
    commitment. *)
Theorem revealed_secrets_are_old c :
  reachable c ->
  (forall msg r c', on_commitment_signed msg c = (r, c') ->
     match r with
     | Ok raa => exists built keys hs hc,
         raa_per_commitment_secret raa =
           release_commitment_secret (ch_signer c) (ch_holder_commitment_number c) /\
         ch_holder_commitment_number c' = ch_holder_commitment_number c + 1 /\
         ch_current_holder_commitment c' = Some hc /\
         hc_number hc = ch_holder_commitment_number c + 1 /\
         build_holder_commitment_at c (ch_holder_commitment_number c + 1) = Ok (built, keys, hs) /\
         hc_built hc = built /\ holder_signed c hc /\
         length (cs_htlc_signatures msg) = length (htlcs_in_output_order built) /\
         verify_htlc_sigs c built keys hs
           (combine (cs_htlc_signatures msg) (htlcs_in_output_order built)) = Ok tt
     | Err _ => c' = c
     | Panic => True
     end) /\
  (forall msg acts raa, on_channel_reestablish c msg = Ok acts ->
     MRevokeAndAck raa ∈ ra_messages acts ->
     exists n, raa_per_commitment_secret raa = release_commitment_secret (ch_signer c) n /\
       0 <= n /\ n + 1 = ch_holder_commitment_number c).
Proof.
  intros [Hc Hb]%reachable_hold. pose proof (hi_bound c Hc) as H0.
  assert (Hwrap : wrap 64 (ch_holder_commitment_number c + 1) = ch_holder_commitment_number c + 1)
    by (apply wrap_small; unfold uint, MAX_INDEX in *; lia).
  split.
  - intros msg r c' Hr. pose proof (on_commitment_signed_spec msg c) as Hspec.
    unfold wp in Hspec. rewrite Hr in Hspec. destruct r as [raa| |]; [|done|done].
    destruct Hspec as (_ & built & keys & hs & hc & Hbuilt & Hn & Hhb & _ & _ & _ & _ & _ & Hs & Hl & Hv & Hsec & ->).
    rewrite Hwrap in *. exists built, keys, hs, hc.
    split. { rewrite Hsec. f_equal. rewrite Z.add_simpl_r. apply wrap_small.
      unfold uint, MAX_INDEX in *. lia. }
    set (c1 := c <| _ := _ |> <| _ := _ |>).
    pose proof (lock_in_hold c1) as Hv1. unfold hold_view in Hv1. injection Hv1 as _ _ _ _ _ _ -> ->.
    repeat (split; [done|]). done.
  - intros msg acts raa Hacts Hin. destruct (reestablish_raa _ _ _ _ Hacts Hin) as [Hpos ->].
    exists (ch_holder_commitment_number c - 1). split; [|lia]. f_equal. apply wrap_small.
    unfold uint, MAX_INDEX in *. lia.
Qed.
End Holder.
