(* ===== verification/Solvency.v ===== *)
(** * Solvency: no operation creates or loses money

    The ledger invariant on the channel: in every state a run can reach, the
    balances of both commitments are exact (no saturating subtraction ever
    saturates, no addition wraps) and, with the HTLCs in flight, sum to the
    funding amount. *)
From stdpp Require Import relations sorting.
From S2P Require Import Prelude Secp Types Msgs Tx Shachain Keys Commitment Channel Dance Close Reestablish Ledger Moves Machine.

(** 21 million bitcoin. *)
Definition MAX_SAT : Z := 2100000000000000.
Definition MAX_MSAT : Z := MAX_SAT * 1000.
(** A bound on the number of HTLCs in flight; BOLT 2 allows 483 a side. *)
Definition MAX_LIST : Z := 65535.

(** ** Exact balances *)
Definition own_at (ph : HtlcPhase) (h : Htlc) : Z :=
  if included ph then (if h_outbound h then - h_amount_msat h else 0)
  else if credited ph && fulfilled h
  then (if h_outbound h then - h_amount_msat h else h_amount_msat h) else 0.
Definition peer_at (ph : HtlcPhase) (h : Htlc) : Z :=
  if included ph then (if h_outbound h then 0 else - h_amount_msat h)
  else if credited ph && fulfilled h
  then (if h_outbound h then h_amount_msat h else - h_amount_msat h) else 0.

Lemma apply_balance_exact h ph x y :
  0 <= h_amount_msat h -> 0 <= x -> 0 <= y -> 0 <= x + own_at ph h -> 0 <= y + peer_at ph h ->
  x + y < 2 ^ 64 ->
  apply_balance h ph (x, y) = (x + own_at ph h, y + peer_at ph h).
Proof.
  unfold apply_balance, own_at, peer_at, msat_saturating_sub, msat_add, sat_sub.
  intros Ha Hx Hy Hx' Hy' Hsum.
  destruct (included ph), (h_outbound h); cbn; try (f_equal; lia).
  all: destruct (credited ph); cbn in *; [|f_equal; lia].
  all: unfold fulfilled in *; destruct (h_resolution h) as [[]|]; cbn in *; try (f_equal; lia).
  all: rewrite wrap_small by (unfold uint; lia); f_equal; lia.
Qed.

Lemma at_sum ph h : 0 <= h_amount_msat h -> own_at ph h + peer_at ph h <= 0.
Proof. unfold own_at, peer_at. intros. repeat case_match; lia. Qed.

(** A fold that applies the HTLCs chosen by [sel] is exact when every prefix
    is covered. *)
Lemma fold_exact (sel : Htlc -> option HtlcPhase) hs x y :
  Forall (fun h => 0 <= h_amount_msat h) hs ->
  covered (fun h => match sel h with Some ph => own_at ph h | None => 0 end) x hs ->
  covered (fun h => match sel h with Some ph => peer_at ph h | None => 0 end) y hs ->
  x + y < 2 ^ 64 ->
  foldl (fun bal h => match sel h with Some ph => apply_balance h ph bal | None => bal end) (x, y) hs =
    (x + total (fun h => match sel h with Some ph => own_at ph h | None => 0 end) hs,
     y + total (fun h => match sel h with Some ph => peer_at ph h | None => 0 end) hs).
Proof.
  intros Ha. revert x y. induction Ha as [|h t Hh Ht IH]; intros x y Hx Hy Hsum.
  { unfold total. cbn. f_equal; lia. }
  pose proof (covered_base _ _ _ Hx). pose proof (covered_base _ _ _ Hy).
  destruct Hx as [_ Hx], Hy as [_ Hy]. pose proof (covered_base _ _ _ Hx).
  pose proof (covered_base _ _ _ Hy). cbn [foldl]. rewrite !total_cons.
  destruct (sel h) as [ph|].
  - rewrite apply_balance_exact by lia. pose proof (at_sum ph h Hh).
    rewrite IH; [f_equal; lia|exact Hx|exact Hy|lia].
  - rewrite !Z.add_0_r in Hx, Hy. rewrite IH by done. f_equal; lia.
Qed.

Lemma covered_le f g b hs :
  (forall h, h ∈ hs -> f h <= g h) -> covered f b hs -> covered g b hs.
Proof.
  intros Hfg Hc. rewrite <- (omap_id hs), <- (Z.add_0_r b), <- (total_0 hs).
  eapply covered_omap; [exact Hc|]. apply Forall_forall. intros h Hh. split; [by apply Hfg|done].
Qed.

Lemma covered_up f b hs : (forall h, h ∈ hs -> 0 <= f h) -> 0 <= b -> covered f b hs.
Proof.
  intros Hf. revert b. unfold covered.
  induction hs as [|h t IH]; intros b Hb; cbn [mixed]; [done|]. rewrite total_0.
  split; [done|]. apply IH; [|specialize (Hf h ltac:(by left)); lia].
  intros x Hx. apply Hf. by right.
Qed.

Lemma covered_down f b hs :
  (forall h, h ∈ hs -> f h <= 0) -> 0 <= b + total f hs -> covered f b hs.
Proof.
  intros Hf. revert b. unfold covered.
  induction hs as [|h t IH]; intros b Hb; cbn [mixed]; [unfold total in Hb; cbn in Hb; lia|].
  rewrite total_cons in Hb. rewrite total_0.
  assert (total f t <= 0).
  { rewrite <- (total_0 t). apply total_le, Forall_forall. intros x Hx. apply Hf. by right. }
  pose proof (Hf h ltac:(by left)). split; [lia|]. apply IH; [|lia].
  intros x Hx. apply Hf. by right.
Qed.

Lemma at_levels h : stage_ok h = true -> 0 <= h_amount_msat h ->
  own_at (h_phase_counterparty h) h = own_all h /\
  peer_acked h <= peer_at (h_phase_counterparty h) h /\
  own_sig None h <= own_at (h_phase_holder h) h /\
  peer_at (h_phase_holder h) h = peer_all h.
Proof.
  rewrite own_sig_None. intros Hs Ha. unfold own_at, peer_at. stage_cases h Hs; lia.
Qed.

(** ** Updating one HTLC, or a snapshot of them *)
Lemma is_htlc_key o id h : is_htlc o id h = bool_decide (key h = (o, id)).
Proof.
  unfold is_htlc, key. destruct (Z.eqb_spec (h_id h) id) as [->|Hne].
  - rewrite andb_true_r. destruct (h_outbound h), o; cbn;
      symmetry; (apply bool_decide_eq_true || apply bool_decide_eq_false); congruence.
  - rewrite andb_false_r. symmetry. apply bool_decide_eq_false. congruence.
Qed.

Lemma update_first_key o id g hs : NoDup (map key hs) ->
  update_first (is_htlc o id) g hs =
    map (fun h => if bool_decide (key h = (o, id)) then g h else h) hs.
Proof.
  induction hs as [|h t IH]; intros Hnd; [done|]. cbn [map] in Hnd.
  apply NoDup_cons in Hnd as [Hn Hnd]. cbn [update_first map]. rewrite is_htlc_key.
  case_bool_decide as Hk; [|by rewrite IH]. f_equal.
  rewrite <- (map_id t) at 1. apply map_ext_in. intros x Hx. rewrite bool_decide_eq_false_2; [done|].
  intros Hkx. apply Hn. rewrite Hk, <- Hkx. apply list_elem_of_In, in_map. done.
Qed.

Lemma foldl_upd (g : bool -> Htlc -> Htlc) ks hs :
  (forall h, key (g (h_outbound h) h) = key h) -> NoDup ks -> NoDup (map key hs) ->
  foldl (fun hs '(o, id) => upd_htlc o id (g o) hs) hs ks =
    map (fun h => if bool_decide (key h ∈ ks) then g (h_outbound h) h else h) hs.
Proof.
  intros Hg. revert hs. induction ks as [|[o id] ks IH]; intros hs Hks Hhs.
  { cbn. rewrite <- (map_id hs) at 1. apply map_ext. intros h.
    rewrite bool_decide_eq_false_2; [done|]. apply not_elem_of_nil. }
  apply NoDup_cons in Hks as [Hk Hks]. cbn [foldl]. unfold upd_htlc at 2.
  rewrite update_first_key by done.
  assert (Hkey : forall h, key (if bool_decide (key h = (o, id)) then g o h else h) = key h).
  { intros h. case_bool_decide as E; [|done]. injection E as <- _. apply Hg. }
  rewrite IH; [|done|].
  - rewrite map_map. apply map_ext. intros h. rewrite Hkey.
    destruct (decide (key h = (o, id))) as [E|E].
    + rewrite (bool_decide_eq_true_2 (key h = (o, id)) E). rewrite E.
      rewrite (bool_decide_eq_false_2 _ Hk). rewrite bool_decide_eq_true_2 by by left.
      by injection E as -> _.
    + rewrite (bool_decide_eq_false_2 (key h = (o, id)) E).
      erewrite (bool_decide_ext (key h ∈ (o, id) :: ks)); [done|]. rewrite elem_of_cons. tauto.
  - rewrite map_map. by rewrite (map_ext _ key).
Qed.

(** ** Collecting dead HTLCs *)
Definition dead_gain (h : Htlc) : Z := if gone_both h then settle h else 0.

Lemma gone_at h : own_at Gone h = settle h /\ peer_at Gone h = - settle h.
Proof.
  unfold own_at, peer_at, settle. cbn. destruct (fulfilled h), (h_outbound h); split; lia.
Qed.

(** The fold of [gc_htlcs] is exact when all the dead HTLCs are of one
    direction. *)
Lemma gc_fold_exact hs bh bc :
  Forall (fun h => 0 <= h_amount_msat h) hs -> 0 <= bh -> 0 <= bc ->
  0 <= bh + total dead_gain hs -> 0 <= bc - total dead_gain hs -> bh + bc < 2 ^ 64 ->
  (forall h, h ∈ hs -> 0 <= dead_gain h) \/ (forall h, h ∈ hs -> dead_gain h <= 0) ->
  foldl (fun bal h => if gone_both h then apply_balance h Gone bal else bal) (bh, bc) hs =
    (bh + total dead_gain hs, bc - total dead_gain hs).
Proof.
  intros Ha Hh Hc Hh' Hc' Hs Hdir.
  set (sel := fun h => if gone_both h then Some Gone else None).
  assert (Eo : forall h, match sel h with Some ph => own_at ph h | None => 0 end = dead_gain h).
  { intros h. unfold sel, dead_gain. destruct (gone_both h); [apply gone_at|done]. }
  assert (Ep : forall h, match sel h with Some ph => peer_at ph h | None => 0 end = - dead_gain h).
  { intros h. unfold sel, dead_gain. destruct (gone_both h); [apply gone_at|done]. }
  assert (Hpeer : total (fun h => - dead_gain h) hs = - total dead_gain hs) by apply total_opp.
  transitivity (foldl (fun bal h => match sel h with Some ph => apply_balance h ph bal
    | None => bal end) (bh, bc) hs).
  { clear. generalize (bh, bc). induction hs as [|h t IH]; intros b; [done|]. cbn [foldl].
    rewrite <- IH. unfold sel. by destruct (gone_both h). }
  rewrite fold_exact; [|done| | |done].
  - rewrite (total_ext _ _ hs (fun h _ => Eo h)), (total_ext _ _ hs (fun h _ => Ep h)). f_equal. lia.
  - eapply covered_ext; [intros; symmetry; apply Eo|].
    destruct Hdir; [by apply covered_up|by apply covered_down].
  - eapply covered_ext; [intros; symmetry; apply Ep|]. destruct Hdir as [Hd|Hd].
    + apply covered_down; [|lia]. intros h Hin. specialize (Hd h Hin). lia.
    + apply covered_up; [|done]. intros h Hin. specialize (Hd h Hin). lia.
Qed.

(** A pass [g] followed by the collection is an [omap]. *)
Section Gc.
Context (g : Htlc -> Htlc).
Definition pass_of (h : Htlc) : option Htlc := if gone_both (g h) then None else Some (g h).
Definition gain_of (h : Htlc) : Z := match pass_of h with None => settle h | Some _ => 0 end.

Lemma filter_pass hs : List.filter (fun h => negb (gone_both h)) (map g hs) = omap pass_of hs.
Proof.
  induction hs as [|h t IH]; [done|]. cbn [map List.filter omap list_omap]. rewrite IH.
  unfold pass_of. by destruct (gone_both (g h)).
Qed.

Lemma total_gain hs : (forall h, settle (g h) = settle h) ->
  total dead_gain (map g hs) = total gain_of hs.
Proof.
  intros Hg. induction hs as [|h t IH]; [done|]. cbn [map]. rewrite !total_cons, IH.
  unfold dead_gain, gain_of, pass_of. destruct (gone_both (g h)); [by rewrite Hg|done].
Qed.
End Gc.

(** ** The invariant of the channel *)
Section Solvency.
Context `{HS : Secp} {Sg : Type} `{HCS : !ChannelSigner Sg}.
Abbreviation Channel := (Channel (Sg := Sg)).
Abbreviation chan := (stm Channel ChannelError).

Implicit Types c : Channel.

Definition snap_of (p : option PendingCounterpartyCommitment) : snapshot :=
  match p with Some p => Some (pcc_included p, pcc_removed p) | None => None end.

Definition amount_ok (a : Z) : Prop := 0 <= a <= MAX_MSAT.
Definition sat_ok (s : Z) : Prop := 0 <= s <= MAX_SAT.
Definition cell_ok (op : HoldingCellOp) : Prop :=
  match op with CellAdd a _ _ _ _ => amount_ok a | _ => True end.

Definition small_htlc (h : Htlc) : Prop := 0 <= h_id h /\ h_amount_msat h <= MAX_MSAT.

Record solvent (c : Channel) : Prop := {
  sv_ledger : ledger (1000 * ch_funding_amount_sat c) (ch_to_holder_msat c)
    (ch_to_counterparty_msat c) (ch_next_holder_htlc_id c) (ch_next_counterparty_htlc_id c)
    (snap_of (ch_pending_counterparty_commitment c)) (ch_htlcs c);
  sv_funding : sat_ok (ch_funding_amount_sat c);
  sv_reserves : sat_ok (holder_selected_reserve_sat (ch_params c)) /\
    sat_ok (counterparty_selected_reserve_sat (ch_params c));
  sv_fees : u32 (ch_feerate_holder c) /\ u32 (ch_feerate_counterparty c) /\
    from_option u32 True (ch_pending_fee_ack c) /\
    from_option (fun p => from_option u32 True (pcc_fee_update p)) True
      (ch_pending_counterparty_commitment c);
  sv_cell : Forall cell_ok (ch_holding_cell c);
  sv_await : ch_awaiting_raa c =
    match ch_pending_counterparty_commitment c with Some _ => true | None => false end;
  sv_nodup : NoDup (snap_included (snap_of (ch_pending_counterparty_commitment c))) /\
    NoDup (snap_removed (snap_of (ch_pending_counterparty_commitment c)));
  sv_ids : Forall small_htlc (ch_htlcs c) /\ 0 <= ch_next_holder_htlc_id c /\
    0 <= ch_next_counterparty_htlc_id c;
}.

(** Room for [n] more HTLCs. *)
Definition fits (n : Z) (c : Channel) : Prop :=
  ch_next_holder_htlc_id c + n < 2 ^ 64 /\ ch_next_counterparty_htlc_id c + n < 2 ^ 64 /\
  Z.of_nat (length (ch_htlcs c)) + n <= MAX_LIST.
Definition solvent_room (n : Z) (c : Channel) : Prop := solvent c /\ fits n c.

(** The part of the state these depend on. *)
Definition money_view (c : Channel) :=
  (ch_funding_amount_sat c, ch_to_holder_msat c, ch_to_counterparty_msat c,
   ch_next_holder_htlc_id c, ch_next_counterparty_htlc_id c, ch_pending_counterparty_commitment c,
   ch_htlcs c, ch_params c, ch_feerate_holder c, ch_feerate_counterparty c, ch_pending_fee_ack c,
   ch_holding_cell c, ch_awaiting_raa c).

Lemma solvent_view c c' : money_view c' = money_view c -> solvent c -> solvent c'.
Proof.
  unfold money_view. intros [= E1 E2 E3 E4 E5 E6 E7 E8 E9 E10 E11 E12 E13] [].
  split; rewrite ?E1, ?E2, ?E3, ?E4, ?E5, ?E6, ?E7, ?E8, ?E9, ?E10, ?E11, ?E12, ?E13; assumption.
Qed.
Lemma solvent_room_view n c c' : money_view c' = money_view c -> solvent_room n c -> solvent_room n c'.
Proof.
  intros E [Hs Hf]. split; [by apply (solvent_view c)|]. unfold money_view in E.
  unfold fits. injection E as E1 E2 E3 E4 E5 E6 E7 _ _ _ _ _ _. by rewrite E4, E5, E7.
Qed.

Lemma preserves_money n (f : Channel -> Channel) :
  (forall c, money_view (f c) = money_view c) ->
  preserves (E := ChannelError) (solvent_room n) (modify f).
Proof. intros H. apply preserves_modify. intros c. by apply solvent_room_view. Qed.

(** ** Balances *)
Section Balances.
Context (c : Channel) (Hc : solvent c).
Let L := sv_ledger c Hc.

Lemma amounts_nonneg : Forall (fun h => 0 <= h_amount_msat h) (ch_htlcs c).
Proof. apply Forall_forall. intros h Hh. by apply (lg_stage L). Qed.

Lemma total_bound : ch_to_holder_msat c + ch_to_counterparty_msat c < 2 ^ 64.
Proof. pose proof (lg_total L). pose proof (sv_funding c Hc). unfold sat_ok, MAX_SAT in *. lia. Qed.

Lemma levels_of h : h ∈ ch_htlcs c ->
  own_at (h_phase_counterparty h) h = own_all h /\
  peer_acked h <= peer_at (h_phase_counterparty h) h /\
  own_sig None h <= own_at (h_phase_holder h) h /\
  peer_at (h_phase_holder h) h = peer_all h.
Proof. intros Hh. destruct (lg_stage L h Hh). by apply at_levels. Qed.

Definition side_phase (holder_side : bool) (h : Htlc) : HtlcPhase :=
  if holder_side then h_phase_holder h else h_phase_counterparty h.

Lemma side_covered holder_side :
  covered (fun h => own_at (side_phase holder_side h) h) (ch_to_holder_msat c) (ch_htlcs c) /\
  covered (fun h => peer_at (side_phase holder_side h) h) (ch_to_counterparty_msat c) (ch_htlcs c).
Proof.
  destruct holder_side; cbn [side_phase]; split.
  - eapply covered_le; [|apply (lg_own_rev L)]. intros h Hh. by apply levels_of.
  - eapply covered_ext; [|apply (lg_peer_all L)]. intros h Hh. symmetry. by apply levels_of.
  - eapply covered_ext; [|apply (lg_own_all L)]. intros h Hh. symmetry. by apply levels_of.
  - eapply covered_le; [|apply (lg_peer_acked L)]. intros h Hh. by apply levels_of.
Qed.

Lemma balances_exact holder_side :
  balances_for c holder_side =
    (ch_to_holder_msat c + total (fun h => own_at (side_phase holder_side h) h) (ch_htlcs c),
     ch_to_counterparty_msat c + total (fun h => peer_at (side_phase holder_side h) h) (ch_htlcs c)).
Proof.
  destruct (side_covered holder_side) as [H1 H2].
  exact (fold_exact (fun h => Some (side_phase holder_side h)) _ _ _ amounts_nonneg H1 H2 total_bound).
Qed.

Lemma balances_counterparty_own :
  (balances_for c false).1 = ch_to_holder_msat c + total own_all (ch_htlcs c).
Proof.
  rewrite balances_exact. cbn [fst]. f_equal. apply total_ext. intros h Hh. by apply levels_of.
Qed.
Lemma balances_holder_peer :
  (balances_for c true).2 = ch_to_counterparty_msat c + total peer_all (ch_htlcs c).
Proof.
  rewrite balances_exact. cbn [snd]. f_equal. apply total_ext. intros h Hh. by apply levels_of.
Qed.

(** The money on one commitment. *)
Definition in_flight_msat (holder_side : bool) : Z :=
  total (fun h => if included (side_phase holder_side h) then h_amount_msat h else 0) (ch_htlcs c).

Lemma balances_sum holder_side :
  0 <= (balances_for c holder_side).1 /\ 0 <= (balances_for c holder_side).2 /\
  (balances_for c holder_side).1 + (balances_for c holder_side).2 + in_flight_msat holder_side =
    1000 * ch_funding_amount_sat c.
Proof.
  destruct (side_covered holder_side) as [H1%covered_total H2%covered_total].
  rewrite balances_exact. cbn [fst snd]. split; [done|]. split; [done|].
  rewrite <- (lg_total L). unfold in_flight_msat. generalize (ch_htlcs c). intros hs.
  assert (Hz : total (fun h => own_at (side_phase holder_side h) h) hs +
    total (fun h => peer_at (side_phase holder_side h) h) hs +
    total (fun h => if included (side_phase holder_side h) then h_amount_msat h else 0) hs = 0);
    [|lia].
  clear. induction hs as [|h t IH]; [done|]. rewrite !total_cons.
  assert (own_at (side_phase holder_side h) h + peer_at (side_phase holder_side h) h +
    (if included (side_phase holder_side h) then h_amount_msat h else 0) = 0); [|lia].
  unfold own_at, peer_at. repeat case_match; lia.
Qed.
End Balances.

(** ** What the validation of an add ensures *)
Lemma commitment_fee_bound f n : u32 f -> 0 <= n <= MAX_LIST + 2 ->
  0 <= commitment_fee f n < 2 ^ 52.
Proof.
  unfold commitment_fee, MAX_LIST, COMMITMENT_TX_BASE_WEIGHT, COMMITMENT_TX_WEIGHT_PER_HTLC.
  intros Hf Hn. rewrite (wrap_small 64 (172 * n)) by (unfold uint; lia).
  rewrite wrap_small by (unfold uint; lia).
  rewrite fee_for_weight_exact; [|done|unfold uint; lia]. unfold uint in Hf.
  split; [apply Z.div_pos; nia|apply Z.div_lt_upper_bound; nia].
Qed.

Lemma needed_bound amount reserve fee :
  amount_ok amount -> sat_ok reserve -> 0 <= fee < 2 ^ 52 ->
  amount <= msat_add amount (msat_from_sat reserve) /\
  amount <= msat_add (msat_add amount (msat_from_sat reserve)) (msat_from_sat fee).
Proof.
  unfold amount_ok, sat_ok, MAX_MSAT, MAX_SAT, msat_add, msat_from_sat. intros Ha Hr Hf.
  rewrite !(wrap_small 64 (_ * 1000)) by (unfold uint; lia).
  rewrite (wrap_small 64 (amount + reserve * 1000)) by (unfold uint; lia).
  rewrite wrap_small by (unfold uint; lia). lia.
Qed.

Lemma count_included_bound f (c : Channel) :
  0 <= count_included f c <= Z.of_nat (length (ch_htlcs c)).
Proof. unfold count_included. pose proof (List.filter_length_le (fun h => included (f h)) (ch_htlcs c)). lia. Qed.

Lemma validate_outbound_affordable c amount cltv :
  solvent_room 1 c -> amount_ok amount -> validate_outbound_add c amount cltv = Ok tt ->
  amount <= ch_to_holder_msat c + total own_all (ch_htlcs c).
Proof.
  intros [Hc Hf] Ha Hv. rewrite <- (balances_counterparty_own c Hc).
  unfold validate_outbound_add in Hv. cbv zeta in Hv. bind_inv.
  destruct (balances_for c false) as [to_h to_c]. cbn [fst].
  apply fail_if_Ok, Z.ltb_ge in Hv.
  destruct (sv_reserves c Hc) as [_ Hr], (sv_fees c Hc) as (_ & Hfee & _).
  pose proof (count_included_bound h_phase_counterparty c). destruct Hf as (_ & _ & Hlen).
  destruct (needed_bound amount _ (commitment_fee (ch_feerate_counterparty c)
    (count_included h_phase_counterparty c + 2)) Ha Hr) as [Hn1 Hn2].
  { apply commitment_fee_bound; [done|lia]. }
  destruct (bool_decide (ch_role c = Opener)); lia.
Qed.

Lemma validate_inbound_affordable c msg :
  solvent_room 1 c -> amount_ok (add_amount_msat msg) -> validate_inbound_add c msg = Ok tt ->
  add_id msg = ch_next_counterparty_htlc_id c /\
  add_amount_msat msg <= ch_to_counterparty_msat c + total peer_all (ch_htlcs c).
Proof.
  intros [Hc Hf] Ha Hv. rewrite <- (balances_holder_peer c Hc).
  unfold validate_inbound_add in Hv. cbv zeta in Hv. bind_inv.
  destruct (balances_for c true) as [to_h to_c]. cbn [snd].
  apply fail_if_Ok, Z.ltb_ge in Hv.
  destruct (sv_reserves c Hc) as [Hr _], (sv_fees c Hc) as (Hfee & _).
  pose proof (count_included_bound h_phase_holder c). destruct Hf as (_ & _ & Hlen).
  destruct (needed_bound (add_amount_msat msg) _ (commitment_fee (ch_feerate_holder c)
    (count_included h_phase_holder c + 1)) Ha Hr) as [Hn1 Hn2].
  { apply commitment_fee_bound; [done|lia]. }
  split; [|destruct (bool_decide (ch_role c = Accepter)); lia].
  match goal with H : negb (add_id msg =? _) = false |- _ => by apply negb_false_iff, Z.eqb_eq in H end.
Qed.

(** ** Proposing and resolving HTLCs *)
Lemma fits_mono n m c : m <= n -> fits n c -> fits m c.
Proof. unfold fits. lia. Qed.

Lemma fits_same n c c' :
  ch_next_holder_htlc_id c' = ch_next_holder_htlc_id c ->
  ch_next_counterparty_htlc_id c' = ch_next_counterparty_htlc_id c ->
  length (ch_htlcs c') = length (ch_htlcs c) -> fits n c -> fits n c'.
Proof. unfold fits. by intros -> -> ->. Qed.

Ltac keep Hc :=
  first [ exact (sv_ledger _ Hc) | exact (sv_funding _ Hc) | exact (sv_reserves _ Hc)
        | exact (sv_fees _ Hc) | exact (sv_cell _ Hc) | exact (sv_await _ Hc)
        | exact (sv_nodup _ Hc) | exact (sv_ids _ Hc) ].
Ltac solvent_split Hc := split; try keep Hc.

Lemma idle_None c : solvent c -> ch_awaiting_raa c = false ->
  ch_pending_counterparty_commitment c = None.
Proof. intros Hc Ha. rewrite (sv_await c Hc) in Ha. by destruct (ch_pending_counterparty_commitment c). Qed.

Lemma key_unique hs o id h h' : NoDup (map key hs) ->
  List.find (is_htlc o id) hs = Some h -> h' ∈ hs -> key h' = (o, id) -> h' = h.
Proof.
  intros Hnd Hf Hin Hk. induction hs as [|x t IH]; [done|]. cbn [map] in Hnd.
  apply NoDup_cons in Hnd as [Hn Hnd]. cbn [List.find] in Hf. rewrite is_htlc_key in Hf.
  case_bool_decide as Hx.
  - injection Hf as ->. apply elem_of_cons in Hin as [->|Hin]; [done|].
    exfalso. apply Hn. rewrite Hx, <- Hk. by apply list_elem_of_In, in_map, list_elem_of_In.
  - apply elem_of_cons in Hin as [->|Hin]; [done|]. by apply IH.
Qed.

Lemma cell_push_solvent n op c : cell_ok op -> solvent_room n c ->
  solvent_room n (c <| ch_holding_cell := ch_holding_cell c ++ [op] |>).
Proof.
  intros Hop [Hc Hf]. split; [|exact Hf]. solvent_split Hc.
  exact (proj2 (Forall_app _ _ _) (conj (sv_cell c Hc) (proj2 (Forall_singleton _ _) Hop))).
Qed.

(** The list after a resolution of the HTLC [(o, id)]. *)
Lemma resolve_ledger c o id h r :
  solvent c -> List.find (is_htlc o id) (ch_htlcs c) = Some h -> at_stake h ->
  (o = false -> ch_awaiting_raa c = false) ->
  let hs := map (fun x => if bool_decide (key x = (o, id)) then resolve_htlc r x else x) (ch_htlcs c) in
  update_first (is_htlc o id)
    (fun x => if o then x <| h_resolution := Some r |> <| h_phase_holder := Removing |>
              else x <| h_resolution := Some r |> <| h_phase_counterparty := Removing |>)
    (ch_htlcs c) = hs /\
  length hs = length (ch_htlcs c) /\ Forall small_htlc hs /\
  ledger (1000 * ch_funding_amount_sat c) (ch_to_holder_msat c) (ch_to_counterparty_msat c)
    (ch_next_holder_htlc_id c) (ch_next_counterparty_htlc_id c)
    (snap_of (ch_pending_counterparty_commitment c)) hs.
Proof.
  intros Hc Hfind Hst Hidle hs. pose proof (sv_ledger c Hc) as L. split_and!.
  - rewrite update_first_key by apply L. apply map_ext. intros x. case_bool_decide as Hk; [|done].
    injection Hk as Ho _. unfold resolve_htlc. rewrite Ho. by destruct o.
  - apply length_map.
  - apply Forall_map, (Forall_impl _ _ _ (proj1 (sv_ids c Hc))). intros x Hx. cbv beta.
    case_bool_decide; [|done]. unfold resolve_htlc. by destruct (h_outbound x).
  - apply move_resolve; [done| |].
    + intros x Hx Hk. by rewrite (key_unique _ _ _ _ _ (lg_keys L) Hfind Hx Hk).
    + intros Ho. cbn in Ho. by rewrite (idle_None c Hc (Hidle Ho)).
Qed.

Lemma guards_stake h :
  match h_resolution h with Some _ => true | None => false end = false ->
  negb (bool_decide (h_phase_holder h = Committed)) ||
  negb (bool_decide (h_phase_counterparty h = Committed)) = false -> at_stake h.
Proof.
  intros Hr [Hh%negb_false_iff Hp%negb_false_iff]%orb_false_iff.
  apply bool_decide_eq_true in Hh, Hp. unfold at_stake. by destruct (h_resolution h).
Qed.

Lemma inbound_committed_stake c id h : inbound_committed c id = Ok h ->
  List.find (is_htlc false id) (ch_htlcs c) = Some h /\ at_stake h.
Proof.
  unfold inbound_committed. intros H. bind_inv. split; [done|].
  by apply guards_stake.
Qed.

Lemma outbound_committed_stake c id h : outbound_committed c id = Ok h ->
  List.find (is_htlc true id) (ch_htlcs c) = Some h /\ at_stake h.
Proof.
  unfold outbound_committed. intros H. bind_inv. split; [done|].
  by apply guards_stake.
Qed.

Lemma resolve_inbound_solvent n c id h r : solvent_room n c -> ch_awaiting_raa c = false ->
  inbound_committed c id = Ok h -> solvent_room n (resolve_inbound id r c).
Proof.
  intros [Hc Hf] Ha [Hfind Hst]%inbound_committed_stake.
  destruct (resolve_ledger c false id h r Hc Hfind Hst) as (E & Hl & Hid & L); [done|].
  unfold resolve_inbound. rewrite E. split.
  - solvent_split Hc; [exact L|]. split; [exact Hid|apply (sv_ids c Hc)].
  - by apply (fits_same n c).
Qed.

Lemma resolve_outbound_solvent n c id h r : solvent_room n c ->
  outbound_committed c id = Ok h -> wp (resolve_outbound id h r) (fun _ => solvent_room n) c.
Proof.
  intros [Hc Hf] [Hfind Hst]%outbound_committed_stake.
  destruct (resolve_ledger c true id h r Hc Hfind Hst) as (E & Hl & Hid & L); [done|].
  assert (Hs : solvent_room n (c <| ch_htlcs := update_first (is_htlc true id)
    (fun h => h <| h_resolution := Some r |> <| h_phase_holder := Removing |>) (ch_htlcs c) |>)).
  { rewrite E. split; [|by apply (fits_same n c)]. solvent_split Hc; [exact L|].
    split; [exact Hid|apply (sv_ids c Hc)]. }
  unfold resolve_outbound. wp_steps; done.
Qed.

(** The two ways a list of HTLCs grows. *)
Lemma add_outbound_solvent n c h :
  solvent_room (n + 1) c -> 0 <= n -> is_new None h -> h_outbound h = true ->
  ch_awaiting_raa c = false -> h_id h = ch_next_holder_htlc_id c -> amount_ok (h_amount_msat h) ->
  h_amount_msat h <= ch_to_holder_msat c + total own_all (ch_htlcs c) ->
  solvent_room n (c <| ch_next_holder_htlc_id := wrap 64 (ch_next_holder_htlc_id c + 1) |>
    <| ch_htlcs := ch_htlcs c ++ [h] |> <| ch_counterparty_dirty := true |>).
Proof.
  intros [Hc (Hf1 & Hf2 & Hf3)] Hn Hnew Ho Ha Hid Ham Hbal.
  destruct (sv_ids c Hc) as (Hids & Hnh & Hnc).
  rewrite wrap_small by (unfold uint; lia). split.
  - solvent_split Hc.
    + apply (move_add _ _ _ _ _ _ _ (sv_ledger c Hc)); rewrite ?Ho; try done; [|apply Ham].
      by rewrite (idle_None c Hc Ha).
    + split; [|split; [exact (Z.le_trans 0 _ _ Hnh (Z.le_succ_diag_r _))|done]].
      apply Forall_app. split; [done|]. apply Forall_singleton.
      unfold small_htlc, amount_ok in *. lia.
  - change (ch_next_holder_htlc_id c + 1 + n < 2 ^ 64 /\ ch_next_counterparty_htlc_id c + n < 2 ^ 64 /\
      Z.of_nat (length (ch_htlcs c ++ [h])) + n <= MAX_LIST).
    rewrite length_app. cbn [length]. lia.
Qed.

Lemma add_inbound_solvent c h :
  solvent_room 1 c -> is_new (snap_of (ch_pending_counterparty_commitment c)) h ->
  h_outbound h = false -> h_id h = ch_next_counterparty_htlc_id c -> amount_ok (h_amount_msat h) ->
  h_amount_msat h <= ch_to_counterparty_msat c + total peer_all (ch_htlcs c) ->
  solvent_room 0 (c <| ch_next_counterparty_htlc_id := wrap 64 (ch_next_counterparty_htlc_id c + 1) |>
    <| ch_htlcs := ch_htlcs c ++ [h] |>).
Proof.
  intros [Hc (Hf1 & Hf2 & Hf3)] Hnew Ho Hid Ham Hbal.
  destruct (sv_ids c Hc) as (Hids & Hnh & Hnc).
  rewrite wrap_small by (unfold uint; lia). split.
  - solvent_split Hc.
    + apply (move_add _ _ _ _ _ _ _ (sv_ledger c Hc)); rewrite ?Ho; try done. apply Ham.
    + split; [|split; [done|exact (Z.le_trans 0 _ _ Hnc (Z.le_succ_diag_r _))]].
      apply Forall_app. split; [done|]. apply Forall_singleton.
      unfold small_htlc, amount_ok in *. lia.
  - change (ch_next_holder_htlc_id c + 0 < 2 ^ 64 /\ ch_next_counterparty_htlc_id c + 1 + 0 < 2 ^ 64 /\
      Z.of_nat (length (ch_htlcs c ++ [h])) + 0 <= MAX_LIST).
    rewrite length_app. cbn [length]. lia.
Qed.

Lemma send_add_htlc_solvent n c a h t o s :
  0 <= n -> amount_ok a -> solvent_room (n + 1) c ->
  wp (send_add_htlc a h t o s) (fun _ => solvent_room n) c.
Proof.
  intros Hn Ha Hc.
  assert (Hm : solvent_room n c) by (destruct Hc as [? Hf]; split; [done|]; eapply fits_mono; [|exact Hf]; lia).
  unfold send_add_htlc, push_cell. wp_steps; try done.
  - by apply (cell_push_solvent n).
  - apply add_outbound_solvent; try done.
    destruct Hc as [Hc Hf]. apply (validate_outbound_affordable c a t); [|done|].
    + split; [done|]. eapply fits_mono; [|exact Hf]. lia.
    + by destruct a0.
Qed.

Lemma send_fulfill_htlc_solvent n id pre : preserves (solvent_room n) (send_fulfill_htlc id pre).
Proof.
  intros c Hc. unfold send_fulfill_htlc, push_cell. wp_steps; try done.
  - by apply cell_push_solvent.
  - by eapply resolve_inbound_solvent.
Qed.
Lemma send_fail_htlc_solvent n id r : preserves (solvent_room n) (send_fail_htlc id r).
Proof.
  intros c Hc. unfold send_fail_htlc, push_cell. wp_steps; try done.
  - by apply cell_push_solvent.
  - by eapply resolve_inbound_solvent.
Qed.
Lemma send_fail_malformed_htlc_solvent n id sha code :
  preserves (solvent_room n) (send_fail_malformed_htlc id sha code).
Proof.
  intros c Hc. unfold send_fail_malformed_htlc, push_cell. wp_steps; try done.
  - by apply cell_push_solvent.
  - by eapply resolve_inbound_solvent.
Qed.

Lemma on_update_fulfill_htlc_solvent n msg : preserves (solvent_room n) (on_update_fulfill_htlc msg).
Proof.
  intros c Hc. unfold on_update_fulfill_htlc. wp_steps; try done. by apply resolve_outbound_solvent.
Qed.
Lemma on_update_fail_htlc_solvent n msg : preserves (solvent_room n) (on_update_fail_htlc msg).
Proof.
  intros c Hc. unfold on_update_fail_htlc. wp_steps; try done. by apply resolve_outbound_solvent.
Qed.
Lemma on_update_fail_malformed_htlc_solvent n msg :
  preserves (solvent_room n) (on_update_fail_malformed_htlc msg).
Proof.
  intros c Hc. unfold on_update_fail_malformed_htlc. wp_steps; try done.
  by apply resolve_outbound_solvent.
Qed.

Lemma on_update_add_htlc_solvent c msg : amount_ok (add_amount_msat msg) -> solvent_room 1 c ->
  wp (on_update_add_htlc msg) (fun _ => solvent_room 0) c.
Proof.
  intros Ha Hc.
  assert (Hm : solvent_room 0 c) by (destruct Hc as [? Hf]; split; [done|]; eapply fits_mono; [|exact Hf]; lia).
  unfold on_update_add_htlc. wp_steps; [|done].
  destruct (validate_inbound_affordable c msg Hc Ha) as [Hid Hbal]; [by destruct a|].
  by apply add_inbound_solvent.
Qed.

Lemma on_update_fee_solvent n msg : u32 (fee_feerate_per_kw msg) ->
  preserves (solvent_room n) (on_update_fee msg).
Proof.
  intros Hfee. unfold on_update_fee. preserve. apply preserves_modify. intros c [Hc Hf].
  split; [|exact Hf]. solvent_split Hc. destruct (sv_fees c Hc) as (_ & H2 & _ & H4).
  split_and!; done.
Qed.
Lemma send_update_fee_solvent n f : u32 f -> preserves (solvent_room n) (send_update_fee f).
Proof.
  intros Hfee. unfold send_update_fee. preserve. apply preserves_modify. intros c [Hc Hf].
  split; [|exact Hf]. solvent_split Hc. destruct (sv_fees c Hc) as (H1 & _ & H3 & H4).
  split_and!; done.
Qed.

(** ** Signing *)
Lemma send_commitment_signed_solvent n : preserves (solvent_room n) send_commitment_signed.
Proof.
  intros c Hc. unfold send_commitment_signed. wp_steps; try done. destruct Hc as [Hc Hf].
  split; [|exact Hf]. pose proof (sv_ledger c Hc) as L. solvent_split Hc.
  - apply (move_sign _ _ _ _ _ _ _ L). by rewrite (idle_None c Hc).
  - destruct (sv_fees c Hc) as (H1' & H2' & H3' & _). split_and!; try done.
    cbn. by destruct (_ && _).
  - reflexivity.
  - assert (Hk : forall ph, NoDup (phase_keys ph c)); [|split; apply Hk].
    intros ph. unfold phase_keys. pose proof (lg_keys L) as Hnd. clear -Hnd.
    induction (ch_htlcs c) as [|h t IH]; [constructor|]. cbn [map] in Hnd.
    apply NoDup_cons in Hnd as [Hn Hnd]. cbn [List.filter]. case_bool_decide; [|by apply IH].
    cbn [map]. apply NoDup_cons. split; [|by apply IH]. intros Hin. apply Hn.
    apply list_elem_of_In, in_map_iff in Hin as (x & Hx & Hin).
    apply list_elem_of_In, in_map_iff. exists x. split; [exact Hx|]. apply (proj1 (filter_In _ _ _) Hin).
Qed.

(** ** Locking in *)
Lemma lock_settle h : settle (ack_counterparty (lock_holder h)).1 = settle h.
Proof.
  destruct h as [[] ? ? ? ? ? ? re [] [] ?], re as [[]|]; reflexivity.
Qed.

(** What both passes over the list have in common: the collected balances are
    exact, the list shrinks, the ids stay. *)
Lemma gc_exact c c0 g p :
  Forall (fun h => 0 <= h_amount_msat h) (map g (ch_htlcs c)) ->
  (forall h, settle (g h) = settle h) -> solvent c ->
  ledger (1000 * ch_funding_amount_sat c) (ch_to_holder_msat c + total (gain_of g) (ch_htlcs c))
    (ch_to_counterparty_msat c - total (gain_of g) (ch_htlcs c)) (ch_next_holder_htlc_id c)
    (ch_next_counterparty_htlc_id c) p (omap (pass_of g) (ch_htlcs c)) ->
  (forall h, h ∈ ch_htlcs c -> 0 <= gain_of g h) \/ (forall h, h ∈ ch_htlcs c -> gain_of g h <= 0) ->
  ch_htlcs c0 = map g (ch_htlcs c) -> ch_to_holder_msat c0 = ch_to_holder_msat c ->
  ch_to_counterparty_msat c0 = ch_to_counterparty_msat c ->
  ch_htlcs (gc_htlcs c0) = omap (pass_of g) (ch_htlcs c) /\
  (ch_to_holder_msat (gc_htlcs c0), ch_to_counterparty_msat (gc_htlcs c0)) =
    (ch_to_holder_msat c + total (gain_of g) (ch_htlcs c),
     ch_to_counterparty_msat c - total (gain_of g) (ch_htlcs c)).
Proof.
  intros Ham Hset Hc L Hdir Eh E1 E2. pose proof (sv_ledger c Hc) as L0. split.
  - change (List.filter (fun h => negb (gone_both h)) (ch_htlcs c0) = omap (pass_of g) (ch_htlcs c)).
    rewrite Eh. apply filter_pass.
  - transitivity (foldl (fun bal h => if gone_both h then apply_balance h Gone bal else bal)
      (ch_to_holder_msat c0, ch_to_counterparty_msat c0) (ch_htlcs c0)).
    { change (?x.1, ?y.2) with (x.1, x.2). symmetry. apply surjective_pairing. }
    rewrite Eh, E1, E2, <- (total_gain g) by done.
    apply gc_fold_exact; try done; rewrite ?total_gain by done.
    + exact (covered_base _ _ _ (lg_own_all L0)).
    + exact (covered_base _ _ _ (lg_peer_all L0)).
    + exact (covered_base _ _ _ (lg_own_all L)).
    + exact (covered_base _ _ _ (lg_peer_all L)).
    + by apply total_bound.
    + assert (Hg : forall h, dead_gain (g h) = gain_of g h).
      { intros h. unfold dead_gain, gain_of, pass_of. destruct (gone_both (g h)); [by rewrite Hset|done]. }
      destruct Hdir as [Hd|Hd]; [left|right]; intros h' (h & -> & Hh)%list_elem_of_fmap;
        rewrite Hg; by apply Hd.
Qed.

Lemma gc_solvent n c c0 g :
  Forall (fun h => 0 <= h_amount_msat h) (map g (ch_htlcs c)) ->
  (forall h, settle (g h) = settle h) -> (forall h, h_amount_msat (g h) = h_amount_msat h /\ h_id (g h) = h_id h) -> solvent_room n c ->
  ledger (1000 * ch_funding_amount_sat c) (ch_to_holder_msat c + total (gain_of g) (ch_htlcs c))
    (ch_to_counterparty_msat c - total (gain_of g) (ch_htlcs c)) (ch_next_holder_htlc_id c)
    (ch_next_counterparty_htlc_id c) (snap_of (ch_pending_counterparty_commitment c0))
    (omap (pass_of g) (ch_htlcs c)) ->
  (forall h, h ∈ ch_htlcs c -> 0 <= gain_of g h) \/ (forall h, h ∈ ch_htlcs c -> gain_of g h <= 0) ->
  ch_htlcs c0 = map g (ch_htlcs c) ->
  (ch_to_holder_msat c0, ch_to_counterparty_msat c0, ch_funding_amount_sat c0, ch_params c0,
   ch_next_holder_htlc_id c0, ch_next_counterparty_htlc_id c0, ch_holding_cell c0) =
  (ch_to_holder_msat c, ch_to_counterparty_msat c, ch_funding_amount_sat c, ch_params c,
   ch_next_holder_htlc_id c, ch_next_counterparty_htlc_id c, ch_holding_cell c) ->
  (u32 (ch_feerate_holder c0) /\ u32 (ch_feerate_counterparty c0) /\
   from_option u32 True (ch_pending_fee_ack c0) /\
   from_option (fun p => from_option u32 True (pcc_fee_update p)) True
      (ch_pending_counterparty_commitment c0)) ->
  ch_awaiting_raa c0 =
    match ch_pending_counterparty_commitment c0 with Some _ => true | None => false end ->
  (NoDup (snap_included (snap_of (ch_pending_counterparty_commitment c0))) /\
   NoDup (snap_removed (snap_of (ch_pending_counterparty_commitment c0)))) ->
  solvent_room n (gc_htlcs c0).
Proof.
  intros Ham Hset Hid [Hc Hf] L Hdir Eh Eview Hfee Haw Hnd.
  injection Eview as E1 E2 E3 E4 E5 E6 E7.
  destruct (gc_exact c c0 g _ Ham Hset Hc L Hdir Eh E1 E2) as [Ehs Ebal].
  pose proof (f_equal fst Ebal : ch_to_holder_msat (gc_htlcs c0) = _) as Ebh.
  pose proof (f_equal snd Ebal : ch_to_counterparty_msat (gc_htlcs c0) = _) as Ebc.
  cbn [fst snd] in Ebh, Ebc.
  assert (Hlen : (length (omap (pass_of g) (ch_htlcs c)) <= length (ch_htlcs c))%nat).
  { rewrite <- filter_pass, List.filter_length_le. by rewrite length_map. }
  destruct (sv_ids c Hc) as (Hids & Hnh & Hnc). split; [split|].
  - rewrite Ehs, Ebh, Ebc. change (ledger (1000 * ch_funding_amount_sat c0)
      (ch_to_holder_msat c + total (gain_of g) (ch_htlcs c))
      (ch_to_counterparty_msat c - total (gain_of g) (ch_htlcs c)) (ch_next_holder_htlc_id c0)
      (ch_next_counterparty_htlc_id c0) (snap_of (ch_pending_counterparty_commitment c0))
      (omap (pass_of g) (ch_htlcs c))). by rewrite E3, E5, E6.
  - change (sat_ok (ch_funding_amount_sat c0)). rewrite E3. apply (sv_funding c Hc).
  - change (sat_ok (holder_selected_reserve_sat (ch_params c0)) /\
      sat_ok (counterparty_selected_reserve_sat (ch_params c0))). rewrite E4. apply (sv_reserves c Hc).
  - exact Hfee.
  - change (Forall cell_ok (ch_holding_cell c0)). rewrite E7. apply (sv_cell c Hc).
  - exact Haw.
  - exact Hnd.
  - rewrite Ehs. split; [|change (0 <= ch_next_holder_htlc_id c0 /\
      0 <= ch_next_counterparty_htlc_id c0); by rewrite E5, E6].
    apply Forall_forall. intros h' (h & Hh & E)%list_elem_of_omap. unfold pass_of in E.
    destruct (gone_both (g h)); [done|]. injection E as <-.
    unfold small_htlc. destruct (Hid h) as [-> ->]. by apply (proj1 (Forall_forall _ _) Hids).
  - unfold fits in *. rewrite Ehs. change (ch_next_holder_htlc_id c0 + n < 2 ^ 64 /\
      ch_next_counterparty_htlc_id c0 + n < 2 ^ 64 /\
      Z.of_nat (length (omap (pass_of g) (ch_htlcs c))) + n <= MAX_LIST). rewrite E5, E6. lia.
Qed.

Lemma lock_amount h : h_amount_msat (ack_counterparty (lock_holder h)).1 = h_amount_msat h /\
  h_id (ack_counterparty (lock_holder h)).1 = h_id h.
Proof. destruct h as [[] ? ? ? ? ? ? re [] [] ?], re as [[]|]; by split. Qed.

Lemma lock_in_gc n c c0 : solvent_room n c ->
  ch_htlcs c0 = map fst (map ack_counterparty (map lock_holder (ch_htlcs c))) ->
  (ch_to_holder_msat c0, ch_to_counterparty_msat c0, ch_funding_amount_sat c0, ch_params c0,
   ch_next_holder_htlc_id c0, ch_next_counterparty_htlc_id c0, ch_holding_cell c0) =
  (ch_to_holder_msat c, ch_to_counterparty_msat c, ch_funding_amount_sat c, ch_params c,
   ch_next_holder_htlc_id c, ch_next_counterparty_htlc_id c, ch_holding_cell c) ->
  (ch_pending_counterparty_commitment c0, ch_awaiting_raa c0, ch_feerate_holder c0) =
    (ch_pending_counterparty_commitment c, ch_awaiting_raa c, ch_feerate_holder c) ->
  u32 (ch_feerate_counterparty c0) -> from_option u32 True (ch_pending_fee_ack c0) ->
  solvent_room n (gc_htlcs c0).
Proof.
  intros Hr Eh Eview [= Ep Ea Ef] Hfc Hpf. pose proof Hr as [Hc _]. pose proof (sv_ledger c Hc) as L.
  apply (gc_solvent n c c0 (fun h => (ack_counterparty (lock_holder h)).1)); try done.
  - apply Forall_map, (Forall_impl _ _ _ (amounts_nonneg c Hc)). intros h. cbn.
    by rewrite (proj1 (lock_amount h)).
  - apply lock_settle.
  - intros h. apply lock_amount.
  - rewrite Ep. exact (move_lock _ _ _ _ _ _ _ L).
  - left. intros h Hh. change (0 <= lock_gain h). unfold lock_gain.
    pose proof (lock_facts _ _ _ _ _ _ _ L h Hh) as F. destruct (lock_pass h); [done|]. apply F.
  - rewrite Eh, !map_map. done.
  - rewrite Ep, Ef. split_and!; try done; apply (sv_fees c Hc).
  - rewrite Ea, Ep. apply (sv_await c Hc).
  - rewrite Ep. apply (sv_nodup c Hc).
Qed.

Lemma lock_in_solvent n c : solvent_room n c -> solvent_room n (lock_in c).
Proof.
  intros Hr. pose proof Hr as [Hc _]. destruct (sv_fees c Hc) as (Hh & Hcp & Hp & _).
  unfold lock_in. cbv zeta. change (ch_pending_fee_ack (c <| ch_htlcs := _ |>)) with (ch_pending_fee_ack c).
  destruct (ch_pending_fee_ack c) as [fee|] eqn:E.
  - by apply (lock_in_gc n c).
  - destruct (existsb snd _); apply (lock_in_gc n c); try done;
      exact (proj1 (proj2 (proj2 (sv_fees c Hc)))).
Qed.

Lemma on_commitment_signed_solvent n msg : preserves (solvent_room n) (on_commitment_signed msg).
Proof.
  intros c Hc. unfold on_commitment_signed. wp_steps; try done;
    by apply lock_in_solvent, (solvent_room_view n c).
Qed.

(** ** Revoking *)
Definition revoke_map (p : snapshot) (h : Htlc) : Htlc :=
  let h1 := if inc p h then lock_included (h_outbound h) h else h in
  if rem p h then lock_removed (h_outbound h) h1 else h1.

Lemma revoke_same i r h :
  let h1 := if i : bool then lock_included (h_outbound h) h else h in
  let h2 := if r : bool then lock_removed (h_outbound h) h1 else h1 in
  settle h2 = settle h /\ h_amount_msat h2 = h_amount_msat h /\ h_id h2 = h_id h /\
  key h1 = key h.
Proof. destruct h as [[] ? ? ? ? ? ? re [] [] ?], re as [[]|], i, r; by split_and!. Qed.

Lemma revoke_map_same p h : settle (revoke_map p h) = settle h /\
  h_amount_msat (revoke_map p h) = h_amount_msat h /\ h_id (revoke_map p h) = h_id h.
Proof. destruct (revoke_same (inc p h) (rem p h) h) as (? & ? & ? & _). done. Qed.

Lemma apply_pending_list p hs : NoDup (map key hs) -> NoDup (pcc_included p) -> NoDup (pcc_removed p) ->
  foldl (fun hs '(o, id) => upd_htlc o id (lock_removed o) hs)
    (foldl (fun hs '(o, id) => upd_htlc o id (lock_included o) hs) hs (pcc_included p))
    (pcc_removed p) = map (revoke_map (snap_of (Some p))) hs.
Proof.
  intros Hk Hi Hr.
  assert (Hkey : forall h, key (lock_included (h_outbound h) h) = key h /\
                           key (lock_removed (h_outbound h) h) = key h).
  { intros [[] ? ? ? ? ? ? ? [] [] ?]; by split. }
  rewrite (foldl_upd lock_included); [|apply Hkey|done|done].
  assert (Hk1 : forall h, key (if bool_decide (key h ∈ pcc_included p)
    then lock_included (h_outbound h) h else h) = key h) by (intros h; case_match; [apply Hkey|done]).
  rewrite (foldl_upd lock_removed); [|apply Hkey|done|].
  - rewrite map_map. apply map_ext. intros h. rewrite Hk1. unfold revoke_map, inc, rem. cbn [snap_of snap_included snap_removed].
    case_match; [|done]. f_equal. pose proof (Hk1 h) as E. by injection E as ->.
  - rewrite map_map. by rewrite (map_ext _ key).
Qed.

Lemma apply_pending_solvent n c c1 p : solvent_room n c ->
  ch_pending_counterparty_commitment c = Some p ->
  (ch_funding_amount_sat c1, ch_to_holder_msat c1, ch_to_counterparty_msat c1,
   ch_next_holder_htlc_id c1, ch_next_counterparty_htlc_id c1, ch_pending_counterparty_commitment c1,
   ch_htlcs c1, ch_params c1, ch_feerate_holder c1, ch_feerate_counterparty c1,
   ch_pending_fee_ack c1, ch_holding_cell c1, ch_awaiting_raa c1) =
  (ch_funding_amount_sat c, ch_to_holder_msat c, ch_to_counterparty_msat c,
   ch_next_holder_htlc_id c, ch_next_counterparty_htlc_id c, None,
   ch_htlcs c, ch_params c, ch_feerate_holder c, ch_feerate_counterparty c,
   ch_pending_fee_ack c, ch_holding_cell c, false) ->
  solvent_room n (apply_pending p c1).
Proof.
  intros Hr Ep [= E1 E2 E3 E4 E5 E6 E7 E8 E9 E10 E11 E12 E13]. pose proof Hr as [Hc _].
  pose proof (sv_ledger c Hc) as L. pose proof (sv_nodup c Hc) as Hnd. rewrite Ep in L, Hnd.
  destruct (sv_fees c Hc) as (F1 & F2 & F3 & F4). rewrite Ep in F4. cbn in F4.
  assert (Hp : snap_of (Some p) <> None) by done.
  assert (Hgoal : forall c0, ch_htlcs c0 = map (revoke_map (snap_of (Some p))) (ch_htlcs c) ->
    (ch_to_holder_msat c0, ch_to_counterparty_msat c0, ch_funding_amount_sat c0, ch_params c0,
     ch_next_holder_htlc_id c0, ch_next_counterparty_htlc_id c0, ch_holding_cell c0) =
    (ch_to_holder_msat c1, ch_to_counterparty_msat c1, ch_funding_amount_sat c1, ch_params c1,
     ch_next_holder_htlc_id c1, ch_next_counterparty_htlc_id c1, ch_holding_cell c1) ->
    u32 (ch_feerate_holder c0) -> ch_feerate_counterparty c0 = ch_feerate_counterparty c1 ->
    ch_pending_fee_ack c0 = ch_pending_fee_ack c1 ->
    ch_pending_counterparty_commitment c0 = ch_pending_counterparty_commitment c1 ->
    ch_awaiting_raa c0 = ch_awaiting_raa c1 -> solvent_room n (gc_htlcs c0)).
  { intros c0 Eh Ev G1 G2 G3 G4 G5. rewrite E1, E2, E3, E4, E5, E8, E12 in Ev.
    apply (gc_solvent n c c0 (revoke_map (snap_of (Some p)))); try done; rewrite ?G4, ?E6.
    - apply Forall_map, (Forall_impl _ _ _ (amounts_nonneg c Hc)). intros h. cbv beta.
      by destruct (revoke_map_same (snap_of (Some p)) h) as (_ & -> & _).
    - intros h. apply revoke_map_same.
    - intros h. apply revoke_map_same.
    - exact (move_revoke _ _ _ _ _ _ _ L Hp).
    - right. intros h Hh. change (revoke_gain (snap_of (Some p)) h <= 0). unfold revoke_gain.
      pose proof (revoke_facts _ _ _ _ _ _ _ L Hp h Hh) as F.
      fold (revoke_pass (snap_of (Some p)) h) in F.
      destruct (revoke_pass _ h); [done|]. apply F.
    - by rewrite G2, G3, E10, E11.
    - by rewrite G5, E13.
    - split; constructor. }
  unfold apply_pending. cbv zeta. rewrite E7, apply_pending_list; [|apply L|apply Hnd|apply Hnd].
  destruct (pcc_fee_update p) as [fee|]; apply Hgoal; try done.
  change (u32 (ch_feerate_holder c1)). by rewrite E9.
Qed.

Lemma collect_forwardable_solvent n : preserves (solvent_room n) collect_forwardable.
Proof.
  unfold collect_forwardable. preserve. apply preserves_modify. intros c [Hc Hf].
  pose proof (sv_ledger c Hc) as L. split.
  - solvent_split Hc.
    + apply (move_improve _ _ _ _ _ _ _ L). intros h Hh. apply improves_refl.
      * by apply (lg_stage L).
      * by destruct (forwardable h).
    + split; [|apply (sv_ids c Hc)]. apply Forall_map, (Forall_impl _ _ _ (proj1 (sv_ids c Hc))).
      intros h Hh. by destruct (forwardable h).
  - apply (fits_same n c); try done. apply length_map.
Qed.

Lemma flush_op_solvent n o op c : 0 <= n -> cell_ok op -> solvent_room (n + 1) c ->
  wp (flush_op o op) (fun _ => solvent_room n) c.
Proof.
  intros Hn Hop Hc.
  assert (Hm : solvent_room n c) by (destruct Hc as [? Hf]; split; [done|]; eapply fits_mono; [|exact Hf]; lia).
  destruct op; cbn [flush_op]; apply wp_bind, wp_catch; (eapply wp_mono;
    [first [by apply send_add_htlc_solvent
           |by apply (wp_preserves _ _ _ (send_fulfill_htlc_solvent n _ _))
           |by apply (wp_preserves _ _ _ (send_fail_htlc_solvent n _ _))
           |by apply (wp_preserves _ _ _ (send_fail_malformed_htlc_solvent n _ _ _))]
    |intros r s' Hs' r' _ _; wp_steps; done]).
Qed.

Lemma flush_solvent ops o c : Forall cell_ok ops -> solvent_room (Z.of_nat (length ops)) c ->
  wp (flush ops o) (fun _ => solvent_room 0) c.
Proof.
  intros Hops. revert o c. induction Hops as [|op ops Hop _ IH]; intros o c Hc; cbn [flush]; [done|].
  apply wp_bind. eapply wp_mono; [apply (flush_op_solvent (Z.of_nat (length ops))); [lia|done|]|].
  - cbn [length] in Hc. by replace (Z.of_nat (length ops) + 1) with (Z.of_nat (S (length ops))) by lia.
  - intros [o'|] c' Hc'; [by apply IH|]. destruct Hc' as [? Hf]. split; [done|].
    eapply fits_mono; [|exact Hf]. lia.
Qed.

Lemma accept_secret_money msg c :
  wp (accept_secret msg) (fun o c1 => match o with
    | None => c1 = c
    | Some p => ch_pending_counterparty_commitment c = Some p /\
      (ch_funding_amount_sat c1, ch_to_holder_msat c1, ch_to_counterparty_msat c1,
       ch_next_holder_htlc_id c1, ch_next_counterparty_htlc_id c1,
       ch_pending_counterparty_commitment c1, ch_htlcs c1, ch_params c1, ch_feerate_holder c1,
       ch_feerate_counterparty c1, ch_pending_fee_ack c1, ch_holding_cell c1, ch_awaiting_raa c1) =
      (ch_funding_amount_sat c, ch_to_holder_msat c, ch_to_counterparty_msat c,
       ch_next_holder_htlc_id c, ch_next_counterparty_htlc_id c, None, ch_htlcs c, ch_params c,
       ch_feerate_holder c, ch_feerate_counterparty c, ch_pending_fee_ack c, ch_holding_cell c, false)
    end) c.
Proof.
  unfold accept_secret. wp_steps; try done. split; [by apply (expect_Ok (E := ChannelError))|reflexivity].
Qed.

Lemma on_revoke_and_ack_solvent msg c :
  solvent_room (Z.of_nat (length (ch_holding_cell c))) c ->
  wp (on_revoke_and_ack msg) (fun _ => solvent_room 0) c.
Proof.
  intros Hr.
  assert (Hm : solvent_room 0 c) by (destruct Hr as [? Hf]; split; [done|]; eapply fits_mono; [|exact Hf]; lia).
  unfold on_revoke_and_ack. apply wp_bind, wp_throw_if; [done|intros _]. cbv beta iota.
  apply wp_bind. eapply wp_mono; [apply accept_secret_money|]. intros [p|] c1; [|by intros ->].
  intros [Ep Ev]. apply wp_bind, wp_modify. cbv beta iota.
  pose proof (apply_pending_solvent _ c c1 p Hr Ep Ev) as H1.
  assert (Ecell : ch_holding_cell (apply_pending p c1) = ch_holding_cell c).
  { injection Ev as _ _ _ _ _ _ _ _ _ _ _ E _. rewrite <- E. unfold apply_pending.
    by destruct (pcc_fee_update p). }
  revert H1 Ecell. generalize (apply_pending p c1). intros c2 H2 Ecell.
  apply wp_bind. eapply wp_mono; [apply wp_and|].
  - exact (collect_forwardable_solvent _ c2 H2).
  - apply (wp_preserves (fun s => ch_holding_cell s = ch_holding_cell c2)); [|done].
    unfold collect_forwardable. preserve. by apply preserves_modify.
  - intros [fwd|] c3 [H3 E3]; [|destruct H3 as [? Hf]; split; [done|]; eapply fits_mono; [|exact Hf]; lia].
    rewrite Ecell in E3. wp_steps. rewrite E3. eapply wp_mono.
    + apply flush_solvent; [destruct Hr as [Hc _]; apply (sv_cell c Hc)|].
      destruct H3 as [H3 Hf]. split; [|exact Hf]. solvent_split H3. constructor.
    + intros [o|] c4 H4; [|done]. wp_steps; [|done].
      eapply wp_mono; [by apply send_commitment_signed_solvent|].
      intros [cs|] c5 H5; wp_steps; done.
Qed.

(** ** Disconnecting *)
(** No removal of ours to roll back that the peer has already revoked to, and
    no inbound add that only looks committed. *)
Definition clean (c : Channel) : Prop :=
  forall h, h ∈ ch_htlcs c ->
    (h_outbound h = true -> h_phase_counterparty h = Removing ->
       rem (snap_of (ch_pending_counterparty_commitment c)) h = true) /\
    (h_outbound h = false -> h_phase_holder h = Pending -> in_our_current c h = false).

(** The new next id of the peer's HTLCs. *)
Definition next_id_ok (hs : list Htlc) (nc nc' : Z) : Prop :=
  nc' = nc \/ exists h, h ∈ hs /\ h_outbound h = false /\ h_phase_holder h = Pending /\ h_id h = nc'.

(** The closure with its three tests as arguments. *)
Definition rollback_removalsb (r : bool) (h : Htlc) : Htlc * list HoldingCellOp :=
  if bool_decide (h_phase_counterparty h = Removing) && negb r then
    if negb (h_outbound h) then
      (h <| h_resolution := None |> <| h_phase_counterparty := Committed |>, requeue_op h)
    else
      (h <| h_resolution := None |> <| h_phase_counterparty := Committed |>
         <| h_phase_holder := Committed |>, [])
  else (h, []).
Definition rollback_htlcb (cur : Htlc -> bool) (i r : bool) (rb : Rollback) (h : Htlc)
    : result ChannelError Rollback :=
  if bool_decide (h_phase_counterparty h = Pending) && h_outbound h && negb i then
    source ← expect (h_source h);
    Ok (rb <| rb_requeue := rb_requeue rb ++
          [CellAdd (h_amount_msat h) (h_payment_hash h) (h_cltv_expiry h) (h_onion h) source] |>)
  else
    let h := if bool_decide (h_phase_counterparty h = Pending) && negb (h_outbound h) && negb i
      then h <| h_phase_counterparty := NotYet |> else h in
    let '(h, ops) := rollback_removalsb r h in
    let rb := rb <| rb_requeue := rb_requeue rb ++ ops |> in
    if negb (h_outbound h) && bool_decide (h_phase_holder h = Pending) && negb (cur h)
    then Ok (rb <| rb_next_id := Z.min (rb_next_id rb) (h_id h) |>)
    else
      let h := if h_outbound h && bool_decide (h_phase_holder h = Removing)
        then h <| h_resolution := None |> <| h_phase_holder := Committed |> else h in
      Ok (rb <| rb_htlcs := rb_htlcs rb ++ [h] |>).

Lemma rollback_htlc_b c i r rb h :
  rollback_htlc c i r rb h =
    rollback_htlcb (in_our_current c) (bool_decide (key h ∈ i)) (bool_decide (key h ∈ r)) rb h.
Proof.
  unfold rollback_htlc, rollback_htlcb. change (h_outbound h, h_id h) with (key h). cbv zeta.
  destruct (_ && h_outbound h && _); [done|].
  destruct (_ && negb (h_outbound h) && _); reflexivity.
Qed.

Lemma rollback_htlcb_pass cur i r rb rb' h :
  stage_ok h = true -> small_htlc h -> 0 <= h_amount_msat h ->
  (h_outbound h = false -> h_phase_holder h = Pending -> cur h = false) ->
  rollback_htlcb cur i r rb h = Ok rb' ->
  rb_htlcs rb' = rb_htlcs rb ++ option_list (rollback_passb i r h) /\
  (rb_next_id rb' = rb_next_id rb \/
   h_outbound h = false /\ h_phase_holder h = Pending /\
   rb_next_id rb' = Z.min (rb_next_id rb) (h_id h)) /\
  exists ops, rb_requeue rb' = rb_requeue rb ++ ops /\ Forall cell_ok ops.
Proof.
  intros Hs [_ Hsm] Ha Hcur. destruct rb as [rhs rq rid].
  stage_split h Hs; destruct i, r;
    (let t := match goal with |- rollback_htlcb _ ?i ?r _ ?h = _ -> _ => constr:((i, r, h)) end in
     match t with (?i, ?r, ?h) => run_pass (rollback_passb i r h) end);
    (let t := match goal with |- ?t = Ok _ -> _ => t end in
     let x := eval cbv -[app Z.min mbind result_bind expect] in t in change t with x);
    intros H; rewrite ?(Hcur eq_refl eq_refl) in H; bind_inv;
    (split; [try done; symmetry; apply app_nil_r|]);
    (split; [first [left; reflexivity|right; done]|]);
    eexists; (split; [first [reflexivity|symmetry; apply app_nil_r]|]); repeat constructor; done.
Qed.

Lemma rollback_all_pass c p i r : i = snap_included p -> r = snap_removed p ->
  forall hs rb rb',
  (forall h, h ∈ hs -> stage_ok h = true /\ 0 <= h_amount_msat h /\ small_htlc h /\
    (h_outbound h = false -> h_phase_holder h = Pending -> in_our_current c h = false)) ->
  rollback_all c i r rb hs = Ok rb' ->
  rb_htlcs rb' = rb_htlcs rb ++ omap (rollback_pass p) hs /\
  next_id_ok hs (rb_next_id rb) (rb_next_id rb') /\
  exists ops, rb_requeue rb' = rb_requeue rb ++ ops /\ Forall cell_ok ops.
Proof.
  intros -> ->. induction hs as [|h t IH]; intros rb rb' Hhs Hrun; cbn [rollback_all] in Hrun.
  { injection Hrun as <-. cbn. rewrite app_nil_r. split; [done|]. split; [by left|].
    exists []. by rewrite app_nil_r. }
  apply bind_Ok in Hrun as (rb1 & Hh & Hrun). rewrite rollback_htlc_b in Hh.
  destruct (Hhs h) as (Hs & Ha & Hsm & Hcur); [by left|].
  destruct (rollback_htlcb_pass _ _ _ _ _ _ Hs Hsm Ha Hcur Hh) as (E1 & Hid1 & ops1 & Eq1 & Hops1).
  destruct (IH rb1 rb') as (E2 & Hid2 & ops2 & Eq2 & Hops2); [|done|].
  { intros h' Hh'. apply Hhs. by right. }
  split; [|split].
  - rewrite E2, E1, <- app_assoc. f_equal. cbn [omap list_omap]. unfold rollback_pass at 2, inc, rem.
    by destruct (rollback_passb _ _ h).
  - destruct Hid2 as [Hid2|(h' & Hh' & Hrest)].
    + destruct Hid1 as [Hid1|(Ho & Hp & Hmin)]; [left; congruence|].
      rewrite Hid2, Hmin. destruct (Z.min_spec (rb_next_id rb) (h_id h)) as [[_ ->]|[_ ->]]; [by left|].
      right. exists h. split; [by left|done].
    + right. exists h'. split; [by right|done].
  - exists (ops1 ++ ops2). rewrite Eq2, Eq1, app_assoc. split; [done|]. by apply Forall_app.
Qed.

Lemma rollback_solvent c c' rb ops :
  solvent c -> clean c ->
  next_id_ok (ch_htlcs c) (ch_next_counterparty_htlc_id c) (rb_next_id rb) -> Forall cell_ok ops ->
  (ch_funding_amount_sat c', ch_to_holder_msat c', ch_to_counterparty_msat c',
   ch_next_holder_htlc_id c', ch_next_counterparty_htlc_id c', ch_pending_counterparty_commitment c',
   ch_htlcs c', ch_params c', ch_feerate_counterparty c', ch_holding_cell c', ch_awaiting_raa c') =
  (ch_funding_amount_sat c, ch_to_holder_msat c, ch_to_counterparty_msat c,
   ch_next_holder_htlc_id c, rb_next_id rb, ch_pending_counterparty_commitment c,
   omap (rollback_pass (snap_of (ch_pending_counterparty_commitment c))) (ch_htlcs c), ch_params c,
   ch_feerate_counterparty c, ops ++ ch_holding_cell c, ch_awaiting_raa c) ->
  u32 (ch_feerate_holder c') -> from_option u32 True (ch_pending_fee_ack c') -> solvent c'.
Proof.
  intros Hc Hclean Hid Hops. set (p := snap_of (ch_pending_counterparty_commitment c)).
  pose proof (sv_ledger c Hc : ledger _ _ _ _ _ p _) as L.
  assert (Hp : forall h, h ∈ ch_htlcs c -> h_outbound h = true -> h_phase_counterparty h = Removing ->
    rem p h = true) by (intros h Hh; by apply (Hclean h Hh)).
  intros [= E1 E2 E3 E4 E5 E6 E7 E8 E9 E10 E11] Hfee Hack.
  destruct (sv_ids c Hc) as (Hids & Hnh & Hnc).
  split; rewrite ?E1, ?E2, ?E3, ?E4, ?E5, ?E6, ?E7, ?E8, ?E9, ?E10, ?E11; try keep Hc.
  - by apply (move_rollback _ _ _ _ _ _ _ L Hp).
  - split_and!; try done; apply (sv_fees c Hc).
  - apply Forall_app. split; [done|apply (sv_cell c Hc)].
  - split; [|split; [done|]].
    + apply Forall_forall. intros h' (h & Hh & E)%list_elem_of_omap.
      pose proof (rollback_facts _ _ _ _ _ _ _ L Hp h Hh) as F. fold (rollback_pass p h) in F.
      rewrite E in F. destruct F as [([= _ Ek] & Ea & _) _]. unfold small_htlc. rewrite Ek, Ea.
      by apply (proj1 (Forall_forall _ _) Hids).
    + destruct Hid as [->|(h & Hh & _ & _ & <-)]; [done|].
      by apply (proj1 (Forall_forall _ _) Hids).
Qed.

Lemma on_disconnect_solvent c : clean c -> solvent c -> wp on_disconnect (fun _ => solvent) c.
Proof.
  intros Hclean Hc. pose proof (sv_ledger c Hc) as L. unfold on_disconnect.
  wp_steps; [|done]. rename a into rb.
  match goal with H : rollback_all _ _ _ _ _ = Ok _ |- _ =>
    apply (rollback_all_pass c (snap_of (ch_pending_counterparty_commitment c)))
      in H as (Eh & Hid & ops & Eops & Hops);
    [|by destruct (ch_pending_counterparty_commitment c)
     |by destruct (ch_pending_counterparty_commitment c)|] end.
  2: { intros h Hh. destruct (lg_stage L h Hh). split; [done|]. split; [done|]. split.
       - by apply (proj1 (Forall_forall _ _) (proj1 (sv_ids c Hc))).
       - by apply (Hclean h Hh). }
  cbn [rb_htlcs rb_next_id rb_requeue app] in Eh, Hid, Eops. rewrite Eh, Eops.
  destruct (sv_fees c Hc) as (F1 & F2 & F3 & F4).
  case_match eqn:Ef; by apply (rollback_solvent c _ rb ops).
Qed.
End Solvency.
