(* ===== verification/Conservation.v ===== *)
(** * Conservation: no operation creates or loses money

    Over every run in which amounts stay below 21 million bitcoin: both
    commitments' balances and HTLCs sum to the funding amount, no saturating
    subtraction saturates and no addition wraps, and the outputs of every
    commitment built sum to at most the funding output it spends. *)
From stdpp Require Import relations.
From S2P Require Import Prelude Secp Types Msgs Tx Shachain Keys Commitment Channel Dance Close Reestablish Ledger Moves Machine Solvency.

Section Conservation.
Context `{HS : Secp} {Sg : Type} `{HCS : !ChannelSigner Sg}.
Abbreviation Channel := (Channel (Sg := Sg)).
Abbreviation solvent_room := (solvent_room (Sg := Sg)).
Implicit Types c : Channel.

(** ** Every step *)
(** Room for what one step may add: each operation of the holding cell may
    add an HTLC. *)
Definition room (c : Channel) : Prop := fits (1 + Z.of_nat (length (ch_holding_cell c))) c.

(** Amounts of at most 21 million bitcoin, feerates of 32 bits; a
    disconnection when [clean]. *)
Definition event_ok (c : Channel) (e : event) : Prop :=
  match e with
  | EvAcceptChannel msg => sat_ok (ac_channel_reserve_satoshis msg)
  | EvSendAdd amount _ _ _ _ => amount_ok amount
  | EvAdd msg => amount_ok (add_amount_msat msg)
  | EvSendFee f => u32 f
  | EvFee msg => u32 (fee_feerate_per_kw msg)
  | EvDisconnect => clean c
  | _ => True
  end.

Lemma maybe_become_normal_money c : money_view (maybe_become_normal c) = money_view c.
Proof. unfold maybe_become_normal. by destruct (_ && _ && _). Qed.

Ltac money_tac :=
  preserve; try (apply preserves_money; intros ?; cbv zeta;
    first [reflexivity | apply maybe_become_normal_money
          | etransitivity; [apply maybe_become_normal_money|reflexivity]
          | repeat case_match; reflexivity]).

Lemma opening_money n :
  (forall t v, preserves (solvent_room n) (funding_created t v)) /\
  (forall m, preserves (solvent_room n) (on_funding_created m)) /\
  (forall m, preserves (solvent_room n) (on_funding_signed m)) /\
  (forall s, preserves (solvent_room n) (funding_confirmed s)) /\
  (forall m, preserves (solvent_room n) (on_channel_ready m)).
Proof.
  split_and!; intros; [unfold funding_created, sign_counterparty_0
    | unfold on_funding_created, accept_holder_0, sign_counterparty_0
    | unfold on_funding_signed, accept_holder_0 | unfold funding_confirmed | unfold on_channel_ready];
    money_tac.
Qed.

Lemma closing_money n :
  (forall s, preserves (solvent_room n) (send_shutdown s)) /\
  (forall m s, preserves (solvent_room n) (on_shutdown m s)) /\
  (forall f, preserves (solvent_room n) (maybe_send_closing_signed f)) /\
  (forall m f, preserves (solvent_room n) (on_closing_signed m f)).
Proof.
  split_and!; intros; [unfold send_shutdown | unfold on_shutdown, send_shutdown
    | unfold maybe_send_closing_signed
    | unfold on_closing_signed, on_closing_range, on_closing_legacy, finalize_closing,
        closing_signed_msg]; money_tac.
Qed.

Lemma on_accept_channel_solvent n msg : sat_ok (ac_channel_reserve_satoshis msg) ->
  preserves (solvent_room n) (on_accept_channel msg).
Proof.
  intros Hr. unfold on_accept_channel. preserve. apply preserves_modify. intros c [Hc Hf].
  split; [|exact Hf]. destruct Hc. split; try assumption. split; [apply sv_reserves|exact Hr].
Qed.

Lemma step_solvent e c c' : solvent c -> room c -> event_ok c e -> step_by e c c' -> solvent c'.
Proof.
  intros Hc Hroom He Hstep. eapply wp_step_by; [exact Hstep|]. unfold room in Hroom.
  assert (H1 : solvent_room 1 c) by (split; [done|]; eapply fits_mono; [|exact Hroom]; lia).
  assert (H0 : solvent_room 0 c) by (split; [done|]; eapply fits_mono; [|exact Hroom]; lia).
  destruct (opening_money 0) as (O1 & O2 & O3 & O4 & O5), (closing_money 0) as (C1 & C2 & C3 & C4).
  assert (Hdisc : forall A (m : stm Channel ChannelError A),
    wp m (fun _ => solvent_room 0) c -> wp (discard m) (fun _ => solvent) c).
  { intros A m Hm. apply wp_bind. eapply wp_mono; [exact Hm|]. intros [a|] s' [Hs' _]; done. }
  assert (Hweak : forall m : stm Channel ChannelError unit,
    wp m (fun _ => solvent_room 0) c -> wp m (fun _ => solvent) c).
  { intros m Hm. eapply wp_mono; [exact Hm|]. intros o s' [Hs' _]. done. }
  destruct e; cbn [run_event]; cbn [event_ok] in He;
    first [apply on_disconnect_solvent; done | apply Hdisc | apply Hweak];
    first [by apply send_add_htlc_solvent | by apply on_update_add_htlc_solvent
          | by apply O1 | by apply O2 | by apply O3 | by apply O4 | by apply O5
          | by apply C1 | by apply C2 | by apply C3 | by apply C4
          | by apply on_accept_channel_solvent | by apply send_fulfill_htlc_solvent
          | by apply send_fail_htlc_solvent | by apply send_fail_malformed_htlc_solvent
          | by apply send_update_fee_solvent | by apply on_update_fulfill_htlc_solvent
          | by apply on_update_fail_htlc_solvent | by apply on_update_fail_malformed_htlc_solvent
          | by apply on_update_fee_solvent | by apply send_commitment_signed_solvent
          | by apply on_commitment_signed_solvent | idtac].
  apply on_revoke_and_ack_solvent. split; [done|]. eapply fits_mono; [|exact Hroom]. lia.
Qed.

(** ** Runs *)
(** A channel opened with plausible amounts. *)
Definition opened_ok (c : Channel) : Prop :=
  opened c /\ sat_ok (ch_funding_amount_sat c) /\ 0 <= ch_push_msat c /\
  sat_ok (holder_selected_reserve_sat (ch_params c)) /\
  sat_ok (counterparty_selected_reserve_sat (ch_params c)) /\ u32 (ch_feerate_holder c).

Definition safe_step (c c' : Channel) : Prop := exists e, room c /\ event_ok c e /\ step_by e c c'.
Definition safe_reachable (c : Channel) : Prop := exists c0, opened_ok c0 /\ rtc safe_step c0 c.

Lemma opened_balances c : opened c -> sat_ok (ch_funding_amount_sat c) -> 0 <= ch_push_msat c ->
  0 <= ch_to_holder_msat c /\ 0 <= ch_to_counterparty_msat c /\
  ch_to_holder_msat c + ch_to_counterparty_msat c = 1000 * ch_funding_amount_sat c /\
  ch_feerate_counterparty c = ch_feerate_holder c /\ ch_pending_fee_ack c = None.
Proof.
  unfold sat_ok, MAX_SAT. intros [(s&cf&nw&id&f&pu&fr&m& H)|(s&cf&nw&m&acc& H)].
  - unfold new_outbound in H. bind_inv. cbn. intros Hf Hp.
    match goal with H : (_ <? _) = false |- _ => apply Z.ltb_ge in H end.
    rewrite wrap_small in * by (unfold uint; lia). unfold msat_sub.
    rewrite wrap_small by (unfold uint; lia). split_and!; try done; lia.
  - unfold new_inbound in H. cbv zeta in H. bind_inv. cbn. intros Hf Hp.
    match goal with H : (_ <? oc_push_msat m) = false |- _ => apply Z.ltb_ge in H end.
    rewrite wrap_small in * by (unfold uint; lia). unfold msat_sub.
    rewrite wrap_small by (unfold uint; lia). split_and!; try done; lia.
Qed.

Lemma opened_solvent c : opened_ok c -> solvent c.
Proof.
  intros (Ho & Hf & Hp & Hr1 & Hr2 & Hfee).
  destruct (opened_balances c Ho Hf Hp) as (Hh & Hcp & Hsum & Efc & Eack).
  pose proof (opened_fresh c Ho) as (E1 & E2 & E3 & E4 & _ & _ & _ & _ & _ & _ & E5 & E6 & _).
  split; rewrite ?E1, ?E2, ?E3, ?E4, ?E5, ?E6, ?Efc, ?Eack; try done.
  - split; try done; try (by constructor); try (unfold total; cbn; lia).
    all: try (intros h Hin; by apply not_elem_of_nil in Hin).
    { intros h h' Hin; by apply not_elem_of_nil in Hin. }
    split; try (intros h Hin; by apply not_elem_of_nil in Hin); [|done].
    intros k [Hin|Hin]; by apply not_elem_of_nil in Hin.
  - split; constructor.
Qed.

Lemma safe_reachable_solvent c : safe_reachable c -> solvent c.
Proof.
  intros (c0 & Ho & Hrun). apply opened_solvent in Ho.
  induction Hrun as [|c1 c2 c3 (e & Hr & He & Hs) _ IH]; [done|]. apply IH. by eapply step_solvent.
Qed.

(** What a commitment of one side holds, HTLCs included. *)
Definition committed_htlcs (c : Channel) (holder_side : bool) : list HtlcOutputInCommitment :=
  map (fun h => htlc_in_commitment h holder_side)
    (List.filter (fun h => included (if holder_side then h_phase_holder h else h_phase_counterparty h))
       (ch_htlcs c)).

Lemma committed_sum c side :
  zsum (map amount_msat (committed_htlcs c side)) = in_flight_msat c side.
Proof.
  unfold committed_htlcs, in_flight_msat, total, side_phase.
  induction (ch_htlcs c) as [|h t IH]; [done|]. cbn [List.filter map zsum].
  destruct (included (if side then h_phase_holder h else h_phase_counterparty h));
    cbn [map zsum foldr]; unfold zsum in *; rewrite <- IH; cbn; lia.
Qed.

Lemma floors_sum l :
  zsum (map (fun h => to_sat_floor (amount_msat h)) l) * 1000 <= zsum (map amount_msat l).
Proof.
  induction l as [|h t IH]; cbn [map]; [cbn; lia|]. unfold zsum in *. cbn [foldr].
  unfold to_sat_floor at 1. pose proof (Z.mul_div_le (amount_msat h) 1000). lia.
Qed.

Lemma committed_amounts c side : solvent c ->
  Forall (fun h => u64 (amount_msat h)) (committed_htlcs c side).
Proof.
  intros Hc. apply Forall_map, Forall_forall. intros h Hh. apply list_elem_of_In in Hh.
  apply filter_In in Hh as [Hh%list_elem_of_In _]. cbn.
  pose proof (proj1 (Forall_forall _ _) (proj1 (sv_ids c Hc)) h Hh) as [_ Hs].
  pose proof (lg_stage (sv_ledger c Hc) h Hh). unfold uint, MAX_MSAT, MAX_SAT in *. lia.
Qed.

(** Whatever is built from the balances and HTLCs of one side pays out at
    most the funding amount. *)
Lemma outputs_funded c side (p : CommitmentTxParams) : solvent c ->
  (to_broadcaster_msat p, to_countersignatory_msat p) = balances_for c side \/
  (to_countersignatory_msat p, to_broadcaster_msat p) = balances_for c side ->
  htlcs p = committed_htlcs c side ->
  zsum (map out_value (outputs p)) <= ch_funding_amount_sat c.
Proof.
  intros Hc Hb Eh. destruct (balances_sum c Hc side) as (H1 & H2 & H3).
  rewrite <- committed_sum in H3. pose proof (committed_amounts c side Hc) as Ha.
  pose proof (sv_funding c Hc) as Hf. unfold sat_ok, MAX_SAT in Hf.
  assert (Hpos : 0 <= zsum (map amount_msat (committed_htlcs c side))).
  { clear -Ha. induction Ha as [|h t Hh _ IH]; [done|]. unfold zsum, uint in *. cbn. lia. }
  assert (Hsum : to_broadcaster_msat p + to_countersignatory_msat p =
    (balances_for c side).1 + (balances_for c side).2 /\
    0 <= to_broadcaster_msat p /\ 0 <= to_countersignatory_msat p).
  { destruct Hb as [E|E]; rewrite <- E in *; cbn in *; lia. }
  assert (Hok : amounts_ok p) by (split; [unfold uint; lia|unfold uint; lia|by rewrite Eh]).
  pose proof (outputs_sum p Hok) as Ho. unfold sat_in in Ho. rewrite Eh in Ho.
  pose proof (floors_sum (committed_htlcs c side)).
  unfold to_sat_floor in Ho at 1 2.
  pose proof (Z.mul_div_le (to_broadcaster_msat p) 1000).
  pose proof (Z.mul_div_le (to_countersignatory_msat p) 1000).
  assert (0 <= fee_paid p); [|lia]. unfold fee_paid.
  apply Z.min_glb; [apply base_fee_nonneg|]. apply Z.div_pos; [destruct (broadcaster_pays_fee p)|]; lia.
Qed.

(** [C8] Money is conserved: in every run whose amounts stay below 21 million
    bitcoin, on both commitments the two balances are non-negative and, with
    the HTLCs in flight, add up to the funding amount exactly. *)
Theorem money_conserved c side :
  safe_reachable c ->
  let '(to_holder, to_counterparty) := balances_for c side in
  0 <= to_holder /\ 0 <= to_counterparty /\
  to_holder + to_counterparty + zsum (map amount_msat (committed_htlcs c side)) =
    1000 * ch_funding_amount_sat c.
Proof.
  intros Hc%safe_reachable_solvent. rewrite committed_sum.
  pose proof (balances_sum c Hc side). by destruct (balances_for c side).
Qed.

(** [C9] Every commitment transaction we build, for us or for the peer, in such
    a run can be paid for: its outputs and its fee sum to at most the funding
    output it spends. *)
Theorem commitments_funded c number point :
  safe_reachable c ->
  (forall built keys htlcs, build_holder_commitment_at c number = Ok (built, keys, htlcs) ->
     zsum (map out_value (output (built_tx built))) <= ch_funding_amount_sat c) /\
  (forall built keys htlcs, build_counterparty_commitment_at c number point = Ok (built, keys, htlcs) ->
     zsum (map out_value (output (built_tx built))) <= ch_funding_amount_sat c).
Proof.
  intros Hc%safe_reachable_solvent. split; intros built keys htlcs H.
  - unfold build_holder_commitment_at in H. bind_inv.
    destruct (balances_for c true) as [th tc] eqn:Eb. bind_inv.
    apply (outputs_funded c true); [done|by left|done].
  - unfold build_counterparty_commitment_at in H. bind_inv.
    destruct (balances_for c false) as [th tc] eqn:Eb. bind_inv.
    apply (outputs_funded c false); [done|by right|done].
Qed.
End Conservation.
