(* ===== verification/Sample.v ===== *)
(** * Sample: concrete channels for the witnesses

    A channel between the sample signers 10 and 20 over the toy curve, driven
    through the opening; nothing is hashed, the steps are taken symbolically. *)
From stdpp Require Import relations.
From S2P Require Import Prelude Secp Types Msgs Sha256 Tx Shachain Keys Commitment Interp Channel Dance Close Reestablish Ledger Moves Machine Revocation Holder Solvency Conservation.

Abbreviation toy_signer := (InMemoryChannelSigner (HS := toy_secp)).
Abbreviation ToyChannel := (Channel (HS := toy_secp) (Sg := toy_signer)).

(** ** Totality of the toy derivations *)
Lemma toy_point k n : exists p, per_commitment_point (sample_signer k) n = Some p.
Proof.
  change (exists p, ims_point (sample_signer k) n = Some p). unfold ims_point.
  set (secret := generate_from_seed _ _).
  assert (H : length secret = 32%nat) by (by apply length_generate_from_seed).
  clearbody secret. cbn [sk_from_slice toy_secp]. rewrite decide_True by done. by eexists.
Qed.

Lemma toy_tx_keys p a b : exists k, tx_creation_keys (HS := toy_secp) p a b = Some k.
Proof. eexists. reflexivity. Qed.

(** ** Opening *)
Definition sample_id : bytes := replicate 32 7.
Definition sample_open_params : ChannelParams :=
  MkChannelParams 546 0 10000 0 0 1000000000 0 1 0 50 144 0.

(** A channel of 1,000,000 sat, all ours, about to be accepted. *)
Definition sample_channel : ToyChannel :=
  fresh_channel (HS := toy_secp) (sample_signer 10) Opener OpenSent default_config
    sample_open_params sample_id 1000000 0 (pubkeys (sample_signer 10)) None 0 1000 true
    1000000000 0 None.

Lemma sample_new :
  exists msg, new_outbound (sample_signer 10) default_config Regtest sample_id 1000000 0 1000 =
    Ok (sample_channel, msg).
Proof.
  unfold new_outbound. destruct (toy_point 10 0) as [p Hp]. rewrite Hp. eexists. reflexivity.
Qed.

Lemma sample_is_opened : opened sample_channel.
Proof. left. destruct sample_new as [msg H]. by repeat eexists. Qed.

Definition sample_accept : AcceptChannel (HS := toy_secp) :=
  {| ac_temporary_channel_id := sample_id; ac_dust_limit_satoshis := 546;
     ac_max_htlc_value_in_flight_msat := 1000000000; ac_channel_reserve_satoshis := 10000;
     ac_htlc_minimum_msat := 1; ac_minimum_depth := 3; ac_to_self_delay := 144;
     ac_max_accepted_htlcs := 50;
     ac_basepoints := basepoints_msg (HS := toy_secp) (pubkeys (sample_signer 20));
     ac_first_per_commitment_point := toy_of 77; ac_upfront_shutdown_script := None;
     ac_channel_type := None |}.

Definition sample_accepted : ToyChannel := (on_accept_channel sample_accept sample_channel).2.

Lemma sample_accept_ok :
  on_accept_channel sample_accept sample_channel = (Ok tt, sample_accepted).
Proof. reflexivity. Qed.

Definition sample_txid : Txid := replicate 32 9.

(** ** Signing never fails once the funding is known *)
Section ToyTotal.
Context (c : ToyChannel) (cp : ChannelPublicKeys) (o : OutPoint) (k : Z).
Hypothesis Hsg : ch_signer c = sample_signer k.
Hypothesis Hcp : ch_counterparty_pubkeys c = Some cp.
Hypothesis Ho : ch_funding_outpoint c = Some o.

Lemma toy_build_holder n :
  exists built keys hs, build_holder_commitment_at c n = Ok (built, keys, hs).
Proof.
  unfold build_holder_commitment_at, counterparty. rewrite Hcp, Hsg, Ho.
  destruct (toy_point k n) as [pt Hpt]. rewrite Hpt.
  destruct (toy_tx_keys pt (ch_holder_pubkeys c) cp) as [keys Hkeys].
  cbn [ok_or expect mbind result_bind]. rewrite Hkeys. destruct (balances_for c true).
  by repeat eexists.
Qed.

Lemma toy_build_counterparty n pt :
  exists built keys hs, build_counterparty_commitment_at c n pt = Ok (built, keys, hs) /\
    input (built_tx built) <> [].
Proof.
  unfold build_counterparty_commitment_at, counterparty. rewrite Hcp, Ho.
  destruct (toy_tx_keys pt cp (ch_holder_pubkeys c)) as [keys Hkeys].
  cbn [ok_or expect mbind result_bind]. rewrite Hkeys. destruct (balances_for c false).
  do 3 eexists. split; [reflexivity|discriminate].
Qed.

Lemma toy_sign_counterparty_0 pt :
  ch_counterparty_current_point c = Some pt ->
  exists sig i, sign_counterparty_0 c =
    (Ok sig, c <| ch_current_counterparty_commitment := Some i |>).
Proof.
  intros Hpt. unfold sign_counterparty_0, reads_self, modify, mret, stm_ret, mbind, stm_bind.
  rewrite Hpt. cbn [expect].
  destruct (toy_build_counterparty 0 pt) as (built & keys & hs & Hb & Hin). rewrite Hb.
  destruct (funding_sighash_total c cp (built_tx built) Hcp Hin) as [h Hh].
  unfold sign_counterparty_commitment_tx. rewrite Hh. cbn [mbind result_bind].
  by repeat eexists.
Qed.
End ToyTotal.

Definition sample_outpoint : OutPoint := {| op_txid := sample_txid; op_vout := 0 |}.
Definition sample_located : ToyChannel :=
  sample_accepted <| ch_funding_outpoint := Some sample_outpoint |>
    <| ch_channel_id := channel_id_from_funding sample_txid 0 |>.

(** The opener has signed the peer's first commitment. *)
Lemma sample_funding :
  exists msg i, funding_created sample_txid 0 sample_accepted =
    (Ok msg, sample_located <| ch_current_counterparty_commitment := Some i |>
                            <| ch_state := FundingCreatedSent |>).
Proof.
  destruct (toy_sign_counterparty_0 sample_located _ _ eq_refl eq_refl (toy_of 77) eq_refl)
    as (sig & i & Hs).
  eexists; exists i. unfold funding_created.
  do 2 (eapply stm_run; [reflexivity|cbv beta]).
  eapply (stm_run _ _ _ _ sample_located); [reflexivity|cbv beta].
  eapply stm_run; [exact Hs|]. cbv beta.
  eapply stm_run; [unfold modify; reflexivity|cbv beta].
  eapply stm_run; [unfold gets; reflexivity|cbv beta]. unfold mret, stm_ret. reflexivity.
Qed.

Lemma no_htlcs_holder (c : ToyChannel) n built keys hs :
  ch_htlcs c = [] -> build_holder_commitment_at c n = Ok (built, keys, hs) -> hs = [].
Proof.
  intros Hh Hb. unfold build_holder_commitment_at in Hb.
  apply bind_Ok in Hb as (cp & _ & Hb). apply bind_Ok in Hb as (pt & _ & Hb).
  apply bind_Ok in Hb as (ks & _ & Hb). destruct (balances_for c true).
  apply bind_Ok in Hb as (f & _ & Hb). apply Ok_inj in Hb. rewrite Hh in Hb.
  apply (f_equal snd) in Hb. symmetry. exact Hb.
Qed.

(** The peer's signature over our first commitment has arrived. *)
Lemma sample_signed (c : ToyChannel) o :
  ch_state c = FundingCreatedSent -> ch_signer c = sample_signer 10 ->
  ch_counterparty_pubkeys c = Some (pubkeys (sample_signer 20)) -> ch_funding_outpoint c = Some o ->
  exists msg c' hc, on_funding_signed msg c = (Ok tt, c') /\
    c' = c <| ch_current_holder_commitment := Some hc |> <| ch_state := AwaitingChannelReady |> /\
    (ch_htlcs c = [] -> hc_htlcs hc = []) /\
    build_holder_commitment_at c 0 = Ok (hc_built hc, hc_keys hc, hc_htlcs hc) /\
    hc_feerate hc = ch_feerate_holder c /\ hc_counterparty_htlc_sigs hc = [].
Proof.
  intros Hst Hsg Hcp Ho.
  destruct (toy_build_holder c _ _ _ Hsg Hcp Ho 0) as (built & keys & hs & Hb).
  pose proof (build_holder_input _ _ _ _ _ Hb) as Hin.
  destruct (funding_sighash_total c _ _ Hcp Hin) as [h Hh].
  set (sig := sign_ecdsa (Secp := toy_secp) h (funding_key (sample_signer 20))).
  exists {| fs_channel_id := ch_channel_id c; fs_signature := sig |}. do 2 eexists.
  split.
  - unfold on_funding_signed.
    eapply stm_run. { unfold throw_if. rewrite Hst. reflexivity. }
    cbv beta. eapply stm_run. { unfold throw_if. cbn [fs_channel_id]. by rewrite bool_decide_eq_true_2. }
    cbv beta. eapply stm_run; [|reflexivity]. unfold accept_holder_0. cbn [fs_signature].
    eapply stm_run. { unfold reads_self. by rewrite Hb. }
    cbv beta iota. eapply stm_run; [|reflexivity]. unfold reads_self, verify_counterparty_funding_sig, counterparty.
    rewrite Hcp, Hh. cbn [ok_or mbind result_bind].
    change (funding_pubkey (pubkeys (sample_signer 20)))
      with (sk_public_key (Secp := toy_secp) (funding_key (sample_signer 20))).
    unfold sig. by rewrite verify_sign.
  - split; [reflexivity|]. split; [|by split].
    intros Hno. exact (no_htlcs_holder c 0 _ _ _ Hno Hb).
Qed.

Lemma step_ok e (c c' : ToyChannel) u :
  run_event e c = (Ok u, c') -> numbers_fit c' -> rtc step c c'.
Proof. intros H Hf. apply rtc_once. exists e. split; [|done]. by exists (Ok u). Qed.

(** A channel in [AwaitingChannelReady], with both first commitments signed,
    and the one before it. *)
Lemma sample_run :
  exists c0 c i, reachable c0 /\ rtc step c0 c /\ signed c0 i /\ reachable c /\
    ch_state c = AwaitingChannelReady /\ ch_signer c = sample_signer 10.
Proof.
  destruct sample_funding as (msg & i & H0).
  remember (sample_located <| ch_current_counterparty_commitment := Some i |>
    <| ch_state := FundingCreatedSent |>) as c0 eqn:E0.
  destruct (sample_signed c0 sample_outpoint) as (msg1 & c & hc & H1 & E1 & _); [by rewrite E0..|].
  assert (Hr : reachable c0).
  { exists sample_channel. split; [apply sample_is_opened|].
    transitivity sample_accepted.
    - apply (step_ok (EvAcceptChannel sample_accept) _ _ tt); [apply sample_accept_ok|by split].
    - apply (step_ok (EvFund sample_txid 0) _ _ tt); [|rewrite E0; by split].
      cbn [run_event]. unfold discard. by eapply stm_run. }
  assert (Hstep : rtc step c0 c).
  { apply (step_ok (EvFundingSigned msg1) _ _ tt); [done|]. rewrite E1, E0. by split. }
  exists c0, c, i. split; [done|]. split; [done|]. split; [left; by rewrite E0|].
  split; [by eapply reachable_steps|]. rewrite E1, E0. done.
Qed.

(** ** Witnesses of the channel properties *)
Lemma revoked_commitments_punishable_witness :
  exists (c0 c : ToyChannel) i, reachable c0 /\ rtc step c0 c /\ signed c0 i /\
    (signed c i \/ exists secret,
       secret_for (ch_counterparty_secrets c) (index_for_commitment (cci_number i)) = Some secret).
Proof.
  destruct sample_run as (c0 & c & i & Hr & Hs & Hi & _). exists c0, c, i.
  do 3 (split; [done|]).
  destruct (revoked_commitments_punishable ims_ok c0 c i Hr Hs Hi) as [H|(secret & H & _)]; eauto.
Defined.

Lemma one_commitment_in_flight_witness :
  exists c : ToyChannel, reachable c /\
    (ch_awaiting_raa c = true <-> ch_pending_counterparty_commitment c <> None).
Proof.
  destruct sample_run as (c0 & c & i & _ & _ & _ & Hr & _). exists c. split; [done|].
  apply (one_commitment_in_flight c Hr).
Defined.

(** The check of the toy curve: the bytes are decoded and verified. *)
Definition toy_check (h s k : bytes) : bool :=
  match pk_from_slice k, s with
  | Some pk, [_; _; v; _] => verify_ecdsa h (toy_of v) pk
  | _, _ => false
  end.

Lemma toy_check_ok h s k :
  verify_ecdsa h s k = true -> toy_check h (sig_with_sighash_all s) (pk_serialize k) = true.
Proof.
  intros H. unfold toy_check. rewrite pk_from_serialize.
  change (verify_ecdsa h (toy_of (toy_val s)) k = true). by rewrite toy_of_proj.
Qed.

Lemma unilateral_close_available_witness :
  exists (c : ToyChannel) h tx spk w, reachable c /\ funded c = true /\
    signed_holder_commitment_tx c = Ok tx /\ witness <$> head (input tx) = Some w /\
    funding_script_pubkey c = Ok spk /\ p2wsh_accepts (toy_check h) spk w = true.
Proof.
  destruct sample_run as (c0 & c & i & _ & _ & _ & Hr & Hst & Hsg).
  assert (Hf : funded c = true) by (unfold funded; by rewrite Hst).
  destruct (unilateral_close_available ims_ok c Hr Hf)
    as (hc & cp & h & sg & tx & spk & w & _ & _ & _ & Htx & _ & _ & _ & _ & Hw & _ & Hspk & H).
  { rewrite Hsg. apply in_memory_new_ok. }
  exists c, h, tx, spk, w. split_and!; [exact Hr|exact Hf|exact Htx|exact Hw|exact Hspk|].
  apply H, toy_check_ok.
Defined.

Lemma revealed_secrets_are_old_witness :
  exists c : ToyChannel, reachable c /\
    forall msg e c', on_commitment_signed msg c = (Err e, c') -> c' = c.
Proof.
  destruct sample_run as (c0 & c & i & _ & _ & _ & Hr & _). exists c. split; [done|].
  intros msg e c' H. exact (proj1 (revealed_secrets_are_old c Hr) msg _ c' H).
Defined.

(** ** A payment in flight *)
Lemma safe_ok e (c c' : ToyChannel) u :
  room c -> event_ok c e -> run_event e c = (Ok u, c') -> numbers_fit c' -> rtc safe_step c c'.
Proof.
  intros Hr He H Hf. apply rtc_once. exists e. split; [done|]. split; [done|]. split; [|done].
  by exists (Ok u).
Qed.

Definition sample_source : HtlcSource := Outbound (replicate 32 1).
Definition sample_payment : Htlc :=
  MkHtlc true 0 5000000 (replicate 32 2) 600 [] (Some sample_source) None NotYet Pending false.

Definition sample_ready : ChannelReady (HS := toy_secp) :=
  {| cr_channel_id := []; cr_second_per_commitment_point := toy_of 78;
     cr_short_channel_id_alias := None |}.

Lemma toy_confirmed (c : ToyChannel) k :
  ch_state c = AwaitingChannelReady -> ch_signer c = sample_signer k ->
  ch_channel_ready_sent c = false -> ch_channel_ready_received c = false ->
  exists m, funding_confirmed 5 c =
    (Ok m, c <| ch_short_channel_id := Some 5 |> <| ch_funding_confirmed := true |>
             <| ch_channel_ready_sent := true |>).
Proof.
  intros Hst Hsg Hs Hr. destruct (toy_point k 1) as [pt Hpt]. eexists. unfold funding_confirmed.
  eapply stm_run. { unfold throw_if, awaiting_or_normal. by rewrite Hst. }
  do 2 (eapply stm_run; [reflexivity|cbv beta]).
  change (ch_channel_ready_sent (c <| ch_short_channel_id := Some 5 |> <| ch_funding_confirmed := true |>))
    with (ch_channel_ready_sent c). rewrite Hs. cbv iota.
  do 2 (eapply stm_run; [reflexivity|cbv beta]).
  eapply stm_run. { unfold reads_self. change (ch_signer (c <| ch_short_channel_id := Some 5 |>
    <| ch_funding_confirmed := true |> <| ch_channel_ready_sent := true |>)) with (ch_signer c).
    rewrite Hsg, Hpt. reflexivity. }
  cbv beta. eapply stm_run; [|reflexivity]. unfold modify, maybe_become_normal.
  change (ch_channel_ready_received (c <| ch_short_channel_id := Some 5 |>
    <| ch_funding_confirmed := true |> <| ch_channel_ready_sent := true |>))
    with (ch_channel_ready_received c). rewrite Hr, andb_false_r. reflexivity.
Qed.

Lemma toy_ready (c : ToyChannel) :
  ch_state c = AwaitingChannelReady -> ch_counterparty_commitment_number c = 0 ->
  ch_awaiting_raa c = false -> ch_channel_ready_sent c = true ->
  on_channel_ready sample_ready c =
    (Ok tt, c <| ch_counterparty_next_point := Some (toy_of 78 : PublicKey (Secp := toy_secp)) |>
              <| ch_channel_ready_received := true |> <| ch_state := Normal |>).
Proof.
  intros Hst Hn Ha Hs. unfold on_channel_ready.
  eapply stm_run. { unfold throw_if, awaiting_or_normal. by rewrite Hst. }
  cbv beta. eapply stm_run; [reflexivity|]. rewrite Hn, Ha. cbn [orb Z.ltb Z.compare]. unfold modify.
  f_equal. unfold maybe_become_normal.
  match goal with |- (if ?b then _ else _) = _ => assert (b = true) as ->; [|reflexivity] end.
  change (bool_decide (ch_state c = AwaitingChannelReady) && ch_channel_ready_sent c && true = true).
  by rewrite Hst, Hs.
Qed.

Definition sample_live_params : ChannelParams :=
  MkChannelParams 546 546 10000 10000 1000000000 1000000000 1 1 50 50 144 144.

Lemma toy_pay (c : ToyChannel) :
  ch_state c = Normal -> ch_shutdown_sent c = false -> ch_shutdown_received c = false ->
  ch_awaiting_raa c = false -> ch_htlcs c = [] -> ch_next_holder_htlc_id c = 0 ->
  ch_to_holder_msat c = 1000000000 -> ch_to_counterparty_msat c = 0 ->
  ch_params c = sample_live_params -> ch_role c = Opener -> ch_feerate_counterparty c = 1000 ->
  exists m, send_add_htlc 5000000 (replicate 32 2) 600 [] sample_source c =
    (Ok m, c <| ch_next_holder_htlc_id := 1 |> <| ch_htlcs := [sample_payment] |>
             <| ch_counterparty_dirty := true |>).
Proof.
  intros Hst Hs1 Hs2 Ha Hh Hid Hth Htc Hp Hr Hf. eexists. unfold send_add_htlc.
  eapply stm_run. { unfold throw_if. by rewrite Hst. }
  eapply stm_run. { unfold throw_if. by rewrite Hs1, Hs2. }
  cbv beta. eapply stm_run; [reflexivity|]. cbv beta. rewrite Ha. cbv iota.
  eapply stm_run.
  { unfold reads_self, validate_outbound_add, live_htlcs, count_included, balances_for.
    rewrite Hh, Hth, Htc, Hp, Hr, Hf. reflexivity. }
  cbv beta. eapply stm_run; [reflexivity|]. cbv beta. rewrite Hid.
  eapply stm_run; [reflexivity|]. cbv beta. rewrite Hh.
  eapply stm_run; [reflexivity|]. reflexivity.
Qed.

(** The opened channel is confirmed and an HTLC of 5,000 sat is proposed. *)
Lemma sample_paying :
  exists c : ToyChannel, safe_reachable c /\ ch_state c = Normal /\ ch_htlcs c = [sample_payment] /\
    ch_funding_amount_sat c = 1000000.
Proof.
  destruct sample_funding as (msg & i & H0).
  remember (sample_located <| ch_current_counterparty_commitment := Some i |>
    <| ch_state := FundingCreatedSent |>) as c0 eqn:E0.
  destruct (sample_signed c0 sample_outpoint) as (msg1 & c1 & hc & H1 & E1 & _); [by rewrite E0..|].
  destruct (toy_confirmed c1 10) as (m2 & H2); [by rewrite E1, E0..|].
  remember (c1 <| ch_short_channel_id := Some 5 |> <| ch_funding_confirmed := true |>
               <| ch_channel_ready_sent := true |>) as c2 eqn:E2.
  pose proof (toy_ready c2) as H3.
  remember (c2 <| ch_counterparty_next_point := Some (toy_of 78 : PublicKey (Secp := toy_secp)) |>
    <| ch_channel_ready_received := true |> <| ch_state := Normal |>) as c3 eqn:E3.
  destruct (toy_pay c3) as (m4 & H4); [by rewrite E3, E2, E1, E0..|].
  remember (c3 <| ch_next_holder_htlc_id := 1 |> <| ch_htlcs := [sample_payment] |>
               <| ch_counterparty_dirty := true |>) as c4 eqn:E4.
  exists c4. split; [|by rewrite E4, E3, E2, E1, E0].
  exists sample_channel. split; [split; [apply sample_is_opened|by split_and!]|].
  transitivity sample_accepted.
  { apply (safe_ok (EvAcceptChannel sample_accept) _ _ tt); [by split_and!|done|apply sample_accept_ok|by split]. }
  transitivity c0.
  { apply (safe_ok (EvFund sample_txid 0) _ _ tt); [by split_and!|done| |rewrite E0; by split].
    by eapply stm_run. }
  transitivity c1.
  { apply (safe_ok (EvFundingSigned msg1) _ _ tt); [rewrite E0; by split_and!|done|done|].
    rewrite E1, E0. by split. }
  transitivity c2.
  { apply (safe_ok (EvFundingConfirmed 5) _ _ tt); [rewrite E1, E0; by split_and!|done| |].
    - by eapply stm_run.
    - rewrite E2, E1, E0. by split. }
  transitivity c3.
  { apply (safe_ok (EvChannelReady sample_ready) _ _ tt); [rewrite E2, E1, E0; by split_and!|done| |].
    - apply H3; by rewrite E2, E1, E0.
    - rewrite E3, E2, E1, E0. by split. }
  apply (safe_ok (EvSendAdd 5000000 (replicate 32 2) 600 [] sample_source) _ _ tt).
  - rewrite E3, E2, E1, E0. by split_and!.
  - by split.
  - by eapply stm_run.
  - rewrite E4, E3, E2, E1, E0. by split.
Qed.

Lemma money_conserved_witness :
  exists c : ToyChannel, safe_reachable c /\ ch_htlcs c = [sample_payment] /\
    let '(to_holder, to_counterparty) := balances_for c false in
    0 <= to_holder /\ to_holder + to_counterparty + 5000000 = 1000000000.
Proof.
  destruct sample_paying as (c & Hc & _ & Hh & Hf). exists c. split; [done|]. split; [done|].
  pose proof (money_conserved c false Hc) as H. unfold committed_htlcs in H.
  rewrite Hh, Hf in H. destruct (balances_for c false). cbn in H. lia.
Defined.

Lemma commitments_funded_witness :
  exists c : ToyChannel, safe_reachable c /\
    forall built keys htlcs, build_holder_commitment_at c 0 = Ok (built, keys, htlcs) ->
      zsum (map out_value (output (built_tx built))) <= 1000000.
Proof.
  destruct sample_paying as (c & Hc & _ & _ & Hf). exists c. split; [done|]. rewrite <- Hf.
  exact (proj1 (commitments_funded c 0 (toy_of 5) Hc)).
Defined.
