(* ===== verification/Onchain.v ===== *)
(** * Onchain: what the monitor does when a commitment confirms

    The end-to-end theorems: a channel is driven through any operations, a
    monitor is taken from it, one of the commitments the channel knows is
    broadcast, and the transactions [handle_funding_spend] returns are shown to
    spend the right outputs with valid signatures. *)
From stdpp Require Import relations gmap.
From S2P Require Import Prelude Secp Types Msgs Sha256 Encode Script Tx Shachain Keys Commitment Channel Monitor Dance Close Reestablish Ledger Moves Machine Revocation Holder Enforce Solvency Conservation Sample.

Section Onchain.
Context `{HS : Secp} {Sg : Type} `{HCS : !ChannelSigner Sg}.
Abbreviation Channel := (Channel (Sg := Sg)).

(** A snapshot of [c] that has learned some preimages since. *)
Definition monitors (c : Channel) (m : ChannelMonitor) : Prop :=
  exists m0 preimages, from_channel c = Some m0 /\ m = foldl add_preimage m0 preimages.

Record monitor_of (c : Channel) (m : ChannelMonitor) : Prop := {
  mo_funding : ch_funding_outpoint c = Some (cm_funding_outpoint m);
  mo_obscure : cm_obscure_factor m = ch_obscure_factor c;
  mo_ours : cm_holder_pubkeys m = pubkeys (ch_signer c);
  mo_theirs : ch_counterparty_pubkeys c = Some (cm_counterparty_pubkeys m);
  mo_delay : cm_holder_selected_delay m = holder_selected_delay (ch_params c);
  mo_their_delay : cm_counterparty_selected_delay m = counterparty_selected_delay (ch_params c);
  mo_secrets : cm_counterparty_secrets m = ch_counterparty_secrets c;
  mo_current : cm_counterparty_current m =
    commitment_data <$> ch_current_counterparty_commitment c;
  mo_holder : cm_holder_commitment m = ch_current_holder_commitment c;
}.

Lemma monitors_of c m : reachable c -> monitors c m -> monitor_of c m.
Proof.
  intros [Hhold _]%reachable_hold (m0 & ps & H0 & ->). unfold from_channel in H0.
  apply bind_Some in H0 as (cp & Hcp & H0). apply bind_Some in H0 as (f & Hf & H0).
  injection H0 as <-. match goal with |- monitor_of _ (foldl _ ?m _) => set (m0 := m) end.
  assert (H : monitor_of c m0) by (split; try done; exact (hi_keys c Hhold)).
  clearbody m0. clear Hcp Hf. revert m0 H. induction ps as [|x ps IH]; intros m0 H; [exact H|].
  cbn [foldl]. apply IH. by destruct H.
Qed.

(** The output that pays the broadcaster of [p]. *)
Definition to_local (p : CommitmentTxParams) : bytes :=
  revocable_delayed (revocation_key (cp_keys p)) (to_self_delay p)
    (broadcaster_delayed_payment_key (cp_keys p)).

Lemma to_local_output p :
  broadcaster_dust_limit_sat p <= to_broadcaster_sat p ->
  exists v, outputs p !! v =
    Some {| out_value := to_broadcaster_sat p; script_pubkey := new_p2wsh (to_local p) |}.
Proof.
  intros Hd. apply list_elem_of_lookup. rewrite outputs_perm. unfold stage.
  rewrite (proj2 (Z.leb_le _ _) Hd). cbn [app map]. by left.
Qed.

(** ** Coincidences of txids

    The monitor goes by the txid.  A commitment of the peer is taken for
    another one only if their txids coincide: with our own commitment, or by a
    collision of the hash with the current one of the peer, whose serialisation
    differs. *)
Definition as_ours (c : Channel) (tx : Transaction) : Prop :=
  exists hc, ch_current_holder_commitment c = Some hc /\ built_txid (hc_built hc) = txid tx.

Definition collides (a b : Transaction) : Prop :=
  serialize_legacy a <> serialize_legacy b /\ txid a = txid b.
Definition collides_current (c : Channel) (tx : Transaction) : Prop :=
  exists j pj, ch_current_counterparty_commitment c = Some j /\ peer_built c j pj /\
    collides tx (built_tx (build_commitment_tx pj)).

Lemma as_ours_dec c tx :
  as_ours c tx \/ (forall hc, ch_current_holder_commitment c = Some hc ->
    built_txid (hc_built hc) <> txid tx).
Proof.
  unfold as_ours. destruct (ch_current_holder_commitment c) as [hc|]; [|by right].
  destruct (decide (built_txid (hc_built hc) = txid tx)) as [E|E].
  - left. by exists hc.
  - right. by intros hc' [= <-].
Qed.

(** ** A commitment of the peer, seen by the monitor *)
Section Peer.
Context (c : Channel) (m : ChannelMonitor) (i : CounterpartyCommitmentInfo)
  (p : CommitmentTxParams).
Hypotheses (Hm : monitor_of c m) (Hp : peer_built c i p).

Lemma peer_keys : reachable c ->
  tx_creation_keys (cci_per_commitment_point i) (cm_counterparty_pubkeys m)
    (cm_holder_pubkeys m) = Some (cp_keys p).
Proof.
  intros Hrc. destruct (reachable_hold c Hrc) as [Hhold _].
  destruct (pb_derived _ _ _ Hp) as (cp & E & Hk). rewrite (mo_theirs _ _ Hm) in E.
  injection E as ->. by rewrite (mo_ours _ _ Hm), <- (hi_keys c Hhold).
Qed.

Lemma peer_to_local : to_local_script m (cp_keys p) = to_local p.
Proof. unfold to_local_script, to_local. by rewrite (mo_delay _ _ Hm), (pb_delay _ _ _ Hp). Qed.

Lemma peer_txid tx : broadcast_of p tx -> txid tx = cci_txid i.
Proof.
  intros Htx. rewrite (pb_txid _ _ _ Hp). apply witness_not_signed in Htx. by destruct Htx.
Qed.

(** One whose number is not the current one is judged by the secret of its
    number. *)
Lemma peer_classified tx :
  reachable c -> 0 <= cci_number i <= MAX_INDEX ->
  cci_number i <> ch_counterparty_commitment_number c -> broadcast_of p tx ->
  as_ours c tx \/ collides_current c tx \/
  classify m tx =
    match secret_for (ch_counterparty_secrets c) (index_for_commitment (cci_number i)) with
    | Some _ => Some (CounterpartyRevoked (cci_number i))
    | None => Some UnknownCommitment
    end.
Proof.
  intros Hrc Hn Hne Htx. destruct (reachable_armed c Hrc) as [Harm Hq].
  destruct (as_ours_dec c tx) as [H|Hours]; [by left|right].
  assert (Hnp : uint 48 (commitment_number p))
    by (rewrite <- (pb_number _ _ _ Hp); unfold uint, MAX_INDEX in *; lia).
  assert (Hob : uint 48 (obscure_factor p)) by (rewrite (pb_obscure _ _ _ Hp); apply (ar_obscure _ _ Harm)).
  assert (Hcur : collides_current c tx \/ forall j, ch_current_counterparty_commitment c = Some j ->
    cci_txid j <> txid tx).
  { destruct (ch_current_counterparty_commitment c) as [j|] eqn:Ej; [|by right].
    destruct (decide (cci_txid j = txid tx)) as [E|E]; [left|right; by intros j' [= <-]].
    destruct (signed_built c c j Hrc) as (pj & Hpj & _); [done|by left|].
    destruct (reachable_rev c Hrc) as [Hrev Hmax]. destruct (ri_current c Hrev j Ej) as [Hnj _].
    pose proof (ri_bound c Hrev). exists j, pj. split; [done|]. split; [done|].
    rewrite (pb_txid _ _ _ Hpj) in E. split; [|by rewrite <- E].
    intros Heq. apply Hne. rewrite <- Hnj, (pb_number _ _ _ Hp), (pb_number _ _ _ Hpj).
    apply legacy_number; try done.
    - rewrite <- (pb_number _ _ _ Hpj), Hnj. unfold uint, MAX_INDEX in *. lia.
    - by rewrite (pb_obscure _ _ _ Hp), (pb_obscure _ _ _ Hpj).
    - pose proof (pb_funding _ _ _ Hp). pose proof (pb_funding _ _ _ Hpj). congruence.
    - rewrite <- Heq. symmetry. by apply skeleton_legacy. }
  destruct Hcur as [H|Hcur]; [by left|right].
  rewrite (pb_number _ _ _ Hp), <- (mo_secrets _ _ Hm). apply classify_commitment; try done.
  - pose proof (mo_funding _ _ Hm). pose proof (pb_funding _ _ _ Hp). congruence.
  - by rewrite (mo_obscure _ _ Hm), (pb_obscure _ _ _ Hp).
  - by rewrite (mo_holder _ _ Hm).
  - rewrite (mo_current _ _ Hm). intros cp Hc.
    apply fmap_Some in Hc as (j & Hj & ->). by apply Hcur.
Qed.

Lemma peer_input tx v o script control :
  broadcast_of p tx -> outputs p !! v = Some o -> script_pubkey o = new_p2wsh script ->
  sweepable m (cp_keys p) script control ->
  {| in_vout := wrap 32 (Z.of_nat v); in_value := out_value o; in_witness_script := script;
     in_control := control |} ∈ justice_inputs m (cp_keys p) tx.
Proof.
  intros Htx Hv Hs Hsw. apply justice_inputs_elem. exists v, o, script, control.
  by rewrite (broadcast_output p tx Htx).
Qed.
End Peer.

Context (ok : Sg -> Prop) {HCL : ChannelSignerLaws Sg ok}.

(** ** Revoked commitments *)
(** The answer to a commitment whose secret is known. *)
Lemma punished c m i p secret tx destination feerate :
  monitor_of c m -> peer_built c i p -> ok (ch_signer c) -> signs (ch_signer c) ->
  secret_for (ch_counterparty_secrets c) (index_for_commitment (cci_number i)) = Some secret ->
  per_commitment_point_of secret = Some (cci_per_commitment_point i) ->
  tx_creation_keys (cci_per_commitment_point i) (cm_counterparty_pubkeys m)
    (cm_holder_pubkeys m) = Some (cp_keys p) ->
  broadcast_of p tx ->
  exists rs,
    (responses ← punish_revoked m (ch_signer c) tx (cci_number i) destination feerate;
     Ok (Some (CounterpartyRevoked (cci_number i), responses))) =
      Ok (Some (CounterpartyRevoked (cci_number i), rs)) /\
    forall v o script control,
      outputs p !! v = Some o -> script_pubkey o = new_p2wsh script ->
      sweepable m (cp_keys p) script control ->
      exists justice idx,
        rs = [Claim justice None "justice (revoked commitment punished)"] /\
        previous_output <$> (input justice !! idx) =
          Some {| op_txid := txid tx; op_vout := wrap 32 (Z.of_nat v) |} /\
        map script_pubkey (output justice) = [destination] /\ lock_time justice = 0 /\
        opens justice idx script (out_value o) (revocation_key (cp_keys p)) [control; script].
Proof.
  intros Hm Hp Hok Hsigns Hsec Hpt Hkeys Htx.
  destruct (justice_inputs m (cp_keys p) tx) as [|i0 l0] eqn:Einputs.
  - eexists. split.
    + unfold punish_revoked. rewrite (mo_secrets _ _ Hm), Hsec, Hpt. cbn [expect mbind result_bind].
      rewrite Hkeys. cbn [expect mbind result_bind]. rewrite Einputs. reflexivity.
    + intros v o script control Hv Hs Hsw. exfalso.
      pose proof (peer_input m p tx v o script control Htx Hv Hs Hsw) as Hin.
      rewrite Einputs in Hin. by apply not_elem_of_nil in Hin.
  - destruct (punish_revoked_spec ok m (ch_signer c) tx (cci_number i) secret
      (cci_per_commitment_point i) (cp_keys p) destination feerate)
      as (justice & -> & Hpo & Hout & Hlt & Hopen); try done.
    { by rewrite (mo_ours _ _ Hm). } { intros h. apply (signs_revocation _ Hsigns). by rewrite Hpt. }
    { by rewrite (mo_secrets _ _ Hm). } { by rewrite Einputs. }
    eexists. split; [reflexivity|]. intros v o script control Hv Hs Hsw.
    pose proof (peer_input m p tx v o script control Htx Hv Hs Hsw) as Hin.
    apply list_elem_of_lookup in Hin as [idx Hidx]. exists justice, idx.
    split; [reflexivity|]. split; [|split; [done|split; [done|by apply (Hopen idx) in Hidx]]].
    rewrite <- list_lookup_fmap. change (map previous_output (input justice) !! idx =
      Some {| op_txid := txid tx; op_vout := wrap 32 (Z.of_nat v) |}).
    by rewrite Hpo, list_lookup_fmap, Hidx.
Qed.

(** [C4] Cheating never pays.  Drive a channel through any operations; take a
    commitment [i] of the peer that we signed and that is no longer its
    current or next one.  A monitor of the channel recognises that commitment
    when it is broadcast, whatever signatures it carries (unless its txid
    coincides with that of another commitment), and answers with one
    transaction to [destination] which spends every output it can take, the
    to_local output always among them: each of its witnesses selects the
    revocation branch and carries a signature that verifies under the
    revocation key of that very commitment, over that very transaction. *)
Theorem revoked_broadcast_punished c0 c i m :
  reachable c0 -> rtc step c0 c -> signed c0 i -> ~ signed c i -> monitors c m ->
  ok (ch_signer c) -> signs (ch_signer c) ->
  exists p, peer_built c0 i p /\ sweepable m (cp_keys p) (to_local p) [0x01] /\
  (broadcaster_dust_limit_sat p <= to_broadcaster_sat p -> exists v, outputs p !! v =
     Some {| out_value := to_broadcaster_sat p; script_pubkey := new_p2wsh (to_local p) |}) /\
  forall tx destination feerate height, broadcast_of p tx ->
  as_ours c tx \/ collides_current c tx \/
  exists rs, handle_funding_spend m (ch_signer c) tx destination feerate height =
      Ok (Some (CounterpartyRevoked (cci_number i), rs)) /\
    forall v o script control,
      outputs p !! v = Some o -> script_pubkey o = new_p2wsh script ->
      sweepable m (cp_keys p) script control ->
      exists justice idx,
        rs = [Claim justice None "justice (revoked commitment punished)"] /\
        previous_output <$> (input justice !! idx) =
          Some {| op_txid := txid tx; op_vout := wrap 32 (Z.of_nat v) |} /\
        map script_pubkey (output justice) = [destination] /\ lock_time justice = 0 /\
        opens justice idx script (out_value o) (revocation_key (cp_keys p)) [control; script].
Proof.
  intros Hr Hrun Hi Hni Hm Hok Hsigns. apply monitors_of in Hm; [|by eapply reachable_steps].
  destruct (signed_built c0 c i Hr Hrun Hi) as (p & Hp0 & Hp & _ & _).
  pose proof (reachable_steps _ _ Hr Hrun) as Hrc.
  destruct (steps_keep c0 c Hr Hrun i (or_introl Hi)) as [Hs|(Hn & secret & Hsec & Hpt)]; [done|].
  destruct (reachable_rev c Hrc) as [_ Hmax]. pose proof (peer_keys c m i p Hm Hp Hrc) as Hkeys.
  exists p. split; [done|]. split; [left; by rewrite (peer_to_local c m i p)|].
  split; [apply to_local_output|]. intros tx destination feerate height Htx.
  destruct (peer_classified c m i p Hm Hp tx) as [H|[H|Hclass]];
    [done|lia|lia|done|by left|by right; left|]. right. right.
  unfold handle_funding_spend. rewrite Hclass, Hsec. by eapply punished.
Qed.

(** ** The commitment in flight *)
(** [C32] A gap: from the moment we sign a new commitment for the peer until it
    revokes the previous one, the peer may legitimately broadcast the new one,
    but the monitor knows only the previous: it reports a commitment it cannot
    identify and claims nothing of it, not even our own to_remote output. *)
Theorem commitment_in_flight_unclaimed c q m :
  reachable c -> ch_pending_counterparty_commitment c = Some q -> monitors c m ->
  cci_number (pcc_info q) <= MAX_INDEX ->
  exists p, peer_built c (pcc_info q) p /\
  forall tx signer destination feerate height, broadcast_of p tx ->
    as_ours c tx \/ collides_current c tx \/
    handle_funding_spend m signer tx destination feerate height = Ok (Some (UnknownCommitment, [])).
Proof.
  intros Hr Hq Hm Hmax. apply monitors_of in Hm; [|done].
  destruct (reachable_rev c Hr) as [Hrev _]. destruct (ri_pending c Hrev q Hq) as [Hn _].
  destruct (signed_built c c (pcc_info q) Hr) as (p & Hp & _); [done|right; by exists q|].
  destruct (ri_secrets c Hrev) as (secrets & Hlen & Hall). pose proof (ri_bound c Hrev) as H0.
  exists p. split; [done|]. intros tx signer destination feerate height Htx.
  destruct (peer_classified c m (pcc_info q) p Hm Hp tx) as [H|[H|Hclass]];
    [done|lia|lia|done|by left|by right; left|]. right. right.
  unfold handle_funding_spend. rewrite Hclass.
  by rewrite (secret_unrevealed secrets) by (done || lia).
Qed.

(** ** The peer's current commitment *)
(** [C6] When the peer closes unilaterally with its current commitment, every
    output that is ours can be taken (unless its txid is that of our own
    commitment): the to_remote outputs with our payment
    key, and each HTLC the peer offered whose preimage the monitor has learned,
    with that preimage and our HTLC key.  The claim spends the very output
    that pays the HTLC. *)
Theorem their_close_claimed c i m :
  reachable c -> ch_current_counterparty_commitment c = Some i -> monitors c m ->
  ok (ch_signer c) -> signs (ch_signer c) -> Z.of_nat (length (cci_htlcs i)) <= 65535 ->
  exists p, peer_built c i p /\
  forall tx destination feerate height, broadcast_of p tx -> as_ours c tx \/
  exists rs, handle_funding_spend m (ch_signer c) tx destination feerate height =
      Ok (Some (CounterpartyCurrent, rs)) /\
    (forall v o, outputs p !! v = Some o ->
       script_pubkey o = to_remote (payment_basepoint (pubkeys (ch_signer c))) ->
       exists r code, r ∈ rs /\ p2wpkh_script_code (script_pubkey o) = Some code /\
         claims r (txid tx) (wrap 32 (Z.of_nat v)) 0xfffffffd (out_value o) destination code
           (payment_basepoint (pubkeys (ch_signer c)))
           [pk_serialize (payment_basepoint (pubkeys (ch_signer c)))]) /\
    (forall k h preimage, htlcs p !! k = Some h -> trimmed p h = false -> offered h = true ->
       cm_preimages m !! payment_hash h = Some preimage ->
       exists r v, r ∈ rs /\ outputs p !! v = Some (htlc_txout p h) /\
         let script := htlc_witness_script (cp_keys p) h in
         claims r (txid tx) (Z.of_nat v) 0xfffffffd (out_value (htlc_txout p h)) destination
           script (countersignatory_htlc_key (cp_keys p)) [preimage; script]).
Proof.
  intros Hr Hi Hm Hok Hsigns Hlen. apply monitors_of in Hm; [|done].
  destruct (signed_built c c i Hr) as (p & Hp & _); [done|by left|].
  exists p. split; [done|]. intros tx destination feerate height Htx.
  destruct (as_ours_dec c tx) as [H|Hhc]; [by left|right].
  pose proof (peer_txid c i p Hp tx Htx) as Htxid.
  destruct (broadcast_input p tx Htx) as (inp & Hin & Hpo & _).
  assert (Hcur : cm_counterparty_current m = Some (commitment_data i))
    by (by rewrite (mo_current _ _ Hm), Hi).
  assert (Hclass : classify m tx = Some CounterpartyCurrent).
  { apply (classify_current m (commitment_data i) tx inp); try done.
    - pose proof (mo_funding _ _ Hm). pose proof (pb_funding _ _ _ Hp). congruence.
    - by rewrite (mo_holder _ _ Hm). }
  destruct (claim_counterparty_spec ok m (ch_signer c) tx (commitment_data i) (cp_keys p)
    destination feerate Hok Hsigns) as (rs & Hrs & Hremote & Hhtlc); [by rewrite (mo_ours _ _ Hm)|done
    |by apply (peer_keys c m i p)|].
  exists rs. unfold handle_funding_spend. rewrite Hclass, Hrs. split; [reflexivity|]. split.
  - intros v o Hv Hs. rewrite <- (mo_ours _ _ Hm) in *. apply (Hremote v o); [|done].
    by rewrite (broadcast_output p tx Htx).
  - intros k h preimage Hk Ht Hoff Hpre.
    assert (Hl : Z.of_nat (length (htlcs p)) <= 65535)
      by (by rewrite (pb_htlcs _ _ _ Hp), length_imap in Hlen).
    pose proof (commitment_index p k h Hl Hk Ht) as (v & Hidx & Hv).
    destruct (Hhtlc h (Z.of_nat v) preimage) as (r & Hin' & Hc); [|done|done|by exists r, v].
    cbn [commitment_data cpd_htlcs]. rewrite (pb_htlcs _ _ _ Hp). apply elem_of_lookup_imap.
    exists k, h. by rewrite Hidx.
Qed.

(** ** Our own commitment *)
Section Ours.
Context (c : Channel) (m : ChannelMonitor) (hc : HolderCommitment) (p : CommitmentTxParams).
Hypotheses (Hr : reachable c) (Hm : monitor_of c m) (Hb : holder_built c hc p)
  (Hok : ok (ch_signer c)) (Hsigns : signs (ch_signer c))
  (Hlen : Z.of_nat (length (htlcs p)) <= 65535).

Lemma holder_keys : exists cp,
  tx_creation_keys (tck_per_commitment_point (hc_keys hc)) (cm_holder_pubkeys m) cp =
    Some (hc_keys hc).
Proof.
  clear Hok Hsigns Hlen. destruct (reachable_hold c Hr) as [Hhold _].
  destruct (hb_derived _ _ _ Hb) as (cp & point & _ & Hk). exists cp.
  rewrite (mo_ours _ _ Hm), <- (hi_keys c Hhold), (hb_keys _ _ _ Hb).
  by rewrite (proj1 (own_keys_derived _ _ _ _ Hk)).
Qed.

Lemma holder_txid tx : broadcast_of p tx -> built_txid (build_commitment_tx p) = txid tx.
Proof. intros Htx. apply witness_not_signed in Htx. by destruct Htx as [-> _]. Qed.

(** One second-stage transaction. *)
Lemma holder_htlc_claimed tx (j k : nat) script :
  broadcast_of p tx ->
  htlcs_in_output_order (build_commitment_tx p) !! j = Some (k, script) ->
  exists h v, htlcs p !! k = Some h /\ trimmed p h = false /\
    script = htlc_witness_script (cp_keys p) h /\ outputs p !! v = Some (htlc_txout p h) /\
    (if negb (offered h) && bool_decide (cm_preimages m !! payment_hash h = None)
     then claim_htlc m (ch_signer c) hc (txid tx) (j, (k, script)) = Ok []
     else exists r, claim_htlc m (ch_signer c) hc (txid tx) (j, (k, script)) = Ok [r] /\
       valid_after_height r = (if offered h then Some (cltv_expiry h) else None) /\
       same_skeleton (claim_tx r) (build_htlc_tx (txid tx) (Z.of_nat v) h (cp_keys p)
         (to_self_delay p) (feerate p)) /\
       htlc_tx_opened (claim_tx r) hc script (out_value (htlc_txout p h))
         (if offered h then None else cm_preimages m !! payment_hash h)).
Proof.
  intros Htx Hj. destruct (commitment_signature_order p j k script Hlen Hj) as [(h & Hk & Ht & ->) _].
  destruct (commitment_index p k h Hlen Hk Ht) as (v & Hidx & Hv). exists h, v.
  do 4 (split; [done|]).
  assert (Hslot : htlc_output_indices (hc_built hc) !! k = Some (Some (Z.of_nat v)))
    by (by rewrite (hb_built _ _ _ Hb)).
  assert (Hh : hc_htlcs hc !! k = Some h) by (by rewrite (hb_htlcs _ _ _ Hb)).
  destruct (negb (offered h) && bool_decide (cm_preimages m !! payment_hash h = None)) eqn:Eskip.
  - unfold claim_htlc. rewrite Hh, Hslot. cbn [expect mbind result_bind]. cbv zeta.
    by rewrite Eskip.
  - destruct (hb_sigs _ _ _ Hb j (k, htlc_witness_script (cp_keys p) h))
      as (sig & sh & Hsig & Hsh & Hver); [by rewrite (hb_built _ _ _ Hb)|].
    unfold htlc_tx_sighash in Hsh. rewrite Hh, Hslot in Hsh. cbn [mjoin option_join expect mbind result_bind] in Hsh.
    cbv zeta in Hsh. rewrite (hb_built _ _ _ Hb), (holder_txid tx Htx) in Hsh.
    destruct holder_keys as [cp Hkeys].
    rewrite <- (mo_their_delay _ _ Hm) in Hsh.
    match type of Hsh with or_panic ?x = _ => destruct x as [sh'| |] eqn:Esh; try discriminate Hsh end.
    apply Ok_inj in Hsh. subst sh'.
    destruct (claim_htlc_spec ok m (ch_signer c) hc (txid tx) cp j k
      (htlc_witness_script (cp_keys p) h) h (Z.of_nat v) sig sh
      (if offered h then None else cm_preimages m !! payment_hash h)) as (r & Hrun & Hva & Hsk & Hop);
      try done.
    { by rewrite (mo_ours _ _ Hm). }
    { destruct (offered h); [done|]. split; [done|]. by apply bool_decide_eq_false in Eskip. }
    exists r. split; [done|]. split; [done|]. split; [|done].
    by rewrite (hb_keys _ _ _ Hb), (hb_feerate _ _ _ Hb), (mo_their_delay _ _ Hm), <- (hb_delay _ _ _ Hb) in Hsk.
Qed.

Lemma holder_outputs_claimed tx destination feerate height :
  broadcast_of p tx -> ch_current_holder_commitment c = Some hc ->
  exists local htlcs, claim_holder_outputs m (ch_signer c) tx destination feerate height =
      Ok (local ++ concat htlcs) /\
    claim_to_local m (ch_signer c) hc tx destination feerate height = Ok local /\
    mapM (claim_htlc m (ch_signer c) hc (txid tx))
      (imap pair (htlcs_in_output_order (build_commitment_tx p))) = Ok htlcs.
Proof.
  intros Htx Hhc. unfold claim_holder_outputs. rewrite (mo_holder _ _ Hm), Hhc.
  assert (Hlocal : exists local, claim_to_local m (ch_signer c) hc tx destination feerate height = Ok local).
  { pose proof (to_broadcaster_placed p Hlen) as Hidx.
    destruct (to_broadcaster_index (build_commitment_tx p)) as [w|] eqn:E.
    - destruct Hidx as (v & -> & Hv). destruct holder_keys as [cp Hkeys].
      destruct (claim_to_local_spec ok m (ch_signer c) hc tx destination feerate height cp v
        {| out_value := to_broadcaster_sat p; script_pubkey := new_p2wsh (to_local p) |}
        Hok Hsigns) as (r & Hrun & _); try done; [by rewrite (mo_ours _ _ Hm)
        |by rewrite (hb_built _ _ _ Hb)|by rewrite (broadcast_output p tx Htx)|by exists [r]].
    - exists []. unfold claim_to_local. by rewrite (hb_built _ _ _ Hb), E. }
  destruct Hlocal as [local Hlocal]. rewrite Hlocal. cbn [mbind result_bind].
  rewrite (hb_built _ _ _ Hb).
  destruct (mapM_total (claim_htlc m (ch_signer c) hc (txid tx))
    (imap pair (htlcs_in_output_order (build_commitment_tx p)))) as [hs Hhs].
  { apply Forall_lookup. intros j [j' [k script]] Hj. rewrite list_lookup_imap in Hj.
    apply fmap_Some in Hj as ([k' s'] & Hj & Heq). injection Heq as -> -> ->.
    destruct (holder_htlc_claimed tx j k' s' Htx Hj) as (h & v & _ & _ & _ & _ & Hc).
    destruct (_ && _); [by eexists|]. destruct Hc as (r & Hc & _). by eexists. }
  rewrite Hhs. cbn [mbind result_bind]. by exists local, hs.
Qed.
End Ours.

(** [C5] Closing on our own loses nothing.  In every funded state of a
    channel, when our current commitment confirms the monitor takes back the
    to_local output once the delay has passed, and produces for every
    untrimmed HTLC that we offered, or whose preimage it knows, the
    second-stage transaction with two valid signatures, the peer's and ours.
    Each spends the output that pays it. *)
Theorem our_close_claimed c hc m :
  reachable c -> funded c = true -> ch_current_holder_commitment c = Some hc -> monitors c m ->
  ok (ch_signer c) -> signs (ch_signer c) -> Z.of_nat (length (hc_htlcs hc)) <= 65535 ->
  exists p, holder_built c hc p /\
  forall tx destination fee height, broadcast_of p tx ->
  exists rs, handle_funding_spend m (ch_signer c) tx destination fee height =
      Ok (Some (HolderCommitmentSpend, rs)) /\
    (broadcaster_dust_limit_sat p <= to_broadcaster_sat p ->
       exists r v, r ∈ rs /\ outputs p !! v =
           Some {| out_value := to_broadcaster_sat p; script_pubkey := new_p2wsh (to_local p) |} /\
         valid_after_height r = Some (wrap 32 (height + to_self_delay p)) /\
         claims r (txid tx) (Z.of_nat v) (to_self_delay p) (to_broadcaster_sat p) destination
           (to_local p) (broadcaster_delayed_payment_key (cp_keys p)) [[]; to_local p]) /\
    (forall k h, htlcs p !! k = Some h -> trimmed p h = false ->
       offered h = true \/ cm_preimages m !! payment_hash h <> None ->
       exists r v, r ∈ rs /\ outputs p !! v = Some (htlc_txout p h) /\
         valid_after_height r = (if offered h then Some (cltv_expiry h) else None) /\
         same_skeleton (claim_tx r) (build_htlc_tx (txid tx) (Z.of_nat v) h (cp_keys p)
           (to_self_delay p) (feerate p)) /\
         htlc_tx_opened (claim_tx r) hc (htlc_witness_script (cp_keys p) h)
           (out_value (htlc_txout p h))
           (if offered h then None else cm_preimages m !! payment_hash h)).
Proof.
  intros Hr Hf Hhc Hm Hok Hsigns Hlen. apply monitors_of in Hm; [|done].
  destruct (reachable_armed c Hr) as [Harm _]. destruct (ar_holder _ _ Harm Hf hc Hhc) as [p Hb].
  rewrite (hb_htlcs _ _ _ Hb) in Hlen.
  exists p. split; [done|]. intros tx destination fee height Htx.
  destruct (broadcast_input p tx Htx) as (inp & Hin & Hpo & _).
  assert (Hclass : classify m tx = Some HolderCommitmentSpend).
  { apply (classify_holder m hc tx inp); [by rewrite (mo_holder _ _ Hm)| |done|].
    - rewrite (hb_built _ _ _ Hb). by apply holder_txid.
    - pose proof (mo_funding _ _ Hm). pose proof (hb_funding _ _ _ Hb). congruence. }
  destruct (holder_outputs_claimed c m hc p Hr Hm Hb Hok Hsigns Hlen tx destination fee height Htx Hhc)
    as (local & hs & Hrun & Hlocal & Hhs).
  exists (local ++ concat hs). unfold handle_funding_spend. rewrite Hclass, Hrun.
  split; [reflexivity|]. split.
  - intros Hd. pose proof (to_broadcaster_placed p Hlen) as Hidx.
    destruct (to_broadcaster_index (build_commitment_tx p)) as [w|] eqn:E; [|lia].
    destruct Hidx as (v & -> & Hv). destruct (holder_keys c m hc p Hr Hm Hb) as [cp Hkeys].
    destruct (claim_to_local_spec ok m (ch_signer c) hc tx destination fee height cp v
      {| out_value := to_broadcaster_sat p; script_pubkey := new_p2wsh (to_local p) |}
      Hok Hsigns) as (r & Hrun' & Hva & Hc); [by rewrite (mo_ours _ _ Hm)|exact Hkeys
      |by rewrite (hb_built _ _ _ Hb)|rewrite (broadcast_output p tx Htx); exact Hv|].
    rewrite Hrun' in Hlocal. apply Ok_inj in Hlocal. subst local.
    rewrite (mo_their_delay _ _ Hm), <- (hb_delay _ _ _ Hb) in Hva, Hc.
    rewrite (hb_keys _ _ _ Hb) in Hc. exists r, v. split; [by left|]. done.
  - intros k h Hk Ht Hcan. destruct (order_complete p k h Hk Ht) as [j Hj].
    destruct (holder_htlc_claimed c m hc p Hr Hm Hb Hok Hsigns Hlen tx j k _ Htx Hj)
      as (h' & v & Hk' & _ & _ & Hv & Hc).
    assert (h' = h) as -> by congruence.
    assert (negb (offered h) && bool_decide (cm_preimages m !! payment_hash h = None) = false) as E.
    { destruct Hcan as [->|Hcan]; [done|]. rewrite bool_decide_false by done. by destruct (offered h). }
    rewrite E in Hc. destruct Hc as (r & Hc & Hva & Hsk & Hop). exists r, v.
    split; [|done]. apply elem_of_app. right. eapply mapM_concat; [exact Hhs| |exact Hc].
    apply elem_of_lookup_imap. by exists j, (k, htlc_witness_script (cp_keys p) h).
Qed.
End Onchain.
