(* ===== verification/Persist.v ===== *)
(** * Persist: monitors on disk (src/src/chain/persist.rs)

    [monitor_serialize] and [monitor_deserialize] with the [W] and [R] methods
    they are made of.  A [HashMap] is iterated in an unspecified order: the
    order in which the preimages are written is the parameter [values].  The
    round trip is proved here for monitors whose fields fit ([sized]); [Widths]
    derives that for the monitors of reachable channels. *)
From stdpp Require Import relations gmap.
From S2P Require Import Prelude Codec Secp Types Sha256 Encode Script Tx Shachain Keys Commitment Channel Monitor Dance Close Reestablish Ledger Moves Machine Revocation Holder Enforce Onchain.

Definition VERSION : Z := 1.

Section Persist.
Context `{HS : Secp}.

(** ** The writer *)
Definition w_u8 (v : Z) : bytes := [v].
Definition w_u16 (v : Z) : bytes := be_bytes 2 v.
Definition w_u32 (v : Z) : bytes := be_bytes 4 v.
Definition w_u64 (v : Z) : bytes := be_bytes 8 v.
Definition w_pubkey (pk : PublicKey) : bytes := pk_serialize pk.
Definition w_sig (s : Signature) : bytes := sig_serialize_compact s.
Definition w_opt {A} (v : option A) (f : A -> bytes) : bytes :=
  match v with
  | None => w_u8 0
  | Some x => w_u8 1 ++ f x
  end.
(** [w.u16(n as u16)]. *)
Definition w_len (n : nat) : bytes := w_u16 (wrap 16 (Z.of_nat n)).
Definition w_var_bytes (b : bytes) : bytes := w_len (length b) ++ b.
(** [w.u16(l.len() as u16); for x in l { f(w, x) }]. *)
Definition w_list {A} (f : A -> bytes) (l : list A) : bytes :=
  w_len (length l) ++ concat (map f l).

(** ** The reader *)
Definition r_u16 : reader DecodeError Z := l ← rd_array 2; mret (of_be l).
Definition r_u32 : reader DecodeError Z := l ← rd_array 4; mret (of_be l).
Definition r_u64 : reader DecodeError Z := l ← rd_array 8; mret (of_be l).
Definition r_pubkey : reader DecodeError PublicKey :=
  l ← rd_array 33; rlift (ok_or (pk_from_slice l) (BadFormat "invalid public key")).
Definition r_sig : reader DecodeError Signature :=
  l ← rd_array 64; rlift (ok_or (sig_from_compact l) (BadFormat "invalid signature")).
Definition r_opt {A} (f : reader DecodeError A) : reader DecodeError (option A) :=
  tag ← rd_u8;
  if tag =? 0 then mret None
  else if tag =? 1 then x ← f; mret (Some x)
  else rfail (BadFormat "invalid option tag").
Definition r_var_bytes : reader DecodeError bytes :=
  len ← r_u16; rd_take (Z.to_nat len).
(** [let n = r.u16()?; for _ in 0..n { v.push(f(r)?) }]. *)
Definition r_list {A} (f : reader DecodeError A) : reader DecodeError (list A) :=
  n ← r_u16; read_n (Z.to_nat n) f.

(** ** Components *)
Definition write_pubkeys (pk : ChannelPublicKeys) : bytes :=
  w_pubkey (funding_pubkey pk) ++ w_pubkey (revocation_basepoint pk) ++
  w_pubkey (payment_basepoint pk) ++ w_pubkey (delayed_payment_basepoint pk) ++
  w_pubkey (htlc_basepoint pk).
Definition read_pubkeys : reader DecodeError ChannelPublicKeys :=
  funding_pubkey ← r_pubkey;
  revocation_basepoint ← r_pubkey;
  payment_basepoint ← r_pubkey;
  delayed_payment_basepoint ← r_pubkey;
  htlc_basepoint ← r_pubkey;
  mret {| funding_pubkey := funding_pubkey; revocation_basepoint := revocation_basepoint;
          payment_basepoint := payment_basepoint;
          delayed_payment_basepoint := delayed_payment_basepoint;
          htlc_basepoint := htlc_basepoint |}.

Definition write_htlc (h : HtlcOutputInCommitment) : bytes :=
  w_u8 (Z.b2z (offered h)) ++ w_u64 (amount_msat h) ++ w_u32 (cltv_expiry h) ++ payment_hash h.
Definition read_htlc : reader DecodeError HtlcOutputInCommitment :=
  offered ← rd_u8;
  amount_msat ← r_u64;
  cltv_expiry ← r_u32;
  payment_hash ← rd_array 32;
  mret {| offered := offered =? 1; amount_msat := amount_msat; cltv_expiry := cltv_expiry;
          payment_hash := payment_hash |}.

(** One entry of the secret store. *)
Definition write_secret (e : Z * bytes) : bytes := w_u64 e.1 ++ e.2.
Definition read_secret : reader DecodeError (Z * bytes) :=
  index ← r_u64; secret ← rd_array 32; mret (index, secret).

(** One HTLC of the peer's current commitment, with its output. *)
Definition write_slot (e : HtlcOutputInCommitment * option Z) : bytes :=
  write_htlc e.1 ++ w_opt e.2 w_u32.
Definition read_slot : reader DecodeError (HtlcOutputInCommitment * option Z) :=
  h ← read_htlc; vout ← r_opt r_u32; mret (h, vout).

(** The closures of [counterparty_current]. *)
Definition write_current (cp : CounterpartyCommitmentData) : bytes :=
  w_u64 (cpd_number cp) ++ cpd_txid cp ++ w_pubkey (cpd_per_commitment_point cp) ++
  w_list write_slot (cpd_htlcs cp).
Definition read_current : reader DecodeError CounterpartyCommitmentData :=
  number ← r_u64;
  txid ← rd_array 32;
  per_commitment_point ← r_pubkey;
  htlcs ← r_list read_slot;
  mret {| cpd_number := number; cpd_txid := txid;
          cpd_per_commitment_point := per_commitment_point; cpd_htlcs := htlcs |}.

Definition write_keys (k : TxCreationKeys) : bytes :=
  w_pubkey (tck_per_commitment_point k) ++ w_pubkey (revocation_key k) ++
  w_pubkey (broadcaster_htlc_key k) ++ w_pubkey (countersignatory_htlc_key k) ++
  w_pubkey (broadcaster_delayed_payment_key k).
Definition read_keys : reader DecodeError TxCreationKeys :=
  per_commitment_point ← r_pubkey;
  revocation_key ← r_pubkey;
  broadcaster_htlc_key ← r_pubkey;
  countersignatory_htlc_key ← r_pubkey;
  broadcaster_delayed_payment_key ← r_pubkey;
  mret {| tck_per_commitment_point := per_commitment_point; revocation_key := revocation_key;
          broadcaster_htlc_key := broadcaster_htlc_key;
          countersignatory_htlc_key := countersignatory_htlc_key;
          broadcaster_delayed_payment_key := broadcaster_delayed_payment_key |}.

(** An entry of [htlcs_in_output_order]; the index is cut to 16 bits. *)
Definition write_ordered (e : nat * bytes) : bytes := w_len e.1 ++ w_var_bytes e.2.
Definition read_ordered : reader DecodeError (nat * bytes) :=
  idx ← r_u16; script ← r_var_bytes; mret (Z.to_nat idx, script).

(** The transaction of our commitment. *)
Definition write_tx (tx : Transaction) : bytes := w_var_bytes (serialize tx).
Definition read_tx : reader DecodeError Transaction :=
  data ← r_var_bytes;
  rlift (map_err (fun _ => BadFormat "invalid holder commitment tx") (deserialize data)).

(** The closures of [holder_commitment]. *)
Definition write_holder (hc : HolderCommitment) : bytes :=
  w_u64 (hc_number hc) ++ write_tx (built_tx (hc_built hc)) ++ w_u64 (fee_sat (hc_built hc)) ++
  w_list (fun idx => w_opt idx w_u32) (htlc_output_indices (hc_built hc)) ++
  w_list write_ordered (htlcs_in_output_order (hc_built hc)) ++
  w_opt (to_broadcaster_index (hc_built hc)) w_u32 ++
  w_opt (to_countersignatory_index (hc_built hc)) w_u32 ++
  w_sig (hc_counterparty_sig hc) ++ w_list w_sig (hc_counterparty_htlc_sigs hc) ++
  w_list write_htlc (hc_htlcs hc) ++ write_keys (hc_keys hc) ++ w_u32 (hc_feerate hc).
Definition read_holder : reader DecodeError HolderCommitment :=
  number ← r_u64;
  tx ← read_tx;
  fee_sat ← r_u64;
  htlc_output_indices ← r_list (r_opt r_u32);
  htlcs_in_output_order ← r_list read_ordered;
  to_broadcaster_index ← r_opt r_u32;
  to_countersignatory_index ← r_opt r_u32;
  counterparty_sig ← r_sig;
  counterparty_htlc_sigs ← r_list r_sig;
  htlcs ← r_list read_htlc;
  keys ← read_keys;
  feerate ← r_u32;
  mret {| hc_number := number;
          hc_built := {| built_tx := tx; built_txid := txid tx; fee_sat := fee_sat;
            htlc_output_indices := htlc_output_indices;
            htlcs_in_output_order := htlcs_in_output_order;
            to_broadcaster_index := to_broadcaster_index;
            to_countersignatory_index := to_countersignatory_index |};
          hc_counterparty_sig := counterparty_sig;
          hc_counterparty_htlc_sigs := counterparty_htlc_sigs;
          hc_htlcs := htlcs; hc_keys := keys; hc_feerate := feerate |}.

Definition read_outpoint : reader DecodeError OutPoint :=
  txid ← rd_array 32; vout ← r_u32; mret {| op_txid := txid; op_vout := vout |}.

(** [SecretStore::from_entries] of the entries read. *)
Definition read_store : reader DecodeError SecretStore :=
  entries ← r_list read_secret; rlift (or_panic (from_entries entries)).

(** The preimages are keyed by their hash. *)
Definition preimage_map (ps : list bytes) : gmap bytes bytes :=
  foldl (fun m p => <[preimage_hash p := p]> m) ∅ ps.

(** ** The monitor *)
Section Values.
Context (values : gmap bytes bytes -> list bytes).

(** All of it but the preimages. *)
Definition write_body (m : ChannelMonitor) : bytes :=
  op_txid (cm_funding_outpoint m) ++ w_u32 (op_vout (cm_funding_outpoint m)) ++
  w_u64 (cm_capacity_sat m) ++ w_u64 (cm_obscure_factor m) ++
  write_pubkeys (cm_holder_pubkeys m) ++ write_pubkeys (cm_counterparty_pubkeys m) ++
  w_u16 (cm_holder_selected_delay m) ++ w_u16 (cm_counterparty_selected_delay m) ++
  w_list write_secret (entries (cm_counterparty_secrets m)) ++
  w_opt (cm_counterparty_current m) write_current ++
  w_opt (cm_holder_commitment m) write_holder ++
  w_u32 (cm_holder_commitment_feerate m).

Definition monitor_serialize (m : ChannelMonitor) : bytes :=
  w_u8 VERSION ++ write_body m ++
  w_len (size (cm_preimages m)) ++ concat (values (cm_preimages m)).
End Values.

(** What is read of a monitor, its preimages still to come. *)
Definition read_body : reader DecodeError (gmap bytes bytes -> ChannelMonitor) :=
  funding_outpoint ← read_outpoint;
  capacity_sat ← r_u64;
  obscure_factor ← r_u64;
  holder_pubkeys ← read_pubkeys;
  counterparty_pubkeys ← read_pubkeys;
  holder_selected_delay ← r_u16;
  counterparty_selected_delay ← r_u16;
  counterparty_secrets ← read_store;
  counterparty_current ← r_opt read_current;
  holder_commitment ← r_opt read_holder;
  holder_commitment_feerate ← r_u32;
  mret (fun preimages =>
    {| cm_funding_outpoint := funding_outpoint; cm_capacity_sat := capacity_sat;
       cm_obscure_factor := obscure_factor; cm_holder_pubkeys := holder_pubkeys;
       cm_counterparty_pubkeys := counterparty_pubkeys;
       cm_holder_selected_delay := holder_selected_delay;
       cm_counterparty_selected_delay := counterparty_selected_delay;
       cm_counterparty_secrets := counterparty_secrets;
       cm_counterparty_current := counterparty_current;
       cm_holder_commitment := holder_commitment;
       cm_holder_commitment_feerate := holder_commitment_feerate;
       cm_preimages := preimages |}).

Definition read_monitor : reader DecodeError ChannelMonitor :=
  version ← rd_u8;
  _ ← rfail_if (negb (version =? VERSION)) (BadFormat "unknown monitor version");
  body ← read_body;
  preimages ← r_list (rd_array 32);
  mret (body (preimage_map preimages)).

Definition monitor_deserialize (data : bytes) : result DecodeError ChannelMonitor :=
  match read_monitor data with
  | Ok (m, []) => Ok m
  | Ok (_, _ :: _) => Err (BadFormat "trailing bytes in monitor")
  | Err e => Err e
  | Panic => Panic
  end.
End Persist.

#[global] Opaque w_u16 w_u32 w_u64 w_pubkey w_sig r_u16 r_u32 r_u64 r_pubkey r_sig.

(** ** Readers invert writers *)
(** A chain of field readers against a chain of field writers. *)
Ltac read_fields :=
  repeat (eapply reads_bind; [solve [eauto with codec]|]);
  eapply reads_val; [eapply reads_bind_ret; solve [eauto with codec]|].

Section Fields.
Transparent w_u16 w_u32 w_u64 w_pubkey w_sig r_u16 r_u32 r_u64 r_pubkey r_sig.
Context `{HS : Secp} {HL : SecpLaws HS}.

Lemma rd_reads_be {v} n w :
  w = 8 * Z.of_nat n -> uint w v ->
  reads (l ← rd_array n; mret (of_be l)) (be_bytes n v) v.
Proof.
  intros Hw Hv. rewrite <- (of_be_be_bytes_id n w v) at 2 by done.
  apply (reads_bind_ret _ of_be). apply rd_reads_take, length_be_bytes.
Qed.

Lemma rd_be_u16 v : u16 v -> reads r_u16 (w_u16 v) v.
Proof. by apply rd_reads_be. Qed.
Lemma rd_be_u32 v : u32 v -> reads r_u32 (w_u32 v) v.
Proof. by apply rd_reads_be. Qed.
Lemma rd_be_u64 v : u64 v -> reads r_u64 (w_u64 v) v.
Proof. by apply rd_reads_be. Qed.

Lemma reads_decoded {A} (n : nat) (f : bytes -> option A) (e : DecodeError) w v :
  length w = n -> f w = Some v -> reads (l ← rd_array n; rlift (ok_or (f l) e)) w v.
Proof.
  intros Hn Hf rest. unfold mbind, reader_bind, rd_array.
  rewrite (rd_reads_take w n Hn rest). by rewrite Hf.
Qed.

Lemma rd_pubkey pk : reads r_pubkey (w_pubkey pk) pk.
Proof. apply reads_decoded; [apply pk_serialize_length|apply pk_from_serialize]. Qed.
Lemma reads_sig s : reads r_sig (w_sig s) s.
Proof. apply reads_decoded; [apply sig_compact_length|apply sig_from_serialize]. Qed.
Lemma reads_hash n w : length w = n -> reads (rd_array n) w w.
Proof. apply rd_reads_take. Qed.
End Fields.

#[export] Hint Resolve rd_be_u16 rd_be_u32 rd_be_u64 rd_pubkey reads_sig reads_hash : codec.

Section RoundTrip.
Context `{HS : Secp} {HL : SecpLaws HS}.

(** A count, or a length, that fits its 16 bits. *)
Definition short (n : nat) : Prop := u16 (Z.of_nat n).

Lemma reads_opt {A} (f : reader DecodeError A) (g : A -> bytes) (v : option A) :
  (forall x, v = Some x -> reads f (g x) x) -> reads (r_opt f) (w_opt v g) v.
Proof.
  intros H. unfold r_opt, w_opt, w_u8. destruct v as [x|].
  - eapply reads_bind; [apply rd_reads_u8|]. cbn [Z.eqb].
    eapply reads_val; [eapply reads_bind_ret; by apply H|done].
  - rewrite <- (app_nil_r [0]). eapply reads_bind; [apply rd_reads_u8|]. apply reads_ret.
Qed.

Lemma reads_len n : short n -> reads r_u16 (w_len n) (Z.of_nat n).
Proof. intros H. unfold w_len. rewrite wrap_small by done. by apply rd_be_u16. Qed.

Lemma reads_var_bytes b : short (length b) -> reads r_var_bytes (w_var_bytes b) b.
Proof.
  intros H. unfold r_var_bytes, w_var_bytes. eapply reads_bind; [by apply reads_len|].
  rewrite Nat2Z.id. by apply rd_reads_take.
Qed.

Lemma reads_list {A} (f : reader DecodeError A) (g : A -> bytes) (l : list A) :
  short (length l) -> Forall (fun x => reads f (g x) x) l -> reads (r_list f) (w_list g l) l.
Proof.
  intros Hl Hf. unfold r_list, w_list. eapply reads_bind; [by apply reads_len|].
  rewrite Nat2Z.id. by apply reads_read_n.
Qed.

Lemma reads_opt_u32 v : (forall x, v = Some x -> u32 x) -> reads (r_opt r_u32) (w_opt v w_u32) v.
Proof. intros H. apply reads_opt. intros x Hx. by apply rd_be_u32, H. Qed.

Lemma reads_pubkeys pk : reads read_pubkeys (write_pubkeys pk) pk.
Proof. unfold read_pubkeys, write_pubkeys. read_fields. by destruct pk. Qed.

Lemma reads_keys k : reads read_keys (write_keys k) k.
Proof. unfold read_keys, write_keys. read_fields. by destruct k. Qed.

(** ** Values that fit their fields *)
Definition sized_htlc (h : HtlcOutputInCommitment) : Prop :=
  u64 (amount_msat h) /\ u32 (cltv_expiry h) /\ length (payment_hash h) = 32%nat.

Lemma reads_htlc h : sized_htlc h -> reads read_htlc (write_htlc h) h.
Proof.
  intros (Ha & Hc & Hh). unfold read_htlc, write_htlc, w_u8. read_fields.
  by destruct h as [[] ? ? ?].
Qed.

Lemma reads_secret e : u64 e.1 -> length e.2 = 32%nat -> reads read_secret (write_secret e) e.
Proof. intros Hi Hs. unfold read_secret, write_secret. read_fields. by destruct e. Qed.

Definition sized_slot (e : HtlcOutputInCommitment * option Z) : Prop :=
  sized_htlc e.1 /\ forall v, e.2 = Some v -> u32 v.

Lemma reads_slot e : sized_slot e -> reads read_slot (write_slot e) e.
Proof.
  intros [Hh Hv]. unfold read_slot, write_slot.
  eapply reads_bind; [by apply reads_htlc|].
  eapply reads_val; [eapply reads_bind_ret; by apply reads_opt_u32|]. by destruct e.
Qed.

Definition sized_current (cp : CounterpartyCommitmentData) : Prop :=
  u64 (cpd_number cp) /\ length (cpd_txid cp) = 32%nat /\ short (length (cpd_htlcs cp)) /\
  Forall sized_slot (cpd_htlcs cp).

Lemma reads_current cp : sized_current cp -> reads read_current (write_current cp) cp.
Proof.
  intros (Hn & Ht & Hl & Hf). unfold read_current, write_current.
  do 3 (eapply reads_bind; [solve [eauto with codec]|]).
  eapply reads_val; [eapply reads_bind_ret; apply reads_list; [done|]|by destruct cp].
  eapply Forall_impl; [exact Hf|]. apply reads_slot.
Qed.

Definition sized_ordered (e : nat * bytes) : Prop := short e.1 /\ short (length e.2).

Lemma reads_ordered e : sized_ordered e -> reads read_ordered (write_ordered e) e.
Proof.
  intros [Hi Hs]. unfold read_ordered, write_ordered.
  eapply reads_bind; [by apply reads_len|].
  eapply reads_val; [eapply reads_bind_ret; by apply reads_var_bytes|].
  rewrite Nat2Z.id. by destruct e.
Qed.

Definition sized_tx (tx : Transaction) : Prop := wf_tx tx /\ short (length (serialize tx)).

Lemma reads_tx tx : sized_tx tx -> reads read_tx (write_tx tx) tx.
Proof.
  intros [Hwf Hs] rest. unfold read_tx, write_tx, mbind, reader_bind.
  rewrite (reads_var_bytes _ Hs rest). by rewrite deserialize_serialize_wf.
Qed.

(** Our commitment: its fields fit and its txid is that of its transaction. *)
Record sized_holder (hc : HolderCommitment) : Prop := {
  sh_number : u64 (hc_number hc);
  sh_tx : sized_tx (built_tx (hc_built hc));
  sh_fee : u64 (fee_sat (hc_built hc));
  sh_slots : short (length (htlc_output_indices (hc_built hc)));
  sh_vouts : Forall (fun s => forall v, s = Some v -> u32 v) (htlc_output_indices (hc_built hc));
  sh_order : short (length (htlcs_in_output_order (hc_built hc)));
  sh_ordered : Forall sized_ordered (htlcs_in_output_order (hc_built hc));
  sh_local : forall v, to_broadcaster_index (hc_built hc) = Some v -> u32 v;
  sh_remote : forall v, to_countersignatory_index (hc_built hc) = Some v -> u32 v;
  sh_sigs : short (length (hc_counterparty_htlc_sigs hc));
  sh_htlcs : short (length (hc_htlcs hc));
  sh_each : Forall sized_htlc (hc_htlcs hc);
  sh_feerate : u32 (hc_feerate hc);
}.

Lemma reads_holder hc :
  sized_holder hc -> built_txid (hc_built hc) = txid (built_tx (hc_built hc)) ->
  reads read_holder (write_holder hc) hc.
Proof.
  intros [] Htxid. unfold read_holder, write_holder.
  eapply reads_bind; [by apply rd_be_u64|].
  eapply reads_bind; [by apply reads_tx|].
  eapply reads_bind; [by apply rd_be_u64|].
  eapply reads_bind.
  { apply reads_list; [done|]. eapply Forall_impl; [eassumption|]. apply reads_opt_u32. }
  eapply reads_bind.
  { apply reads_list; [done|]. eapply Forall_impl; [eassumption|]. apply reads_ordered. }
  do 2 (eapply reads_bind; [by apply reads_opt_u32|]).
  eapply reads_bind; [apply reads_sig|].
  eapply reads_bind.
  { apply reads_list; [done|]. apply Forall_forall. intros s _. apply reads_sig. }
  eapply reads_bind.
  { apply reads_list; [done|]. eapply Forall_impl; [eassumption|]. apply reads_htlc. }
  eapply reads_bind; [apply reads_keys|].
  eapply reads_val; [eapply reads_bind_ret; by apply rd_be_u32|].
  rewrite <- Htxid. by destruct hc as [? [] ? ? ? ? ?].
Qed.
End RoundTrip.

(** ** Preimages *)
Definition keyed (ps : gmap bytes bytes) : Prop :=
  forall k p, ps !! k = Some p -> k = preimage_hash p.

Lemma preimage_map_lookup (l : list bytes) k p :
  (forall a b, a ∈ l -> b ∈ l -> preimage_hash a = preimage_hash b -> a = b) ->
  preimage_map l !! k = Some p <-> p ∈ l /\ preimage_hash p = k.
Proof.
  induction l as [|x l IH] using rev_ind; intros Hinj.
  { unfold preimage_map. cbn [foldl]. rewrite lookup_empty. split; [discriminate 1|].
    intros [H _]. by apply not_elem_of_nil in H. }
  unfold preimage_map in *. rewrite foldl_app. cbn [foldl].
  assert (Hl : forall a b, a ∈ l -> b ∈ l -> preimage_hash a = preimage_hash b -> a = b).
  { intros a b Ha Hb. apply Hinj; apply elem_of_app; by left. }
  rewrite lookup_insert_Some, (IH Hl), elem_of_app, list_elem_of_singleton. split.
  - intros [[H1 H2]|[H1 [H2 H3]]].
    + subst p. split; [by right|exact H1].
    + split; [by left|exact H3].
  - intros [[H1| ->] H2]; [|by left].
    destruct (decide (preimage_hash x = k)) as [E|E]; [|by right].
    left. split; [exact E|]. apply Hinj; [apply elem_of_app; right; by left
      |apply elem_of_app; by left|]. by rewrite E.
Qed.

Lemma keyed_rebuilt (ps : gmap bytes bytes) l :
  keyed ps -> l ≡ₚ (map_to_list ps).*2 -> preimage_map l = ps.
Proof.
  intros Hk Hl.
  assert (Hin : forall p, p ∈ l <-> ps !! preimage_hash p = Some p).
  { intros p. rewrite Hl, list_elem_of_fmap. split.
    - intros ([k q] & -> & H%elem_of_map_to_list). cbn [snd]. by rewrite <- (Hk _ _ H).
    - intros H. exists (preimage_hash p, p). split; [reflexivity|]. by apply elem_of_map_to_list. }
  apply map_eq. intros k. apply option_eq. intros p. rewrite preimage_map_lookup.
  - rewrite Hin. split; [by intros [H <-]|]. intros H. rewrite <- (Hk _ _ H). done.
  - intros a b Ha Hb E. apply Hin in Ha. apply Hin in Hb. congruence.
Qed.

(** ** The whole monitor *)
Section Monitors.
Context `{HS : Secp} {HL : SecpLaws HS}.
Context (values : gmap bytes bytes -> list bytes).
Hypothesis values_perm : forall ps, values ps ≡ₚ (map_to_list ps).*2.

(** Every field but the number of preimages fits. *)
Record sized (m : ChannelMonitor) : Prop := {
  sz_txid : length (op_txid (cm_funding_outpoint m)) = 32%nat;
  sz_vout : u32 (op_vout (cm_funding_outpoint m));
  sz_capacity : u64 (cm_capacity_sat m);
  sz_obscure : u64 (cm_obscure_factor m);
  sz_delay : u16 (cm_holder_selected_delay m);
  sz_their_delay : u16 (cm_counterparty_selected_delay m);
  sz_entries : short (length (entries (cm_counterparty_secrets m)));
  sz_secrets : Forall (fun e => u64 e.1 /\ length e.2 = 32%nat) (entries (cm_counterparty_secrets m));
  sz_current : forall cp, cm_counterparty_current m = Some cp -> sized_current cp;
  sz_holder : forall hc, cm_holder_commitment m = Some hc -> sized_holder hc;
  sz_feerate : u32 (cm_holder_commitment_feerate m);
  sz_preimages : forall h p, cm_preimages m !! h = Some p -> length p = 32%nat;
}.

(** What the code maintains between the fields of a monitor. *)
Record coherent (m : ChannelMonitor) : Prop := {
  co_store : from_entries (entries (cm_counterparty_secrets m)) = Ok (cm_counterparty_secrets m);
  co_txid : forall hc, cm_holder_commitment m = Some hc ->
    built_txid (hc_built hc) = txid (built_tx (hc_built hc));
  co_keyed : keyed (cm_preimages m);
}.

(** [m] but for its preimages. *)
Definition with_preimages (m : ChannelMonitor) (ps : gmap bytes bytes) : ChannelMonitor :=
  {| cm_funding_outpoint := cm_funding_outpoint m; cm_capacity_sat := cm_capacity_sat m;
     cm_obscure_factor := cm_obscure_factor m; cm_holder_pubkeys := cm_holder_pubkeys m;
     cm_counterparty_pubkeys := cm_counterparty_pubkeys m;
     cm_holder_selected_delay := cm_holder_selected_delay m;
     cm_counterparty_selected_delay := cm_counterparty_selected_delay m;
     cm_counterparty_secrets := cm_counterparty_secrets m;
     cm_counterparty_current := cm_counterparty_current m;
     cm_holder_commitment := cm_holder_commitment m;
     cm_holder_commitment_feerate := cm_holder_commitment_feerate m; cm_preimages := ps |}.

Lemma reads_store s :
  short (length (entries s)) -> Forall (fun e => u64 e.1 /\ length e.2 = 32%nat) (entries s) ->
  from_entries (entries s) = Ok s -> reads read_store (w_list write_secret (entries s)) s.
Proof.
  intros Hl Hf Hs rest. unfold read_store, mbind, reader_bind.
  rewrite (reads_list _ _ _ Hl (Forall_impl _ _ _ Hf (fun e H => reads_secret e (proj1 H) (proj2 H))) rest).
  by rewrite Hs.
Qed.

Lemma reads_body m :
  sized m -> from_entries (entries (cm_counterparty_secrets m)) = Ok (cm_counterparty_secrets m) ->
  (forall hc, cm_holder_commitment m = Some hc ->
     built_txid (hc_built hc) = txid (built_tx (hc_built hc))) ->
  reads read_body (write_body m) (with_preimages m).
Proof.
  intros [] Hs Htxid. unfold read_body, write_body.
  rewrite (app_assoc (op_txid _)). eapply reads_bind.
  { unfold read_outpoint. eapply reads_bind; [by apply reads_hash|].
    eapply reads_val; [eapply reads_bind_ret; by apply rd_be_u32|reflexivity]. }
  do 2 (eapply reads_bind; [by apply rd_be_u64|]).
  do 2 (eapply reads_bind; [apply reads_pubkeys|]).
  do 2 (eapply reads_bind; [by apply rd_be_u16|]).
  eapply reads_bind; [by apply reads_store|].
  eapply reads_bind; [apply reads_opt; intros cp Hcp; by apply reads_current, sz_current0|].
  eapply reads_bind; [apply reads_opt; intros hc Hhc; apply reads_holder; auto|].
  eapply reads_val; [eapply reads_bind_ret; by apply rd_be_u32|].
  unfold with_preimages. by destruct (cm_funding_outpoint m).
Qed.

(** Up to the preimages nothing depends on their number. *)
Lemma read_monitor_run m rest :
  sized m -> from_entries (entries (cm_counterparty_secrets m)) = Ok (cm_counterparty_secrets m) ->
  (forall hc, cm_holder_commitment m = Some hc ->
     built_txid (hc_built hc) = txid (built_tx (hc_built hc))) ->
  read_monitor (w_u8 VERSION ++ write_body m ++ rest) =
    (preimages ← r_list (rd_array 32); mret (with_preimages m (preimage_map preimages))) rest.
Proof.
  intros Hm Hs Ht. unfold read_monitor, w_u8.
  unfold mbind at 1, reader_bind at 1. rewrite (rd_reads_u8 VERSION _ : rd_u8 _ = _).
  unfold mbind at 1, reader_bind at 1.
  change (negb (VERSION =? VERSION)) with false. cbn [rfail_if].
  unfold mbind at 1, reader_bind at 1.
  by rewrite (reads_body m Hm Hs Ht rest).
Qed.

Lemma values_sized m :
  sized m -> Forall (fun p => reads (rd_array 32) p p) (values (cm_preimages m)).
Proof.
  intros Hm. rewrite values_perm. apply Forall_forall. intros p Hp.
  apply list_elem_of_fmap in Hp as ([k q] & -> & Hq%elem_of_map_to_list).
  by apply reads_hash, (sz_preimages m Hm k).
Qed.

Lemma monitor_roundtrip m :
  sized m -> coherent m -> short (size (cm_preimages m)) ->
  monitor_deserialize (monitor_serialize values m) = Ok m.
Proof.
  intros Hm [Hs Ht Hk] Hn. unfold monitor_deserialize, monitor_serialize.
  rewrite (read_monitor_run m _ Hm Hs Ht).
  assert (Hl : length (values (cm_preimages m)) = size (cm_preimages m)).
  { by rewrite values_perm, length_fmap, length_map_to_list. }
  pose proof (reads_list (rd_array 32) (fun p => p) (values (cm_preimages m))) as Hr.
  unfold w_list in Hr. rewrite map_id, Hl in Hr.
  rewrite <- (app_nil_r (_ ++ concat _)). unfold mbind, reader_bind.
  rewrite (Hr Hn (values_sized m Hm) []). unfold mret, reader_ret.
  rewrite (keyed_rebuilt _ _ Hk (values_perm _)). by destruct m.
Qed.
End Monitors.

(** ** Deciding whether a monitor fits *)
Section Decide.
Context `{HS : Secp}.

Definition fits32 (b : bytes) : bool := (length b =? 32)%nat.
Definition optb {A} (f : A -> bool) (o : option A) : bool :=
  match o with Some x => f x | None => true end.
Definition shortb (n : nat) : bool := uintb 16 (Z.of_nat n).

Definition txin_fits (i : TxIn) : bool :=
  fits32 (op_txid (previous_output i)) && uintb 32 (op_vout (previous_output i)) &&
  (Z.of_nat (length (script_sig i)) <=? 10000) && uintb 32 (sequence i) &&
  (Z.of_nat (length (witness i)) <=? 1000) &&
  forallb (fun w => Z.of_nat (length w) <=? 4000000) (witness i).
Definition txout_fits (o : TxOut) : bool :=
  uintb 64 (out_value o) && (Z.of_nat (length (script_pubkey o)) <=? 10000).
Definition tx_fits (tx : Transaction) : bool :=
  (- 2 ^ 31 <=? version tx) && (version tx <? 2 ^ 31) && uintb 32 (lock_time tx) &&
  (0 <? Z.of_nat (length (input tx))) && (Z.of_nat (length (input tx)) <=? 100000) &&
  (Z.of_nat (length (output tx)) <=? 100000) &&
  forallb txin_fits (input tx) && forallb txout_fits (output tx).

Definition htlc_fits (h : HtlcOutputInCommitment) : bool :=
  uintb 64 (amount_msat h) && uintb 32 (cltv_expiry h) && fits32 (payment_hash h).
Definition slot_fits (e : HtlcOutputInCommitment * option Z) : bool :=
  htlc_fits e.1 && optb (uintb 32) e.2.
Definition current_fits (cp : CounterpartyCommitmentData) : bool :=
  uintb 64 (cpd_number cp) && fits32 (cpd_txid cp) && shortb (length (cpd_htlcs cp)) &&
  forallb slot_fits (cpd_htlcs cp).
Definition built_fits (b : BuiltCommitmentTx) : bool :=
  tx_fits (built_tx b) && shortb (length (serialize (built_tx b))) && uintb 64 (fee_sat b) &&
  shortb (length (htlc_output_indices b)) && forallb (optb (uintb 32)) (htlc_output_indices b) &&
  shortb (length (htlcs_in_output_order b)) &&
  forallb (fun e => shortb e.1 && shortb (length e.2)) (htlcs_in_output_order b) &&
  optb (uintb 32) (to_broadcaster_index b) && optb (uintb 32) (to_countersignatory_index b).
Definition holder_fits (hc : HolderCommitment) : bool :=
  uintb 64 (hc_number hc) && built_fits (hc_built hc) &&
  shortb (length (hc_counterparty_htlc_sigs hc)) && shortb (length (hc_htlcs hc)) &&
  forallb htlc_fits (hc_htlcs hc) && uintb 32 (hc_feerate hc).
Definition monitor_fits (m : ChannelMonitor) : bool :=
  fits32 (op_txid (cm_funding_outpoint m)) && uintb 32 (op_vout (cm_funding_outpoint m)) &&
  uintb 64 (cm_capacity_sat m) && uintb 64 (cm_obscure_factor m) &&
  uintb 16 (cm_holder_selected_delay m) && uintb 16 (cm_counterparty_selected_delay m) &&
  shortb (length (entries (cm_counterparty_secrets m))) &&
  forallb (fun e => uintb 64 e.1 && fits32 e.2) (entries (cm_counterparty_secrets m)) &&
  optb current_fits (cm_counterparty_current m) && optb holder_fits (cm_holder_commitment m) &&
  uintb 32 (cm_holder_commitment_feerate m) &&
  forallb (fun e => fits32 e.2) (map_to_list (cm_preimages m)).

Lemma forallb_Forall {A} (f : A -> bool) (P : A -> Prop) l :
  (forall x, f x = true -> P x) -> forallb f l = true -> Forall P l.
Proof.
  intros H Hl. apply Forall_forall. intros x Hx. apply H.
  rewrite forallb_forall in Hl. apply Hl. by apply list_elem_of_In.
Qed.

Lemma optb_spec {A} (f : A -> bool) (P : A -> Prop) o :
  (forall x, f x = true -> P x) -> optb f o = true -> forall x, o = Some x -> P x.
Proof. intros H Ho x ->. by apply H. Qed.

Lemma fits32_spec b : fits32 b = true -> length b = 32%nat.
Proof. apply Nat.eqb_eq. Qed.
Lemma shortb_spec n : shortb n = true -> short n.
Proof. apply uintb_spec. Qed.
Lemma uintb_ok w z : uintb w z = true -> uint w z.
Proof. apply uintb_spec. Qed.

Lemma leb_ok a b : (a <=? b) = true -> a <= b.
Proof. apply Z.leb_le. Qed.
Lemma ltb_ok a b : (a <? b) = true -> a < b.
Proof. apply Z.ltb_lt. Qed.

Hint Resolve fits32_spec shortb_spec uintb_ok leb_ok ltb_ok : core.

Lemma htlc_fits_spec h : htlc_fits h = true -> sized_htlc h.
Proof. unfold htlc_fits, sized_htlc. rewrite !andb_true_iff. intros H. destruct_conj. auto. Qed.

Lemma slot_fits_spec e : slot_fits e = true -> sized_slot e.
Proof.
  unfold slot_fits, sized_slot. rewrite andb_true_iff. intros [H1 H2].
  split; [by apply htlc_fits_spec|]. by apply (optb_spec (uintb 32)); [apply uintb_ok|].
Qed.

Lemma current_fits_spec cp : current_fits cp = true -> sized_current cp.
Proof.
  unfold current_fits, sized_current. rewrite !andb_true_iff. intros H. destruct_conj.
  do 3 (split; [by auto|]). by apply (forallb_Forall slot_fits); [apply slot_fits_spec|].
Qed.

Lemma txin_fits_spec i : txin_fits i = true -> wf_txin i.
Proof.
  unfold txin_fits, wf_txin. rewrite !andb_true_iff. intros H. destruct_conj.
  do 5 (split; [by auto|]). eapply forallb_Forall; [|eassumption]. cbv beta. auto.
Qed.

Lemma tx_fits_spec tx : tx_fits tx = true -> wf_tx tx.
Proof.
  unfold tx_fits, wf_tx. rewrite !andb_true_iff. intros H. destruct_conj.
  do 4 (split; [by auto|]).
  split; (eapply forallb_Forall; [|eassumption]); [apply txin_fits_spec|].
  intros o Ho. unfold txout_fits in Ho. rewrite andb_true_iff in Ho. split; [apply uintb_ok|apply leb_ok]; apply Ho.
Qed.

Lemma holder_fits_spec hc : holder_fits hc = true -> sized_holder hc.
Proof.
  unfold holder_fits, built_fits. rewrite !andb_true_iff. intros H. destruct_conj.
  split; auto; try (eapply optb_spec; [|eassumption]; auto).
  - split; [by apply tx_fits_spec|auto].
  - eapply forallb_Forall; [|eassumption]. intros x Hx. eapply optb_spec; [|eassumption]. auto.
  - eapply forallb_Forall; [|eassumption]. intros x Hx. rewrite andb_true_iff in Hx.
    split; apply shortb_spec; apply Hx.
  - eapply forallb_Forall; [|eassumption]. apply htlc_fits_spec.
Qed.

Lemma monitor_fits_spec m : monitor_fits m = true -> sized m.
Proof.
  unfold monitor_fits. rewrite !andb_true_iff. intros H. destruct_conj.
  split; auto; try (eapply optb_spec; [|eassumption]).
  - eapply forallb_Forall; [|eassumption]. intros x Hx. rewrite andb_true_iff in Hx.
    split; [apply uintb_ok|apply fits32_spec]; apply Hx.
  - apply current_fits_spec.
  - apply holder_fits_spec.
  - intros k p Hp. apply elem_of_map_to_list in Hp.
    match goal with H : forallb _ (map_to_list _) = true |- _ =>
      rewrite forallb_forall in H; apply list_elem_of_In in Hp; apply H in Hp end.
    by apply fits32_spec in Hp.
Qed.
End Decide.

(** ** Restarts *)
Section Restart.
Context `{HS : Secp} {HL : SecpLaws HS} {Sg : Type} `{HCS : !ChannelSigner Sg}.
Abbreviation Channel := (Channel (Sg := Sg)).
Context (values : gmap bytes bytes -> list bytes).

Lemma keyed_learn m (ps : list bytes) :
  keyed (cm_preimages m) -> keyed (cm_preimages (foldl add_preimage m ps)).
Proof.
  revert m. induction ps as [|p ps IH]; intros m Hk; [exact Hk|]. cbn [foldl]. apply IH.
  intros k q H. cbn [add_preimage cm_preimages] in H.
  apply lookup_insert_Some in H as [[<- <-]|[_ H]]; [reflexivity|by apply Hk].
Qed.

Lemma monitors_coherent (c : Channel) m :
  reachable c -> (ch_current_holder_commitment c <> None -> funded c = true) ->
  monitors c m -> coherent m.
Proof.
  intros Hr Hf Hm. pose proof (monitors_of _ _ Hr Hm) as Hmo. split.
  - rewrite (mo_secrets _ _ Hmo). destruct (reachable_rev c Hr) as [Hrev Hmax].
    destruct (ri_secrets c Hrev) as (secrets & Hlen & Hall).
    eapply store_rebuilt; [|exact Hall]. pose proof (ri_bound c Hrev). unfold MAX_INDEX in *. lia.
  - rewrite (mo_holder _ _ Hmo). intros hc Hhc. destruct (reachable_armed c Hr) as [Harm _].
    destruct (ar_holder _ _ Harm (Hf ltac:(congruence)) hc Hhc) as [p Hb].
    by rewrite (hb_built _ _ _ Hb).
  - destruct Hm as (m0 & ps & Hm0 & ->). apply keyed_learn. unfold from_channel in Hm0.
    apply bind_Some in Hm0 as (cp & _ & Hm0). apply bind_Some in Hm0 as (f & _ & Hm0).
    injection Hm0 as <-. intros k p H.
    cbn [cm_preimages] in H. by apply lookup_empty_Some in H.
Qed.

(** [C34] A defect: the number of preimages is written as 16 bits with [as u16].
    A monitor that has learned 65,536 or more is written without complaint,
    but what is written cannot be read back: the reader stops after the count
    modulo 65,536 and rejects the rest, so the secrets and commitments of the
    channel are lost with it. *)
Theorem many_preimages_unreadable m :
  (forall ps, values ps ≡ₚ (map_to_list ps).*2) ->
  sized m -> from_entries (entries (cm_counterparty_secrets m)) = Ok (cm_counterparty_secrets m) ->
  (forall hc, cm_holder_commitment m = Some hc ->
     built_txid (hc_built hc) = txid (built_tx (hc_built hc))) ->
  65536 <= Z.of_nat (size (cm_preimages m)) ->
  monitor_deserialize (monitor_serialize values m) = Err (BadFormat "trailing bytes in monitor").
Proof.
  intros Hv Hsz Hs Ht Hn. unfold monitor_deserialize, monitor_serialize.
  rewrite (read_monitor_run m _ Hsz Hs Ht).
  set (l := values (cm_preimages m)). set (n := wrap 16 (Z.of_nat (size (cm_preimages m)))).
  assert (Hb : uint 16 n) by (by apply wrap_uint).
  assert (Hl : length l = size (cm_preimages m)).
  { unfold l. by rewrite (Hv (cm_preimages m)), length_fmap, length_map_to_list. }
  pose proof (values_sized values Hv m Hsz) as Hf. change (values (cm_preimages m)) with l in Hf.
  assert (Hlt : (Z.to_nat n < length l)%nat) by (unfold uint in Hb; lia).
  destruct (drop (Z.to_nat n) l) as [|p rest] eqn:Ed.
  { apply (f_equal length) in Ed. rewrite length_drop in Ed. cbn [length] in Ed. lia. }
  assert (Hp : length p = 32%nat).
  { assert (Hin : p ∈ l).
    { rewrite <- (take_drop (Z.to_nat n) l), Ed. apply elem_of_app. right. by left. }
    unfold l in Hin. rewrite (Hv (cm_preimages m)) in Hin.
    apply list_elem_of_fmap in Hin as ([k q] & -> & Hq%elem_of_map_to_list).
    by apply (sz_preimages m Hsz k). }
  assert (Hrun : reads (r_list (rd_array 32)) (w_len (size (cm_preimages m)) ++
    concat (map (fun x => x) (take (Z.to_nat n) l))) (take (Z.to_nat n) l)).
  { unfold r_list. eapply reads_bind; [apply rd_be_u16; exact Hb|].
    assert (E : length (take (Z.to_nat n) l) = Z.to_nat n) by (rewrite length_take; lia).
    change (wrap 16 (Z.of_nat (size (cm_preimages m)))) with n. rewrite <- E at 1.
    apply reads_read_n. by apply Forall_take. }
  rewrite map_id in Hrun. specialize (Hrun (concat (p :: rest))).
  rewrite <- app_assoc, <- concat_app, <- Ed, take_drop in Hrun.
  unfold mbind, reader_bind. rewrite Hrun, Ed. unfold mret, reader_ret.
  destruct p as [|b p]; [discriminate Hp|]. reflexivity.
Qed.
End Restart.

(** ** A monitor with 65,536 preimages *)
Definition sample_values (ps : gmap bytes bytes) : list bytes := (map_to_list ps).*2.

(** [n] entries with the preimage of zeros, under distinct keys. *)
Definition sample_preimages (n : nat) : gmap bytes bytes :=
  list_to_map ((fun i : nat => (be_bytes 4 (Z.of_nat i), replicate 32 0)) <$> seq 0 n).

Lemma sample_preimages_size n :
  Z.of_nat n < 2 ^ 32 -> size (sample_preimages n) = n.
Proof.
  intros Hn. unfold sample_preimages. rewrite <- length_map_to_list, map_to_list_to_map.
  - by rewrite length_fmap, length_seq.
  - rewrite <- list_fmap_compose. apply NoDup_fmap_2_strong; [|apply NoDup_seq].
    intros i j Hi%elem_of_seq Hj%elem_of_seq H. cbn [fst compose] in H.
    apply (f_equal of_be) in H.
    rewrite !(of_be_be_bytes_id 4 32) in H by (unfold uint; lia). lia.
Qed.

Lemma sample_preimages_values n h p : sample_preimages n !! h = Some p -> length p = 32%nat.
Proof.
  intros H. unfold sample_preimages in H. apply elem_of_list_to_map_2 in H.
  apply list_elem_of_fmap in H as (i & E & _). apply (f_equal snd) in E. cbn [snd] in E. by rewrite E.
Qed.

Definition sample_count : nat := Z.to_nat 65536.
Definition sample_many : gmap bytes bytes := sample_preimages sample_count.
Lemma sample_many_size : Z.of_nat (size sample_many) = 65536.
Proof.
  unfold sample_many. rewrite sample_preimages_size; unfold sample_count; rewrite Z2Nat.id; lia.
Qed.

Lemma sample_many_values h p : sample_many !! h = Some p -> length p = 32%nat.
Proof. apply sample_preimages_values. Qed.
#[global] Opaque sample_many.

Definition sample_full : ChannelMonitor (HS := toy_secp) :=
  with_preimages (sample_monitor []) sample_many.

Lemma sized_with `{HS : Secp} m ps :
  sized m -> (forall h p, ps !! h = Some p -> length p = 32%nat) -> sized (with_preimages m ps).
Proof. intros [] H. by split. Qed.

Lemma sample_full_sized : sized sample_full.
Proof.
  apply sized_with; [apply monitor_fits_spec; vm_compute; reflexivity|exact sample_many_values].
Qed.

Lemma many_preimages_unreadable_witness :
  monitor_deserialize (monitor_serialize sample_values sample_full) =
    Err (BadFormat "trailing bytes in monitor").
Proof.
  apply (many_preimages_unreadable sample_values sample_full).
  - intros ps. reflexivity.
  - apply sample_full_sized.
  - reflexivity.
  - intros hc H. discriminate H.
  - change (cm_preimages sample_full) with sample_many. rewrite sample_many_size. lia.
Defined.
