(* ===== verification/Widths.v ===== *)
(** * Widths: what a channel keeps fits what the disk format writes

    [Persist] proves the round trip of a monitor whose fields fit the widths
    they are written with.  Here that is derived for the monitor of any
    reachable channel, from no more than the Rust types of the channel's
    fields and the limit of 483 HTLCs per direction: transactions, indices,
    scripts, revocation secrets and commitment numbers follow.  The restart
    theorem is stated on it. *)
From stdpp Require Import relations gmap.
From S2P Require Import Prelude Secp Types Msgs Codec Sha256 Ripemd160 Encode Script Tx Shachain Keys Commitment Channel Monitor Dance Close Reestablish Machine Revocation Holder Enforce Onchain Persist.

(** ** Lengths of what the builders write *)
Lemma length_push_slice s d : (length (push_slice s d) <= length s + length d + 5)%nat.
Proof.
  unfold push_slice. rewrite length_app.
  repeat case_match; rewrite ?length_app, ?length_le_bytes; cbn [length]; lia.
Qed.

Lemma length_push_int s n : (length (push_int s n) <= length s + 14)%nat.
Proof.
  pose proof (length_scriptnum_encode n). pose proof (length_push_slice s (scriptnum_encode n)).
  unfold push_int, push_opcode. repeat case_match; rewrite ?length_app; cbn [length]; lia.
Qed.

(** At most 38 bytes per item, for the data the scripts hold. *)
Lemma length_push_items (l : list push_item) :
  Forall (fun i => match i with Data d => (length d <= 33)%nat | _ => True end) l ->
  (length (push_items l) <= 38 * length l)%nat.
Proof.
  unfold push_items. induction l as [|i l IH] using rev_ind; intros Hl; [done|].
  apply Forall_app in Hl as [Hl Hi]. apply Forall_cons in Hi as [Hi _]. specialize (IH Hl).
  rewrite foldl_app, length_app. cbn [foldl length]. set (s := foldl _ [] l) in *. clearbody s.
  destruct i as [op|d|n]; [|pose proof (length_push_slice s d)|pose proof (length_push_int s n)];
    unfold push_opcode; rewrite ?length_app; cbn [length]; lia.
Qed.

Lemma length_compact_size n : (length (write_compact_size n) <= 9)%nat.
Proof.
  unfold write_compact_size. repeat case_match; cbn [length];
    rewrite ?length_app, ?length_le_bytes; cbn [length]; lia.
Qed.

Lemma length_sized_bytes b : (length (write_sized_bytes b) <= 9 + length b)%nat.
Proof.
  unfold write_sized_bytes. rewrite length_app.
  pose proof (length_compact_size (wrap 64 (Z.of_nat (length b)))). lia.
Qed.

Lemma length_txouts l :
  Forall (fun o => (length (script_pubkey o) <= 34)%nat) l ->
  (length (concat (map txout_write l)) <= 51 * length l)%nat.
Proof.
  induction 1 as [|o l Ho _ IH]; [done|]. cbn [map concat length]. unfold txout_write at 1.
  rewrite !length_app, length_le_bytes. pose proof (length_sized_bytes (script_pubkey o)). lia.
Qed.

Lemma wrap_land_24 x : uint 24 (wrap 32 (Z.land x 0xffffff)).
Proof.
  change 0xffffff with (Z.ones 24). rewrite Z.land_ones by lia.
  pose proof (Z.mod_pos_bound x (2 ^ 24) ltac:(lia)).
  rewrite wrap_small; unfold uint; lia.
Qed.

Lemma lor_24 k x : 0 <= k < 256 -> uint 24 x -> u32 (Z.lor (k * 2 ^ 24) x).
Proof. intros Hk Hx. rewrite lor_high_24 by (done || lia). unfold uint in *. lia. Qed.

(** ** Commitments *)
Section Built.
Context `{HS : Secp} {HL : SecpLaws HS}.

Lemma length_htlc_script keys h : (length (htlc_witness_script keys h) <= 1216)%nat.
Proof.
  assert (Hrev : forall k, length (revocation_pubkey_hash160 k) = 20%nat)
    by (intros k; apply length_ripemd160).
  assert (Hpay : forall x, length (payment_hash_ripemd x) = 20%nat) by (intros x; apply length_ripemd160).
  unfold htlc_witness_script, offered_htlc, received_htlc.
  destruct (offered h); (etransitivity; [apply length_push_items|cbn [length]; lia]);
    repeat first [apply Forall_nil_2 | apply Forall_cons; split;
      [rewrite ?pk_serialize_length, ?Hrev, ?Hpay; (exact I || lia)|]].
Qed.

Lemma output_script p o : o ∈ outputs p -> (length (script_pubkey o) <= 34)%nat.
Proof.
  assert (Hw : forall s, (length (new_p2wsh s) <= 34)%nat)
    by (intros s; unfold new_p2wsh; rewrite length_app, length_sha256; cbn [length]; lia).
  assert (Hk : forall k, (length (new_p2wpkh_from_pubkey k) <= 34)%nat)
    by (intros k; unfold new_p2wpkh_from_pubkey; rewrite length_app, length_hash160; cbn [length]; lia).
  rewrite outputs_parts. unfold party_txouts, htlc_txouts, to_remote. rewrite !elem_of_app.
  intros [[H|H]|H].
  1, 2: destruct (_ <=? _); [|by apply elem_of_nil in H];
    apply list_elem_of_singleton in H as ->; cbn [script_pubkey]; auto.
  apply list_elem_of_In, in_concat in H as (l & Hl & Ho). apply in_map_iff in Hl as (h & <- & _).
  destruct (trimmed p h); [done|]. destruct Ho as [<-|[]]. apply Hw.
Qed.

Lemma length_outputs p : (length (outputs p) <= 2 + length (htlcs p))%nat.
Proof.
  unfold outputs, build_commitment_tx. cbn [built_tx output]. rewrite length_map. apply staged_length.
Qed.

(** Its transaction is one the reader accepts, short enough for the two bytes
    its length is written with. *)
Lemma built_sized p :
  (length (htlcs p) <= 966)%nat ->
  length (op_txid (cp_funding_outpoint p)) = 32%nat -> u32 (op_vout (cp_funding_outpoint p)) ->
  Forall (fun o => u64 (out_value o)) (outputs p) -> sized_tx (built_tx (build_commitment_tx p)).
Proof.
  intros Hn Ht Hv Ho. pose proof (length_outputs p) as Hlen.
  assert (Hs : Forall (fun o => (length (script_pubkey o) <= 34)%nat) (outputs p))
    by (apply Forall_forall; intros o; apply output_script).
  split.
  - unfold wf_tx. change (output (built_tx (build_commitment_tx p))) with (outputs p).
    unfold build_commitment_tx. cbn [built_tx version lock_time input length].
    split; [lia|]. split; [apply (lor_24 0x20); [lia|apply wrap_land_24]|].
    split; [lia|]. split; [lia|]. split.
    + apply Forall_singleton. unfold wf_txin.
      cbn [previous_output script_sig sequence witness length].
      do 2 (split; [done|]). split; [lia|].
      split; [apply (lor_24 0x80); [lia|apply wrap_land_24]|]. split; [lia|constructor].
    + apply Forall_forall. intros o Hin. rewrite Forall_forall in Ho, Hs.
      specialize (Hs o Hin). split; [by apply Ho|lia].
  - pose proof (length_txouts (outputs p) Hs) as Hb.
    unfold serialize. change (has_witness (built_tx (build_commitment_tx p))) with false. cbn [negb].
    unfold serialize_legacy, write_inputs_outputs.
    change (output (built_tx (build_commitment_tx p))) with (outputs p).
    rewrite !length_app, !length_le_bytes.
    pose proof (length_compact_size (wrap 64 (Z.of_nat (length (outputs p))))).
    pose proof (length_compact_size (wrap 64 (Z.of_nat (length (input (built_tx (build_commitment_tx p))))))).
    assert (Hi : length (concat (map txin_write (input (built_tx (build_commitment_tx p))))) = 41%nat).
    { unfold build_commitment_tx. cbn [built_tx input map concat]. unfold txin_write, outpoint_write.
      cbn [previous_output script_sig sequence]. rewrite !length_app, !length_le_bytes, Ht. reflexivity. }
    unfold short, uint. rewrite Hi. lia.
Qed.

Lemma to_sat_floor_u64 m : u64 m -> u64 (to_sat_floor m).
Proof. intros Hm. pose proof (to_sat_floor_bound m Hm). unfold uint in *. lia. Qed.

Lemma outputs_u64 p : amounts_ok p -> Forall (fun o => u64 (out_value o)) (outputs p).
Proof.
  intros [Hb%to_sat_floor_u64 Hc%to_sat_floor_u64 Hh]. pose proof (base_fee_nonneg p) as Hf.
  apply Forall_forall. intros o. rewrite outputs_parts. unfold party_txouts, htlc_txouts.
  rewrite !elem_of_app. intros [[H|H]|H].
  1, 2: destruct (_ <=? _); [|by apply elem_of_nil in H];
    apply list_elem_of_singleton in H as ->; cbn [out_value];
    unfold to_broadcaster_sat, to_countersignatory_sat, sat_sub, uint in *;
    destruct (broadcaster_pays_fee p); lia.
  apply list_elem_of_In, in_concat in H as (l & Hl & Ho). apply in_map_iff in Hl as (h & <- & Hin).
  destruct (trimmed p h); [done|]. destruct Ho as [<-|[]]. apply to_sat_floor_u64.
  rewrite Forall_forall in Hh. apply Hh. by apply list_elem_of_In.
Qed.

(** Its indices are those of outputs. *)
Definition vout_ok (s : option Z) : Prop := forall v, s = Some v -> u32 v.

Lemma placed_u32 n l :
  Forall vout_ok (pl_indices (place_all n l)) /\ vout_ok (pl_broadcaster (place_all n l)) /\
  vout_ok (pl_countersignatory (place_all n l)).
Proof.
  assert (Hw : forall z, vout_ok (Some (wrap 32 z))) by (intros z v [= <-]; by apply wrap_uint).
  induction l as [|e l (H1 & H2 & H3)] using rev_ind.
  - split_and!; [by apply Forall_replicate; intros v|by intros v..].
  - rewrite place_all_snoc. destruct e as [[o c] [| |i s]]; cbn [place pl_indices pl_broadcaster
      pl_countersignatory]; split_and!; auto. by apply Forall_insert.
Qed.

Lemma order_sized p :
  (length (htlcs p) <= 966)%nat ->
  short (length (htlcs_in_output_order (build_commitment_tx p))) /\
  Forall sized_ordered (htlcs_in_output_order (build_commitment_tx p)).
Proof.
  intros Hn.
  change (htlcs_in_output_order (build_commitment_tx p))
    with (pl_order (place_all (length (htlcs p)) (staged p))).
  rewrite place_all_order. split.
  - pose proof (staged_length p). assert (length (omap htlc_of (staged p)) <= length (staged p))%nat.
    { clear. generalize (staged p) as l. induction l as [|e l IH]; [done|].
      cbn. destruct (htlc_of e); cbn; lia. }
    unfold short, uint. lia.
  - apply Forall_forall. intros [i s] Hin. destruct (staged_indices p) as [_ Hall].
    rewrite Forall_fmap, Forall_forall in Hall. specialize (Hall _ Hin). cbn in Hall.
    apply list_elem_of_omap in Hin as (e & He & Hh).
    destruct (staged_htlc p e i s He Hh) as (h & _ & _ & _ & ->).
    pose proof (length_htlc_script (cp_keys p) h). unfold sized_ordered, short, uint. cbn [fst snd]. lia.
Qed.
End Built.

(** ** Channels *)
Section Channels.
Context `{HS : Secp} {HL : SecpLaws HS} {Sg : Type} `{HCS : !ChannelSigner Sg}.
Abbreviation Channel := (Channel (Sg := Sg)).

(** 483 HTLCs per direction ([MAX_HTLCS_PER_SIDE]). *)
Definition htlcs_typed (hs : list HtlcOutputInCommitment) : Prop :=
  (length hs <= 2 * 483)%nat /\ Forall sized_htlc hs.

(** The widths of the Rust types of a channel's fields: [u64] amounts, [u32]
    feerates and output indices, [u16] delays, [[u8; 32]] hashes and secrets.
    The model keeps them as unbounded integers and byte lists. *)
Record typed (c : Channel) : Prop := {
  ty_capacity : u64 (ch_funding_amount_sat c);
  ty_delay : u16 (holder_selected_delay (ch_params c));
  ty_their_delay : u16 (counterparty_selected_delay (ch_params c));
  ty_feerate : u32 (ch_feerate_holder c);
  ty_outpoint : forall o, ch_funding_outpoint c = Some o ->
    length (op_txid o) = 32%nat /\ u32 (op_vout o);
  ty_secrets : Forall (fun e => length e.2 = 32%nat) (entries (ch_counterparty_secrets c));
  ty_current : forall i, ch_current_counterparty_commitment c = Some i ->
    htlcs_typed (map fst (cci_htlcs i));
  ty_holder : forall hc, ch_current_holder_commitment c = Some hc ->
    htlcs_typed (hc_htlcs hc) /\ u32 (hc_feerate hc) /\
    (length (hc_counterparty_htlc_sigs hc) <= 2 * 483)%nat /\
    Forall (fun o => u64 (out_value o)) (output (built_tx (hc_built hc)));
}.

Lemma holder_sized c hc :
  reachable c -> funded c = true -> typed c -> ch_current_holder_commitment c = Some hc ->
  sized_holder hc.
Proof.
  intros Hr Hf Ht Hhc. destruct (reachable_hold c Hr) as [Hhold Hmax].
  destruct (reachable_armed c Hr) as [Harm _]. destruct (ar_holder _ _ Harm Hf hc Hhc) as [p Hb].
  destruct (hi_stored c Hhold hc Hhc) as [Hn _]. pose proof (hi_bound c Hhold) as H0.
  destruct (ty_holder c Ht hc Hhc) as ((Hlen & Hhs) & Hfee & Hsigs & Hout).
  destruct (ty_outpoint c Ht _ (hb_funding _ _ _ Hb)) as [Htx Hv].
  rewrite (hb_htlcs _ _ _ Hb) in Hlen. rewrite (hb_built _ _ _ Hb) in Hout.
  destruct (order_sized p) as [Ho1 Ho2]; [lia|].
  destruct (placed_u32 (length (htlcs p)) (staged p)) as (Hp1 & Hp2 & Hp3).
  split; rewrite ?(hb_built _ _ _ Hb).
  - rewrite Hn. unfold uint, MAX_INDEX in *. lia.
  - apply built_sized; try done; lia.
  - change (u64 (base_fee p)). unfold base_fee, fee_for_weight.
    pose proof (wrap_uint 64 (feerate p * wrap 64
      (COMMITMENT_TX_BASE_WEIGHT + COMMITMENT_TX_WEIGHT_PER_HTLC * num_untrimmed p)) ltac:(lia)) as Hw.
    unfold uint in *. split; [apply Z.div_pos; lia|apply Z.div_lt_upper_bound; lia].
  - change (htlc_output_indices (build_commitment_tx p))
      with (pl_indices (place_all (length (htlcs p)) (staged p))).
    rewrite place_all_length. unfold short, uint. lia.
  - exact Hp1.
  - exact Ho1.
  - exact Ho2.
  - exact Hp2.
  - exact Hp3.
  - unfold short, uint. lia.
  - rewrite (hb_htlcs _ _ _ Hb). unfold short, uint. lia.
  - exact Hhs.
  - exact Hfee.
Qed.

Lemma current_sized c i :
  reachable c -> typed c -> ch_current_counterparty_commitment c = Some i ->
  sized_current (commitment_data i).
Proof.
  intros Hr Ht Hi. destruct (reachable_rev c Hr) as [Hrev Hmax]. pose proof (ri_bound c Hrev) as H0.
  destruct (ri_current c Hrev i Hi) as [Hn _].
  destruct (signed_built c c i Hr) as (p & Hp & _); [done|by left|].
  destruct (ty_current c Ht i Hi) as [Hlen Hhs]. rewrite length_map in Hlen.
  unfold sized_current, commitment_data. cbn [cpd_number cpd_txid cpd_htlcs]. split_and!.
  - rewrite Hn. unfold uint, MAX_INDEX in *. lia.
  - rewrite (pb_txid _ _ _ Hp). apply length_txid.
  - unfold short, uint. lia.
  - apply Forall_forall. intros e He. split.
    + rewrite Forall_forall in Hhs. apply Hhs. by apply list_elem_of_fmap_2.
    + rewrite (pb_htlcs _ _ _ Hp) in He. apply elem_of_lookup_imap in He as (k & h & -> & _).
      cbn [snd]. destruct (placed_u32 (length (htlcs p)) (staged p)) as (Hp1 & _).
      change (htlc_output_indices (build_commitment_tx p))
        with (pl_indices (place_all (length (htlcs p)) (staged p))).
      destruct (pl_indices _ !! k) as [s|] eqn:Es; [|done].
      rewrite Forall_forall in Hp1. apply Hp1. by eapply list_elem_of_lookup_2.
Qed.

(** The store holds one secret per bucket, each under an index of 48 bits. *)
Lemma secrets_sized c :
  reachable c -> typed c -> short (length (entries (ch_counterparty_secrets c))) /\
  Forall (fun e => u64 e.1 /\ length e.2 = 32%nat) (entries (ch_counterparty_secrets c)).
Proof.
  intros Hr Ht. destruct (reachable_rev c Hr) as [Hrev Hmax]. pose proof (ri_bound c Hrev) as H0.
  destruct (ri_secrets c Hrev) as (secrets & Hlen & Hall).
  assert (Hk : length (known (ch_counterparty_secrets c)) = 49%nat /\
    Forall (fun e => u64 e.1) (entries (ch_counterparty_secrets c))).
  { destruct secrets as [|x secrets].
    { cbn [insert_all] in Hall. injection Hall as <-. split; [reflexivity|constructor]. }
    assert (Hinv := insert_all_store (x :: secrets) _ ltac:(unfold MAX_INDEX in *; lia) Hall).
    split; [exact (inv_length _ _ _ Hinv)|]. apply Forall_forall. intros [K y] He.
    apply elem_of_entries in He as [l Hl].
    apply (inv_entry _ _ _ Hinv) in Hl as (_ & HK & _). cbn [fst length] in *.
    unfold uint, MAX_INDEX in *. lia. }
  destruct Hk as [Hk Hidx]. split.
  - unfold entries. assert (H : forall l : list (option (Z * bytes)), (length (omap id l) <= length l)%nat).
    { induction l as [|[e|] l IH]; cbn in *; lia. }
    specialize (H (known (ch_counterparty_secrets c))). unfold short, uint. lia.
  - pose proof (ty_secrets c Ht) as Hs. rewrite Forall_forall in Hidx, Hs |- *. auto.
Qed.

Lemma learned_preimages m (ps : list bytes) h p :
  cm_preimages (foldl add_preimage m ps) !! h = Some p -> p ∈ ps \/ cm_preimages m !! h = Some p.
Proof.
  revert m. induction ps as [|x ps IH]; intros m H; [by right|]. cbn [foldl] in H.
  destruct (IH _ H) as [Hp|Hp]; [left; by right|]. cbn [add_preimage cm_preimages] in Hp.
  apply lookup_insert_Some in Hp as [[_ <-]|[_ Hp]]; [left; by left|by right].
Qed.

(** A snapshot that has learned the preimages [ps] since. *)
Definition learned (c : Channel) (ps : list bytes) (m : ChannelMonitor) : Prop :=
  exists m0, from_channel c = Some m0 /\ m = foldl add_preimage m0 ps.

Lemma learned_size m (ps : list bytes) :
  (size (cm_preimages (foldl add_preimage m ps)) <= size (cm_preimages m) + length ps)%nat.
Proof.
  revert m. induction ps as [|p ps IH]; intros m; cbn [foldl length]; [lia|].
  specialize (IH (add_preimage m p)).
  assert (H : (size (cm_preimages (add_preimage m p)) <= S (size (cm_preimages m)))%nat).
  { cbn [add_preimage cm_preimages]. rewrite map_size_insert.
    destruct (_ !! _); cbn; lia. }
  lia.
Qed.

Lemma learn_keeps m (ps : list bytes) :
  cm_capacity_sat (foldl add_preimage m ps) = cm_capacity_sat m /\
  cm_holder_commitment_feerate (foldl add_preimage m ps) = cm_holder_commitment_feerate m.
Proof.
  revert m. induction ps as [|p ps IH]; intros m; [done|]. cbn [foldl].
  exact (IH (add_preimage m p)).
Qed.

Lemma from_channel_fields (c : Channel) m :
  from_channel c = Some m ->
  cm_capacity_sat m = ch_funding_amount_sat c /\
  cm_holder_commitment_feerate m = ch_feerate_holder c /\ cm_preimages m = ∅.
Proof.
  unfold from_channel. intros H. apply bind_Some in H as (cp & _ & H).
  apply bind_Some in H as (f & _ & H). by injection H as <-.
Qed.

Lemma monitor_sized (c : Channel) ps m :
  reachable c -> (ch_current_holder_commitment c <> None -> funded c = true) -> typed c ->
  Forall (fun p => length p = 32%nat) ps -> learned c ps m -> sized m.
Proof.
  intros Hr Hf Ht Hps (m0 & H0 & E).
  assert (Hm : monitor_of c m) by (apply monitors_of; [done|by exists m0, ps]).
  destruct (reachable_armed c Hr) as [Harm _]. destruct (secrets_sized c Hr Ht) as [Hs1 Hs2].
  destruct (ty_outpoint c Ht _ (mo_funding _ _ Hm)) as [Htx Hv].
  destruct (from_channel_fields c m0 H0) as (Hcap & Hfee & Hnone).
  destruct (learn_keeps m0 ps) as [Hcap' Hfee']. rewrite <- E in Hcap', Hfee'.
  split.
  - exact Htx.
  - exact Hv.
  - rewrite Hcap', Hcap. exact (ty_capacity c Ht).
  - rewrite (mo_obscure _ _ Hm). eapply (uint_mono 48); [lia|]. exact (ar_obscure _ _ Harm).
  - rewrite (mo_delay _ _ Hm). exact (ty_delay c Ht).
  - rewrite (mo_their_delay _ _ Hm). exact (ty_their_delay c Ht).
  - by rewrite (mo_secrets _ _ Hm).
  - by rewrite (mo_secrets _ _ Hm).
  - intros cp Hcp. rewrite (mo_current _ _ Hm) in Hcp.
    apply fmap_Some in Hcp as (i & Hi & ->). by apply (current_sized c).
  - intros hc Hhc. rewrite (mo_holder _ _ Hm) in Hhc. apply (holder_sized c); try done.
    apply Hf. congruence.
  - rewrite Hfee', Hfee. exact (ty_feerate c Ht).
  - intros h p Hp. rewrite E in Hp. apply learned_preimages in Hp as [Hp|Hp].
    + rewrite Forall_forall in Hps. by apply Hps.
    + rewrite Hnone in Hp. by apply lookup_empty_Some in Hp.
Qed.

(** [C7] A restart loses nothing.  Drive a channel through any operations, take
    its monitor in any state that is funded or has no commitment of its own
    yet, and let it learn fewer than 65,536 preimages: written to disk, in
    whatever order the map is iterated, and read back, it is the same monitor,
    with its revocation secrets, both commitments and every preimage under its
    hash.  The channel's fields are within their Rust types ([typed]: widths,
    32-byte hashes, at most 483 HTLCs per direction); that everything else
    that is written fits its field (transactions, txids, indices, scripts,
    commitment numbers, the secret store) is proved.  The bound on the preimages is needed: see
    [Persist.many_preimages_unreadable]. *)
Theorem restart_preserves_monitor (values : gmap bytes bytes -> list bytes) (c : Channel) ps m :
  (forall l, values l ≡ₚ (map_to_list l).*2) ->
  reachable c -> (ch_current_holder_commitment c <> None -> funded c = true) -> typed c ->
  Forall (fun p => length p = 32%nat) ps -> learned c ps m ->
  Z.of_nat (size (cm_preimages m)) < 65536 ->
  monitor_deserialize (monitor_serialize values m) = Ok m.
Proof.
  intros Hv Hr Hf Ht Hps Hm Hn. apply (monitor_roundtrip values Hv).
  - by apply (monitor_sized c ps).
  - apply (monitors_coherent c); [done..|]. destruct Hm as (m0 & H0 & E). by exists m0, ps.
  - unfold short, uint. lia.
Qed.
End Channels.
