(* ===== verification/Scenario.v ===== *)
(** * Scenario: a channel through a fee update, and its unilateral closes

    A run of the channel of [Sample] over the toy curve: opened, confirmed, a
    fee update signed, the peer's first commitment revoked.  The theorems of
    [Onchain], [Persist] and [Widths] are applied to its states; nothing is hashed, the
    steps are taken symbolically. *)
From stdpp Require Import relations gmap.
From S2P Require Import Prelude Secp Types Msgs Sha256 Encode Script Tx Shachain Keys Commitment Channel Monitor Dance Close Reestablish Ledger Moves Machine Revocation Holder Enforce Solvency Conservation Sample Onchain Persist Widths.

(** ** A quiet channel: no HTLC, nothing in flight *)
Record quiet (c : ToyChannel) (o : OutPoint) (i : CounterpartyCommitmentInfo (HS := toy_secp)) : Prop := {
  qu_state : ch_state c = Normal;
  qu_role : ch_role c = Opener;
  qu_signer : ch_signer c = sample_signer 10;
  qu_theirs : ch_counterparty_pubkeys c = Some (pubkeys (sample_signer 20));
  qu_funding : ch_funding_outpoint c = Some o;
  qu_await : ch_awaiting_raa c = false;
  qu_pending : ch_pending_counterparty_commitment c = None;
  qu_htlcs : ch_htlcs c = [];
  qu_cell : ch_holding_cell c = [];
  qu_numbers : ch_holder_commitment_number c = 0 /\ ch_counterparty_commitment_number c = 0;
  qu_secrets : ch_counterparty_secrets c = store_new;
  qu_point : ch_counterparty_current_point c = Some (toy_of 77 : PublicKey (Secp := toy_secp));
  qu_next : ch_counterparty_next_point c = Some (toy_of 78 : PublicKey (Secp := toy_secp));
  qu_current : ch_current_counterparty_commitment c = Some i;
  qu_holder : exists hc, ch_current_holder_commitment c = Some hc /\ hc_htlcs hc = [];
}.

(** Commitments without HTLCs. *)
Lemma no_htlcs_built (c : ToyChannel) n pt built keys hs :
  ch_htlcs c = [] -> build_counterparty_commitment_at c n pt = Ok (built, keys, hs) ->
  hs = [] /\ htlcs_in_output_order built = [].
Proof.
  intros Hh Hb. unfold build_counterparty_commitment_at in Hb. bind_inv. rewrite Hh in Hb.
  destruct (balances_for c false) as [a b]. bind_inv.
  split; [done|]. by apply order_nil.
Qed.

(** The first commitment signed for the peer has no HTLCs. *)
Lemma sample_first_info i :
  (sign_counterparty_0 sample_located).2 =
    sample_located <| ch_current_counterparty_commitment := Some i |> ->
  cci_number i = 0 /\ cci_htlcs i = [].
Proof.
  destruct (toy_sign_counterparty_0 sample_located _ _ eq_refl eq_refl (toy_of 77) eq_refl)
    as (sig & j & Hs).
  rewrite Hs. cbn [snd]. intros E. apply (f_equal ch_current_counterparty_commitment) in E.
  assert (j = i) as -> by (injection E; auto). clear E.
  unfold sign_counterparty_0, reads_self, modify, mret, stm_ret, mbind, stm_bind in Hs.
  change (ch_counterparty_current_point sample_located)
    with (Some (toy_of 77 : PublicKey (Secp := toy_secp))) in Hs. cbn [expect] in Hs.
  destruct (build_counterparty_commitment_at sample_located 0 (toy_of 77)) as [[[built keys] hs]| |] eqn:Eb;
    [|discriminate Hs..].
  destruct (sign_counterparty_commitment_tx sample_located built) as [s| |]; [|discriminate Hs..].
  apply (f_equal snd) in Hs. cbn [snd] in Hs.
  apply (f_equal ch_current_counterparty_commitment) in Hs.
  assert (Hi : counterparty_info_from_built sample_located 0 (toy_of 77) built hs = i)
    by (injection Hs; auto).
  destruct (no_htlcs_built sample_located 0 _ _ _ _ eq_refl Eb) as [-> _].
  rewrite <- Hi. unfold counterparty_info_from_built. by destruct (balances_for _ _).
Qed.

(** ** The opening *)
(** The opener has signed the peer's first commitment: [sample_funding] with
    what the commitment holds. *)
Lemma sample_funded :
  exists msg i, funding_created sample_txid 0 sample_accepted =
    (Ok msg, sample_located <| ch_current_counterparty_commitment := Some i |>
                            <| ch_state := FundingCreatedSent |>) /\
    cci_number i = 0 /\ cci_htlcs i = [].
Proof.
  destruct (toy_sign_counterparty_0 sample_located _ _ eq_refl eq_refl (toy_of 77) eq_refl)
    as (sig & i & Hs).
  eexists; exists i. split; [|apply sample_first_info; by rewrite Hs]. unfold funding_created.
  do 2 (eapply stm_run; [reflexivity|cbv beta]).
  eapply (stm_run _ _ _ _ sample_located); [reflexivity|cbv beta].
  eapply stm_run; [exact Hs|]. cbv beta.
  eapply stm_run; [unfold modify; reflexivity|cbv beta].
  eapply stm_run; [unfold gets; reflexivity|cbv beta]. unfold mret, stm_ret. reflexivity.
Qed.

(** From the funded channel to the quiet one. *)
Lemma sample_quiet :
  exists c0 c i, reachable c0 /\ ch_state c0 = FundingCreatedSent /\
    ch_current_counterparty_commitment c0 = Some i /\ cci_number i = 0 /\ cci_htlcs i = [] /\
    rtc step c0 c /\ quiet c sample_outpoint i.
Proof.
  destruct sample_funded as (msg & i & H0 & Hi0 & Hi1).
  remember (sample_located <| ch_current_counterparty_commitment := Some i |>
    <| ch_state := FundingCreatedSent |>) as c0 eqn:E0.
  destruct (sample_signed c0 sample_outpoint) as (msg1 & c1 & hc & H1 & E1 & Hhc & _); [by rewrite E0..|].
  destruct (toy_confirmed c1 10) as (m2 & H2); [by rewrite E1, E0..|].
  remember (c1 <| ch_short_channel_id := Some 5 |> <| ch_funding_confirmed := true |>
               <| ch_channel_ready_sent := true |>) as c2 eqn:E2.
  pose proof (toy_ready c2) as H3.
  remember (c2 <| ch_counterparty_next_point := Some (toy_of 78 : PublicKey (Secp := toy_secp)) |>
    <| ch_channel_ready_received := true |> <| ch_state := Normal |>) as c3 eqn:E3.
  exists c0, c3, i. split.
  { exists sample_channel. split; [apply sample_is_opened|]. transitivity sample_accepted.
    - apply (step_ok (EvAcceptChannel sample_accept) _ _ tt); [apply sample_accept_ok|by split].
    - apply (step_ok (EvFund sample_txid 0) _ _ tt); [by eapply stm_run|rewrite E0; by split]. }
  split; [by rewrite E0|]. split; [by rewrite E0|]. split; [done|]. split; [done|]. split.
  - transitivity c1.
    { apply (step_ok (EvFundingSigned msg1) _ _ tt); [done|]. rewrite E1, E0. by split. }
    transitivity c2.
    { apply (step_ok (EvFundingConfirmed 5) _ _ tt); [by eapply stm_run|].
      rewrite E2, E1, E0. by split. }
    apply (step_ok (EvChannelReady sample_ready) _ _ tt).
    + apply H3; by rewrite E2, E1, E0.
    + rewrite E3, E2, E1, E0. by split.
  - split; rewrite E3, E2, E1, E0; try first [reflexivity|split; reflexivity].
    exists hc. split; [reflexivity|]. apply Hhc. by rewrite E0.
Qed.

(** A commitment that changes no HTLC. *)
Lemma apply_nothing (q : PendingCounterpartyCommitment (HS := toy_secp)) (g : ToyChannel) :
  pcc_included q = [] -> pcc_removed q = [] -> ch_htlcs g = [] ->
  ch_htlcs (apply_pending q g) = [] /\
  ch_holding_cell (apply_pending q g) = ch_holding_cell g /\
  ch_counterparty_dirty (apply_pending q g) = ch_counterparty_dirty g /\
  ch_pending_counterparty_commitment (apply_pending q g) = ch_pending_counterparty_commitment g /\
  ch_current_counterparty_commitment (apply_pending q g) = ch_current_counterparty_commitment g /\
  ch_holder_commitment_number (apply_pending q g) = ch_holder_commitment_number g /\
  ch_counterparty_commitment_number (apply_pending q g) = ch_counterparty_commitment_number g /\
  statics (apply_pending q g) = statics g.
Proof.
  intros Hi Hr Hh. unfold apply_pending. rewrite Hi, Hr. cbn [foldl]. unfold gc_htlcs.
  destruct (pcc_fee_update q); (split; [|repeat split]);
    match goal with |- List.filter _ ?l = [] => change l with (ch_htlcs g); rewrite Hh; reflexivity
    | |- _ => change (List.filter (fun h => negb (gone_both h)) (ch_htlcs g) = []); rewrite Hh; reflexivity end.
Qed.

(** ** The fee update *)
Section Quiet.
Context (c : ToyChannel) (o : OutPoint) (i : CounterpartyCommitmentInfo (HS := toy_secp)).
Hypothesis Hq : quiet c o i.

Definition repriced : ToyChannel :=
  c <| ch_feerate_counterparty := 2000 |> <| ch_counterparty_dirty := true |>.

Lemma quiet_fee : exists m, send_update_fee 2000 c = (Ok m, repriced).
Proof.
  eexists. unfold send_update_fee.
  eapply stm_run. { unfold throw_if. rewrite (qu_role _ _ _ Hq). reflexivity. }
  eapply stm_run. { unfold throw_if. rewrite (qu_state _ _ _ Hq). reflexivity. }
  eapply stm_run. { unfold throw_if. rewrite (qu_await _ _ _ Hq). reflexivity. }
  do 3 (eapply stm_run; [reflexivity|]). reflexivity.
Qed.

(** The state with [q] in flight. *)
Definition flying (q : PendingCounterpartyCommitment (HS := toy_secp)) : ToyChannel :=
  repriced <| ch_pending_counterparty_commitment := Some q |>
    <| ch_awaiting_raa := true |> <| ch_counterparty_dirty := false |>.

Lemma quiet_sign :
  exists msg q, send_commitment_signed repriced = (Ok msg, flying q) /\
    cci_number (pcc_info q) = 1 /\ pcc_included q = [] /\ pcc_removed q = [] /\
    cci_htlcs (pcc_info q) = [].
Proof.
  assert (Hn : ch_counterparty_next_point repriced = Some (toy_of 78 : PublicKey (Secp := toy_secp)))
    by exact (qu_next _ _ _ Hq).
  assert (Hcp : ch_counterparty_pubkeys repriced = Some (pubkeys (sample_signer 20)))
    by exact (qu_theirs _ _ _ Hq).
  assert (Ho : ch_funding_outpoint repriced = Some o) by exact (qu_funding _ _ _ Hq).
  assert (Hh : ch_htlcs repriced = []) by exact (qu_htlcs _ _ _ Hq).
  assert (Hnum : ch_counterparty_commitment_number repriced = 0) by exact (proj2 (qu_numbers _ _ _ Hq)).
  assert (Ha : ch_awaiting_raa repriced = false) by exact (qu_await _ _ _ Hq).
  destruct (toy_build_counterparty repriced _ _ Hcp Ho 1 (toy_of 78)) as (built & keys & hs & Hb & Hin).
  destruct (no_htlcs_built _ _ _ _ _ _ Hh Hb) as [-> Hord].
  destruct (funding_sighash_total repriced _ _ Hcp Hin) as [h Hh'].
  eexists _, _. split.
  - unfold send_commitment_signed.
    eapply stm_run. { unfold throw_if. rewrite Ha. reflexivity. }
    eapply stm_run; [reflexivity|].
    eapply stm_run. { unfold gets. rewrite Hnum. reflexivity. }
    eapply stm_run. { unfold reads_self. rewrite Hn. reflexivity. }
    eapply stm_run. { unfold reads_self. change (wrap 64 (0 + 1)) with 1. rewrite Hb. reflexivity. }
    cbv beta iota. eapply stm_run.
    { unfold reads_self, sign_counterparty_commitment_tx. rewrite Hh'. reflexivity. }
    eapply stm_run. { unfold reads_self, sign_htlcs. rewrite Hord. reflexivity. }
    cbv beta. eapply stm_run; [unfold modify; reflexivity|].
    eapply stm_run; [unfold gets; reflexivity|]. unfold mret, stm_ret. reflexivity.
  - cbn [pcc_info pcc_included pcc_removed]. unfold phase_keys. rewrite Hh. split.
    + unfold counterparty_info_from_built. destruct (balances_for repriced false). reflexivity.
    + split; [reflexivity|]. split; [reflexivity|].
      unfold counterparty_info_from_built. destruct (balances_for repriced false). reflexivity.
Qed.

(** ** The revocation *)
Definition sample_raa : RevokeAndAck (HS := toy_secp) :=
  {| raa_channel_id := []; raa_per_commitment_secret := replicate 31 0 ++ [77];
     raa_next_per_commitment_point := (toy_of 79 : PublicKey (Secp := toy_secp)) |}.

Lemma sample_secret_stored :
  exists s, insert store_new (index_for_commitment 0) (replicate 31 0 ++ [77]) = Ok s.
Proof. eexists. reflexivity. Qed.

(** The state once the secret is accepted. *)
Definition relieved (q : PendingCounterpartyCommitment (HS := toy_secp)) (s : SecretStore) :
    ToyChannel :=
  (flying q) <| ch_counterparty_secrets := s |> <| ch_pending_counterparty_commitment := None |>
    <| ch_counterparty_commitment_number := 1 |>
    <| ch_counterparty_current_point := ch_counterparty_next_point (flying q) |>
    <| ch_counterparty_next_point := Some (toy_of 79 : PublicKey (Secp := toy_secp)) |>
    <| ch_current_counterparty_commitment := Some (pcc_info q) |> <| ch_awaiting_raa := false |>.

Lemma quiet_accepts q : exists s, accept_secret sample_raa (flying q) = (Ok q, relieved q s).
Proof.
  destruct sample_secret_stored as [s Hins]. exists s. unfold relieved, accept_secret.
  assert (Hs : ch_counterparty_secrets (flying q) = store_new) by exact (qu_secrets _ _ _ Hq).
  assert (Hpt : ch_counterparty_current_point (flying q) =
    Some (toy_of 77 : PublicKey (Secp := toy_secp))) by exact (qu_point _ _ _ Hq).
  assert (Hnum : ch_counterparty_commitment_number (flying q) = 0)
    by exact (proj2 (qu_numbers _ _ _ Hq)).
  assert (Hp : ch_pending_counterparty_commitment (flying q) = Some q) by reflexivity.
  generalize dependent (flying q). intros f Hs Hpt Hnum Hp.
  eapply stm_run. { unfold reads_self. rewrite Hp. reflexivity. }
  eapply stm_run. { unfold reads_self. rewrite Hpt. reflexivity. }
  eapply stm_run; [reflexivity|]. eapply stm_run; [reflexivity|].
  eapply stm_run. { unfold reads_self. rewrite Hs, Hnum. cbn [raa_per_commitment_secret sample_raa].
    rewrite Hins. reflexivity. }
  cbv beta. eapply stm_run; [unfold modify; reflexivity|]. unfold mret, stm_ret. cbv beta.
  match goal with |- context [wrap 64 (ch_counterparty_commitment_number ?x + 1)] =>
    change (ch_counterparty_commitment_number x) with (ch_counterparty_commitment_number f) end.
  rewrite Hnum. reflexivity.
Qed.

Lemma quiet_revoked q :
  pcc_included q = [] -> pcc_removed q = [] ->
  exists out c', on_revoke_and_ack sample_raa (flying q) = (Ok out, c') /\
    ch_pending_counterparty_commitment c' = None /\
    ch_current_counterparty_commitment c' = Some (pcc_info q) /\
    statics c' = statics c /\ numbers_fit c'.
Proof.
  intros Hi Hr. destruct (quiet_accepts q) as [s Hacc]. set (g := relieved q s) in *.
  assert (Hh : ch_htlcs g = []) by exact (qu_htlcs _ _ _ Hq).
  destruct (apply_nothing q g Hi Hr Hh) as (Gh & Gc & Gd & Gp & Gcur & G1 & G2 & Gs).
  assert (Hcell : ch_holding_cell g = []) by exact (qu_cell _ _ _ Hq). rewrite Hcell in Gc.
  assert (Hd : ch_counterparty_dirty g = false) by reflexivity. rewrite Hd in Gd.
  assert (Hn : ch_holder_commitment_number g = 0) by exact (proj1 (qu_numbers _ _ _ Hq)).
  assert (Hst : statics g = statics c) by reflexivity.
  eexists _, _. split.
  - unfold on_revoke_and_ack.
    eapply stm_run. { unfold throw_if. change (ch_awaiting_raa (flying q)) with true. reflexivity. }
    eapply stm_run; [exact Hacc|]. eapply stm_run; [unfold modify; reflexivity|].
    eapply stm_run.
    { unfold collect_forwardable. eapply stm_run; [unfold gets; rewrite Gh; reflexivity|].
      eapply stm_run; [unfold modify; rewrite Gh; reflexivity|]. unfold mret, stm_ret. reflexivity. }
    cbv beta. eapply stm_run; [unfold gets; reflexivity|].
    cbv beta. match goal with |- context [flush (ch_holding_cell ?x)] =>
      change (ch_holding_cell x) with (ch_holding_cell (apply_pending q g)) end. rewrite Gc.
    eapply stm_run; [unfold modify; reflexivity|]. eapply stm_run; [reflexivity|].
    eapply stm_run; [unfold gets, can_send_commitment; reflexivity|].
    cbv beta. match goal with |- context [ch_counterparty_dirty ?x] =>
      change (ch_counterparty_dirty x) with (ch_counterparty_dirty (apply_pending q g)) end.
    rewrite Gd. unfold mret, stm_ret. reflexivity.
  - assert (Gst : statics (apply_pending q g) = statics c) by (rewrite Gs; exact Hst).
    rewrite Hn in G1. change (ch_counterparty_commitment_number g) with 1 in G2.
    clear Gs Gd Gc Gh Hacc. generalize dependent (apply_pending q g). intros g' Gp Gcur G1 G2 Gst.
    split; [exact Gp|]. split; [exact Gcur|]. split; [exact Gst|]. split.
    + change (ch_holder_commitment_number g' <= MAX_INDEX). rewrite G1. by unfold MAX_INDEX.
    + change (ch_counterparty_commitment_number g' <= MAX_INDEX). rewrite G2. by unfold MAX_INDEX.
Qed.
End Quiet.

(** ** The whole run *)
Lemma quiet_flies (c : ToyChannel) o i :
  quiet c o i -> exists q, rtc step c (flying c q) /\
    cci_number (pcc_info q) = 1 /\ pcc_included q = [] /\ pcc_removed q = [] /\
    cci_htlcs (pcc_info q) = [].
Proof.
  intros Hq. destruct (quiet_fee c o i Hq) as [m H1].
  destruct (quiet_sign c o i Hq) as (msg & q & H2 & H3). exists q. split; [|exact H3].
  destruct (qu_numbers _ _ _ Hq) as [Hn1 Hn2]. transitivity (repriced c).
  - apply (step_ok (EvSendFee 2000) _ _ tt); [by eapply stm_run|].
    split; [change (ch_holder_commitment_number c <= MAX_INDEX)
      |change (ch_counterparty_commitment_number c <= MAX_INDEX)]; unfold MAX_INDEX; lia.
  - apply (step_ok EvSendCommitment _ _ tt); [by eapply stm_run|].
    split; [change (ch_holder_commitment_number c <= MAX_INDEX)
      |change (ch_counterparty_commitment_number c <= MAX_INDEX)]; unfold MAX_INDEX; lia.
Qed.

Lemma sample_scenario :
  exists c0 c q c' i, reachable c0 /\ ch_state c0 = FundingCreatedSent /\
    ch_current_counterparty_commitment c0 = Some i /\ cci_number i = 0 /\ cci_htlcs i = [] /\
    rtc step c0 c /\ quiet c sample_outpoint i /\
    rtc step c (flying c q) /\ cci_number (pcc_info q) = 1 /\
    rtc step (flying c q) c' /\ ch_pending_counterparty_commitment c' = None /\
    ch_current_counterparty_commitment c' = Some (pcc_info q) /\ statics c' = statics c.
Proof.
  destruct sample_quiet as (c0 & c & i & Hr & Hst & Hi & Hi0 & Hih & Hrun & Hq).
  destruct (quiet_flies c _ i Hq) as (q & Hfly & Hn & Hinc & Hrem & _).
  destruct (quiet_revoked c _ i Hq q Hinc Hrem) as (out & c' & H & Hp & Hc & Hs & Hf).
  exists c0, c, q, c', i. split_and!; try done.
  apply (step_ok (EvRevoke sample_raa) _ _ tt); [by eapply stm_run|exact Hf].
Qed.

(** A monitor exists once the peer's keys and the funding are known. *)
Lemma monitor_exists (c : ToyChannel) o cp :
  ch_counterparty_pubkeys c = Some cp -> ch_funding_outpoint c = Some o -> exists m, monitors c m.
Proof.
  intros Hc Ho. assert (H : exists m0, from_channel c = Some m0).
  { unfold from_channel. rewrite Hc, Ho. by eexists. }
  destruct H as [m0 H]. by exists m0, m0, [].
Qed.

Lemma sample_signs : signs (sample_signer 10).
Proof.
  split.
  - intros h secret H. cbn [sign_revocation in_memory_signer]. unfold ims_sign_revocation.
    unfold per_commitment_point_of in H. destruct (sk_from_slice secret) as [s|]; [discriminate|done].
  - intros h point. discriminate.
  - intros h point. discriminate.
Qed.

Lemma sample_fit (c : ToyChannel) :
  ch_signer c = sample_signer 10 -> ims_ok (ch_signer c) /\ signs (ch_signer c).
Proof. intros ->. split; [apply in_memory_new_ok|apply sample_signs]. Qed.

(** ** The witnesses *)
Lemma revoked_broadcast_punished_witness :
  exists (c0 c : ToyChannel) i m p, reachable c0 /\ rtc step c0 c /\ signed c0 i /\ ~ signed c i /\
    monitors c m /\ peer_built c0 i p /\
    forall tx destination feerate height, broadcast_of p tx ->
    as_ours c tx \/ collides_current c tx \/
    exists rs, handle_funding_spend m (ch_signer c) tx destination feerate height =
      Ok (Some (CounterpartyRevoked (cci_number i), rs)).
Proof.
  destruct sample_scenario as (c0 & c & q & c' & i & Hr & _ & Hi & Hi0 & _ & H1 & Hq & H2 & Hn & H3 &
    Hp & Hc & Hs).
  assert (Hrun : rtc step c0 c') by (etransitivity; [exact H1|etransitivity; [exact H2|exact H3]]).
  assert (Hni : ~ signed c' i).
  { intros [H|(q' & H & _)]; [|congruence]. rewrite Hc in H.
    assert (E : pcc_info q = i) by congruence. rewrite E in Hn. lia. }
  assert (Hsg : ch_signer c' = sample_signer 10).
  { rewrite <- (qu_signer _ _ _ Hq). exact (f_equal (fun x => x.1.1.1.1.1.1) Hs). }
  assert (Hth : ch_counterparty_pubkeys c' = Some (pubkeys (sample_signer 20))).
  { rewrite <- (qu_theirs _ _ _ Hq). exact (f_equal (fun x => x.1.1.2) Hs). }
  assert (Hfu : ch_funding_outpoint c' = Some sample_outpoint).
  { rewrite <- (qu_funding _ _ _ Hq). exact (f_equal (fun x => x.1.1.1.1.2) Hs). }
  destruct (monitor_exists c' _ _ Hth Hfu) as [m Hm]. destruct (sample_fit c' Hsg) as [Hok Hsi].
  destruct (revoked_broadcast_punished ims_ok c0 c' i m Hr Hrun (or_introl Hi) Hni Hm Hok Hsi)
    as (p & Hb & _ & _ & H).
  exists c0, c', i, m, p. split; [exact Hr|]. split; [exact Hrun|]. split; [by left|].
  split; [exact Hni|]. split; [exact Hm|]. split; [exact Hb|].
  intros tx destination feerate height Htx.
  destruct (H tx destination feerate height Htx) as [Ha|[Ha|(rs & Hrs & _)]];
    [by left|by right; left|right; right; by exists rs].
Defined.

Lemma commitment_in_flight_unclaimed_witness :
  exists (c : ToyChannel) q m p, reachable c /\ ch_pending_counterparty_commitment c = Some q /\
    monitors c m /\ peer_built c (pcc_info q) p /\
    forall tx destination feerate height, broadcast_of p tx ->
      as_ours c tx \/ collides_current c tx \/
      handle_funding_spend m (ch_signer c) tx destination feerate height =
        Ok (Some (UnknownCommitment, [])).
Proof.
  destruct sample_scenario as (c0 & c & q & c' & i & Hr & _ & _ & _ & _ & H1 & Hq & H2 & Hn & _).
  assert (Hrf : reachable (flying c q)).
  { eapply reachable_steps; [exact Hr|]. etransitivity; [exact H1|exact H2]. }
  assert (Hpend : ch_pending_counterparty_commitment (flying c q) = Some q) by reflexivity.
  destruct (monitor_exists (flying c q) _ _ (qu_theirs _ _ _ Hq) (qu_funding _ _ _ Hq)) as [m Hm].
  destruct (commitment_in_flight_unclaimed (flying c q) q m Hrf Hpend Hm) as (p & Hp & H).
  - rewrite Hn. by unfold MAX_INDEX.
  - exists (flying c q), q, m, p. split; [exact Hrf|]. split; [exact Hpend|]. split; [exact Hm|].
    split; [exact Hp|]. intros tx destination feerate height Htx. by apply H.
Defined.

Lemma their_close_claimed_witness :
  exists (c : ToyChannel) i m p, reachable c /\ ch_current_counterparty_commitment c = Some i /\
    monitors c m /\ peer_built c i p /\
    forall tx destination feerate height, broadcast_of p tx -> as_ours c tx \/
    exists rs, handle_funding_spend m (ch_signer c) tx destination feerate height =
      Ok (Some (CounterpartyCurrent, rs)).
Proof.
  destruct sample_scenario as (c0 & c & q & c' & i & Hr & _ & _ & _ & Hh & H1 & Hq & _).
  assert (Hrc : reachable c) by (eapply reachable_steps; [exact Hr|exact H1]).
  pose proof (qu_current _ _ _ Hq) as Hi.
  destruct (monitor_exists c _ _ (qu_theirs _ _ _ Hq) (qu_funding _ _ _ Hq)) as [m Hm].
  destruct (sample_fit c (qu_signer _ _ _ Hq)) as [Hok Hsi].
  destruct (their_close_claimed ims_ok c i m Hrc Hi Hm Hok Hsi) as (p & Hp & H).
  - rewrite Hh. cbn. lia.
  - exists c, i, m, p. split; [exact Hrc|]. split; [exact Hi|]. split; [exact Hm|].
    split; [exact Hp|]. intros tx destination feerate height Htx.
    destruct (H tx destination feerate height Htx) as [Ha|(rs & Hrs & _)];
      [by left|right; by exists rs].
Defined.

Lemma our_close_claimed_witness :
  exists (c : ToyChannel) hc m p, reachable c /\ ch_current_holder_commitment c = Some hc /\
    monitors c m /\ holder_built c hc p /\
    forall tx destination fee height, broadcast_of p tx ->
    exists rs, handle_funding_spend m (ch_signer c) tx destination fee height =
      Ok (Some (HolderCommitmentSpend, rs)).
Proof.
  destruct sample_scenario as (c0 & c & q & c' & i & Hr & _ & _ & _ & _ & H1 & Hq & _).
  assert (Hrc : reachable c) by (eapply reachable_steps; [exact Hr|exact H1]).
  destruct (qu_holder _ _ _ Hq) as (hc & Hhc & Hh).
  assert (Hf : funded c = true) by (unfold funded; by rewrite (qu_state _ _ _ Hq)).
  destruct (monitor_exists c _ _ (qu_theirs _ _ _ Hq) (qu_funding _ _ _ Hq)) as [m Hm].
  destruct (sample_fit c (qu_signer _ _ _ Hq)) as [Hok Hsi].
  destruct (our_close_claimed ims_ok c hc m Hrc Hf Hhc Hm Hok Hsi) as (p & Hp & H).
  - rewrite Hh. cbn. lia.
  - exists c, hc, m, p. split; [exact Hrc|]. split; [exact Hhc|]. split; [exact Hm|].
    split; [exact Hp|]. intros tx destination fee height Htx.
    destruct (H tx destination fee height Htx) as (rs & Hrs & _). by exists rs.
Defined.

(** Without HTLCs, our commitment pays out at most what each side has. *)
Lemma holder_outputs_u64 (c : ToyChannel) n built keys hs :
  ch_htlcs c = [] -> u64 (ch_to_holder_msat c) -> u64 (ch_to_counterparty_msat c) ->
  build_holder_commitment_at c n = Ok (built, keys, hs) ->
  Forall (fun o => u64 (out_value o)) (output (built_tx built)).
Proof.
  intros Hh H1 H2 Hb. unfold build_holder_commitment_at, balances_for in Hb.
  apply bind_Ok in Hb as (cp & _ & Hb). apply bind_Ok in Hb as (pt & _ & Hb).
  apply bind_Ok in Hb as (ks & _ & Hb). rewrite Hh in Hb. cbn [foldl map List.filter] in Hb.
  apply bind_Ok in Hb as (f & _ & Hb). apply Ok_inj in Hb.
  apply (f_equal (fun x => x.1.1)) in Hb. cbn [fst] in Hb. rewrite <- Hb.
  apply outputs_u64. split; [exact H1|exact H2|constructor].
Qed.

(** The fields of the channel just funded. *)
Lemma sample_typed (c : ToyChannel) i hc :
  c = sample_located <| ch_current_counterparty_commitment := Some i |>
    <| ch_state := FundingCreatedSent |> <| ch_current_holder_commitment := Some hc |>
    <| ch_state := AwaitingChannelReady |> ->
  cci_htlcs i = [] -> hc_htlcs hc = [] -> hc_feerate hc = 1000 ->
  hc_counterparty_htlc_sigs hc = [] ->
  Forall (fun o => u64 (out_value o)) (output (built_tx (hc_built hc))) -> typed c.
Proof.
  intros E Hi Hh Hfee Hsigs Hout.
  assert (H : ch_funding_amount_sat c = 1000000 /\ holder_selected_delay (ch_params c) = 144 /\
    counterparty_selected_delay (ch_params c) = 144 /\ ch_feerate_holder c = 1000 /\
    ch_funding_outpoint c = Some sample_outpoint /\ ch_counterparty_secrets c = store_new /\
    ch_current_counterparty_commitment c = Some i /\ ch_current_holder_commitment c = Some hc).
  { rewrite E. split_and!; reflexivity. }
  clear E. destruct H as (H1 & H2 & H3 & H4 & H5 & H6 & H7 & H8).
  split; rewrite ?H1, ?H2, ?H3, ?H4, ?H5, ?H6, ?H7, ?H8; [unfold uint; lia..| | | |].
  - intros o [= <-]. split; [reflexivity|]. unfold uint. cbn. lia.
  - constructor.
  - intros j [= <-]. rewrite Hi. split; [cbn; lia|constructor].
  - intros h [= <-]. rewrite Hh, Hfee, Hsigs.
    split; [split; [cbn; lia|constructor]|]. split; [unfold uint; lia|]. split; [cbn; lia|exact Hout].
Qed.

(** A funded channel, with both first commitments. *)
Lemma sample_both :
  exists (c : ToyChannel) hc i, reachable c /\ funded c = true /\
    ch_current_holder_commitment c = Some hc /\ ch_current_counterparty_commitment c = Some i /\
    typed c /\ exists m0, from_channel c = Some m0.
Proof.
  destruct sample_funded as (msg & i & H0 & Hi0 & Hi1).
  remember (sample_located <| ch_current_counterparty_commitment := Some i |>
    <| ch_state := FundingCreatedSent |>) as c0 eqn:E0.
  destruct (sample_signed c0 sample_outpoint) as (msg1 & c & hc & H1 & E1 & Hno & Hb & Hfee & Hsigs);
    [by rewrite E0..|].
  assert (Hr : reachable c).
  { exists sample_channel. split; [apply sample_is_opened|]. transitivity sample_accepted.
    { apply (step_ok (EvAcceptChannel sample_accept) _ _ tt); [apply sample_accept_ok|by split]. }
    transitivity c0.
    - apply (step_ok (EvFund sample_txid 0) _ _ tt); [by eapply stm_run|rewrite E0; by split].
    - apply (step_ok (EvFundingSigned msg1) _ _ tt); [done|]. rewrite E1, E0. by split. }
  assert (F : ch_htlcs c0 = [] /\ ch_to_holder_msat c0 = 1000000000 /\
    ch_to_counterparty_msat c0 = 0 /\ ch_feerate_holder c0 = 1000).
  { rewrite E0. split_and!; reflexivity. }
  destruct F as (F1 & F2 & F3 & F4). rewrite F4 in Hfee.
  assert (Hout : Forall (fun o => u64 (out_value o)) (output (built_tx (hc_built hc)))).
  { apply (holder_outputs_u64 c0 0 _ _ _ F1) in Hb; [exact Hb|rewrite F2|rewrite F3]; unfold uint; lia. }
  clear Hb H1. rewrite E0 in E1. exists c, hc, i. split; [exact Hr|]. split_and!.
  - by rewrite E1.
  - by rewrite E1.
  - by rewrite E1.
  - by apply (sample_typed c i hc); [| |apply Hno| | |].
  - assert (G : ch_counterparty_pubkeys c = Some (pubkeys (sample_signer 20)) /\
      ch_funding_outpoint c = Some sample_outpoint) by (rewrite E1; split; reflexivity).
    destruct G as [G1 G2]. destruct (monitor_exists c _ _ G1 G2) as (m & m0 & ps & Hm0 & _).
    by exists m0.
Qed.

(** Its monitor learns a preimage, is written and read back. *)
Lemma restart_preserves_monitor_witness :
  exists (c : ToyChannel) hc i m, reachable c /\ funded c = true /\
    cm_holder_commitment m = Some hc /\ cm_counterparty_current m = Some (commitment_data i) /\
    (exists h, cm_preimages m !! h = Some (replicate 32 5)) /\
    monitor_deserialize (monitor_serialize sample_values m) = Ok m.
Proof.
  destruct sample_both as (c & hc & i & Hr & Hf & Hhc & Hi & Ht & m0 & Hm0).
  set (m := foldl add_preimage m0 [replicate 32 5]).
  assert (Hl : learned c [replicate 32 5] m) by (by exists m0).
  assert (Hmo : monitor_of c m) by (apply monitors_of; [done|by exists m0, [replicate 32 5]]).
  exists c, hc, i, m. split; [exact Hr|]. split; [exact Hf|].
  split; [by rewrite (mo_holder _ _ Hmo)|]. split; [by rewrite (mo_current _ _ Hmo), Hi|].
  split; [exists (preimage_hash (replicate 32 5)); apply lookup_insert_eq|].
  apply (restart_preserves_monitor sample_values c [replicate 32 5] m).
  - intros ps. reflexivity.
  - exact Hr.
  - intros _. exact Hf.
  - exact Ht.
  - by repeat constructor.
  - exact Hl.
  - pose proof (learned_size m0 [replicate 32 5]) as Hs.
    destruct (from_channel_fields c m0 Hm0) as (_ & _ & E). rewrite E, map_size_empty in Hs.
    change (foldl add_preimage m0 [replicate 32 5]) with m in Hs. cbn [length] in Hs. lia.
Defined.
