(* ===== verification/NodeKeys.v ===== *)
(** * NodeKeys: the node's key and randomness interfaces (src/src/sign/mod.rs)

    The traits [NodeSigner], [SignerProvider] and [EntropySource] as classes,
    with their implementations [KeysManager] and [TestEntropy].  The node of
    Node is written against the classes. *)
From S2P Require Import Prelude Secp Sha256 Shachain Keys.

(** [get_random_bytes(&mut self)]. *)
Class EntropySource (R : Type) := get_random_bytes : R -> bytes * R.

Section NodeKeys.
Context `{HS : Secp}.

(** [NodeSigner], and [SignerProvider] with its associated type [Sg]; a
    derivation that never finds a valid key is [None]. *)
Class NodeSigner (K Sg : Type) := {
  ns_node_id : K -> PublicKey;
  ns_ecdh : K -> PublicKey -> bytes;
  ns_sign_gossip : K -> bytes -> Signature;
  ns_sign_invoice_digest : K -> bytes -> RecoverableSignature;
  ns_noise_secret : K -> SecretKey;
  ns_derive_channel_signer : K -> Z -> option Sg;
}.

(** What a node relies on: its signatures verify under its own identity, and
    the handshake authenticates it as that identity. *)
Class NodeSignerLaws (K Sg : Type) `{!NodeSigner K Sg} (ok : K -> Prop) : Prop := {
  ns_gossip_verifies : forall k h, ok k ->
    verify_ecdsa h (ns_sign_gossip k h) (ns_node_id k) = true;
  ns_identity : forall k, ok k -> sk_public_key (ns_noise_secret k) = ns_node_id k;
  ns_ecdh_identity : forall k pk, ok k -> ns_ecdh k pk = ecdh pk (ns_noise_secret k);
}.

(** [impl NodeSigner for KeysManager], [impl SignerProvider for KeysManager]. *)
#[export] Instance keys_manager_signer : NodeSigner KeysManager InMemoryChannelSigner := {
  ns_node_id km := node_pubkey km;
  ns_ecdh km other := ecdh other (node_secret km);
  ns_sign_gossip := sign_gossip;
  ns_sign_invoice_digest km digest := sign_ecdsa_recoverable digest (node_secret km);
  ns_noise_secret km := node_secret km;
  ns_derive_channel_signer := derive_channel_signer;
}.

Definition keys_manager_ok (km : KeysManager) : Prop :=
  node_pubkey km = sk_public_key (node_secret km).

Lemma keys_manager_new_ok seed km : keys_manager_new seed = Some km -> keys_manager_ok km.
Proof.
  unfold keys_manager_new, keys_manager_ok.
  destruct (derive_key seed _ 0 0) as [sk|]; cbn; [|done]. by intros [= <-].
Qed.

#[export] Instance keys_manager_laws `{!SecpLaws HS} :
  NodeSignerLaws KeysManager InMemoryChannelSigner keys_manager_ok.
Proof.
  split.
  - intros km h Hok. cbn. unfold sign_gossip. rewrite Hok. apply verify_sign.
  - intros km Hok. cbn. by rewrite Hok.
  - reflexivity.
Qed.
End NodeKeys.

(** ** Deterministic entropy *)
Record TestEntropy := { te_seed : bytes; te_counter : Z }.
Definition test_entropy_new (seed : bytes) : TestEntropy := {| te_seed := seed; te_counter := 0 |}.
Definition test_entropy_next (e : TestEntropy) : bytes * TestEntropy :=
  let h := Sha256.new in
  let h := Sha256.update h (te_seed e) in
  let h := Sha256.update h (be_bytes 8 (te_counter e)) in
  (Sha256.finalize h, {| te_seed := te_seed e; te_counter := wrap 64 (te_counter e + 1) |}).
#[export] Instance test_entropy : EntropySource TestEntropy := test_entropy_next.
