(* ===== verification/Node.v ===== *)
(** * Node: the node's state and its basic operations (src/src/node/mod.rs)

    [Node] is the struct as a record (fields prefixed [n_]), its errors,
    outputs and events are inductive types.  A [&mut self] method that can
    fail is an [stm]: it returns its result and the mutated node, errors
    included.  The signer and the randomness are the classes of NodeKeys, the
    scorer is a function.  A [HashMap] keyed by a public key is keyed by its
    serialization; the order in which the code iterates over a [HashMap] is
    unspecified and is a parameter, [HashOrder].  Logging is left out. *)
From stdpp Require Import gmap.
From S2P Require Import Prelude Secp Hex Types Features Text Ser Msgs Tx Shachain Keys Commitment Channel Dance Close Reestablish Invoice Noise Onion Payload Graph Router NodeKeys Peer.

(** The order of [keys()], [values()] and [iter()] on the peers and on the
    channels. *)
Class HashOrder := {
  peers_order : forall {A}, gmap Z A -> list Z;
  channels_order : forall {A}, gmap bytes A -> list bytes;
}.

(** What iterating over a [HashMap] promises: every entry once. *)
Class HashOrderLaws (O : HashOrder) : Prop := {
  peers_order_perm : forall {A} (m : gmap Z A), peers_order m ≡ₚ (map_to_list m).*1;
  channels_order_perm : forall {A} (m : gmap bytes A), channels_order m ≡ₚ (map_to_list m).*1;
}.

(** [from_u64]-like codes of BOLT 4. *)
Definition FAIL_TEMPORARY_CHANNEL_FAILURE : Z := Z.lor UPDATE 7.
Definition FAIL_UNKNOWN_NEXT_PEER : Z := Z.lor PERM 10.
Definition FAIL_FEE_INSUFFICIENT : Z := Z.lor UPDATE 12.
Definition FAIL_INCORRECT_CLTV_EXPIRY : Z := Z.lor UPDATE 13.
Definition FAIL_INCORRECT_OR_UNKNOWN_PAYMENT : Z := Z.lor PERM 15.
Definition FAIL_FINAL_INCORRECT_CLTV : Z := 18.
Definition FAIL_FINAL_INCORRECT_AMOUNT : Z := 19.
Definition FAIL_INVALID_ONION_HMAC : Z := Z.lor (Z.lor BADONION PERM) 5.

Inductive NodeError : Type :=
  | PeerNotFound
  | PeerNotReady
  | ChannelNotFound
  | NoUsableChannel
  | ENoise (e : NoiseError)
  | EWire (e : WireError)
  | EChannel (e : ChannelError)
  | ERoute (e : RouteError)
  | EInvoice (e : InvoiceError)
  | InvalidFundingTx (msg : string)
  | DuplicatePayment.

(** [Event], its variants prefixed [Ev]. *)
Inductive NodeEvent `{HS : Secp} : Type :=
  | EvPeerConnected (peer : Z) (node_id : PublicKey)
  | EvPeerDisconnected (peer : Z)
  | EvFundingRequired (channel_id : bytes) (script : bytes) (value_sat : Z)
  | EvChannelPending (channel_id : bytes) (funding_txid : Txid)
  | EvChannelReady (channel_id : bytes) (node_id : PublicKey)
  | EvPaymentClaimable (payment_hash : bytes) (amount_msat : Z)
  | EvPaymentClaimed (payment_hash : bytes) (amount_msat : Z)
  | EvPaymentSent (payment_id payment_hash preimage : bytes)
  | EvPaymentFailed (payment_id payment_hash : bytes) (failure_code : option Z)
      (erring_hop : option nat)
  | EvForwarded (inbound_channel outbound_channel : bytes) (fee_msat : Z)
  | EvChannelClosed (channel_id : bytes) (reason : bytes) (closing_txid : option Txid)
  | EvDataLossDetected (channel_id : bytes).

Inductive Output `{HS : Secp} : Type :=
  | Wire (peer : Z) (data : bytes)
  | Broadcast (tx : Transaction)
  | WatchFunding (channel_id : bytes) (outpoint : OutPoint) (script : bytes)
  | Event (e : NodeEvent).

Record ForwardingPolicy := {
  fp_fee_base_msat : Z;
  fp_fee_proportional_millionths : Z;
  fp_cltv_expiry_delta : Z;
}.
Definition default_forwarding : ForwardingPolicy :=
  {| fp_fee_base_msat := 1000; fp_fee_proportional_millionths := 100;
     fp_cltv_expiry_delta := 40 |}.

Record NodeConfig := {
  nc_network : Network;
  nc_channel : ChannelConfig;
  nc_forwarding : ForwardingPolicy;
  nc_close_script : bytes;
  nc_commitment_feerate : Z;
  nc_close_feerate : Z;
  nc_auto_claim : bool;
  nc_final_cltv_margin : Z;
  nc_accept_inbound : bool;
}.
Definition node_config_new (network : Network) (close_script : bytes) : NodeConfig :=
  {| nc_network := network; nc_channel := default_config; nc_forwarding := default_forwarding;
     nc_close_script := close_script; nc_commitment_feerate := 253; nc_close_feerate := 253;
     nc_auto_claim := true; nc_final_cltv_margin := 6; nc_accept_inbound := true |}.

Record PendingPayment := {
  pp_payment_hash : bytes;
  pp_amount_msat : Z;
  pp_shared_secrets : list bytes;
}.

Record InvoiceEntry := {
  ie_preimage : bytes;
  ie_payment_secret : bytes;
  ie_amount_msat : option Z;
  ie_min_final_cltv : Z;
}.

(** [String] payloads of errors and reasons. *)
Definition channel_error_text (e : ChannelError) : bytes :=
  match e with
  | Channel.Close s => str "channel failure: " ++ str s
  | Ignore s => str "ignored: " ++ str s
  | InvalidState s => str "invalid state: " ++ str s
  end.

Definition incorrect_payment_data (amount height : Z) : bytes := be_bytes 8 amount ++ be_bytes 4 height.

Section Node.
Context `{HS : Secp} {Sg : Type} `{HCS : !ChannelSigner Sg}.
Context {K : Type} `{HK : !NodeSigner K Sg} {R : Type} `{HR : !EntropySource R}.
Context `{HO : HashOrder}.
Abbreviation Channel := (Channel (Sg := Sg)).
Abbreviation chan := (stm Channel ChannelError).

Record ChannelEntry := MkEntry {
  ce_channel : Channel;
  ce_node_id : PublicKey;
  ce_funding_tx : option Transaction;
  ce_announced : bool;
  ce_their_announcement_sigs : option AnnouncementSignatures;
  ce_sent_announcement_sigs : bool;
}.
#[export] Instance ChannelEntry_eta : Eta ChannelEntry := fun e =>
  MkEntry (ce_channel e) (ce_node_id e) (ce_funding_tx e) (ce_announced e)
    (ce_their_announcement_sigs e) (ce_sent_announcement_sigs e).

Record Node := MkNode {
  n_config : NodeConfig;
  n_keys : K;
  n_entropy : R;
  n_scorer : PathScorer;
  n_peers : gmap Z Peer;
  n_by_node_id : gmap bytes Z;
  n_next_peer : Z;
  n_channels : gmap bytes ChannelEntry;
  n_scid_index : gmap Z bytes;
  n_channel_counter : Z;
  n_graph : NetworkGraph;
  n_payments : gmap bytes PendingPayment;
  n_invoices : gmap bytes InvoiceEntry;
  n_claimable : gmap bytes (bytes * Z * Z);
  n_inbound_onion_secrets : gmap (bytes * Z) bytes;
  n_forward_fees : gmap (bytes * Z) (bytes * Z);
  n_outputs : list Output;
  n_best_height : Z;
  n_now : Z;
}.
#[export] Instance Node_eta : Eta Node := fun n =>
  MkNode (n_config n) (n_keys n) (n_entropy n) (n_scorer n) (n_peers n) (n_by_node_id n)
    (n_next_peer n) (n_channels n) (n_scid_index n) (n_channel_counter n) (n_graph n)
    (n_payments n) (n_invoices n) (n_claimable n) (n_inbound_onion_secrets n)
    (n_forward_fees n) (n_outputs n) (n_best_height n) (n_now n).

Abbreviation node := (stm Node NodeError).

Definition node_new (keys : K) (entropy : R) (config : NodeConfig) : Node :=
  {| n_config := config; n_keys := keys; n_entropy := entropy;
     n_scorer := penalty_msat default_scorer; n_peers := ∅; n_by_node_id := ∅;
     n_next_peer := 1; n_channels := ∅; n_scid_index := ∅; n_channel_counter := 0;
     n_graph := Graph.new (nc_network config); n_payments := ∅; n_invoices := ∅;
     n_claimable := ∅; n_inbound_onion_secrets := ∅; n_forward_fees := ∅; n_outputs := [];
     n_best_height := 0; n_now := 0 |}.

(** ** Building blocks *)
Definition throw {A} (e : NodeError) : node A := reads_self (fun _ => Err e).
(** [let _ = self.f()]. *)
Definition attempt {A} (m : node A) : node unit := _ ← catch m; mret tt.
Fixpoint for_each {A} (f : A -> node unit) (l : list A) : node unit :=
  match l with
  | [] => mret tt
  | x :: l => _ ← f x; for_each f l
  end.
(** [self.outputs.push_back(o)]. *)
Definition emit (o : Output) : node unit := modify (fun n => n <| n_outputs := n_outputs n ++ [o] |>).

(** [self.channels.get_mut(&id).ok_or(ChannelNotFound)?] and a method of the
    channel, with [?] on its error. *)
Definition get_entry (id : bytes) : node ChannelEntry :=
  reads_self (fun n => ok_or (n_channels n !! id) ChannelNotFound).
(** [self.channels[&id]] and [.expect("checked")]. *)
Definition the_entry (id : bytes) : node ChannelEntry :=
  reads_self (fun n => expect (n_channels n !! id)).
Definition put_entry (id : bytes) (e : ChannelEntry) : node unit :=
  modify (fun n => n <| n_channels := <[id := e]> (n_channels n) |>).
(** Assignments to fields of [entry], a mutable reference into the map. *)
Definition update_entry (id : bytes) (f : ChannelEntry -> ChannelEntry) : node unit :=
  modify (fun n =>
    match n_channels n !! id with
    | Some e => n <| n_channels := <[id := f e]> (n_channels n) |>
    | None => n
    end).
Definition on_channel {A} (id : bytes) (f : chan A) : node A := fun n =>
  match n_channels n !! id with
  | None => (Err ChannelNotFound, n)
  | Some e =>
    let '(r, c) := f (ce_channel e) in
    (map_err EChannel r, n <| n_channels := <[id := e <| ce_channel := c |>]> (n_channels n) |>)
  end.
Definition on_peer {A} (id : Z) (f : stm Peer NoiseError A) : node A := fun n =>
  match n_peers n !! id with
  | None => (Err PeerNotFound, n)
  | Some p =>
    let '(r, p) := f p in (map_err ENoise r, n <| n_peers := <[id := p]> (n_peers n) |>)
  end.
(** [if let Some(p) = self.peers.get_mut(&id) { .. }]. *)
Definition update_peer (id : Z) (f : Peer -> Peer) : node unit :=
  modify (fun n =>
    match n_peers n !! id with
    | Some p => n <| n_peers := <[id := f p]> (n_peers n) |>
    | None => n
    end).

(** [self.graph.apply_..(..)], its outcome a value. *)
Definition apply_gossip (apply : NetworkGraph -> result GossipError NetworkGraph)
    : node (result GossipError unit) := fun n =>
  match apply (n_graph n) with
  | Ok g => (Ok (Ok tt), n <| n_graph := g |>)
  | Err e => (Ok (Err e), n)
  | Panic => (Panic, n)
  end.

Definition random_bytes : node bytes := fun n =>
  let '(b, r) := get_random_bytes (n_entropy n) in (Ok b, n <| n_entropy := r |>).
(** The loop draws again when the bytes are no secret key. *)
Definition KEY_DRAWS : nat := 256.
Fixpoint random_secret_key_loop (fuel : nat) : node SecretKey :=
  match fuel with
  | O => fun n => (Panic, n)
  | Datatypes.S fuel =>
    b ← random_bytes;
    match sk_from_slice b with
    | Some sk => mret sk
    | None => random_secret_key_loop fuel
    end
  end.
Definition random_secret_key : node SecretKey := random_secret_key_loop KEY_DRAWS.

Definition node_id (n : Node) : PublicKey := ns_node_id (n_keys n).

(** The embedder's accessors. *)
Definition with_scorer (scorer : PathScorer) (n : Node) : Node := n <| n_scorer := scorer |>.
Definition node_network (n : Node) : Network := nc_network (n_config n).
Definition channel_ids (n : Node) : list bytes := channels_order (n_channels n).
Definition channel_state (n : Node) (channel_id : bytes) : option ChannelState :=
  option_map (fun e => ch_state (ce_channel e)) (n_channels n !! channel_id).
Definition channel_balance_msat (n : Node) (channel_id : bytes) : option Z :=
  option_map (fun e => ch_to_holder_msat (ce_channel e)) (n_channels n !! channel_id).

(** [poll_output]. *)
Definition poll_output (n : Node) : option Output * Node :=
  match n_outputs n with
  | [] => (None, n)
  | o :: rest => (Some o, n <| n_outputs := rest |>)
  end.

(** ** Peers *)
Definition connect_outbound (remote : PublicKey) : node (Z * bytes) :=
  ephemeral ← random_secret_key;
  keys ← gets n_keys;
  let '(r, initiator) := i_act_one (initiator_new (ns_noise_secret keys) remote ephemeral) in
  act1 ← reads_self (fun _ => unwrap r);
  id ← gets n_next_peer;
  _ ← modify (fun n =>
        n <| n_next_peer := wrap 64 (id + 1) |>
          <| n_peers := <[id := Peer.new_outbound initiator remote]> (n_peers n) |>
          <| n_by_node_id := <[pk_serialize remote := id]> (n_by_node_id n) |>);
  mret (id, act1).

Definition accept_inbound : node Z :=
  ephemeral ← random_secret_key;
  keys ← gets n_keys;
  let responder := responder_new (ns_noise_secret keys) ephemeral in
  id ← gets n_next_peer;
  _ ← modify (fun n =>
        n <| n_next_peer := wrap 64 (id + 1) |>
          <| n_peers := <[id := Peer.new_inbound responder]> (n_peers n) |>);
  mret id.

Definition send_to_peer (peer_id : Z) (msg : Message) : node unit :=
  data ← on_peer peer_id (Peer.encrypt (Msgs.encode msg));
  emit (Wire peer_id data).

Definition send_to_node (to : PublicKey) (msg : Message) : node unit :=
  peer_id ← reads_self (fun n => ok_or (n_by_node_id n !! pk_serialize to) PeerNotFound);
  send_to_peer peer_id msg.

Definition send_warning (peer_id : Z) (text : bytes) : node unit :=
  attempt (send_to_peer peer_id
    (MWarning {| warn_channel_id := replicate 32 0; warn_data := text |})).

(** The peers that satisfy [p], in iteration order. *)
Definition peers_where (p : Peer -> bool) (n : Node) : list Z :=
  List.filter (fun id => match n_peers n !! id with Some x => p x | None => false end)
    (peers_order (n_peers n)).

Definition broadcast_to_ready_peers (msg : Message) : node unit :=
  ready ← gets (peers_where is_ready);
  for_each (fun id => attempt (send_to_peer id msg)) ready.

Definition send_init (peer_id : Z) : node unit :=
  config ← gets n_config;
  _ ← send_to_peer peer_id (MInit
    {| init_global_features := Features.empty; init_features := Features.keraunos_default;
       init_networks := Some [chain_hash (nc_network config)] |});
  update_peer peer_id (fun p => p <| p_init_sent := true |>).

(** [for entry in self.channels.values_mut()]. *)
Definition peer_disconnected (peer_id : Z) : node unit :=
  peer ← gets (fun n => n_peers n !! peer_id);
  match peer with
  | None => mret tt
  | Some peer =>
    _ ← modify (fun n => n <| n_peers := delete peer_id (n_peers n) |>);
    match p_node_id peer with
    | None => mret tt
    | Some id =>
      _ ← modify (fun n => n <| n_by_node_id := delete (pk_serialize id) (n_by_node_id n) |>);
      ids ← gets (fun n => channels_order (n_channels n));
      _ ← for_each (fun channel_id =>
            entry ← the_entry channel_id;
            if decide (ce_node_id entry = id) then on_channel channel_id on_disconnect
            else mret tt) ids;
      emit (Event (EvPeerDisconnected peer_id))
    end
  end.

(** ** Chain and time *)
Definition best_block_updated (height : Z) : node unit :=
  modify (fun n => n <| n_best_height := height |>).

Definition tick (unix_now : Z) : node unit :=
  _ ← modify (fun n => n <| n_now := unix_now |>);
  ready ← gets (peers_where (fun p =>
    is_ready p && (wrap 64 (p_last_ping_sent_at p + 30) <=? unix_now)));
  for_each (fun id =>
    _ ← attempt (send_to_peer id (MPing {| num_pong_bytes := 1; ping_ignored := [] |}));
    update_peer id (fun p => p <| p_last_ping_sent_at := unix_now |> <| p_awaiting_pong := true |>))
    ready.
End Node.
