(* ===== verification/NodeChannel.v ===== *)
(** * NodeChannel: the node's channel handlers (src/src/node/mod.rs)

    Opening, funding, closing and announcing channels.  A channel message is
    run by [with_channel], which checks that it came over the connection of
    the channel's peer and force-closes the channel on a protocol violation. *)
From stdpp Require Import gmap.
From S2P Require Import Prelude Secp Hex Types Features Text Ser Msgs Tx Shachain Keys Commitment Channel Dance Close Reestablish Invoice Noise Onion Payload Graph Router NodeKeys Peer Node.

(** [Secp256k1::signing_only()] over an all-zero digest. *)
Definition dummy_sig `{HS : Secp} : option Signature :=
  sk ← sk_from_slice (replicate 32 1); Some (sign_ecdsa (replicate 32 0) sk).

Section NodeChannel.
Context `{HS : Secp} {Sg : Type} `{HCS : !ChannelSigner Sg}.
Context {K : Type} `{HK : !NodeSigner K Sg} {R : Type} `{HR : !EntropySource R}.
Context `{HO : HashOrder}.
Abbreviation Channel := (Channel (Sg := Sg)).
Abbreviation chan := (stm Channel ChannelError).
Abbreviation Node := (Node (Sg := Sg) (K := K) (R := R)).
Abbreviation node := (stm Node NodeError).
Abbreviation ChannelEntry := (ChannelEntry (Sg := Sg)).

Definition new_entry (c : Channel) (node_id : PublicKey) : ChannelEntry :=
  {| ce_channel := c; ce_node_id := node_id; ce_funding_tx := None; ce_announced := false;
     ce_their_announcement_sigs := None; ce_sent_announcement_sigs := false |}.

(** ** Closing *)
Definition force_close (channel_id : bytes) (reason : bytes) : node unit :=
  entry ← get_entry channel_id;
  tx ← reads_self (fun _ => map_err EChannel (signed_holder_commitment_tx (ce_channel entry)));
  let txid := txid tx in
  _ ← emit (Broadcast tx);
  emit (Event (EvChannelClosed channel_id reason (Some txid))).

Definition finish_cooperative_close (channel_id : bytes) (tx : Transaction) : node unit :=
  let txid := txid tx in
  _ ← emit (Broadcast tx);
  emit (Event (EvChannelClosed channel_id (str "cooperative close") (Some txid))).

(** A message that is sent only when the channel produced one. *)
Definition send_some {A} (to : PublicKey) (mk : A -> Message) (msg : option A) : node unit :=
  match msg with
  | Some msg => send_to_node to (mk msg)
  | None => mret tt
  end.

Definition try_start_closing (channel_id : bytes) : node unit :=
  config ← gets n_config;
  entry ← gets (fun n => n_channels n !! channel_id);
  match entry with
  | None => mret tt
  | Some entry =>
    msg ← on_channel channel_id (maybe_send_closing_signed (nc_close_feerate config));
    send_some (ce_node_id entry) MClosingSigned msg
  end.

Definition close_channel (channel_id : bytes) : node unit :=
  config ← gets n_config;
  entry ← get_entry channel_id;
  msg ← on_channel channel_id (send_shutdown (nc_close_script config));
  _ ← send_to_node (ce_node_id entry) (MShutdown msg);
  try_start_closing channel_id.

(** ** Running a channel operation for a peer *)
Definition with_channel {A} (peer_id : Z) (channel_id : bytes) (f : chan A) : node A :=
  entry ← get_entry channel_id;
  _ ← throw_if (fun n =>
        negb (bool_decide (n_by_node_id n !! pk_serialize (ce_node_id entry) = Some peer_id)))
        ChannelNotFound;
  r ← catch (on_channel channel_id f);
  match r with
  | Ok v => mret v
  | Err (EChannel (Channel.Close text)) =>
    _ ← attempt (send_to_peer peer_id (MError {| err_channel_id := channel_id; err_data := str text |}));
    _ ← attempt (force_close channel_id (str text));
    throw (EChannel (Channel.Close text))
  | Err e => throw e
  | Panic => fun n => (Panic, n)
  end.

(** ** Opening *)
Definition open_channel (node_id : PublicKey) (capacity_sat push_msat : Z) : node bytes :=
  peer_id ← reads_self (fun n => ok_or (n_by_node_id n !! pk_serialize node_id) PeerNotFound);
  _ ← throw_if (fun n => negb (match n_peers n !! peer_id with Some p => is_ready p | None => false end))
        PeerNotReady;
  signer ← reads_self (fun n => expect (ns_derive_channel_signer (n_keys n) (n_channel_counter n)));
  _ ← modify (fun n => n <| n_channel_counter := wrap 64 (n_channel_counter n + 1) |>);
  temp_id ← random_bytes;
  config ← gets n_config;
  '(channel, open_msg) ← reads_self (fun _ => map_err EChannel
    (Channel.new_outbound signer (nc_channel config) (nc_network config) temp_id capacity_sat push_msat
       (nc_commitment_feerate config)));
  _ ← put_entry temp_id (new_entry channel node_id);
  _ ← send_to_peer peer_id (MOpenChannel open_msg);
  mret temp_id.

(** [tx.output.iter().position(|o| o.script_pubkey == script)]. *)
Definition position_of_script (script : bytes) (outs : list TxOut) : option (nat * TxOut) :=
  list_find (fun o => script_pubkey o = script) outs.

(** [self.channels.remove(&old)] and [insert(new, entry)]. *)
Definition rekey (old new : bytes) (entry : ChannelEntry) : node unit :=
  modify (fun n => n <| n_channels := <[new := entry]> (delete old (n_channels n)) |>).

Definition provide_funding_transaction (channel_id : bytes) (tx : Transaction) : node bytes :=
  entry ← get_entry channel_id;
  script ← reads_self (fun _ => map_err EChannel (funding_script_pubkey (ce_channel entry)));
  '(vout, out) ← reads_self (fun _ => ok_or (position_of_script script (output tx))
    (InvalidFundingTx "no output pays the funding script"));
  _ ← throw_if (fun _ => negb (out_value out =? ch_funding_amount_sat (ce_channel entry)))
        (InvalidFundingTx "funding output value mismatch");
  let txid := txid tx in
  msg ← on_channel channel_id (funding_created txid (wrap 16 (Z.of_nat vout)));
  entry ← the_entry channel_id;
  let entry := entry <| ce_funding_tx := Some tx |> in
  let new_id := ch_channel_id (ce_channel entry) in
  _ ← rekey channel_id new_id entry;
  _ ← send_to_node (ce_node_id entry) (MFundingCreated msg);
  _ ← emit (Event (EvChannelPending new_id txid));
  mret new_id.

Definition on_open_channel (peer_id : Z) (open : OpenChannel) : node unit :=
  config ← gets n_config;
  if negb (nc_accept_inbound config) then send_warning peer_id (str "not accepting channels")
  else
    node_id ← reads_self (fun n => ok_or (p ← n_peers n !! peer_id; p_node_id p) PeerNotReady);
    signer ← reads_self (fun n => expect (ns_derive_channel_signer (n_keys n) (n_channel_counter n)));
    _ ← modify (fun n => n <| n_channel_counter := wrap 64 (n_channel_counter n + 1) |>);
    match Channel.new_inbound signer (nc_channel config) (nc_network config) open with
    | Ok (channel, accept) =>
      _ ← put_entry (oc_temporary_channel_id open) (new_entry channel node_id);
      send_to_peer peer_id (MAcceptChannel accept)
    | Err e =>
      send_to_peer peer_id (MError {| err_channel_id := oc_temporary_channel_id open;
                                      err_data := channel_error_text e |})
    | Panic => fun n => (Panic, n)
    end.

Definition on_accept_channel (peer_id : Z) (accept : AcceptChannel) : node unit :=
  let channel_id := ac_temporary_channel_id accept in
  _ ← with_channel peer_id channel_id (Channel.on_accept_channel accept);
  entry ← the_entry channel_id;
  script ← reads_self (fun _ => map_err EChannel (funding_script_pubkey (ce_channel entry)));
  emit (Event (EvFundingRequired channel_id script (ch_funding_amount_sat (ce_channel entry)))).

Definition on_funding_created (peer_id : Z) (fc : FundingCreated) : node unit :=
  let temp_id := fc_temporary_channel_id fc in
  reply ← with_channel peer_id temp_id (Channel.on_funding_created fc);
  let new_id := channel_id_from_funding (fc_funding_txid fc) (fc_funding_output_index fc) in
  entry ← the_entry temp_id;
  _ ← modify (fun n => n <| n_channels := delete temp_id (n_channels n) |>);
  outpoint ← reads_self (fun _ => expect (ch_funding_outpoint (ce_channel entry)));
  script ← reads_self (fun _ => map_err EChannel (funding_script_pubkey (ce_channel entry)));
  _ ← put_entry new_id entry;
  _ ← send_to_node (ce_node_id entry) (MFundingSigned reply);
  _ ← emit (WatchFunding new_id outpoint script);
  emit (Event (EvChannelPending new_id (fc_funding_txid fc))).

Definition on_funding_signed (peer_id : Z) (fs : FundingSigned) : node unit :=
  let channel_id := fs_channel_id fs in
  _ ← with_channel peer_id channel_id (Channel.on_funding_signed fs);
  entry ← the_entry channel_id;
  _ ← update_entry channel_id (fun e => e <| ce_funding_tx := None |>);
  tx ← reads_self (fun _ => ok_or (ce_funding_tx entry) (InvalidFundingTx "funding tx not held"));
  outpoint ← reads_self (fun _ => expect (ch_funding_outpoint (ce_channel entry)));
  script ← reads_self (fun _ => map_err EChannel (funding_script_pubkey (ce_channel entry)));
  _ ← emit (WatchFunding channel_id outpoint script);
  emit (Broadcast tx).

Definition on_closing_signed (peer_id : Z) (cs : ClosingSigned) : node unit :=
  let channel_id := cls_channel_id cs in
  config ← gets n_config;
  outcome ← with_channel peer_id channel_id
    (Close.on_closing_signed cs (nc_close_feerate config));
  match outcome with
  | Reply reply maybe_tx =>
    _ ← send_to_peer peer_id (MClosingSigned reply);
    match maybe_tx with
    | Some tx => finish_cooperative_close channel_id tx
    | None => mret tt
    end
  | Done tx => finish_cooperative_close channel_id tx
  end.

(** ** Gossip about our channels *)
(** The fields of the announcement before it is signed. *)
Definition unsigned_announcement (n : Node) (entry : ChannelEntry) (scid : Z)
    (cp : ChannelPublicKeys) (dummy : Signature) : ChannelAnnouncement * bool :=
  let our_node := node_id n in
  let their_node := ce_node_id entry in
  let our_funding := funding_pubkey (ch_holder_pubkeys (ce_channel entry)) in
  let their_funding := funding_pubkey cp in
  let we_are_first :=
    match bytes_cmp (pk_serialize our_node) (pk_serialize their_node) with
    | Lt => true | _ => false end in
  ({| ca_node_signature_1 := dummy; ca_node_signature_2 := dummy;
      ca_bitcoin_signature_1 := dummy; ca_bitcoin_signature_2 := dummy;
      ca_features := Features.empty; ca_chain_hash := chain_hash (nc_network (n_config n));
      ca_short_channel_id := scid;
      ca_node_id_1 := if we_are_first then our_node else their_node;
      ca_node_id_2 := if we_are_first then their_node else our_node;
      ca_bitcoin_key_1 := if we_are_first then our_funding else their_funding;
      ca_bitcoin_key_2 := if we_are_first then their_funding else our_funding |},
   we_are_first).

Definition build_our_announcement (n : Node) (channel_id : bytes)
    : result NodeError (option (ChannelAnnouncement * bool)) :=
  match n_channels n !! channel_id with
  | None => Ok None
  | Some entry =>
    match ch_short_channel_id (ce_channel entry), ch_counterparty_pubkeys (ce_channel entry) with
    | Some scid, Some cp =>
      dummy ← expect dummy_sig;
      Ok (Some (unsigned_announcement n entry scid cp dummy))
    | _, _ => Ok None
    end
  end.

Definition build_our_channel_update (channel_id : bytes) (we_are_first : bool)
    : node ChannelUpdate :=
  entry ← get_entry channel_id;
  scid ← reads_self (fun _ => ok_or (ch_short_channel_id (ce_channel entry)) ChannelNotFound);
  dummy ← reads_self (fun _ => expect dummy_sig);
  n ← gets id;
  let policy := nc_forwarding (n_config n) in
  let update (signature : Signature) : ChannelUpdate :=
    {| cu_signature := signature; cu_chain_hash := chain_hash (nc_network (n_config n));
       cu_short_channel_id := scid; cu_timestamp := wrap 32 (n_now n); cu_message_flags := 1;
       cu_channel_flags := if we_are_first then 0 else 1;
       cu_cltv_expiry_delta := fp_cltv_expiry_delta policy; cu_htlc_minimum_msat := 1;
       cu_fee_base_msat := fp_fee_base_msat policy;
       cu_fee_proportional_millionths := fp_fee_proportional_millionths policy;
       cu_htlc_maximum_msat := wrap 64 (ch_funding_amount_sat (ce_channel entry) * 1000) |} in
  let hash := sha256d (channel_update_payload (update dummy)) in
  mret (update (ns_sign_gossip (n_keys n) hash)).

(** The complete announcement from the unsigned one and both halves. *)
Definition with_signatures (unsigned : ChannelAnnouncement) (we_are_first : bool)
    (node_signature bitcoin_signature : Signature) (theirs : AnnouncementSignatures)
    : ChannelAnnouncement :=
  {| ca_node_signature_1 := if we_are_first then node_signature else as_node_signature theirs;
     ca_node_signature_2 := if we_are_first then as_node_signature theirs else node_signature;
     ca_bitcoin_signature_1 := if we_are_first then bitcoin_signature else as_bitcoin_signature theirs;
     ca_bitcoin_signature_2 := if we_are_first then as_bitcoin_signature theirs else bitcoin_signature;
     ca_features := ca_features unsigned; ca_chain_hash := ca_chain_hash unsigned;
     ca_short_channel_id := ca_short_channel_id unsigned;
     ca_node_id_1 := ca_node_id_1 unsigned; ca_node_id_2 := ca_node_id_2 unsigned;
     ca_bitcoin_key_1 := ca_bitcoin_key_1 unsigned; ca_bitcoin_key_2 := ca_bitcoin_key_2 unsigned |}.

(** The second half of [maybe_announce_channel]: assemble, store, broadcast. *)
Definition publish_announcement (channel_id : bytes) (unsigned : ChannelAnnouncement)
    (we_are_first : bool) (theirs : AnnouncementSignatures) : node unit :=
  let hash := sha256d (channel_announcement_payload unsigned) in
  entry ← the_entry channel_id;
  n ← gets id;
  let full := with_signatures unsigned we_are_first (ns_sign_gossip (n_keys n) hash)
    (sign_announcement_with_funding_key (ch_signer (ce_channel entry)) hash) theirs in
  let capacity := ch_funding_amount_sat (ce_channel entry) in
  _ ← update_entry channel_id (fun e => e <| ce_announced := true |>);
  stored ← apply_gossip (fun g => apply_channel_announcement g full (Some capacity));
  if negb (is_ok stored) then mret tt
  else
    _ ← broadcast_to_ready_peers (MChannelAnnouncement full);
    update ← build_our_channel_update channel_id we_are_first;
    _ ← apply_gossip (fun g => apply_channel_update g update);
    broadcast_to_ready_peers (MChannelUpdate update).

Definition maybe_announce_channel (channel_id : bytes) : node unit :=
  n ← gets id;
  match n_channels n !! channel_id with
  | None => mret tt
  | Some entry =>
    if negb (ch_announce (ce_channel entry)) || negb (is_usable (ce_channel entry)) then mret tt
    else
      built ← reads_self (fun n => build_our_announcement n channel_id);
      match built with
      | None => mret tt
      | Some (unsigned, we_are_first) =>
        let hash := sha256d (channel_announcement_payload unsigned) in
        scid ← reads_self (fun _ => expect (ch_short_channel_id (ce_channel entry)));
        _ ← (if negb (ce_sent_announcement_sigs entry) then
               let msg :=
                 {| as_channel_id := channel_id; as_short_channel_id := scid;
                    as_node_signature := ns_sign_gossip (n_keys n) hash;
                    as_bitcoin_signature :=
                      sign_announcement_with_funding_key (ch_signer (ce_channel entry)) hash |} in
               _ ← update_entry channel_id (fun e => e <| ce_sent_announcement_sigs := true |>);
               send_to_node (ce_node_id entry) (MAnnouncementSignatures msg)
             else mret tt);
        if ce_announced entry then mret tt
        else
          match ce_their_announcement_sigs entry with
          | None => mret tt
          | Some theirs => publish_announcement channel_id unsigned we_are_first theirs
          end
      end
  end.

Definition after_channel_ready_change (channel_id : bytes) : node unit :=
  entry ← gets (fun n => n_channels n !! channel_id);
  match entry with
  | None => mret tt
  | Some entry =>
    if negb (is_usable (ce_channel entry)) then mret tt
    else
      _ ← emit (Event (EvChannelReady channel_id (ce_node_id entry)));
      maybe_announce_channel channel_id
  end.

Definition funding_confirmed (channel_id : bytes) (scid : Z) : node unit :=
  entry ← get_entry channel_id;
  msg ← on_channel channel_id (Channel.funding_confirmed scid);
  _ ← modify (fun n => n <| n_scid_index := <[scid := channel_id]> (n_scid_index n) |>);
  _ ← send_some (ce_node_id entry) MChannelReady msg;
  after_channel_ready_change channel_id.

Definition on_announcement_signatures (peer_id : Z) (anns : AnnouncementSignatures) : node unit :=
  let channel_id := as_channel_id anns in
  entry ← get_entry channel_id;
  _ ← throw_if (fun n => negb (bool_decide
        ((p ← n_peers n !! peer_id; p_node_id p) = Some (ce_node_id entry)))) ChannelNotFound;
  _ ← update_entry channel_id (fun e => e <| ce_their_announcement_sigs := Some anns |>);
  maybe_announce_channel channel_id.
End NodeChannel.
