(* ===== verification/NodePayment.v ===== *)
(** * NodePayment: payments and HTLCs of the node (src/src/node/mod.rs)

    Invoices, paying, claiming, and what happens to an incoming HTLC once it
    is irrevocably committed: received, forwarded or failed back, with the
    onion failures that travel backwards. *)
From stdpp Require Import gmap.
From S2P Require Import Prelude Secp Hex Types Sha256 Features Text Ser Msgs Tx Shachain Keys Commitment Channel Dance Close Reestablish Invoice Noise Onion Payload Graph Router NodeKeys Peer Node NodeChannel.

Section NodePayment.
Context `{HS : Secp} {Sg : Type} `{HCS : !ChannelSigner Sg}.
Context {K : Type} `{HK : !NodeSigner K Sg} {R : Type} `{HR : !EntropySource R}.
Context `{HO : HashOrder}.
Abbreviation Channel := (Channel (Sg := Sg)).
Abbreviation chan := (stm Channel ChannelError).
Abbreviation Node := (Node (Sg := Sg) (K := K) (R := R)).
Abbreviation node := (stm Node NodeError).
Abbreviation ChannelEntry := (ChannelEntry (Sg := Sg)).

Definition flush_commitment (channel_id : bytes) : node unit :=
  entry ← get_entry channel_id;
  if can_send_commitment (ce_channel entry) then
    cs ← on_channel channel_id send_commitment_signed;
    send_to_node (ce_node_id entry) (MCommitmentSigned cs)
  else mret tt.

(** Send an update the channel produced and commit to it. *)
Definition send_and_flush {A} (channel_id : bytes) (to : PublicKey) (mk : A -> Message)
    (msg : option A) : node unit :=
  match msg with
  | Some msg => _ ← send_to_node to (mk msg); flush_commitment channel_id
  | None => mret tt
  end.

(** ** Invoices *)
Definition create_invoice (amount_msat : option Z) (description : bytes) (expiry_secs : Z)
    : node (bytes * bytes) :=
  preimage ← random_bytes;
  let payment_hash := preimage_hash preimage in
  payment_secret ← random_bytes;
  let min_final_cltv := 18 in
  n ← gets id;
  let builder :=
    {| b_network := nc_network (n_config n); b_amount_msat := amount_msat;
       b_timestamp := n_now n; b_payment_hash := payment_hash;
       b_payment_secret := payment_secret; b_description := Direct description;
       b_expiry_secs := Some expiry_secs;
       b_min_final_cltv_expiry_delta := Some min_final_cltv;
       b_features := default_features; b_route_hints := [] |} in
  encoded ← reads_self (fun n => unwrap (encode_signed builder (ns_sign_invoice_digest (n_keys n))));
  _ ← modify (fun n => n <| n_invoices := <[payment_hash :=
        {| ie_preimage := preimage; ie_payment_secret := payment_secret;
           ie_amount_msat := amount_msat; ie_min_final_cltv := min_final_cltv |}]> (n_invoices n) |>);
  mret (encoded, payment_hash).

(** ** Paying *)
Definition usable_first_hops (n : Node) : list FirstHop :=
  omap (fun id =>
    entry ← n_channels n !! id;
    if is_usable (ce_channel entry) then
      scid ← ch_short_channel_id (ce_channel entry);
      Some {| peer := ce_node_id entry; fh_short_channel_id := scid;
              Router.available_msat := available_to_send_msat (ce_channel entry) |}
    else None) (channels_order (n_channels n)).

(** One payload per hop: where to forward, and the payment data at the end. *)
Fixpoint hop_payloads (secret : bytes) (total : Z) (hops : list RouteHop) : list HopPayload :=
  match hops with
  | [] => []
  | hop :: hops' =>
    match hops' with
    | next :: _ => hop_forward (hop_amount_msat next) (hop_cltv_expiry next)
                     (hop_short_channel_id next)
    | [] => final_hop (hop_amount_msat hop) (hop_cltv_expiry hop) secret total
    end :: hop_payloads secret total hops'
  end.

Definition route_params (n : Node) (invoice : Bolt11Invoice) (amount : Z) : RouteParams :=
  {| payer := node_id n; rp_payee := Invoice.payee invoice; rp_amount_msat := amount;
     final_cltv_expiry := wrap 32 (wrap 32 (n_best_height n + min_final_cltv_or_default invoice)
                            + nc_final_cltv_margin (n_config n));
     first_hops := usable_first_hops n; rp_route_hints := Invoice.route_hints invoice;
     max_hops := 20 |}.

(** The onion for a route and the secrets it shares with the hops. *)
Definition payment_onion (session_key : SecretKey) (invoice : Bolt11Invoice) (amount : Z)
    (route : Route) : result OnionError (list bytes * OnionPacket) :=
  let payloads := map hop_encode
    (hop_payloads (Invoice.payment_secret invoice) amount (hops route)) in
  let path := map hop_node_id (hops route) in
  shared_secrets ← shared_secrets_for_path session_key path;
  packet ← construct session_key shared_secrets payloads (Invoice.payment_hash invoice);
  Ok (shared_secrets, packet).

Definition pay_invoice (invoice : Bolt11Invoice) (amount_msat : option Z) : node bytes :=
  amount ← reads_self (fun _ =>
    ok_or (match amount_msat with Some a => Some a | None => Invoice.amount_msat invoice end)
      (EInvoice (MissingField "amount")));
  _ ← throw_if (fun n => existsb (fun p => bool_decide (pp_payment_hash p = Invoice.payment_hash invoice))
        (map_to_list (n_payments n)).*2) DuplicatePayment;
  route ← reads_self (fun n => map_err ERoute
    (find_route (n_graph n) (n_scorer n) (route_params n invoice amount)));
  session_key ← random_secret_key;
  '(shared_secrets, packet) ← reads_self (fun _ => unwrap (payment_onion session_key invoice amount route));
  payment_id ← random_bytes;
  first ← reads_self (fun _ => expect (hd_error (hops route)));
  channel_id ← reads_self (fun n =>
    ok_or (n_scid_index n !! hop_short_channel_id first) NoUsableChannel);
  entry ← get_entry channel_id;
  add ← on_channel channel_id
    (send_add_htlc (first_hop_amount_msat route) (Invoice.payment_hash invoice) (first_hop_cltv route)
       (onion_serialize packet) (Outbound payment_id));
  _ ← modify (fun n => n <| n_payments := <[payment_id :=
        {| pp_payment_hash := Invoice.payment_hash invoice; pp_amount_msat := amount;
           pp_shared_secrets := shared_secrets |}]> (n_payments n) |>);
  _ ← send_and_flush channel_id (ce_node_id entry) MUpdateAddHtlc add;
  mret payment_id.

(** ** Claiming *)
Definition claim_payment (payment_hash : bytes) : node unit :=
  '(channel_id, htlc_id, amount) ←
    reads_self (fun n => ok_or (n_claimable n !! payment_hash) ChannelNotFound);
  _ ← modify (fun n => n <| n_claimable := delete payment_hash (n_claimable n) |>);
  preimage ← reads_self (fun n => ok_or (ie_preimage <$> n_invoices n !! payment_hash) ChannelNotFound);
  entry ← get_entry channel_id;
  msg ← on_channel channel_id (send_fulfill_htlc htlc_id preimage);
  _ ← send_and_flush channel_id (ce_node_id entry) MUpdateFulfillHtlc msg;
  emit (Event (EvPaymentClaimed payment_hash amount)).

(** ** Outcomes of HTLCs we offered *)
Definition on_htlc_fulfilled (source : HtlcSource) (preimage : bytes) (amount : Z) : node unit :=
  match source with
  | Outbound payment_id =>
    p ← gets (fun n => n_payments n !! payment_id);
    match p with
    | None => mret tt
    | Some p =>
      _ ← modify (fun n => n <| n_payments := delete payment_id (n_payments n) |>);
      emit (Event (EvPaymentSent payment_id (pp_payment_hash p) preimage))
    end
  | Forwarded inbound_channel inbound_htlc =>
    entry ← get_entry inbound_channel;
    msg ← on_channel inbound_channel (send_fulfill_htlc inbound_htlc preimage);
    send_and_flush inbound_channel (ce_node_id entry) MUpdateFulfillHtlc msg
  end.

(** The code and the hop a failure of our own payment reports. *)
Definition failure_report (secrets : list bytes) (reason : option bytes) (malformed_code : option Z)
    : option Z * option nat :=
  match reason with
  | Some reason =>
    match failure_decrypt secrets reason with
    | Some (hop, msg) => (parse_code msg, Some hop)
    | None => (malformed_code, None)
    end
  | None => (malformed_code, None)
  end.

(** The error packet we pass back for a forwarded HTLC. *)
Definition relayed_failure (ss : bytes) (reason : option bytes) (malformed_code : option Z) : bytes :=
  match reason, malformed_code with
  | Some r, _ => failure_wrap ss r
  | None, Some code => failure_build ss (failure_message code [])
  | None, None => failure_build ss (failure_message FAIL_TEMPORARY_CHANNEL_FAILURE [])
  end.

Definition on_htlc_failed (source : HtlcSource) (reason : option bytes) (malformed_code : option Z)
    : node unit :=
  match source with
  | Outbound payment_id =>
    p ← gets (fun n => n_payments n !! payment_id);
    match p with
    | None => mret tt
    | Some p =>
      _ ← modify (fun n => n <| n_payments := delete payment_id (n_payments n) |>);
      let '(failure_code, erring_hop) := failure_report (pp_shared_secrets p) reason malformed_code in
      emit (Event (EvPaymentFailed payment_id (pp_payment_hash p) failure_code erring_hop))
    end
  | Forwarded inbound_channel inbound_htlc =>
    ss ← gets (fun n => n_inbound_onion_secrets n !! (inbound_channel, inbound_htlc));
    match ss with
    | None => mret tt
    | Some ss =>
      entry ← get_entry inbound_channel;
      msg ← on_channel inbound_channel
        (send_fail_htlc inbound_htlc (relayed_failure ss reason malformed_code));
      send_and_flush inbound_channel (ce_node_id entry) MUpdateFailHtlc msg
    end
  end.

Definition on_htlc_failed_locally (source : HtlcSource) (reason : string) : node unit :=
  on_htlc_failed source None None.

(** ** Incoming HTLCs *)
Definition fail_inbound (channel_id : bytes) (htlc_id : Z) (code : Z) (data : bytes) : node unit :=
  ss ← gets (fun n => n_inbound_onion_secrets n !! (channel_id, htlc_id));
  match ss with
  | None => mret tt
  | Some ss =>
    let reason := failure_build ss (failure_message code data) in
    entry ← get_entry channel_id;
    msg ← on_channel channel_id (send_fail_htlc htlc_id reason);
    send_and_flush channel_id (ce_node_id entry) MUpdateFailHtlc msg
  end.

Definition fail_inbound_malformed (channel_id : bytes) (htlc_id : Z) (onion_bytes : bytes) : node unit :=
  let sha := sha256 onion_bytes in
  entry ← get_entry channel_id;
  msg ← on_channel channel_id (send_fail_malformed_htlc htlc_id sha FAIL_INVALID_ONION_HMAC);
  send_and_flush channel_id (ce_node_id entry) MUpdateFailMalformedHtlc msg.

(** The checks of [receive_final_htlc], in order: the code and the data of
    the first that fails. *)
Definition final_refusal (best_height : Z) (invoices : gmap bytes InvoiceEntry)
    (htlc : CommittedInboundHtlc) (payload : HopPayload) : option (Z * bytes) :=
  let fail_data := incorrect_payment_data (cih_amount_msat htlc) best_height in
  let refused := Some (FAIL_INCORRECT_OR_UNKNOWN_PAYMENT, fail_data) in
  match invoices !! cih_payment_hash htlc with
  | None => refused
  | Some invoice =>
    match payment_data payload with
    | None => refused
    | Some pd =>
      if negb (bool_decide (Payload.payment_secret pd = ie_payment_secret invoice)) then refused
      else if cih_amount_msat htlc <? amt_to_forward payload then
        Some (FAIL_FINAL_INCORRECT_AMOUNT, be_bytes 8 (cih_amount_msat htlc))
      else if match ie_amount_msat invoice with
              | Some required => (cih_amount_msat htlc <? required) ||
                                 (wrap 64 (required * 2) <? cih_amount_msat htlc)
              | None => false
              end then refused
      else if cih_cltv_expiry htlc <? outgoing_cltv_value payload then
        Some (FAIL_FINAL_INCORRECT_CLTV, be_bytes 4 (cih_cltv_expiry htlc))
      else if cih_cltv_expiry htlc <? wrap 32 (best_height + ie_min_final_cltv invoice) then refused
      else None
    end
  end.

Definition receive_final_htlc (channel_id : bytes) (htlc : CommittedInboundHtlc)
    (payload : HopPayload) : node unit :=
  n ← gets id;
  match final_refusal (n_best_height n) (n_invoices n) htlc payload with
  | Some (code, data) => fail_inbound channel_id (cih_id htlc) code data
  | None =>
    _ ← modify (fun n => n <| n_claimable :=
          <[cih_payment_hash htlc := (channel_id, cih_id htlc, cih_amount_msat htlc)]> (n_claimable n) |>);
    _ ← emit (Event (EvPaymentClaimable (cih_payment_hash htlc) (cih_amount_msat htlc)));
    if nc_auto_claim (n_config n) then claim_payment (cih_payment_hash htlc) else mret tt
  end.

(** The fee our policy asks to forward [amount]. *)
Definition forwarding_fee (policy : ForwardingPolicy) (amount : Z) : Z :=
  wrap 64 (fp_fee_base_msat policy
           + wrap 64 (amount * fp_fee_proportional_millionths policy) / 1000000).

(** The checks of [forward_htlc] before the outgoing channel is looked at: the
    failure code, or the channel and the fee earned. *)
Definition forward_check (policy : ForwardingPolicy) (scid_index : gmap Z bytes)
    (htlc : CommittedInboundHtlc) (payload : HopPayload) : result Z (bytes * Z) :=
  scid ← ok_or (Payload.short_channel_id payload) FAIL_UNKNOWN_NEXT_PEER;
  out_channel ← ok_or (scid_index !! scid) FAIL_UNKNOWN_NEXT_PEER;
  let fee := forwarding_fee policy (amt_to_forward payload) in
  _ ← fail_if (cih_amount_msat htlc <? msat_add (amt_to_forward payload) fee) FAIL_FEE_INSUFFICIENT;
  _ ← fail_if (cih_cltv_expiry htlc <?
               wrap 32 (outgoing_cltv_value payload + fp_cltv_expiry_delta policy))
        FAIL_INCORRECT_CLTV_EXPIRY;
  Ok (out_channel, fee).

(** Offer the HTLC on the outgoing channel. *)
Definition offer_forward (in_channel : bytes) (htlc : CommittedInboundHtlc) (payload : HopPayload)
    (next_packet : OnionPacket) (out_channel : bytes) (fee : Z) : node unit :=
  let fail := fail_inbound in_channel (cih_id htlc) FAIL_TEMPORARY_CHANNEL_FAILURE [] in
  entry ← get_entry out_channel;
  if negb (is_usable (ce_channel entry)) then fail
  else
    r ← catch (on_channel out_channel
      (send_add_htlc (amt_to_forward payload) (cih_payment_hash htlc)
         (outgoing_cltv_value payload) (onion_serialize next_packet)
         (Forwarded in_channel (cih_id htlc))));
    match r with
    | Ok (Some add) =>
      _ ← modify (fun n => n <| n_forward_fees :=
            <[(out_channel, add_id add) := (in_channel, fee)]> (n_forward_fees n) |>);
      _ ← send_to_node (ce_node_id entry) (MUpdateAddHtlc add);
      _ ← flush_commitment out_channel;
      emit (Event (EvForwarded in_channel out_channel fee))
    | Ok None => mret tt
    | Err (EChannel (Ignore _)) => fail
    | Err e => throw e
    | Panic => fun n => (Panic, n)
    end.

Definition forward_htlc (in_channel : bytes) (htlc : CommittedInboundHtlc) (payload : HopPayload)
    (next_packet : OnionPacket) : node unit :=
  n ← gets id;
  match forward_check (nc_forwarding (n_config n)) (n_scid_index n) htlc payload with
  | Err code => fail_inbound in_channel (cih_id htlc) code []
  | Ok (out_channel, fee) => offer_forward in_channel htlc payload next_packet out_channel fee
  | Panic => fun n => (Panic, n)
  end.

Definition process_committed_htlc (channel_id : bytes) (htlc : CommittedInboundHtlc) : node unit :=
  match onion_parse (cih_onion htlc) with
  | Err _ => fail_inbound_malformed channel_id (cih_id htlc) (cih_onion htlc)
  | Panic => fun n => (Panic, n)
  | Ok packet =>
    ss ← gets (fun n => ns_ecdh (n_keys n) (ephemeral_key packet));
    match peel_with_secret ss packet (cih_payment_hash htlc) with
    | Err _ => fail_inbound_malformed channel_id (cih_id htlc) (cih_onion htlc)
    | Panic => fun n => (Panic, n)
    | Ok peeled =>
      _ ← modify (fun n => n <| n_inbound_onion_secrets :=
            <[(channel_id, cih_id htlc) := ss]> (n_inbound_onion_secrets n) |>);
      match peeled with
      | Final payload =>
        match hop_decode payload with
        | Ok payload => receive_final_htlc channel_id htlc payload
        | Err _ =>
          height ← gets n_best_height;
          fail_inbound channel_id (cih_id htlc) FAIL_INCORRECT_OR_UNKNOWN_PAYMENT
            (incorrect_payment_data (cih_amount_msat htlc) height)
        | Panic => fun n => (Panic, n)
        end
      | Onion.Forward payload next =>
        match hop_decode payload with
        | Ok payload => forward_htlc channel_id htlc payload next
        | Err _ => fail_inbound channel_id (cih_id htlc) FAIL_INCORRECT_OR_UNKNOWN_PAYMENT []
        | Panic => fun n => (Panic, n)
        end
      end
    end
  end.
End NodePayment.
