(* ===== verification/NodeDispatch.v ===== *)
(** * NodeDispatch: the node's inputs (src/src/node/mod.rs)

    [handle_message] dispatches a decoded message, [peer_input] feeds bytes of
    a socket.  [node_input] lists everything an embedder can do to a node and
    [step] runs one input; a node's reachable states are those of [reachable]. *)
From stdpp Require Import gmap.
From S2P Require Import Prelude Secp Hex Types Features Text Ser Msgs Tx Shachain Keys Commitment Channel Dance Close Reestablish Invoice Noise Onion Payload Graph Router NodeKeys Peer Node NodeChannel NodePayment.

Section NodeDispatch.
Context `{HS : Secp} {Sg : Type} `{HCS : !ChannelSigner Sg}.
Context {K : Type} `{HK : !NodeSigner K Sg} {R : Type} `{HR : !EntropySource R}.
Context `{HO : HashOrder}.
Abbreviation Channel := (Channel (Sg := Sg)).
Abbreviation chan := (stm Channel ChannelError).
Abbreviation Node := (Node (Sg := Sg) (K := K) (R := R)).
Abbreviation node := (stm Node NodeError).

(** The channels with [node_id] that have something to resynchronise, each
    with its message. *)
Definition reestablishes (node_id : PublicKey) (n : Node) : result NodeError (list ChannelReestablish) :=
  map_err EChannel (collect make_channel_reestablish
    (omap (fun id =>
       entry ← n_channels n !! id;
       if bool_decide (ce_node_id entry = node_id) &&
          match ch_state (ce_channel entry) with OpenSent | AcceptSent => false | _ => true end
       then Some (ce_channel entry) else None) (channels_order (n_channels n)))).

Definition on_init (peer_id : Z) (init : Init) : node unit :=
  let combined := Features.or (init_features init) (init_global_features init) in
  config ← gets n_config;
  match unknown_required_bits combined known_even_bits with
  | Some bit =>
    _ ← send_warning peer_id (str "unsupported required feature bit " ++ dec bit);
    peer_disconnected peer_id
  | None =>
    if match init_networks init with
       | Some networks => negb (bool_decide (chain_hash (nc_network config) ∈ networks))
       | None => false
       end
    then
      _ ← send_warning peer_id (str "no chain in common");
      peer_disconnected peer_id
    else
      _ ← on_peer peer_id (modify (fun p => p <| p_features := combined |> <| p_init_received := true |>));
      peer ← reads_self (fun n => expect (n_peers n !! peer_id));
      if is_ready peer then
        match p_node_id peer with
        | None => mret tt
        | Some node_id =>
          _ ← emit (Event (EvPeerConnected peer_id node_id));
          res ← reads_self (reestablishes node_id);
          for_each (fun re => send_to_peer peer_id (MChannelReestablish re)) res
        end
      else mret tt
  end.

Definition on_error (peer_id : Z) (e : ErrorMsg) : node unit :=
  let text := utf8_lossy (err_data e) in
  known ← gets (fun n => bool_decide (is_Some (n_channels n !! err_channel_id e)));
  if negb (bool_decide (err_channel_id e = replicate 32 0)) && known then
    force_close (err_channel_id e) (str "peer error: " ++ text)
  else mret tt.

Definition on_commitment_signed (peer_id : Z) (cs : CommitmentSigned) : node unit :=
  let channel_id := cs_channel_id cs in
  raa ← with_channel peer_id channel_id (Dance.on_commitment_signed cs);
  entry ← the_entry channel_id;
  _ ← send_to_node (ce_node_id entry) (MRevokeAndAck raa);
  _ ← flush_commitment channel_id;
  try_start_closing channel_id.

Definition on_revoke_and_ack (peer_id : Z) (raa : RevokeAndAck) : node unit :=
  let channel_id := raa_channel_id raa in
  outcome ← with_channel peer_id channel_id (Dance.on_revoke_and_ack raa);
  entry ← the_entry channel_id;
  _ ← for_each (send_to_node (ce_node_id entry)) (ro_messages outcome);
  _ ← send_some (ce_node_id entry) MCommitmentSigned (ro_commitment_signed outcome);
  _ ← for_each (fun '(source, reason) => on_htlc_failed_locally source reason)
        (ro_failed_adds outcome);
  _ ← for_each (process_committed_htlc channel_id) (ro_forwardable outcome);
  try_start_closing channel_id.

Definition on_shutdown (peer_id : Z) (sd : Shutdown) : node unit :=
  let channel_id := sd_channel_id sd in
  config ← gets n_config;
  reply ← with_channel peer_id channel_id (Close.on_shutdown sd (nc_close_script config));
  _ ← match reply with
      | Some reply =>
        entry ← the_entry channel_id;
        send_to_node (ce_node_id entry) (MShutdown reply)
      | None => mret tt
      end;
  try_start_closing channel_id.

Definition on_channel_reestablish (peer_id : Z) (re : ChannelReestablish) : node unit :=
  let channel_id := re_channel_id re in
  actions ← with_channel peer_id channel_id
    (reads_self (fun c => Reestablish.on_channel_reestablish c re));
  if ra_data_loss_detected actions then emit (Event (EvDataLossDetected channel_id))
  else
    entry ← the_entry channel_id;
    for_each (send_to_node (ce_node_id entry)) (ra_messages actions).

(** A gossip message: stored and relayed, or dropped. *)
Definition relay_gossip (apply : NetworkGraph -> result GossipError NetworkGraph) (msg : Message)
    : node unit :=
  stored ← apply_gossip apply;
  if is_ok stored then broadcast_to_ready_peers msg else mret tt.

Definition handle_message (peer_id : Z) (msg : Message) : node unit :=
  match msg with
  | MInit init => on_init peer_id init
  | MPing ping =>
    if 65532 <=? num_pong_bytes ping then mret tt
    else send_to_peer peer_id (MPong {| pong_ignored := replicate (Z.to_nat (num_pong_bytes ping)) 0 |})
  | MPong _ => update_peer peer_id (fun p => p <| p_awaiting_pong := false |>)
  | MError e => on_error peer_id e
  | MWarning _ => mret tt
  | MOpenChannel open => on_open_channel peer_id open
  | MAcceptChannel accept => on_accept_channel peer_id accept
  | MFundingCreated fc => on_funding_created peer_id fc
  | MFundingSigned fs => on_funding_signed peer_id fs
  | MChannelReady cr =>
    _ ← with_channel peer_id (cr_channel_id cr) (on_channel_ready cr);
    after_channel_ready_change (cr_channel_id cr)
  | MUpdateAddHtlc add => with_channel peer_id (add_channel_id add) (on_update_add_htlc add)
  | MUpdateFulfillHtlc ful =>
    '(source, amount) ← with_channel peer_id (ful_channel_id ful) (on_update_fulfill_htlc ful);
    on_htlc_fulfilled source (ful_payment_preimage ful) amount
  | MUpdateFailHtlc fail =>
    '(source, _) ← with_channel peer_id (fail_channel_id fail) (on_update_fail_htlc fail);
    on_htlc_failed source (Some (fail_reason fail)) None
  | MUpdateFailMalformedHtlc fail =>
    '(source, _) ← with_channel peer_id (mal_channel_id fail) (on_update_fail_malformed_htlc fail);
    on_htlc_failed source None (Some (mal_failure_code fail))
  | MUpdateFee uf => with_channel peer_id (fee_channel_id uf) (on_update_fee uf)
  | MCommitmentSigned cs => on_commitment_signed peer_id cs
  | MRevokeAndAck raa => on_revoke_and_ack peer_id raa
  | MShutdown sd => on_shutdown peer_id sd
  | MClosingSigned cs => on_closing_signed peer_id cs
  | MChannelReestablish re => on_channel_reestablish peer_id re
  | MAnnouncementSignatures anns => on_announcement_signatures peer_id anns
  | MChannelAnnouncement ca =>
    relay_gossip (fun g => apply_channel_announcement g ca None) (MChannelAnnouncement ca)
  | MChannelUpdate cu => relay_gossip (fun g => apply_channel_update g cu) (MChannelUpdate cu)
  | MNodeAnnouncement na => relay_gossip (fun g => apply_node_announcement g na) (MNodeAnnouncement na)
  | MGossipTimestampFilter _ => mret tt
  | MUnknown t _ =>
    if Z.even t then send_warning peer_id (str "unknown even message type " ++ dec t) else mret tt
  end.

(** One decrypted message of [peer_input]. *)
Definition handle_plaintext (peer_id : Z) (plaintext : bytes) : node unit :=
  match decode plaintext with
  | Ok msg => handle_message peer_id msg
  | Err (UnknownMessageType t) =>
    send_warning peer_id (str "unknown required message type " ++ dec t)
  | Err _ => mret tt
  | Panic => fun n => (Panic, n)
  end.

Definition transport_ready (p : Peer) : bool :=
  match p_transport p with Ready _ => true | _ => false end.

(** [peer_input] up to the messages: what the connection decrypted, and whether
    it has just become ready. *)
Definition receive_bytes (peer_id : Z) (data : bytes) : node (bool * list bytes) :=
  peer ← reads_self (fun n => ok_or (n_peers n !! peer_id) PeerNotFound);
  let was_ready := transport_ready peer in
  '(to_send, messages) ← on_peer peer_id (Peer.input data);
  _ ← modify (fun n => n <| n_outputs := n_outputs n ++ map (Wire peer_id) to_send |>);
  peer ← reads_self (fun n => expect (n_peers n !! peer_id));
  let first_ready := negb was_ready && transport_ready peer in
  _ ← (if first_ready then
         match p_node_id peer with
         | Some node_id => modify (fun n =>
             n <| n_by_node_id := <[pk_serialize node_id := peer_id]> (n_by_node_id n) |>)
         | None => mret tt
         end
       else mret tt);
  mret (first_ready, messages).

Definition peer_input (peer_id : Z) (data : bytes) : node unit :=
  '(first_ready, messages) ← receive_bytes peer_id data;
  _ ← (if (first_ready : bool) then send_init peer_id else mret tt);
  for_each (handle_plaintext peer_id) messages.

(** ** The embedder's view *)
Inductive node_input : Type :=
  | InConnect (remote : PublicKey)
  | InAccept
  | InBytes (peer : Z) (data : bytes)
  | InDisconnected (peer : Z)
  | InBlock (height : Z)
  | InTick (now : Z)
  | InFundingConfirmed (channel_id : bytes) (scid : Z)
  | InOpen (node_id : PublicKey) (capacity_sat push_msat : Z)
  | InFunding (channel_id : bytes) (tx : Transaction)
  | InClose (channel_id : bytes)
  | InForceClose (channel_id : bytes) (reason : bytes)
  | InInvoice (amount : option Z) (description : bytes) (expiry_secs : Z)
  | InPay (invoice : Bolt11Invoice) (amount : option Z)
  | InClaim (payment_hash : bytes)
  | InPoll.

(** The state after an input; the caller drops a node that panicked, errors
    leave it as it is. *)
Definition run (i : node_input) (n : Node) : bool * Node :=
  let go {A} (m : node A) := match m n with (Panic, n') => (false, n') | (_, n') => (true, n') end in
  match i with
  | InConnect remote => go (connect_outbound remote)
  | InAccept => go accept_inbound
  | InBytes peer data => go (peer_input peer data)
  | InDisconnected peer => go (peer_disconnected peer)
  | InBlock height => go (best_block_updated height)
  | InTick now => go (tick now)
  | InFundingConfirmed channel_id scid => go (NodeChannel.funding_confirmed channel_id scid)
  | InOpen node_id capacity push => go (open_channel node_id capacity push)
  | InFunding channel_id tx => go (provide_funding_transaction channel_id tx)
  | InClose channel_id => go (close_channel channel_id)
  | InForceClose channel_id reason => go (force_close channel_id reason)
  | InInvoice amount description expiry => go (create_invoice amount description expiry)
  | InPay invoice amount => go (pay_invoice invoice amount)
  | InClaim payment_hash => go (claim_payment payment_hash)
  | InPoll => (true, (poll_output n).2)
  end.

Definition step (n n' : Node) : Prop := exists i, run i n = (true, n').

(** The states of a node that never numbers 2^64 connections. *)
Inductive reachable (keys : K) (entropy : R) (config : NodeConfig) : Node -> Prop :=
  | reach_new : reachable keys entropy config (node_new keys entropy config)
  | reach_step n n' : reachable keys entropy config n -> n_next_peer n < u64_max ->
      step n n' -> reachable keys entropy config n'.
End NodeDispatch.
