(* ===== verification/NodeInv.v ===== *)
(** * NodeInv: what every handler of the node preserves

    [closed I] lists how the handlers change a node: they run channel
    operations on stored channels, they store, move and drop entries, they
    move connections forward, and they apply gossip.  A predicate closed under
    these changes is an invariant of every input ([closed_step]). *)
From stdpp Require Import gmap relations.
From S2P Require Import Prelude Secp Hex Types Features Text Ser Msgs Tx Shachain Keys Commitment Channel Dance Close Reestablish Machine Invoice Noise Onion Payload Graph Router NodeKeys Peer Node NodeChannel NodePayment NodeDispatch.

Create HintDb keep.

Section Generic.
Context {S E : Type} (I : S -> Prop).

Lemma preserves_panic {A} : preserves (E := E) I (fun s => (Panic (A := A), s)).
Proof. by intros s Hs. Qed.

Lemma preserves_opt {A B} (o : option A) (f : A -> stm S E B) (m : stm S E B) :
  (forall a, preserves I (f a)) -> preserves I m ->
  preserves I (match o with Some a => f a | None => m end).
Proof. by destruct o. Qed.
End Generic.

Section NodeInv.
Context `{HS : Secp} {Sg : Type} `{HCS : !ChannelSigner Sg}.
Context {K : Type} `{HK : !NodeSigner K Sg} {R : Type} `{HR : !EntropySource R}.
Context `{HO : HashOrder}.
Abbreviation Channel := (Channel (Sg := Sg)).
Abbreviation chan := (stm Channel ChannelError).
Abbreviation Node := (Node (Sg := Sg) (K := K) (R := R)).
Abbreviation node := (stm Node NodeError).
Abbreviation ChannelEntry := (ChannelEntry (Sg := Sg)).

(** ** Channel operations as runs of the channel machine *)
(** One event of the channel machine, without a bound on its numbers. *)
Definition event_step (c c' : Channel) : Prop :=
  exists e r, run_event e c = (r, c') /\ r <> Panic.
Definition chan_op {A} (f : chan A) : Prop :=
  forall c, (f c).1 <> Panic -> rtc event_step c (f c).2.

Lemma chan_op_run e : chan_op (run_event e).
Proof.
  intros c H. apply rtc_once. exists e, (run_event e c).1. split; [by destruct (run_event e c)|done].
Qed.
Lemma chan_op_discard {A} e (f : chan A) : (forall c, run_event e c = discard f c) -> chan_op f.
Proof.
  intros Hd c H. apply rtc_once. exists e, (discard f c).1. rewrite Hd.
  unfold discard, mbind, stm_bind, mret, stm_ret in *. by destruct (f c) as [[]].
Qed.
Lemma chan_op_reads {A} (f : Channel -> result ChannelError A) : chan_op (reads_self f).
Proof. intros c _. reflexivity. Qed.

(** ** The changes of the handlers *)
(** The fields an invariant may be about. *)
Definition core (n : Node) :=
  (n_config n, n_keys n, n_peers n, n_by_node_id n, n_next_peer n, n_channels n, n_graph n,
   n_invoices n, n_claimable n).

Definition same_identity (p p' : Peer) : Prop :=
  p_node_id p' = p_node_id p /\
  match p_transport p, p_transport p' with
  | Ready _, Ready _ => True
  | t, t' => t = t'
  end.

Record closed (I : Node -> Prop) : Prop := {
  c_other : forall n n', core n' = core n -> I n -> I n';
  c_peer : forall n id p p', n_peers n !! id = Some p -> same_identity p p' -> I n ->
    I (n <| n_peers := <[id := p']> (n_peers n) |>);
  c_receive : forall id data, preserves I (receive_bytes id data);
  c_connect : forall remote n, n_next_peer n < u64_max -> I n ->
    wp (connect_outbound remote) (fun _ => I) n;
  c_accept : forall n, n_next_peer n < u64_max -> I n -> wp accept_inbound (fun _ => I) n;
  c_drop : forall n id, I n -> I (n <| n_peers := delete id (n_peers n) |>);
  c_unname : forall n k, I n -> I (n <| n_by_node_id := delete k (n_by_node_id n) |>);
  c_op : forall A id (f : chan A), chan_op f -> preserves I (on_channel id f);
  c_new : forall n id c node_id, Machine.opened c -> I n ->
    I (n <| n_channels := <[id := new_entry c node_id]> (n_channels n) |>);
  c_meta : forall n id e e', n_channels n !! id = Some e -> ce_channel e' = ce_channel e -> I n ->
    I (n <| n_channels := <[id := e']> (n_channels n) |>);
  c_forget : forall n id, I n -> I (n <| n_channels := delete id (n_channels n) |>);
  c_move : forall n old new e e', n_channels n !! old = Some e -> ce_channel e' = ce_channel e ->
    I n -> I (n <| n_channels := <[new := e']> (delete old (n_channels n)) |>);
  c_gossip : forall n m g, Graph.apply (n_graph n) m = Ok g -> I n -> I (n <| n_graph := g |>);
  c_invoice : forall n e, I n ->
    I (n <| n_invoices := <[preimage_hash (ie_preimage e) := e]> (n_invoices n) |>);
  c_claimable : forall n h v, is_Some (n_invoices n !! h) -> I n ->
    I (n <| n_claimable := <[h := v]> (n_claimable n) |>);
  c_claimed : forall n h, I n -> I (n <| n_claimable := delete h (n_claimable n) |>);
}.

Context (I : Node -> Prop) (HI : closed I).

(** A mutation outside of [core]. *)
Lemma keep_modify (f : Node -> Node) : (forall n, core (f n) = core n) -> preserves (E := NodeError) I (modify f).
Proof. intros H. apply preserves_modify. intros n. by apply (c_other I HI). Qed.

Lemma keep_throw {A} (e : NodeError) : preserves I (throw (A := A) e).
Proof. apply preserves_reads_self. Qed.
Lemma keep_attempt {A} (m : node A) : preserves I m -> preserves I (attempt m).
Proof. intros H. apply preserves_bind; [by apply preserves_catch|]. intros. apply preserves_ret. Qed.
Lemma keep_for_each {A} (f : A -> node unit) l : (forall x, preserves I (f x)) -> preserves I (for_each f l).
Proof.
  intros H. induction l as [|x l IH]; cbn [for_each]; [apply preserves_ret|].
  apply preserves_bind; [done|]. by intros.
Qed.
Lemma keep_emit o : preserves I (emit o).
Proof. by apply keep_modify. Qed.
Lemma keep_get_entry id : preserves I (get_entry id).
Proof. apply preserves_reads_self. Qed.
Lemma keep_the_entry id : preserves I (the_entry id).
Proof. apply preserves_reads_self. Qed.
Lemma keep_random_bytes : preserves I random_bytes.
Proof.
  intros n Hn. unfold wp, random_bytes. destruct (get_random_bytes (n_entropy n)).
  by apply (c_other I HI n).
Qed.
Lemma keep_random_secret_key : preserves I random_secret_key.
Proof.
  unfold random_secret_key. generalize KEY_DRAWS. induction n as [|k IH]; [by intros n Hn|].
  cbn [random_secret_key_loop]. apply preserves_bind; [apply keep_random_bytes|]. intros b.
  destruct (sk_from_slice b); [apply preserves_ret|done].
Qed.
Lemma keep_update_entry id f : (forall e, ce_channel (f e) = ce_channel e) -> preserves I (update_entry id f).
Proof.
  intros H. apply preserves_modify. intros n Hn. destruct (n_channels n !! id) as [e|] eqn:E; [|done].
  by apply (c_meta I HI n id e).
Qed.
Lemma keep_update_peer id f : (forall p, same_identity p (f p)) -> preserves I (update_peer id f).
Proof.
  intros H. apply preserves_modify. intros n Hn. destruct (n_peers n !! id) as [p|] eqn:E; [|done].
  by apply (c_peer I HI n id p).
Qed.
Lemma keep_on_peer {A} id (f : stm Peer NoiseError A) :
  (forall p, same_identity p (f p).2) -> preserves I (on_peer id f).
Proof.
  intros H n Hn. unfold wp, on_peer. destruct (n_peers n !! id) as [p|] eqn:E; [|done].
  specialize (H p). destruct (f p) as [r p']. cbn [snd] in H.
  assert (Hn' := c_peer I HI n id p p' E H Hn). by destruct r.
Qed.

Lemma same_identity_fields p p' :
  p_node_id p' = p_node_id p -> p_transport p' = p_transport p -> same_identity p p'.
Proof. intros H1 H2. split; [done|]. rewrite H2. by destruct (p_transport p). Qed.
Lemma encrypt_identity m (p : Peer) : same_identity p (Peer.encrypt m p).2.
Proof.
  unfold same_identity, Peer.encrypt. destruct (p_transport p) eqn:E; rewrite ?E; try done.
  by destruct (encrypt_message m t).
Qed.

#[local] Hint Resolve preserves_panic keep_throw keep_attempt keep_for_each keep_emit keep_get_entry
  keep_the_entry keep_random_bytes keep_random_secret_key keep_update_entry keep_update_peer
  keep_on_peer encrypt_identity : keep.
#[local] Hint Extern 1 (preserves _ (modify _)) => apply keep_modify; intros; reflexivity : keep.
#[local] Hint Extern 1 (preserves _ (fun _ => _)) => intros ? ?; exact Logic.I : keep.
#[local] Ltac keep := preserve; auto with keep.

(** ** Sending *)
Lemma keep_send_to_peer id m : preserves I (send_to_peer id m).
Proof. unfold send_to_peer. keep. Qed.
#[local] Hint Resolve keep_send_to_peer : keep.
Lemma keep_send_to_node to m : preserves I (send_to_node to m).
Proof. unfold send_to_node. keep. Qed.
#[local] Hint Resolve keep_send_to_node : keep.
Lemma keep_send_warning id t : preserves I (send_warning id t).
Proof. unfold send_warning. keep. Qed.
Lemma keep_broadcast m : preserves I (broadcast_to_ready_peers m).
Proof. unfold broadcast_to_ready_peers. keep. Qed.
Lemma keep_send_init id : preserves I (send_init id).
Proof. unfold send_init. keep. apply keep_update_peer. intros p. by apply same_identity_fields. Qed.
Lemma keep_send_some {A} to (mk : A -> Message) o : preserves I (send_some to mk o).
Proof. unfold send_some. keep. Qed.
#[local] Hint Resolve keep_send_warning keep_broadcast keep_send_init keep_send_some : keep.

(** ** Channel operations *)
Lemma keep_op {A} e id (f : chan A) :
  (forall c, run_event e c = discard f c) -> preserves I (on_channel id f).
Proof. intros H. apply (c_op I HI). by apply (chan_op_discard e). Qed.
Lemma keep_run e id : preserves I (on_channel id (run_event e)).
Proof. apply (c_op I HI), chan_op_run. Qed.

Ltac chan_event e := apply (keep_op e); reflexivity.

(** ** NodeChannel *)
Lemma keep_force_close id reason : preserves I (force_close id reason).
Proof. unfold force_close. keep. Qed.
Lemma keep_finish id tx : preserves I (finish_cooperative_close id tx).
Proof. unfold finish_cooperative_close. keep. Qed.
#[local] Hint Resolve keep_force_close keep_finish : keep.

Lemma keep_try_start_closing id : preserves I (try_start_closing id).
Proof. unfold try_start_closing. keep. chan_event (EvSendClosing (nc_close_feerate a)). Qed.
#[local] Hint Resolve keep_try_start_closing : keep.

Lemma keep_close_channel id : preserves I (close_channel id).
Proof. unfold close_channel. keep. chan_event (EvSendShutdown (nc_close_script a)). Qed.

Lemma keep_with_channel {A} peer id (f : chan A) :
  preserves I (on_channel id f) -> preserves I (with_channel peer id f).
Proof. intros H. unfold with_channel. keep. Qed.

(** ** Steps whose value matters *)
Lemma wp_then {A B} (m : node A) (f : A -> node B) n :
  preserves I m -> I n -> (forall a n', I n' -> wp (f a) (fun _ => I) n') -> wp (m ≫= f) (fun _ => I) n.
Proof.
  intros Hm Hn Hf. apply wp_bind. eapply wp_mono; [by apply Hm|]. intros [a|] n' H; [by apply Hf|done].
Qed.
Lemma wp_read {A B} (g : Node -> result NodeError A) (f : A -> node B) n :
  I n -> (forall a, g n = Ok a -> wp (f a) (fun _ => I) n) -> wp (reads_self g ≫= f) (fun _ => I) n.
Proof. intros Hn Hf. apply wp_bind, wp_reads_self; [done|]. by intros. Qed.
Lemma wp_get {A B} (g : Node -> A) (f : A -> node B) n :
  wp (f (g n)) (fun _ => I) n -> wp (gets g ≫= f) (fun _ => I) n.
Proof. intros Hf. by apply wp_bind, wp_gets. Qed.
Lemma wp_do {B} (g : Node -> Node) (f : unit -> node B) n :
  wp (f tt) (fun _ => I) (g n) -> wp (modify g ≫= f) (fun _ => I) n.
Proof. intros Hf. by apply wp_bind, wp_modify. Qed.

Lemma keep_open_channel node_id cap push : preserves I (open_channel node_id cap push).
Proof.
  intros n Hn. unfold open_channel.
  apply wp_then; [keep|done|]. intros peer n1 H1. apply wp_then; [keep|done|]. intros _ n2 H2.
  apply wp_then; [keep|done|]. intros signer n3 H3. apply wp_then; [keep|done|]. intros _ n4 H4.
  apply wp_then; [keep|done|]. intros temp n5 H5. apply wp_get.
  apply wp_read; [done|]. intros [c msg] Hc. apply wp_do.
  revert Hc. destruct (Channel.new_outbound _ _ _ _ _ _ _) as [[c' msg']|e|] eqn:E; [|done|done].
  intros [= -> ->]. apply wp_then; [keep| |].
  - apply (c_new I HI); [|done]. left. by do 8 eexists.
  - intros _ n6 H6. by apply wp_ret.
Qed.

Lemma keep_on_open_channel peer open : preserves I (on_open_channel peer open).
Proof.
  intros n Hn. unfold on_open_channel. apply wp_get. case_match; [by apply keep_send_warning|].
  apply wp_then; [keep|done|]. intros node_id n1 H1. apply wp_then; [keep|done|]. intros signer n2 H2.
  apply wp_then; [keep|done|]. intros _ n3 H3.
  destruct (Channel.new_inbound _ _ _ _) as [[c accept]|e|] eqn:E; [|by apply keep_send_to_peer|done].
  apply wp_do. apply keep_send_to_peer. apply (c_new I HI); [|done]. right. by do 5 eexists.
Qed.

Lemma keep_provide_funding id tx : preserves I (provide_funding_transaction id tx).
Proof.
  intros n Hn. unfold provide_funding_transaction.
  apply wp_then; [keep|done|]. intros e n1 H1. apply wp_then; [keep|done|]. intros script n2 H2.
  apply wp_then; [keep|done|]. intros [vout out] n3 H3. apply wp_then; [keep|done|]. intros _ n4 H4.
  cbv zeta. apply wp_then; [chan_event (EvFund (txid tx) (wrap 16 (Z.of_nat vout)))|done|]. intros msg n5 H5.
  apply wp_read; [done|]. intros e' He'. apply expect_Ok in He'. apply wp_do.
  apply wp_then; [keep|by apply (c_move I HI n5 id _ e')|]. intros _ n6 H6.
  apply wp_then; [keep|done|]. intros _ n7 H7. by apply wp_ret.
Qed.

Lemma keep_on_funding_created peer fc : preserves I (on_funding_created peer fc).
Proof.
  intros n Hn. unfold on_funding_created. cbv zeta.
  apply wp_then; [apply keep_with_channel; chan_event (EvFundingCreated fc)|done|]. intros reply n1 H1.
  apply wp_read; [done|]. intros e He. apply expect_Ok in He.
  set (n2 := n1 <| n_channels := delete (fc_temporary_channel_id fc) (n_channels n1) |>).
  assert (H2 : I n2) by by apply (c_forget I HI). apply wp_do. fold n2.
  apply wp_read; [done|]. intros outpoint _. apply wp_read; [done|]. intros script _.
  apply wp_do. refine (wp_then _ _ _ _ _ _); [keep|by apply (c_move I HI n1 _ _ e)|]. intros _ n3 H3.
  apply wp_then; [keep|done|]. intros _ n4 H4. by apply keep_emit.
Qed.

Lemma keep_on_funding_signed peer fs : preserves I (on_funding_signed peer fs).
Proof.
  unfold on_funding_signed. keep. apply keep_with_channel. exact (keep_run (EvFundingSigned fs) _).
Qed.

Lemma keep_on_accept_channel peer m : preserves I (NodeChannel.on_accept_channel peer m).
Proof.
  unfold NodeChannel.on_accept_channel. keep. apply keep_with_channel. exact (keep_run (EvAcceptChannel m) _).
Qed.

Lemma keep_on_closing_signed peer m : preserves I (NodeChannel.on_closing_signed peer m).
Proof.
  unfold NodeChannel.on_closing_signed. keep. apply keep_with_channel. chan_event (EvClosing m (nc_close_feerate a)).
Qed.

Lemma keep_build_update id first : preserves I (build_our_channel_update id first).
Proof. unfold build_our_channel_update. keep. Qed.
#[local] Hint Resolve keep_build_update : keep.

Lemma keep_gossip apply :
  (forall g g', apply g = Ok g' -> exists m, Graph.apply g m = Ok g') -> preserves I (apply_gossip apply).
Proof.
  intros H n Hn. unfold wp, apply_gossip. destruct (apply (n_graph n)) as [g|e|] eqn:E; [|done|done].
  destruct (H _ _ E) as [m Hm]. by apply (c_gossip I HI n m).
Qed.

Lemma keep_publish id unsigned first theirs : preserves I (publish_announcement id unsigned first theirs).
Proof.
  unfold publish_announcement. keep.
  - apply keep_gossip. intros g g' H. by exists (GChannel (with_signatures unsigned first
      (ns_sign_gossip (n_keys a0) (sha256d (channel_announcement_payload unsigned)))
      (sign_announcement_with_funding_key (ch_signer (ce_channel a)) (sha256d (channel_announcement_payload unsigned)))
      theirs) (Some (ch_funding_amount_sat (ce_channel a)))).
  - apply keep_gossip. intros g g' H. by exists (GUpdate a4).
Qed.
#[local] Hint Resolve keep_publish : keep.

Lemma keep_maybe_announce id : preserves I (maybe_announce_channel id).
Proof. unfold maybe_announce_channel. keep. Qed.
#[local] Hint Resolve keep_maybe_announce : keep.

Lemma keep_after_ready id : preserves I (after_channel_ready_change id).
Proof. unfold after_channel_ready_change. keep. Qed.
#[local] Hint Resolve keep_after_ready : keep.

Lemma keep_funding_confirmed id scid : preserves I (NodeChannel.funding_confirmed id scid).
Proof. unfold NodeChannel.funding_confirmed. keep. chan_event (EvFundingConfirmed scid). Qed.

Lemma keep_on_announcement_signatures peer m : preserves I (on_announcement_signatures peer m).
Proof. unfold on_announcement_signatures. keep. Qed.

(** ** NodePayment *)
Lemma keep_flush id : preserves I (flush_commitment id).
Proof. unfold flush_commitment. keep. chan_event EvSendCommitment. Qed.
#[local] Hint Resolve keep_flush : keep.
Lemma keep_send_and_flush {A} id to (mk : A -> Message) o : preserves I (send_and_flush id to mk o).
Proof. unfold send_and_flush. keep. Qed.
#[local] Hint Resolve keep_send_and_flush : keep.

Lemma keep_create_invoice amount d expiry : preserves I (create_invoice amount d expiry).
Proof.
  unfold create_invoice. keep. apply preserves_modify. intros n Hn. by apply (c_invoice I HI n
    {| ie_preimage := _; ie_payment_secret := _; ie_amount_msat := _; ie_min_final_cltv := _ |}).
Qed.

Lemma keep_add id amount hash cltv onion source : preserves I (on_channel id (send_add_htlc amount hash cltv onion source)).
Proof. chan_event (EvSendAdd amount hash cltv onion source). Qed.
Lemma keep_fulfill id h p : preserves I (on_channel id (send_fulfill_htlc h p)).
Proof. chan_event (EvSendFulfill h p). Qed.
Lemma keep_fail id h r : preserves I (on_channel id (send_fail_htlc h r)).
Proof. chan_event (EvSendFail h r). Qed.
Lemma keep_fail_malformed id h s c : preserves I (on_channel id (send_fail_malformed_htlc h s c)).
Proof. chan_event (EvSendFailMalformed h s c). Qed.
#[local] Hint Resolve keep_add keep_fulfill keep_fail keep_fail_malformed : keep.

Lemma keep_pay_invoice invoice amount : preserves I (pay_invoice invoice amount).
Proof. unfold pay_invoice. keep. Qed.

Lemma keep_claim_payment h : preserves I (claim_payment h).
Proof. unfold claim_payment. keep. apply preserves_modify. intros n. apply (c_claimed I HI). Qed.
#[local] Hint Resolve keep_claim_payment : keep.

Lemma keep_on_fulfilled source p a : preserves I (on_htlc_fulfilled source p a).
Proof. unfold on_htlc_fulfilled. keep. Qed.
Lemma keep_on_failed source r c : preserves I (on_htlc_failed source r c).
Proof. unfold on_htlc_failed. keep. Qed.
Lemma keep_fail_inbound id h c d : preserves I (fail_inbound id h c d).
Proof. unfold fail_inbound. keep. Qed.
Lemma keep_fail_inbound_malformed id h o : preserves I (fail_inbound_malformed id h o).
Proof. unfold fail_inbound_malformed. keep. Qed.
#[local] Hint Resolve keep_on_fulfilled keep_on_failed keep_fail_inbound keep_fail_inbound_malformed : keep.

Lemma keep_receive_final id htlc payload : preserves I (receive_final_htlc id htlc payload).
Proof.
  intros n Hn. unfold receive_final_htlc. apply wp_get.
  destruct (final_refusal _ _ _ _) as [[code data]|] eqn:E; [by apply keep_fail_inbound|]. apply wp_do.
  assert (H : preserves I (_ ← emit (Event (EvPaymentClaimable (cih_payment_hash htlc) (cih_amount_msat htlc)));
    if nc_auto_claim (n_config (Datatypes.id n)) then claim_payment (cih_payment_hash htlc) else mret tt)) by keep.
  apply H, (c_claimable I HI); [|done]. unfold final_refusal in E.
  change (Datatypes.id n) with n in E. by destruct (n_invoices n !! cih_payment_hash htlc).
Qed.

Lemma keep_forward id htlc payload next : preserves I (forward_htlc id htlc payload next).
Proof. unfold forward_htlc, offer_forward. keep. Qed.
#[local] Hint Resolve keep_receive_final keep_forward : keep.

Lemma keep_process id htlc : preserves I (process_committed_htlc id htlc).
Proof. unfold process_committed_htlc. keep. Qed.
#[local] Hint Resolve keep_process : keep.

(** ** NodeDispatch *)
Lemma keep_disconnect_channels pk ids :
  preserves I (for_each (fun channel_id =>
    entry ← the_entry channel_id;
    if decide (ce_node_id entry = pk) then on_channel channel_id on_disconnect else mret tt) ids).
Proof.
  apply keep_for_each. intros id. keep. exact (keep_run Machine.EvDisconnect id).
Qed.
#[local] Hint Resolve keep_disconnect_channels : keep.

Lemma keep_peer_disconnected id : preserves I (peer_disconnected id).
Proof.
  unfold peer_disconnected. keep; apply preserves_modify; intros n.
  - apply (c_drop I HI).
  - apply (c_unname I HI).
Qed.
#[local] Hint Resolve keep_peer_disconnected : keep.

Lemma keep_on_init peer init : preserves I (on_init peer init).
Proof. unfold on_init. keep. apply keep_on_peer. intros p. by apply same_identity_fields. Qed.
Lemma keep_on_error peer e : preserves I (on_error peer e).
Proof. unfold on_error. keep. Qed.
Lemma keep_relay apply m :
  (forall g g', apply g = Ok g' -> exists m, Graph.apply g m = Ok g') -> preserves I (relay_gossip apply m).
Proof. intros H. unfold relay_gossip. keep. by apply keep_gossip. Qed.
#[local] Hint Resolve keep_with_channel : keep.
Lemma keep_on_commitment_signed peer m : preserves I (NodeDispatch.on_commitment_signed peer m).
Proof. unfold NodeDispatch.on_commitment_signed. keep. apply keep_with_channel. chan_event (EvCommitment m). Qed.
Lemma keep_on_revoke peer m : preserves I (NodeDispatch.on_revoke_and_ack peer m).
Proof.
  unfold NodeDispatch.on_revoke_and_ack. keep; [apply keep_with_channel; chan_event (EvRevoke m)|].
  apply keep_for_each. intros [source reason]. by apply keep_on_failed.
Qed.
Lemma keep_on_shutdown peer m : preserves I (NodeDispatch.on_shutdown peer m).
Proof.
  unfold NodeDispatch.on_shutdown. keep. apply keep_with_channel. chan_event (EvShutdown m (nc_close_script a)).
Qed.
Lemma keep_on_reestablish peer m : preserves I (NodeDispatch.on_channel_reestablish peer m).
Proof.
  unfold NodeDispatch.on_channel_reestablish. keep. apply keep_with_channel, (c_op I HI), chan_op_reads.
Qed.
#[local] Hint Resolve keep_on_init keep_on_error keep_on_commitment_signed keep_on_revoke keep_on_shutdown
  keep_on_reestablish keep_on_accept_channel keep_on_open_channel keep_on_funding_created
  keep_on_funding_signed keep_on_closing_signed keep_on_announcement_signatures : keep.

Lemma keep_handle_message peer m : preserves I (handle_message peer m).
Proof.
  destruct m; unfold handle_message; keep.
  - apply keep_update_peer. intros p. by apply same_identity_fields.
  - apply keep_with_channel. exact (keep_run (Machine.EvChannelReady m) _).
  - apply keep_with_channel. exact (keep_run (EvAdd m) _).
  - apply keep_with_channel. chan_event (EvFulfill m).
  - apply keep_with_channel. chan_event (EvFail m).
  - apply keep_with_channel. chan_event (EvFailMalformed m).
  - apply keep_with_channel. exact (keep_run (EvFee m) _).
  - apply keep_relay. intros g g' H. by exists (GChannel m None).
  - apply keep_relay. intros g g' H. by exists (GNode m).
  - apply keep_relay. intros g g' H. by exists (GUpdate m).
Qed.
#[local] Hint Resolve keep_handle_message : keep.

Lemma keep_peer_input peer data : preserves I (peer_input peer data).
Proof.
  unfold peer_input. keep; [apply (c_receive I HI)|]. apply keep_for_each. intros m.
  unfold handle_plaintext. keep.
Qed.

Lemma keep_tick now : preserves I (tick now).
Proof.
  unfold tick. keep. apply keep_for_each. intros id. keep. apply keep_update_peer. intros p.
  by apply same_identity_fields.
Qed.
#[local] Hint Resolve keep_peer_input keep_tick keep_funding_confirmed keep_open_channel
  keep_provide_funding keep_close_channel keep_create_invoice keep_pay_invoice : keep.

(** Every input of the embedder preserves a closed predicate. *)
Lemma closed_step n n' : n_next_peer n < u64_max -> NodeDispatch.step n n' -> I n -> I n'.
Proof.
  intros Hb (i & Hi) Hn.
  assert (Hgo : forall A (m : node A), wp m (fun _ => I) n ->
    (match m n with (Panic, n') => (false, n') | (_, n') => (true, n') end) = (true, n') -> I n').
  { intros A m. unfold wp. destruct (m n) as [[]]; intros H [=]; by subst. }
  destruct i; cbn [run] in Hi; try (refine (Hgo _ _ _ Hi); assert (Hk := Hn)).
  - by apply (c_connect I HI).
  - by apply (c_accept I HI).
  - by apply keep_peer_input.
  - by apply keep_peer_disconnected.
  - apply (Hgo _ (best_block_updated height)); [by apply wp_modify, (c_other I HI n)|exact Hi].
  - by apply keep_tick.
  - by apply keep_funding_confirmed.
  - by apply keep_open_channel.
  - by apply keep_provide_funding.
  - by apply keep_close_channel.
  - by apply keep_force_close.
  - by apply keep_create_invoice.
  - by apply keep_pay_invoice.
  - by apply keep_claim_payment.
  - injection Hi as <-. unfold poll_output. destruct (n_outputs n); [done|]. by apply (c_other I HI n).
Qed.

Lemma closed_reachable keys entropy config :
  I (node_new keys entropy config) -> forall n, NodeDispatch.reachable keys entropy config n -> I n.
Proof. intros H0 n. induction 1; eauto using closed_step. Qed.
End NodeInv.
