(* ===== verification/NodeSafe.v ===== *)
(** * NodeSafe: invariants of a running node

    Whatever bytes, blocks and commands a node is given: each channel it
    stores has a history of the channel machine, and [node_ok] holds: names
    lead to connections authenticated as that name, invoices are filed under
    the hash of their preimage, what is claimable was invoiced, and the graph
    stays well-formed. *)
From stdpp Require Import gmap relations.
From S2P Require Import Prelude Secp Hex Types Features Text Ser Msgs Tx Shachain Keys Commitment Channel Dance Close Reestablish Machine Invoice Noise Onion Payload Graph Router NodeKeys Peer Node NodeChannel NodePayment NodeDispatch NodeInv.

(** ** A connection keeps its identity *)
Section PeerIdentity.
Context `{HS : Secp}.

(** An inbound connection has no name before its handshake is over. *)
Definition named (p : Peer) : Prop :=
  match p_transport p with
  | InboundHandshake _ => p_node_id p = None
  | Poisoned => True
  | _ => is_Some (p_node_id p)
  end.
Definition keeps_name (name : option PublicKey) (r : result NoiseError PeerInput * Peer) : Prop :=
  r.1 = Panic \/ named r.2 /\ forall pk, name = Some pk -> p_node_id r.2 = Some pk.

Lemma pending_keeps sent p : named p -> keeps_name (p_node_id p) (Ok (sent, []), p).
Proof. intros Hn. by right. Qed.

Lemma input_ready_keeps data sent t p :
  is_Some (p_node_id p) -> keeps_name (p_node_id p) (input_ready data sent t p).
Proof. intros Hn. unfold input_ready. destruct (drain _ _) as [[ms| |] t']; [by right..|by left]. Qed.

Lemma loop_ready_keeps fuel sent p t :
  p_transport p = Ready t -> is_Some (p_node_id p) ->
  keeps_name (p_node_id p) (input_loop fuel [] sent p).
Proof.
  intros Hp Hn. destruct fuel; [by left|]. rewrite input_loop_S, Hp. by apply input_ready_keeps.
Qed.

Lemma input_act_three_keeps fuel sent r p :
  p_transport p = InboundHandshake r -> p_node_id p = None ->
  keeps_name None (input_act_three (input_loop fuel []) sent r p).
Proof.
  intros Hp Hn. unfold input_act_three, buf_short, take_act, set_transport, gets, modify, reads_self,
    mbind, stm_bind, mret, stm_ret.
  destruct (Nat.ltb (length (p_handshake_buf p)) ACT_THREE_LEN).
  { rewrite <- Hn. apply pending_keeps. unfold named. by rewrite Hp. }
  destruct (r_act_three _ _) as [[pk t]|e|]; [|by right|by left].
  edestruct (loop_ready_keeps fuel sent) as [H|[H _]]; [| |by left|by right; split]; [reflexivity|by eexists].
Qed.

Lemma input_outbound_keeps fuel sent i p pk :
  p_transport p = OutboundHandshake i -> p_node_id p = Some pk ->
  keeps_name (Some pk) (input_outbound (input_loop fuel []) sent i p).
Proof.
  intros Hp Hn. unfold input_outbound, buf_short, take_act, set_transport, gets, modify, reads_self,
    mbind, stm_bind, mret, stm_ret.
  destruct (Nat.ltb (length (p_handshake_buf p)) ACT_TWO_LEN).
  { rewrite <- Hn. apply pending_keeps. unfold named. rewrite Hp, Hn. by eexists. }
  assert (Hbad : forall (e : NoiseError) q, p_transport q = Poisoned -> p_node_id q = Some pk ->
    keeps_name (Some pk) (Err e, q)).
  { intros e q H1 H2. right. split; [unfold named; cbn; by rewrite H1|]. by intros ? [= <-]. }
  destruct (i_act_two _ i) as [[act3|e|] i']; [|by apply Hbad|by left].
  destruct (into_transport i') as [t|e|]; [|by apply Hbad|by left].
  match goal with |- keeps_name _ (input_loop _ _ _ ?q) =>
    assert (Hq : p_node_id q = Some pk) by exact Hn; rewrite <- Hq end.
  eapply loop_ready_keeps; [reflexivity|]. rewrite Hq. by eexists.
Qed.

Lemma input_inbound_keeps fuel sent r p :
  p_transport p = InboundHandshake r -> p_node_id p = None ->
  keeps_name None (input_inbound (input_loop fuel []) sent r p).
Proof.
  intros Hp Hn. unfold input_inbound, handshake_acted_one, gets at 1, mbind at 1, stm_bind at 1.
  rewrite Hp. destruct (acted_one r); [by apply input_act_three_keeps|].
  unfold buf_short, take_act, set_transport, gets, modify, reads_self, mbind, stm_bind, mret, stm_ret.
  destruct (Nat.ltb (length (p_handshake_buf p)) ACT_ONE_LEN).
  { rewrite <- Hn. apply pending_keeps. unfold named. by rewrite Hp. }
  destruct (r_act_one _ r) as [[act2|e|] r']; [|by right|by left].
  by apply input_act_three_keeps.
Qed.

Lemma input_keeps data p : named p -> keeps_name (p_node_id p) (Peer.input data p).
Proof.
  intros Hn. unfold Peer.input. rewrite input_loop_S. cbv zeta. unfold named in Hn.
  destruct (p_transport p) eqn:E.
  - destruct Hn as [pk Hn]. rewrite Hn. by apply input_outbound_keeps.
  - rewrite Hn. by apply input_inbound_keeps.
  - by apply input_ready_keeps.
  - by left.
Qed.
End PeerIdentity.

Section NodeSafe.
Context `{HS : Secp} {Sg : Type} `{HCS : !ChannelSigner Sg}.
Context {K : Type} `{HK : !NodeSigner K Sg} {R : Type} `{HR : !EntropySource R}.
Context `{HO : HashOrder}.
Abbreviation Channel := (Channel (Sg := Sg)).
Abbreviation chan := (stm Channel ChannelError).
Abbreviation Node := (Node (Sg := Sg) (K := K) (R := R)).
Abbreviation node := (stm Node NodeError).
Abbreviation ChannelEntry := (ChannelEntry (Sg := Sg)).

(** ** Channels of a node are channels of the machine *)
Definition lived (c : Channel) : Prop := exists c0, Machine.opened c0 /\ rtc event_step c0 c.
Definition channels_lived (n : Node) : Prop :=
  map_Forall (fun _ (e : ChannelEntry) => lived (ce_channel e)) (n_channels n).

Lemma preserves_of_core (J : Node -> Prop) {A} (m : node A) :
  (forall n n', n_channels n' = n_channels n -> J n -> J n') ->
  (forall n, wp m (fun _ n' => n_channels n' = n_channels n) n) -> preserves J m.
Proof. intros HJ Hm n Hn. eapply wp_mono; [apply Hm|]. cbv beta. intros _ n' H. by apply (HJ n). Qed.

(** The operations on connections leave the channels alone. *)
Lemma random_secret_key_core (n : Node) : wp random_secret_key (fun _ n' => core n' = core n) n.
Proof.
  unfold random_secret_key. revert n. generalize KEY_DRAWS. induction n as [|k IH]; intros n; [done|].
  cbn [random_secret_key_loop]. apply wp_bind. unfold wp at 1, random_bytes.
  destruct (get_random_bytes (n_entropy n)) as [b r].
  destruct (sk_from_slice b); [reflexivity|].
  eapply wp_mono; [apply IH|]. intros o n' H. rewrite H. reflexivity.
Qed.

Lemma receive_bytes_channels id data (n : Node) :
  wp (receive_bytes id data) (fun _ n' => n_channels n' = n_channels n) n.
Proof.
  unfold receive_bytes. apply wp_bind, wp_reads_self; [|done]. intros p Hp. cbv zeta. apply wp_bind.
  unfold wp at 1, on_peer. destruct (n_peers n !! id) as [p'|]; [|done].
  destruct (Peer.input data p') as [[[to_send messages]|e|] q]; [|done|done]. cbn [map_err].
  apply wp_bind, wp_modify, wp_bind, wp_reads_self; [|intros e H; by destruct (expect_not_Err _ _ H)].
  intros q' _. cbv zeta. apply wp_bind. case_match; [|by apply wp_ret, wp_ret].
  case_match; [by apply wp_modify, wp_ret|by apply wp_ret, wp_ret].
Qed.

Lemma connect_channels remote (n : Node) :
  wp (connect_outbound remote) (fun _ n' => n_channels n' = n_channels n) n.
Proof.
  unfold connect_outbound. apply wp_bind. eapply wp_mono; [apply random_secret_key_core|].
  intros [sk|] n1 H; [|by injection H]. apply wp_bind, wp_gets.
  destruct (i_act_one _) as [r i]. apply wp_bind, wp_reads_self; [|by injection H].
  intros act1 _. apply wp_bind, wp_gets, wp_bind, wp_modify, wp_ret. by injection H.
Qed.

Lemma accept_channels (n : Node) : wp accept_inbound (fun _ n' => n_channels n' = n_channels n) n.
Proof.
  unfold accept_inbound. apply wp_bind. eapply wp_mono; [apply random_secret_key_core|].
  intros [sk|] n1 H; [|by injection H]. apply wp_bind, wp_gets. cbv zeta.
  apply wp_bind, wp_gets, wp_bind, wp_modify, wp_ret. by injection H.
Qed.

Lemma channels_lived_closed : closed channels_lived.
Proof.
  assert (Hsame : forall n n', n_channels n' = n_channels n -> channels_lived n -> channels_lived n').
  { intros n n' H. unfold channels_lived. by rewrite H. }
  split; try (intros; by eapply Hsame; [|done]).
  - intros n n' H. apply Hsame. by injection H.
  - intros id data. apply preserves_of_core; [exact Hsame|]. intros n. apply receive_bytes_channels.
  - intros remote n _ Hn. eapply wp_mono; [apply connect_channels|]. cbv beta. intros _ n' H. by eapply Hsame.
  - intros n _ Hn. eapply wp_mono; [apply accept_channels|]. cbv beta. intros _ n' H. by eapply Hsame.
  - intros A id f Hf n Hn. unfold wp, on_channel. destruct (n_channels n !! id) as [e|] eqn:E; [|done].
    specialize (Hf (ce_channel e)). destruct (f (ce_channel e)) as [r c]. cbn [fst snd] in Hf.
    assert (Hn' : r <> Panic -> channels_lived (n <| n_channels := <[id := e <| ce_channel := c |>]> (n_channels n) |>)).
    { intros Hr. apply map_Forall_insert_2; [|exact Hn].
      destruct (Hn id e E) as (c0 & Ho & Hrun). exists c0. split; [done|]. etrans; [exact Hrun|by apply Hf]. }
    destruct r; cbn [map_err]; [by apply Hn'|by apply Hn'|done].
  - intros n id c node_id Ho Hn. apply map_Forall_insert_2; [|exact Hn]. by exists c.
  - intros n id e e' He Hc Hn. apply map_Forall_insert_2; [|exact Hn]. rewrite Hc. by apply (Hn id e).
  - intros n id Hn. by apply map_Forall_delete.
  - intros n old new e e' He Hc Hn. apply map_Forall_insert_2; [|by apply map_Forall_delete].
    rewrite Hc. by apply (Hn old e).
Qed.

(** A history of events either stays within the numbers of the protocol, and
    is a run of the machine, or has left them at some point. *)
Definition outlived (c : Channel) : Prop :=
  exists c1 c2, Machine.reachable c1 /\ event_step c1 c2 /\ ~ numbers_fit c2 /\ rtc event_step c2 c.

Lemma lived_reachable c : lived c -> Machine.reachable c \/ outlived c.
Proof.
  intros (c0 & Ho & Hrun). assert (H0 : Machine.reachable c0) by by exists c0.
  clear Ho. induction Hrun as [|c1 c2 c3 Hs Hrest IH]; [by left|].
  destruct (decide (numbers_fit c2)) as [Hf|Hf].
  - apply IH. apply (reachable_steps c1); [done|]. apply rtc_once. destruct Hs as (e & r & Hr & Hp).
    exists e. split; [|done]. by exists r.
  - right. exists c1, c2. done.
Qed.

(** [C15] Whatever a node is fed (bytes of any peers, blocks, commands), each
    channel it stores is a reachable channel of the channel machine, unless it
    has left the 48-bit commitment numbers of the protocol: the node never
    touches a channel but through the channel's operations, so every theorem
    about reachable channels holds of the channels of a node. *)
Theorem node_refines_channel_machine keys entropy config n id e :
  NodeDispatch.reachable keys entropy config n -> n_channels n !! id = Some e ->
  Machine.reachable (ce_channel e) \/ outlived (ce_channel e).
Proof.
  intros Hn He. apply lived_reachable.
  exact (closed_reachable channels_lived channels_lived_closed keys entropy config
    (map_Forall_empty _) n Hn id e He).
Qed.

(** ** The node's own bookkeeping *)
(** The name a connection goes by. *)
Definition peer_name (n : Node) (id : Z) : option bytes :=
  p ← n_peers n !! id; pk ← p_node_id p; Some (pk_serialize pk).

Record node_ok (n : Node) : Prop := {
  (** Connection numbers are handed out once. *)
  ok_next : 1 <= n_next_peer n;
  ok_peers : forall id p, n_peers n !! id = Some p -> id < n_next_peer n /\ named p;
  (** A node id leads to a connection authenticated as that node. *)
  ok_names : forall k id, n_by_node_id n !! k = Some id ->
    id < n_next_peer n /\ (is_Some (n_peers n !! id) -> peer_name n id = Some k);
  ok_invoices : forall h e, n_invoices n !! h = Some e -> preimage_hash (ie_preimage e) = h;
  ok_claimable : forall h v, n_claimable n !! h = Some v -> is_Some (n_invoices n !! h);
  ok_graph : graph_ok (n_graph n) /\ g_chain_hash (n_graph n) = chain_hash (nc_network (n_config n));
}.

Lemma node_ok_core n n' : core n' = core n -> node_ok n -> node_ok n'.
Proof.
  intros H [H1 H2 H3 H4 H5 H6]. injection H as E1 E2 E3 E4 E5 E6 E7 E8 E9.
  split; unfold peer_name in *; rewrite ?E1, ?E3, ?E4, ?E5, ?E7, ?E8, ?E9; done.
Qed.

(** Replacing a connection by one that has at least its name. *)
Lemma node_ok_peer n id p p' :
  n_peers n !! id = Some p -> named p' -> (forall pk, p_node_id p = Some pk -> p_node_id p' = Some pk) ->
  node_ok n -> node_ok (n <| n_peers := <[id := p']> (n_peers n) |>).
Proof.
  intros Hp Hn Hk [H1 H2 H3 H4 H5 H6]. split; [exact H1| | |exact H4|exact H5|exact H6].
  - intros id' q Hq. change (<[id := p']> (n_peers n) !! id' = Some q) in Hq.
    change (id' < n_next_peer n /\ named q). destruct (decide (id = id')) as [<-|Hne].
    + rewrite lookup_insert_eq in Hq. injection Hq as <-. split; [|done]. by apply (H2 id p).
    + rewrite lookup_insert_ne in Hq by done. by apply H2.
  - intros k id' Hk'. destruct (H3 k id' Hk') as [Hlt Hname]. split; [exact Hlt|].
    unfold peer_name in *. change (n_peers (n <| n_peers := <[id := p']> (n_peers n) |>))
      with (<[id := p']> (n_peers n)). destruct (decide (id = id')) as [<-|Hne].
    + intros _. rewrite lookup_insert_eq. cbn. rewrite Hp in Hname. cbn in Hname.
      destruct (p_node_id p) as [pk|]; [|by specialize (Hname ltac:(by eexists))].
      rewrite (Hk pk eq_refl). by apply Hname.
    + rewrite lookup_insert_ne by done. done.
Qed.

(** A fresh connection. *)
Lemma node_ok_fresh n p :
  n_next_peer n < u64_max -> named p -> node_ok n ->
  node_ok (n <| n_next_peer := wrap 64 (n_next_peer n + 1) |>
             <| n_peers := <[n_next_peer n := p]> (n_peers n) |>).
Proof.
  intros Hb Hp [H1 H2 H3 H4 H5 H6].
  assert (Hw : wrap 64 (n_next_peer n + 1) = n_next_peer n + 1).
  { apply wrap_small. unfold uint, u64_max in *. lia. }
  rewrite Hw. split; [cbn; unfold upd; cbn; lia| | |exact H4|exact H5|exact H6].
  - intros id q Hq. change (<[n_next_peer n := p]> (n_peers n) !! id = Some q) in Hq.
    change (id < n_next_peer n + 1 /\ named q). destruct (decide (n_next_peer n = id)) as [<-|Hne].
    + rewrite lookup_insert_eq in Hq. injection Hq as <-. split; [lia|done].
    + rewrite lookup_insert_ne in Hq by done. destruct (H2 id q Hq). split; [lia|done].
  - intros k id Hk. change (n_by_node_id n !! k = Some id) in Hk.
    destruct (H3 k id Hk) as [Hlt Hname].
    split; [change (id < n_next_peer n + 1); lia|]. unfold peer_name in *.
    change (is_Some (<[n_next_peer n := p]> (n_peers n) !! id) ->
      (q ← <[n_next_peer n := p]> (n_peers n) !! id; pk ← p_node_id q; Some (pk_serialize pk)) = Some k).
    by rewrite lookup_insert_ne by lia.
Qed.

(** Naming a connection. *)
Lemma node_ok_name n id p pk :
  n_peers n !! id = Some p -> p_node_id p = Some pk -> node_ok n ->
  node_ok (n <| n_by_node_id := <[pk_serialize pk := id]> (n_by_node_id n) |>).
Proof.
  intros Hp Hpk [H1 H2 H3 H4 H5 H6]. split; [exact H1|exact H2| |exact H4|exact H5|exact H6].
  intros k id' Hk. change (<[pk_serialize pk := id]> (n_by_node_id n) !! k = Some id') in Hk.
  change (id' < n_next_peer n /\ (is_Some (n_peers n !! id') -> peer_name n id' = Some k)).
  apply lookup_insert_Some in Hk as [[<- <-]|[_ Hk]]; [|by apply H3].
  split; [by apply (H2 id p)|]. intros _. unfold peer_name. rewrite Hp. cbn. by rewrite Hpk.
Qed.

Lemma node_ok_receive id data : preserves node_ok (receive_bytes id data).
Proof.
  intros n Hn. unfold receive_bytes. apply wp_bind, wp_reads_self; [|done].
  intros p0 Hp0%ok_or_Ok. cbv zeta. apply wp_bind. unfold wp at 1, on_peer. rewrite Hp0.
  destruct (ok_peers n Hn id p0 Hp0) as [_ Hnamed]. pose proof (input_keeps data p0 Hnamed) as Hk.
  destruct (Peer.input data p0) as [r q] eqn:Ei. unfold keeps_name in Hk. cbn [fst snd] in Hk.
  assert (Hn1 : r <> Panic -> node_ok (n <| n_peers := <[id := q]> (n_peers n) |>)).
  { intros Hr. destruct Hk as [Hk|[Hk1 Hk2]]; [done|]. by apply (node_ok_peer n id p0). }
  destruct r as [[to_send messages]|e|]; [|by apply Hn1|done]. cbn [map_err].
  specialize (Hn1 ltac:(discriminate)). set (n1 := n <| n_peers := _ |>) in *.
  apply wp_bind, wp_modify. set (n2 := n1 <| n_outputs := _ |>).
  assert (Hn2 : node_ok n2) by (by apply (node_ok_core n1)).
  apply wp_bind, wp_reads_self; [|intros e H; by destruct (expect_not_Err _ _ H)].
  intros p2 Hp2%expect_Ok. cbv zeta. apply wp_bind. case_match; [|by apply wp_ret, wp_ret].
  destruct (p_node_id p2) as [pk|] eqn:Hpk; [|by apply wp_ret, wp_ret].
  apply wp_modify, wp_ret. by apply (node_ok_name n2 id p2).
Qed.

Lemma node_ok_connect remote n :
  n_next_peer n < u64_max -> node_ok n -> wp (connect_outbound remote) (fun _ => node_ok) n.
Proof.
  intros Hb Hn. unfold connect_outbound. apply wp_bind. eapply wp_mono; [apply random_secret_key_core|].
  intros o n1 H. assert (Hn1 : node_ok n1) by (by apply (node_ok_core n)).
  assert (Hb1 : n_next_peer n1 < u64_max) by (injection H as _ _ _ _ -> _ _ _ _; done).
  destruct o as [sk|]; [|done]. apply wp_bind, wp_gets. destruct (i_act_one _) as [r i].
  apply wp_bind, wp_reads_self; [|done]. intros act1 _. apply wp_bind, wp_gets, wp_bind, wp_modify, wp_ret.
  set (n2 := n1 <| n_next_peer := wrap 64 (n_next_peer n1 + 1) |>
    <| n_peers := <[n_next_peer n1 := Peer.new_outbound i remote]> (n_peers n1) |>).
  change (node_ok (n2 <| n_by_node_id := <[pk_serialize remote := n_next_peer n1]> (n_by_node_id n2) |>)).
  apply (node_ok_name n2 _ (Peer.new_outbound i remote)); [apply lookup_insert_eq|reflexivity|].
  apply node_ok_fresh; [done| |done]. unfold named. cbn. by eexists.
Qed.

Lemma node_ok_accept n :
  n_next_peer n < u64_max -> node_ok n -> wp accept_inbound (fun _ => node_ok) n.
Proof.
  intros Hb Hn. unfold accept_inbound. apply wp_bind. eapply wp_mono; [apply random_secret_key_core|].
  intros o n1 H. assert (Hn1 : node_ok n1) by (by apply (node_ok_core n)).
  assert (Hb1 : n_next_peer n1 < u64_max) by (injection H as _ _ _ _ -> _ _ _ _; done).
  destruct o as [sk|]; [|done]. apply wp_bind, wp_gets. cbv zeta.
  apply wp_bind, wp_gets, wp_bind, wp_modify, wp_ret. by apply node_ok_fresh.
Qed.

Lemma node_ok_drop n id : node_ok n -> node_ok (n <| n_peers := delete id (n_peers n) |>).
Proof.
  intros [H1 H2 H3 H4 H5 H6]. split; [exact H1| | |exact H4|exact H5|exact H6].
  - intros id' q Hq. change (delete id (n_peers n) !! id' = Some q) in Hq.
    apply lookup_delete_Some in Hq as [_ Hq]. by apply H2.
  - intros k id' Hk. destruct (H3 k id' Hk) as [Hlt Hname]. split; [exact Hlt|].
    unfold peer_name in *. change (n_peers (n <| n_peers := delete id (n_peers n) |>))
      with (delete id (n_peers n)). destruct (decide (id = id')) as [<-|Hne].
    + rewrite lookup_delete_eq. by intros [].
    + by rewrite lookup_delete_ne.
Qed.

Lemma apply_chain_hash g m g' : Graph.apply g m = Ok g' -> g_chain_hash g' = g_chain_hash g.
Proof.
  destruct m; cbn [Graph.apply].
  - by intros [_ ->]%announcement_Ok.
  - by intros (c & _ & ->)%update_Ok.
  - by intros (c & _ & ->)%node_announcement_Ok.
Qed.

Lemma node_ok_closed : closed node_ok.
Proof.
  split.
  - apply node_ok_core.
  - intros n id p p' Hp [Hid Ht] Hn. apply (node_ok_peer n id p); [done| | |done].
    + destruct (ok_peers n Hn id p Hp) as [_ H]. unfold named in *. rewrite Hid.
      destruct (p_transport p), (p_transport p'); congruence || done.
    + intros pk. by rewrite Hid.
  - apply node_ok_receive.
  - apply node_ok_connect.
  - apply node_ok_accept.
  - intros n id. apply node_ok_drop.
  - intros n k [H1 H2 H3 H4 H5 H6]. split; [exact H1|exact H2| |exact H4|exact H5|exact H6].
    intros k' id Hk. change (delete k (n_by_node_id n) !! k' = Some id) in Hk.
    apply lookup_delete_Some in Hk as [_ Hk]. by apply H3.
  - intros A id f _ n Hn. unfold wp, on_channel. destruct (n_channels n !! id) as [e|]; [|done].
    destruct (f (ce_channel e)) as [r c].
    assert (Hn' : node_ok (n <| n_channels := <[id := e <| ce_channel := c |>]> (n_channels n) |>)).
    { destruct Hn. by split. }
    by destruct r.
  - intros n id c node_id _ []. by split.
  - intros n id e e' _ _ []. by split.
  - intros n id []. by split.
  - intros n old new e e' _ _ []. by split.
  - intros n m g Hg [H1 H2 H3 H4 H5 [H6 H7]]. split; [exact H1|exact H2|exact H3|exact H4|exact H5|].
    split; [by eapply apply_graph_ok|]. etrans; [exact (apply_chain_hash _ m _ Hg)|exact H7].
  - intros n e [H1 H2 H3 H4 H5 H6]. split; [exact H1|exact H2|exact H3| | |exact H6].
    + intros h e' H. change (<[preimage_hash (ie_preimage e) := e]> (n_invoices n) !! h = Some e') in H.
      apply lookup_insert_Some in H as [[<- <-]|[_ H]]; [reflexivity|]. by apply H4.
    + intros h v Hv. change (is_Some (<[preimage_hash (ie_preimage e) := e]> (n_invoices n) !! h)).
      apply lookup_insert_is_Some. destruct (decide (preimage_hash (ie_preimage e) = h)); [by left|].
      right. split; [done|]. by apply (H5 h v).
  - intros n h v Hh [H1 H2 H3 H4 H5 H6]. split; [exact H1|exact H2|exact H3|exact H4| |exact H6].
    intros h' v' H. change (<[h := v]> (n_claimable n) !! h' = Some v') in H.
    apply lookup_insert_Some in H as [[<- _]|[_ H]]; [done|]. by apply (H5 h' v').
  - intros n h [H1 H2 H3 H4 H5 H6]. split; [exact H1|exact H2|exact H3|exact H4| |exact H6].
    intros h' v' H. change (delete h (n_claimable n) !! h' = Some v') in H.
    apply lookup_delete_Some in H as [_ H]. by apply (H5 h' v').
Qed.

Lemma node_ok_new keys entropy config : node_ok (node_new keys entropy config).
Proof. split; cbn; [lia|done..|]. split; [apply new_graph_ok|done]. Qed.

(** [C16] The node's tables stay consistent, whatever it is fed: a node id is
    mapped to a connection only if that connection authenticated (or dialled)
    that very node, so a message for a peer never travels over somebody else's
    connection, and connection numbers are never reused; an invoice is filed
    under the hash of its preimage and only invoiced payments are claimable;
    and the gossip graph keeps its invariant and its chain. *)
Theorem node_well_formed keys entropy config n :
  NodeDispatch.reachable keys entropy config n -> node_ok n.
Proof. apply (closed_reachable node_ok node_ok_closed), node_ok_new. Qed.
End NodeSafe.
