(* ===== verification/NodeMoney.v ===== *)
(** * NodeMoney: what the node does with other people's HTLCs

    Messages about a channel count only on the connection of its peer; an
    HTLC is forwarded only for its fee and its time-lock margin; a payment is
    claimed only if it pays an invoice of ours. *)
From stdpp Require Import gmap relations.
From S2P Require Import Prelude Secp Hex Types Features Text Ser Msgs Tx Shachain Keys Commitment Channel Dance Close Reestablish Machine Invoice Noise Onion Payload Graph Router NodeKeys Peer Node NodeChannel NodePayment NodeDispatch NodeInv NodeSafe.

Section NodeMoney.
Context `{HS : Secp} {Sg : Type} `{HCS : !ChannelSigner Sg}.
Context {K : Type} `{HK : !NodeSigner K Sg} {R : Type} `{HR : !EntropySource R}.
Context `{HO : HashOrder}.
Abbreviation Channel := (Channel (Sg := Sg)).
Abbreviation chan := (stm Channel ChannelError).
Abbreviation Node := (Node (Sg := Sg) (K := K) (R := R)).
Abbreviation node := (stm Node NodeError).
Abbreviation ChannelEntry := (ChannelEntry (Sg := Sg)).

(** ** Who may speak for a channel *)
(** The stored channel a message is about, for the messages of BOLT 2 that
    follow [open_channel], and [announcement_signatures].  Two other messages
    name a channel and are not among them: [open_channel], which stores a new
    one, and [error]. *)
Definition channel_of (m : Message) : option bytes :=
  match m with
  | MAcceptChannel m => Some (ac_temporary_channel_id m)
  | MFundingCreated m => Some (fc_temporary_channel_id m)
  | MFundingSigned m => Some (fs_channel_id m)
  | MChannelReady m => Some (cr_channel_id m)
  | MShutdown m => Some (sd_channel_id m)
  | MClosingSigned m => Some (cls_channel_id m)
  | MUpdateAddHtlc m => Some (add_channel_id m)
  | MUpdateFulfillHtlc m => Some (ful_channel_id m)
  | MUpdateFailHtlc m => Some (fail_channel_id m)
  | MUpdateFailMalformedHtlc m => Some (mal_channel_id m)
  | MCommitmentSigned m => Some (cs_channel_id m)
  | MRevokeAndAck m => Some (raa_channel_id m)
  | MUpdateFee m => Some (fee_channel_id m)
  | MChannelReestablish m => Some (re_channel_id m)
  | MAnnouncementSignatures m => Some (as_channel_id m)
  | _ => None
  end.

Lemma bind_err {A B} (m : node A) (f : A -> node B) e n : m n = (Err e, n) -> (m ≫= f) n = (Err e, n).
Proof. intros H. unfold mbind, stm_bind. by rewrite H. Qed.

(** The connection [peer] is not that of the channel's node. *)
Definition foreign (n : Node) (peer : Z) (e : ChannelEntry) : Prop :=
  is_Some (n_peers n !! peer) /\ peer_name n peer <> Some (pk_serialize (ce_node_id e)).

Lemma with_channel_foreign {A} (f : chan A) n peer id e :
  node_ok n -> n_channels n !! id = Some e -> foreign n peer e ->
  with_channel peer id f n = (Err ChannelNotFound, n).
Proof.
  intros Hn He [Hp Hf]. unfold with_channel, get_entry, reads_self, mbind, stm_bind. rewrite He.
  cbn [ok_or]. unfold throw_if. rewrite bool_decide_false; [done|]. intros Hb.
  by apply Hf, (ok_names n Hn).
Qed.

(** ** Messages about no channel
    What is left are the messages of a connection and of gossip, [error] and
    [open_channel].  None of them touches the entry of a stored channel whose
    peer is somebody else, but an [open_channel] that reuses its id. *)
Section Bystander.
Context (id : bytes) (e : ChannelEntry) (peer : Z).

Definition untouched (n : Node) : Prop :=
  n_channels n !! id = Some e /\ peer_name n peer <> Some (pk_serialize (ce_node_id e)).

Lemma untouched_modify (f : Node -> Node) :
  (forall n, n_channels (f n) = n_channels n /\ n_peers (f n) = n_peers n) ->
  preserves (E := NodeError) untouched (modify f).
Proof.
  intros H. apply preserves_modify. intros n [H1 H2]. destruct (H n) as [E1 E2].
  unfold untouched, peer_name. by rewrite E1, E2.
Qed.

(** A connection keeps the name it was authenticated under. *)
Lemma untouched_peer n pid p p' :
  n_peers n !! pid = Some p -> p_node_id p' = p_node_id p -> untouched n ->
  untouched (n <| n_peers := <[pid := p']> (n_peers n) |>).
Proof.
  intros Hp Hid [H1 H2]. split; [exact H1|]. unfold peer_name in *.
  change (n_peers (n <| n_peers := ?m |>)) with m. destruct (decide (pid = peer)) as [->|Hne].
  - rewrite lookup_insert_eq. rewrite Hp in H2. cbn in *. by rewrite Hid.
  - by rewrite lookup_insert_ne.
Qed.
Lemma untouched_on_peer {A} pid (f : stm Peer NoiseError A) :
  (forall p, p_node_id (f p).2 = p_node_id p) -> preserves untouched (on_peer pid f).
Proof.
  intros Hf n Hn. unfold wp, on_peer. destruct (n_peers n !! pid) as [p|] eqn:Ep; [|done].
  specialize (Hf p). destruct (f p) as [r p']. pose proof (untouched_peer n pid p p' Ep Hf Hn). by destruct r.
Qed.
Lemma untouched_update_peer pid (f : Peer -> Peer) :
  (forall p, p_node_id (f p) = p_node_id p) -> preserves untouched (update_peer pid f).
Proof.
  intros Hf. apply preserves_modify. intros n Hn. destruct (n_peers n !! pid) as [p|] eqn:Ep; [|done].
  by apply (untouched_peer n pid p).
Qed.
Lemma untouched_for_each {A} (f : A -> node unit) l :
  (forall x, preserves untouched (f x)) -> preserves untouched (for_each f l).
Proof.
  intros H. induction l as [|x l IH]; cbn [for_each]; [apply preserves_ret|].
  apply preserves_bind; [done|]. by intros.
Qed.

Lemma untouched_send pid m : preserves untouched (send_to_peer pid m).
Proof.
  unfold send_to_peer, emit. preserve; [|by apply untouched_modify].
  apply untouched_on_peer. intros p. apply (encrypt_identity _ p).
Qed.
Lemma untouched_attempt {A} (m : node A) : preserves untouched m -> preserves untouched (attempt m).
Proof. intros H. unfold attempt. preserve. exact H. Qed.
Lemma untouched_warning pid t : preserves untouched (send_warning pid t).
Proof. apply untouched_attempt, untouched_send. Qed.
Lemma untouched_relay apply m : preserves untouched (relay_gossip apply m).
Proof.
  unfold relay_gossip, broadcast_to_ready_peers. preserve.
  - intros n Hn. unfold wp, apply_gossip. by destruct (apply (n_graph n)).
  - apply untouched_for_each. intros pid. apply untouched_attempt, untouched_send.
Qed.
Lemma untouched_force_close cid reason : preserves untouched (force_close cid reason).
Proof. unfold force_close, get_entry, emit. preserve; by apply untouched_modify. Qed.

(** A disconnection acts on the channels of the connection's own node. *)
Lemma untouched_disconnected : preserves untouched (peer_disconnected peer).
Proof.
  intros n Hn. unfold peer_disconnected. apply wp_bind, wp_gets.
  destruct (n_peers n !! peer) as [p|] eqn:Ep; [|by apply wp_ret].
  assert (Hd : untouched (n <| n_peers := delete peer (n_peers n) |>)).
  { destruct Hn as [H1 _]. split; [exact H1|]. unfold peer_name.
    change (n_peers (n <| n_peers := ?m |>)) with m. by rewrite lookup_delete_eq. }
  apply wp_bind, wp_modify. destruct (p_node_id p) as [pk|] eqn:Epk; [|by apply wp_ret].
  assert (Hne : ce_node_id e <> pk).
  { intros E. destruct Hn as [_ H]. apply H. unfold peer_name. rewrite Ep. cbn. rewrite Epk. cbn. by rewrite E. }
  apply wp_preserves; [|exact Hd].
  preserve; [by apply untouched_modify| |by apply untouched_modify].
  apply untouched_for_each. intros cid n1 [H1 H2]. unfold the_entry.
  apply wp_bind, wp_reads_self; [|by intros]. intros e' He'.
  destruct (decide (ce_node_id e' = pk)) as [E|]; [|by apply wp_ret].
  unfold wp, on_channel. destruct (n_channels n1 !! cid) as [e1|] eqn:E1; [|done].
  destruct (on_disconnect (ce_channel e1)) as [r c]. assert (Hcid : cid <> id).
  { intros ->. rewrite E1 in H1. cbn in He'. congruence. }
  assert (Hk : untouched (n1 <| n_channels := <[cid := e1 <| ce_channel := c |>]> (n_channels n1) |>)).
  { split; [|exact H2]. change (n_channels (n1 <| n_channels := ?m |>)) with m.
    by rewrite lookup_insert_ne. }
  by destruct r.
Qed.

Lemma untouched_init init : preserves untouched (on_init peer init).
Proof.
  unfold on_init, emit. preserve;
    first [apply untouched_warning|apply untouched_disconnected|by apply untouched_modify|idtac].
  - by apply untouched_on_peer.
  - apply untouched_for_each. intros re. apply untouched_send.
Qed.

Lemma untouched_open open :
  oc_temporary_channel_id open <> id -> preserves untouched (on_open_channel peer open).
Proof.
  intros Hid. unfold on_open_channel, put_entry.
  preserve; first [apply untouched_warning|apply untouched_send|by apply untouched_modify|idtac].
  - apply preserves_modify. intros n [H1 H2]. split; [|exact H2].
    change (n_channels (n <| n_channels := ?m |>)) with m. by rewrite lookup_insert_ne.
  - by intros n Hn.
Qed.

Lemma stranger_harmless m :
  channel_of m = None -> (forall o, m = MOpenChannel o -> oc_temporary_channel_id o <> id) ->
  preserves untouched (handle_message peer m).
Proof.
  intros Hm Ho. destruct m; try discriminate Hm; cbn [handle_message];
    try apply untouched_relay; try apply preserves_ret.
  - apply untouched_init.
  - unfold on_error. preserve. apply untouched_force_close.
  - preserve. apply untouched_send.
  - by apply untouched_update_peer.
  - apply untouched_open. by apply Ho.
  - preserve. apply untouched_warning.
Qed.
End Bystander.

Lemma stranger_refused n peer m id e :
  node_ok n -> n_channels n !! id = Some e -> foreign n peer e ->
  channel_of m = Some id -> handle_message peer m n = (Err ChannelNotFound, n).
Proof.
  intros Hn He Hf Hm.
  assert (Hw : forall A (f : chan A), with_channel peer id f n = (Err ChannelNotFound, n)).
  { intros A f. by apply (with_channel_foreign f n peer id e). }
  destruct m; try discriminate Hm; injection Hm as <-; cbn [handle_message];
    try (apply bind_err, Hw); try apply Hw.
  - unfold NodeDispatch.on_shutdown. cbv zeta. unfold gets at 1, mbind at 1, stm_bind at 1. apply bind_err, Hw.
  - unfold NodeChannel.on_closing_signed. cbv zeta. unfold gets at 1, mbind at 1, stm_bind at 1.
    apply bind_err, Hw.
  - unfold on_announcement_signatures. cbv zeta. unfold get_entry, reads_self at 1, mbind at 1, stm_bind at 1.
    rewrite He. cbn [ok_or]. apply bind_err. unfold throw_if. rewrite bool_decide_false; [done|].
    intros Hp. destruct Hf as [_ Hf]. apply Hf. unfold peer_name.
    destruct (n_peers n !! peer) as [p|]; [|done]. cbn in *. by rewrite Hp.
Qed.


(** The exception is one: whoever sends it, an acceptable [open_channel] takes
    the place of what was stored under its temporary id. *)
Lemma open_channel_replaces peer o (n : Node) p node_id signer c accept r n' :
  nc_accept_inbound (n_config n) = true ->
  n_peers n !! peer = Some p -> p_node_id p = Some node_id ->
  ns_derive_channel_signer (n_keys n) (n_channel_counter n) = Some signer ->
  Channel.new_inbound signer (nc_channel (n_config n)) (nc_network (n_config n)) o = Ok (c, accept) ->
  handle_message peer (MOpenChannel o) n = (r, n') -> r <> Panic ->
  n_channels n' !! oc_temporary_channel_id o = Some (new_entry c node_id).
Proof.
  intros Ha Hp Hid Hs Hc Hrun Hr.
  enough (H : wp (on_open_channel peer o)
    (fun _ (n' : Node) => n_channels n' !! oc_temporary_channel_id o = Some (new_entry c node_id)) n).
  { unfold wp in H. cbn [handle_message] in Hrun. rewrite Hrun in H. by destruct r. }
  unfold on_open_channel, put_entry. apply wp_bind, wp_gets. rewrite Ha. cbn [negb].
  apply wp_bind, wp_reads_self; rewrite Hp; cbn; rewrite Hid; [|done]. intros ? [= <-].
  apply wp_bind, wp_reads_self; rewrite Hs; [|done]. intros ? [= <-].
  apply wp_bind, wp_modify. rewrite Hc. apply wp_bind, wp_modify.
  match goal with |- wp _ _ ?n1 => assert (H1 : n_channels n1 !! oc_temporary_channel_id o =
    Some (new_entry c node_id)) by apply lookup_insert_eq end.
  revert H1. apply (wp_preserves (fun n : Node => n_channels n !! oc_temporary_channel_id o = _)).
  unfold send_to_peer, emit. preserve; [|by apply preserves_modify].
  intros n1 H1. unfold wp, on_peer. destruct (n_peers n1 !! peer) as [q|]; [|exact H1].
  destruct (Peer.encrypt _ q) as [rq q']. by destruct rq.
Qed.

(** ** What we owe downstream *)
(** An HTLC we offered, or will offer when the holding cell is flushed:
    amount, payment hash, expiry and where it came from. *)
Definition Offer : Type := Z * bytes * Z * option HtlcSource.
Definition htlc_offer (h : Htlc) : Offer :=
  (h_amount_msat h, h_payment_hash h, h_cltv_expiry h, h_source h).
Definition cell_offer (op : HoldingCellOp) : option Offer :=
  match op with
  | CellAdd amount hash cltv _ source => Some (amount, hash, cltv, Some source)
  | _ => None
  end.
Definition channel_offers (c : Channel) : list Offer :=
  map htlc_offer (List.filter h_outbound (ch_htlcs c)) ++ omap cell_offer (ch_holding_cell c).
Definition offers (n : Node) (id : bytes) : list Offer :=
  match n_channels n !! id with
  | Some e => channel_offers (ce_channel e)
  | None => []
  end.

Lemma send_add_offers amount hash cltv onion source (c : Channel) :
  wp (send_add_htlc amount hash cltv onion source) (fun o c' =>
    match o with
    | Some _ => channel_offers c' ≡ₚ (amount, hash, cltv, Some source) :: channel_offers c
    | None => channel_offers c' = channel_offers c
    end) c.
Proof.
  unfold send_add_htlc, push_cell. wp_steps; try done.
  - unfold channel_offers. change (ch_holding_cell (_ <| ch_holding_cell := ?x |>)) with x.
    change (ch_htlcs (_ <| ch_holding_cell := _ |>)) with (ch_htlcs c).
    rewrite omap_app. cbn [omap list_omap cell_offer]. rewrite app_assoc, Permutation_app_comm. done.
  - unfold channel_offers. match goal with |- context [ch_htlcs ?c'] =>
      change (ch_htlcs c') with (ch_htlcs c ++ [{| h_outbound := true; h_id := ch_next_holder_htlc_id c;
        h_amount_msat := amount; h_payment_hash := hash; h_cltv_expiry := cltv; h_onion := onion;
        h_source := Some source; h_resolution := None; h_phase_holder := NotYet;
        h_phase_counterparty := Channel.Pending; h_processed := false |}]);
      change (ch_holding_cell c') with (ch_holding_cell c) end.
    rewrite List.filter_app, map_app, <- app_assoc. cbn. symmetry. apply Permutation_middle.
Qed.

Lemma update_first_offers id r hs :
  map htlc_offer (List.filter h_outbound (update_first (is_htlc false id)
    (fun h => h <| h_resolution := Some r |> <| h_phase_counterparty := Removing |>) hs)) =
  map htlc_offer (List.filter h_outbound hs).
Proof.
  induction hs as [|h hs IH]; [done|]. cbn [update_first]. destruct (is_htlc false id h) eqn:E.
  - unfold is_htlc in E. apply andb_true_iff in E as [E _]. apply eqb_prop in E.
    cbn [List.filter]. change (h_outbound (_ <| h_phase_counterparty := _ |>)) with (h_outbound h).
    by rewrite E.
  - cbn [List.filter]. destruct (h_outbound h); cbn [map]; by rewrite IH.
Qed.

Lemma send_fail_offers id reason (c : Channel) :
  wp (send_fail_htlc id reason) (fun _ c' => channel_offers c' = channel_offers c) c.
Proof.
  unfold send_fail_htlc, push_cell. wp_steps; try done.
  - unfold channel_offers. change (ch_holding_cell (_ <| ch_holding_cell := ?x |>)) with x.
    rewrite omap_app. cbn. by rewrite app_nil_r.
  - unfold channel_offers, resolve_inbound.
    match goal with |- context [ch_htlcs ?c'] => change (ch_holding_cell c') with (ch_holding_cell c) end.
    f_equal. apply (update_first_offers id (Fail reason)).
Qed.

Lemma send_commitment_offers (c : Channel) :
  wp send_commitment_signed (fun _ c' => channel_offers c' = channel_offers c) c.
Proof. unfold send_commitment_signed. wp_steps; done. Qed.

(** ** Handlers that offer nothing *)
Section Frame.
Context (n0 : Node).
Definition same_offers (n : Node) : Prop := forall id, offers n id = offers n0 id.

Lemma same_frame n n' : n_channels n' = n_channels n -> same_offers n -> same_offers n'.
Proof. intros H Hn id. unfold offers. rewrite H. apply Hn. Qed.

Lemma frame_modify (f : Node -> Node) :
  (forall n, n_channels (f n) = n_channels n) -> preserves (E := NodeError) same_offers (modify f).
Proof. intros H. apply preserves_modify. intros n. by apply same_frame. Qed.
Lemma frame_send_to_node to m : preserves same_offers (send_to_node to m).
Proof.
  unfold send_to_node, send_to_peer, emit. preserve; [|by apply frame_modify].
  intros n Hn. unfold wp, on_peer. destruct (n_peers n !! a) as [p|]; [|done].
  destruct (Peer.encrypt _ p) as [r p']. assert (same_offers (n <| n_peers := <[a := p']> (n_peers n) |>))
    by by apply (same_frame n). by destruct r.
Qed.
Lemma frame_on_channel {A} id (f : chan A) :
  (forall c, wp f (fun _ c' => channel_offers c' = channel_offers c) c) -> preserves same_offers (on_channel id f).
Proof.
  intros Hf n Hn. unfold wp, on_channel. destruct (n_channels n !! id) as [e|] eqn:E; [|done].
  specialize (Hf (ce_channel e)). unfold wp in Hf. destruct (f (ce_channel e)) as [r c].
  assert (Hn' : r <> Panic -> same_offers (n <| n_channels := <[id := e <| ce_channel := c |>]> (n_channels n) |>)).
  { intros Hr id'. rewrite <- (Hn id'). unfold offers.
    change (n_channels (n <| n_channels := ?m |>)) with m. destruct (decide (id = id')) as [<-|Hne].
    - rewrite lookup_insert_eq, E. change (ce_channel (e <| ce_channel := c |>)) with c. by destruct r.
    - by rewrite lookup_insert_ne. }
  destruct r; cbn [map_err]; [by apply Hn'|by apply Hn'|done].
Qed.

Lemma frame_flush id : preserves same_offers (flush_commitment id).
Proof.
  unfold flush_commitment, get_entry. preserve; [apply frame_on_channel, send_commitment_offers|apply frame_send_to_node].
Qed.
Lemma frame_fail_inbound id htlc code data : preserves same_offers (fail_inbound id htlc code data).
Proof.
  unfold fail_inbound, get_entry, send_and_flush. preserve;
    [apply frame_on_channel, send_fail_offers|apply frame_send_to_node|apply frame_flush].
Qed.
End Frame.

(** ** Forwarding *)
(** One offer more on [out], nothing else offered. *)
Definition one_more (n n' : Node) (out : bytes) (o : Offer) : Prop :=
  offers n' out ≡ₚ o :: offers n out /\ forall id, id <> out -> offers n' id = offers n id.

Lemma one_more_frame n n1 n2 out o : one_more n n1 out o -> same_offers n1 n2 -> one_more n n2 out o.
Proof. intros [H1 H2] H. split; [by rewrite H|]. intros id Hid. rewrite H. by apply H2. Qed.

Lemma after_offer n n1 out o (m : node unit) :
  one_more n n1 out o -> preserves (same_offers n1) m ->
  wp m (fun _ n' => same_offers n n' \/ one_more n n' out o) n1.
Proof.
  intros Ho Hm. eapply wp_mono; [by apply Hm|]. cbv beta. intros _ n' H. right. by eapply one_more_frame.
Qed.
Lemma offer_nothing n n1 out o (m : node unit) :
  same_offers n n1 -> preserves (same_offers n) m ->
  wp m (fun _ n' => same_offers n n' \/ one_more n n' out o) n1.
Proof. intros Ho Hm. eapply wp_mono; [by apply Hm|]. cbv beta. intros _ n' H. by left. Qed.

Lemma offer_forward_offers n in_channel htlc payload next out fee :
  wp (offer_forward in_channel htlc payload next out fee) (fun _ n' =>
    same_offers n n' \/ one_more n n' out (amt_to_forward payload, cih_payment_hash htlc,
      outgoing_cltv_value payload, Some (Forwarded in_channel (cih_id htlc)))) n.
Proof.
  assert (H0 : same_offers n n) by done.
  unfold offer_forward, get_entry. cbv zeta. apply wp_bind, wp_reads_self; [|by left].
  intros e He%ok_or_Ok. case_match; [by (apply offer_nothing; [|apply frame_fail_inbound])|].
  apply wp_bind. unfold wp at 1, catch, on_channel. rewrite He.
  pose proof (send_add_offers (amt_to_forward payload) (cih_payment_hash htlc)
    (outgoing_cltv_value payload) (onion_serialize next) (Forwarded in_channel (cih_id htlc))
    (ce_channel e)) as Ho. unfold wp in Ho.
  destruct (send_add_htlc _ _ _ _ _ (ce_channel e)) as [r c].
  set (o := (amt_to_forward payload, cih_payment_hash htlc, outgoing_cltv_value payload,
             Some (Forwarded in_channel (cih_id htlc)))) in *.
  set (n1 := n <| n_channels := <[out := e <| ce_channel := c |>]> (n_channels n) |>).
  assert (Hother : forall id, id <> out -> offers n1 id = offers n id).
  { intros id Hid. unfold offers. change (n_channels n1) with (<[out := e <| ce_channel := c |>]> (n_channels n)).
    by rewrite lookup_insert_ne. }
  assert (Hout : offers n1 out = channel_offers c /\ offers n out = channel_offers (ce_channel e)).
  { unfold offers. change (n_channels n1) with (<[out := e <| ce_channel := c |>]> (n_channels n)).
    by rewrite lookup_insert_eq, He. }
  destruct Hout as [Hout1 Hout2]. rewrite <- Hout1, <- Hout2 in Ho.
  destruct r as [[add|]|err|]; cbn [map_err]; [..|done].
  - assert (Hone : one_more n n1 out o) by (split; [exact Ho|exact Hother]).
    apply after_offer; [done|]. preserve; [by apply frame_modify|apply frame_send_to_node|apply frame_flush|].
    by apply frame_modify.
  - apply wp_ret. right. split; [exact Ho|exact Hother].
  - assert (Hsame : same_offers n n1).
    { intros id. destruct (decide (id = out)) as [->|Hne]; [exact Ho|by apply Hother]. }
    destruct err; (apply offer_nothing; [exact Hsame|]);
      first [apply frame_fail_inbound|apply preserves_reads_self].
Qed.

(** Policies and payloads whose sums stay within their machine integers. *)
Definition forward_fits (policy : ForwardingPolicy) (payload : HopPayload) : Prop :=
  let amt := amt_to_forward payload in
  0 <= amt /\ 0 <= fp_fee_base_msat policy /\ 0 <= fp_fee_proportional_millionths policy /\
  amt * fp_fee_proportional_millionths policy < 2 ^ 64 /\
  amt + fp_fee_base_msat policy + amt * fp_fee_proportional_millionths policy / 1000000 < 2 ^ 64 /\
  0 <= outgoing_cltv_value payload /\ 0 <= fp_cltv_expiry_delta policy /\
  outgoing_cltv_value payload + fp_cltv_expiry_delta policy < 2 ^ 32.

Lemma forwarding_fee_exact policy payload : forward_fits policy payload ->
  forwarding_fee policy (amt_to_forward payload) =
    fp_fee_base_msat policy + amt_to_forward payload * fp_fee_proportional_millionths policy / 1000000 /\
  msat_add (amt_to_forward payload) (forwarding_fee policy (amt_to_forward payload)) =
    amt_to_forward payload + (fp_fee_base_msat policy +
      amt_to_forward payload * fp_fee_proportional_millionths policy / 1000000) /\
  wrap 32 (outgoing_cltv_value payload + fp_cltv_expiry_delta policy) =
    outgoing_cltv_value payload + fp_cltv_expiry_delta policy.
Proof.
  intros (H1 & H2 & H3 & H4 & H5 & H6 & H7 & H8). unfold forwarding_fee, msat_add.
  set (x := amt_to_forward payload) in *. set (y := x * fp_fee_proportional_millionths policy) in *.
  assert (Hy : 0 <= y) by (unfold y; nia). assert (Hd : 0 <= y / 1000000) by (apply Z.div_pos; lia).
  rewrite (wrap_small 64 y) by (unfold uint; lia).
  rewrite (wrap_small 64 (_ + y / 1000000)) by (unfold uint; lia).
  rewrite (wrap_small 64) by (unfold uint; lia). rewrite (wrap_small 32) by (unfold uint; lia). done.
Qed.

(** [C13] A forwarded HTLC earns its fee and leaves the time to claim, provided
    that the sums with the sender's numbers stay within their machine integers
    ([forward_fits]: the amount to forward times our rate, and the amount plus
    our fee, below 2^64; the outgoing expiry plus our delta below 2^32).  Then,
    whatever else an onion asks for, processing the forward of an incoming HTLC
    offers at most one HTLC, on the channel the payload names, with the same
    payment hash and the incoming HTLC as its source; and if it does, the
    incoming amount covers the outgoing one plus our base and proportional fee,
    and the incoming expiry is our delta later.  The condition is on numbers the
    sender chooses, and it is needed: [NodeScenario.forward_overflow]. *)
Theorem forwards_are_covered n in_channel htlc payload next r n' :
  forward_htlc in_channel htlc payload next n = (r, n') -> r <> Panic ->
  forward_fits (nc_forwarding (n_config n)) payload ->
  same_offers n n' \/
  exists scid out, Payload.short_channel_id payload = Some scid /\ n_scid_index n !! scid = Some out /\
    one_more n n' out (amt_to_forward payload, cih_payment_hash htlc, outgoing_cltv_value payload,
      Some (Forwarded in_channel (cih_id htlc))) /\
    let policy := nc_forwarding (n_config n) in
    amt_to_forward payload + fp_fee_base_msat policy +
      amt_to_forward payload * fp_fee_proportional_millionths policy / 1000000 <= cih_amount_msat htlc /\
    outgoing_cltv_value payload + fp_cltv_expiry_delta policy <= cih_cltv_expiry htlc.
Proof.
  intros Hrun Hr Hfit. destruct (forwarding_fee_exact _ _ Hfit) as (_ & Ea & Ec).
  unfold forward_htlc, gets, mbind, stm_bind in Hrun. change (Datatypes.id n) with n in Hrun.
  assert (Hwp : forall (m : node unit) (Q : Node -> Prop), m n = (r, n') -> wp m (fun _ => Q) n -> Q n').
  { intros m Q. unfold wp. intros ->. by destruct r. }
  destruct (forward_check _ _ _ _) as [[out fee]|code|] eqn:Ef; [| |by injection Hrun as <-].
  - apply bind_Ok in Ef as (scid & Hs%ok_or_Ok & Ef). apply bind_Ok in Ef as (out' & Ho%ok_or_Ok & Ef).
    apply bind_Ok in Ef as (_ & Hfee%fail_if_Ok & Ef). apply bind_Ok in Ef as (_ & Hcltv%fail_if_Ok & Ef).
    injection Ef as -> Efee. rewrite Ea in Hfee. rewrite Ec in Hcltv.
    apply Z.ltb_ge in Hfee, Hcltv.
    destruct (Hwp _ _ Hrun (offer_forward_offers n in_channel htlc payload next out fee)) as [H|H];
      [by left|right]. exists scid, out. split_and!; [done..|]. cbv zeta. lia.
  - left. exact (Hwp _ _ Hrun (frame_fail_inbound n in_channel (cih_id htlc) code [] n ltac:(done))).
Qed.

(** ** Receiving *)
(** An HTLC that pays one of our invoices, as BOLT 4 asks of a final hop: the
    invoice's secret, at least what the sender meant to deliver, between once
    and twice the amount invoiced, and enough time left. *)
Definition pays_invoice (best_height : Z) (invoices : gmap bytes InvoiceEntry)
    (htlc : CommittedInboundHtlc) (payload : HopPayload) : Prop :=
  exists inv pd, invoices !! cih_payment_hash htlc = Some inv /\ payment_data payload = Some pd /\
    Payload.payment_secret pd = ie_payment_secret inv /\
    amt_to_forward payload <= cih_amount_msat htlc /\
    (forall required, ie_amount_msat inv = Some required ->
       required <= cih_amount_msat htlc <= 2 * required) /\
    outgoing_cltv_value payload <= cih_cltv_expiry htlc /\
    best_height + ie_min_final_cltv inv <= cih_cltv_expiry htlc.

(** Invoices whose doubled amount and deadline stay within their integers. *)
Definition invoice_fits (best_height : Z) (inv : InvoiceEntry) : Prop :=
  (forall required, ie_amount_msat inv = Some required -> 0 <= required /\ required * 2 < 2 ^ 64) /\
  0 <= best_height + ie_min_final_cltv inv < 2 ^ 32.

Lemma final_refusal_None best_height invoices htlc payload :
  (forall inv, invoices !! cih_payment_hash htlc = Some inv -> invoice_fits best_height inv) ->
  final_refusal best_height invoices htlc payload = None <-> pays_invoice best_height invoices htlc payload.
Proof.
  intros Hfit. unfold final_refusal, pays_invoice. split.
  - destruct (invoices !! cih_payment_hash htlc) as [inv|] eqn:Ei; [|done].
    destruct (Hfit inv eq_refl) as [Hf1 Hf2].
    destruct (payment_data payload) as [pd|]; [|done]. intros H. exists inv, pd.
    destruct (bool_decide_reflect (Payload.payment_secret pd = ie_payment_secret inv)) as [Hs|]; [|done].
    cbn [negb] in H. destruct (Z.ltb_spec (cih_amount_msat htlc) (amt_to_forward payload)); [done|].
    rewrite (wrap_small 32) in H by (unfold uint; lia).
    destruct (match ie_amount_msat inv with Some _ => _ | None => _ end) eqn:Er; [done|].
    destruct (Z.ltb_spec (cih_cltv_expiry htlc) (outgoing_cltv_value payload)); [done|].
    destruct (Z.ltb_spec (cih_cltv_expiry htlc) (best_height + ie_min_final_cltv inv)); [done|].
    split_and!; try done. intros required Hr. rewrite Hr in Er.
    destruct (Hf1 required Hr). rewrite wrap_small in Er by (unfold uint; lia).
    apply orb_false_iff in Er as [E1%Z.ltb_ge E2%Z.ltb_ge]. lia.
  - intros (inv & pd & Hi & -> & Hs & Ha & Hr & Hc & Hh). rewrite Hi.
    destruct (Hfit inv Hi) as [Hf1 Hf2].
    rewrite bool_decide_true by done. cbn [negb]. rewrite (proj2 (Z.ltb_ge _ _) Ha).
    rewrite (wrap_small 32) by (unfold uint; lia).
    rewrite (proj2 (Z.ltb_ge _ _) Hc), (proj2 (Z.ltb_ge _ _) Hh).
    destruct (ie_amount_msat inv) as [required|]; [|done]. destruct (Hf1 required eq_refl).
    specialize (Hr required eq_refl). rewrite (wrap_small 64) by (unfold uint; lia).
    rewrite !(proj2 (Z.ltb_ge _ _)) by lia. done.
Qed.

(** Only bytes for peers. *)
Definition is_wire (o : Output) : Prop := match o with Wire _ _ => True | _ => False end.
Definition only_wires (n n' : Node) : Prop :=
  n_claimable n' = n_claimable n /\ n_invoices n' = n_invoices n /\
  exists ws, n_outputs n' = n_outputs n ++ ws /\ Forall is_wire ws.

Lemma only_wires_frame n n1 n2 :
  n_claimable n2 = n_claimable n1 -> n_invoices n2 = n_invoices n1 -> n_outputs n2 = n_outputs n1 ->
  only_wires n n1 -> only_wires n n2.
Proof. unfold only_wires. by intros -> -> ->. Qed.

Lemma wires_send_to_node n to m : preserves (only_wires n) (send_to_node to m).
Proof.
  unfold send_to_node, send_to_peer, emit. preserve.
  - intros n1 Hn. unfold wp, on_peer. destruct (n_peers n1 !! a) as [p|]; [|done].
    destruct (Peer.encrypt _ p) as [r p']. assert (only_wires n (n1 <| n_peers := <[a := p']> (n_peers n1) |>))
      by by apply (only_wires_frame n n1). by destruct r.
  - apply preserves_modify. intros n1 (H1 & H2 & ws & H3 & H4). split; [exact H1|]. split; [exact H2|].
    exists (ws ++ [Wire a a0]). split; [|by apply Forall_app_2; [|repeat constructor]].
    change (n_outputs (n1 <| n_outputs := ?x |>)) with x. by rewrite H3, app_assoc.
Qed.
Lemma wires_on_channel {A} n id (f : chan A) : preserves (only_wires n) (on_channel id f).
Proof.
  intros n1 Hn. unfold wp, on_channel. destruct (n_channels n1 !! id) as [e|]; [|done].
  destruct (f (ce_channel e)) as [r c].
  assert (only_wires n (n1 <| n_channels := <[id := e <| ce_channel := c |>]> (n_channels n1) |>))
    by by apply (only_wires_frame n n1). by destruct r.
Qed.
Lemma wires_fail_inbound n id htlc code data : preserves (only_wires n) (fail_inbound id htlc code data).
Proof.
  unfold fail_inbound, send_and_flush, flush_commitment, get_entry. preserve;
    first [apply wires_on_channel|apply wires_send_to_node].
Qed.

(** [C12] A payment is claimed exactly when it pays an invoice of ours.  If
    the HTLC pays an invoice, it becomes claimable, the application is told,
    and with [auto_claim] it is claimed at once; if it does not (unknown hash,
    wrong or missing secret, too little, more than twice the amount, too
    little time), the HTLC is failed back and nothing becomes claimable: the
    only outputs are bytes for peers. *)
Theorem claimed_iff_invoice_paid n channel_id htlc payload :
  (forall inv, n_invoices n !! cih_payment_hash htlc = Some inv -> invoice_fits (n_best_height n) inv) ->
  (pays_invoice (n_best_height n) (n_invoices n) htlc payload ->
     let n1 := n <| n_claimable := <[cih_payment_hash htlc :=
                      (channel_id, cih_id htlc, cih_amount_msat htlc)]> (n_claimable n) |>
                 <| n_outputs := n_outputs n ++
                      [Event (EvPaymentClaimable (cih_payment_hash htlc) (cih_amount_msat htlc))] |> in
     receive_final_htlc channel_id htlc payload n =
       if nc_auto_claim (n_config n) then claim_payment (cih_payment_hash htlc) n1 else (Ok tt, n1)) /\
  (~ pays_invoice (n_best_height n) (n_invoices n) htlc payload ->
     exists code data,
       receive_final_htlc channel_id htlc payload n = fail_inbound channel_id (cih_id htlc) code data n /\
       wp (receive_final_htlc channel_id htlc payload) (fun _ n' => only_wires n n') n).
Proof.
  intros Hfit. pose proof (final_refusal_None _ _ htlc payload Hfit) as Hiff.
  assert (E : receive_final_htlc channel_id htlc payload n =
    match final_refusal (n_best_height n) (n_invoices n) htlc payload with
    | Some (code, data) => fail_inbound channel_id (cih_id htlc) code data n
    | None => (_ ← modify (fun n => n <| n_claimable :=
          <[cih_payment_hash htlc := (channel_id, cih_id htlc, cih_amount_msat htlc)]> (n_claimable n) |>);
        _ ← emit (Event (EvPaymentClaimable (cih_payment_hash htlc) (cih_amount_msat htlc)));
        if nc_auto_claim (n_config n) then claim_payment (cih_payment_hash htlc) else mret tt) n
    end).
  { unfold receive_final_htlc, gets, mbind at 1, stm_bind at 1. change (Datatypes.id n) with n.
    by destruct (final_refusal _ _ _ _) as [[code data]|]. }
  split.
  - intros Hp. rewrite E, (proj2 Hiff Hp). cbv zeta.
    unfold modify, emit, mbind, stm_bind, modify. by destruct (nc_auto_claim (n_config n)).
  - intros Hp. destruct (final_refusal _ _ _ _) as [[code data]|]; [|by destruct Hp; apply Hiff].
    exists code, data. split; [exact E|]. unfold wp. rewrite E.
    apply (wires_fail_inbound n channel_id (cih_id htlc) code data n).
    split; [done|]. split; [done|]. exists []. split; [by rewrite app_nil_r|constructor].
Qed.
End NodeMoney.
