(* ===== verification/NodePay.v ===== *)
(** * NodePay: a payment along a route, end to end

    Composes the router, the onion, the payload codec and the HTLC handlers of
    the node: what [pay_invoice] sends is what every hop of the route reads,
    every forwarding node finds its policy satisfied, and the payee finds its
    invoice paid. *)
From stdpp Require Import gmap.
From S2P Require Import Prelude Secp Hex Types Features Text Ser Tlv Msgs Tx Shachain Keys Commitment Channel Dance Close Reestablish Invoice Noise Onion Payload Graph Router NodeKeys Peer Node NodeChannel NodePayment.

Section NodePay.
Context `{HS : Secp} {L : SecpLaws HS}.

(** ** Routes, hop by hop *)
Lemma path_consecutive g p h hs :
  path g p (hop_node_id h) (hop_amount_msat h) (hop_cltv_expiry h) hs ->
  forall i a b, (h :: hs) !! i = Some a -> (h :: hs) !! Datatypes.S i = Some b ->
  exists policy cap,
    (hop_short_channel_id b, hop_node_id a, policy, cap) ∈ all_edges g (hint_edges p) (hop_node_id b) /\
    hop_amount_msat a = msat_add (hop_amount_msat b) (Graph.fee_for policy (hop_amount_msat b)) /\
    hop_cltv_expiry a = wrap 32 (hop_cltv_expiry b + Graph.cltv_expiry_delta policy).
Proof.
  intros Hp i. revert h hs Hp. induction i as [|i IH]; intros h hs Hp a b Ha Hb.
  - injection Ha as <-. destruct hs as [|h' hs]; [done|]. injection Hb as <-.
    inversion Hp as [|? ? scid policy cap amt lock ? Hp' He _]; subst. by exists policy, cap.
  - destruct hs as [|h' hs]; [done|]. cbn in Ha. apply (IH h' hs); [|exact Ha|exact Hb].
    inversion Hp as [|? ? scid policy cap amt lock ? Hp' He _]; subst. exact Hp'.
Qed.

Lemma path_final g p h hs z :
  path g p (hop_node_id h) (hop_amount_msat h) (hop_cltv_expiry h) hs -> last (h :: hs) = Some z ->
  hop_amount_msat z = rp_amount_msat p /\ hop_cltv_expiry z = final_cltv_expiry p.
Proof.
  revert h. induction hs as [|h' hs IH]; intros h Hp Hz.
  - injection Hz as <-. by inversion Hp.
  - rewrite last_cons_cons in Hz. apply (IH h'); [|done].
    inversion Hp as [|? ? scid policy cap amt lock ? Hp' He _]; subst. exact Hp'.
Qed.

(** ** The payloads of a route *)
Lemma hop_payloads_length secret total hs : length (hop_payloads secret total hs) = length hs.
Proof. induction hs as [|h [|h' hs] IH]; cbn in *; congruence. Qed.

Lemma hop_payloads_forward secret total hs i a b :
  hs !! i = Some a -> hs !! Datatypes.S i = Some b ->
  hop_payloads secret total hs !! i =
    Some (hop_forward (hop_amount_msat b) (hop_cltv_expiry b) (hop_short_channel_id b)).
Proof.
  revert i. induction hs as [|h hs IH]; intros i Ha Hb; [done|]. destruct i as [|i].
  - injection Ha as <-. destruct hs as [|h' hs]; [done|]. by injection Hb as <-.
  - cbn [hop_payloads]. by apply IH.
Qed.

Lemma hop_payloads_final secret total hs z :
  last hs = Some z ->
  last (hop_payloads secret total hs) = Some (final_hop (hop_amount_msat z) (hop_cltv_expiry z) secret total).
Proof.
  induction hs as [|h [|h' hs] IH]; intros Hz; [done|by injection Hz as <-|].
  rewrite last_cons_cons in Hz. specialize (IH Hz). cbn [hop_payloads] in *.
  by rewrite last_cons_cons.
Qed.

(** ** In range *)
Definition hop_fits (h : RouteHop) : Prop :=
  u64 (hop_amount_msat h) /\ u32 (hop_cltv_expiry h) /\ u64 (hop_short_channel_id h).

Lemma hop_payloads_ok secret total hs :
  Forall hop_fits hs -> length secret = 32%nat -> bytes_ok secret -> u64 total ->
  Forall payload_ok (hop_payloads secret total hs).
Proof.
  intros Hh Hs Hb Ht. induction Hh as [|h hs (H1 & H2 & H3) Hh IH]; [constructor|].
  cbn [hop_payloads]. constructor; [|done]. destruct hs as [|h' hs].
  - by split.
  - apply Forall_cons in Hh as [(H4 & H5 & H6) _]. by split.
Qed.

Lemma write_record_long t v : (2 <= length (write_record t v))%nat.
Proof.
  assert (H : forall x, (1 <= length (Bigsize.write x))%nat).
  { intros x. unfold Bigsize.write, write_u8. repeat case_match; rewrite ?length_app, ?length_be_bytes; cbn; lia. }
  unfold write_record. rewrite !length_app. pose proof (H t). pose proof (H (Z.of_nat (length v))). lia.
Qed.
Lemma hop_encode_long p : (2 <= length (hop_encode p))%nat.
Proof.
  unfold hop_encode. pose proof (write_record_long 2 (write_tu64 (amt_to_forward p))).
  destruct (Payload.short_channel_id p), (payment_data p), (payment_metadata p);
    rewrite !length_app; lia.
Qed.

(** ** Delivery *)
(** What an HTLC carries when it reaches a hop of the route. *)
Definition arriving (h : RouteHop) (payment_hash onion : bytes) (id : Z) : CommittedInboundHtlc :=
  {| cih_id := id; cih_amount_msat := hop_amount_msat h; cih_payment_hash := payment_hash;
     cih_cltv_expiry := hop_cltv_expiry h; cih_onion := onion |}.

(** A node whose forwarding policy is the one it announced. *)
Definition announces (fp : ForwardingPolicy) (d : DirectionalInfo) : Prop :=
  fp_fee_base_msat fp = Graph.fee_base_msat d /\
  fp_fee_proportional_millionths fp = Graph.fee_proportional_millionths d /\
  fp_cltv_expiry_delta fp = Graph.cltv_expiry_delta d.

Lemma forward_check_announced fp d idx h b scid out hash onion id :
  announces fp d -> idx !! scid = Some out ->
  hop_amount_msat h = msat_add (hop_amount_msat b) (Graph.fee_for d (hop_amount_msat b)) ->
  hop_cltv_expiry h = wrap 32 (hop_cltv_expiry b + Graph.cltv_expiry_delta d) ->
  forward_check fp idx (arriving h hash onion id)
    (hop_forward (hop_amount_msat b) (hop_cltv_expiry b) scid) =
    Ok (out, Graph.fee_for d (hop_amount_msat b)).
Proof.
  intros (E1 & E2 & E3) Hout Ha Hc. unfold forward_check, hop_forward, arriving.
  cbn [Payload.short_channel_id ok_or mbind result_bind]. rewrite Hout.
  cbn [ok_or mbind result_bind amt_to_forward outgoing_cltv_value cih_amount_msat cih_cltv_expiry].
  unfold forwarding_fee. rewrite E1, E2, E3, Hc.
  change (wrap 64 (Graph.fee_base_msat d +
    wrap 64 (hop_amount_msat b * Graph.fee_proportional_millionths d) / 1000000))
    with (Graph.fee_for d (hop_amount_msat b)).
  rewrite Ha, !Z.ltb_irrefl. reflexivity.
Qed.

(** The payee's side of an invoice. *)
Definition invoiced (invoices : gmap bytes InvoiceEntry) (invoice : Bolt11Invoice) : Prop :=
  exists inv, invoices !! Invoice.payment_hash invoice = Some inv /\
    ie_payment_secret inv = Invoice.payment_secret invoice /\
    ie_amount_msat inv = Invoice.amount_msat invoice /\
    ie_min_final_cltv inv = min_final_cltv_or_default invoice.

Lemma final_accepted height invoices invoice amount z onion id :
  invoiced invoices invoice -> hop_amount_msat z = amount -> u64 amount ->
  (forall required, Invoice.amount_msat invoice = Some required -> amount = required /\ required * 2 < 2 ^ 64) ->
  0 <= height + min_final_cltv_or_default invoice <= hop_cltv_expiry z -> u32 (hop_cltv_expiry z) ->
  final_refusal height invoices (arriving z (Invoice.payment_hash invoice) onion id)
    (final_hop (hop_amount_msat z) (hop_cltv_expiry z) (Invoice.payment_secret invoice) amount) = None.
Proof.
  intros (inv & Hi & Hs & Ha & Hm) Hz Hu Hreq Hh Hc. unfold final_refusal, arriving, final_hop.
  cbn [cih_payment_hash cih_amount_msat cih_cltv_expiry payment_data Payload.payment_secret amt_to_forward
    outgoing_cltv_value]. rewrite Hi, Hs, Hm, Ha. rewrite bool_decide_true by done. cbn [negb].
  rewrite !Z.ltb_irrefl, Hz. unfold uint in *.
  rewrite (wrap_small 32) by (unfold uint; lia).
  rewrite (proj2 (Z.ltb_ge (hop_cltv_expiry z) _)) by lia.
  destruct (Invoice.amount_msat invoice) as [required|]; [|done].
  destruct (Hreq required eq_refl) as [-> Hr]. rewrite Z.ltb_irrefl. cbn [orb].
  rewrite (wrap_small 64) by (unfold uint; lia). by rewrite (proj2 (Z.ltb_ge _ _)) by lia.
Qed.

Lemma route_hops_fit g p h hs :
  path g p (hop_node_id h) (hop_amount_msat h) (hop_cltv_expiry h) hs ->
  u64 (rp_amount_msat p) -> u32 (final_cltv_expiry p) ->
  Forall (fun x => u64 (hop_short_channel_id x)) (h :: hs) -> Forall hop_fits (h :: hs).
Proof.
  intros Hp Ha Hc Hs. rewrite Forall_forall in Hs |- *. intros x Hx. specialize (Hs x Hx).
  apply list_elem_of_lookup in Hx as [i Hi].
  destruct ((h :: hs) !! Datatypes.S i) as [b|] eqn:Hb.
  - destruct (path_consecutive g p h hs Hp i x b Hi Hb) as (d & cap & _ & E1 & E2).
    unfold hop_fits. rewrite E1, E2. unfold msat_add.
    split; [apply wrap_uint; lia|]. split; [apply wrap_uint; lia|done].
  - assert (Hl : last (h :: hs) = Some x).
    { rewrite last_lookup. apply lookup_ge_None in Hb. assert (H := lookup_lt_Some _ _ _ Hi).
      rewrite <- Hi. f_equal. lia. }
    destruct (path_final g p h hs x Hp Hl) as [E1 E2]. unfold hop_fits. by rewrite E1, E2.
Qed.

Lemma construct_shifts session_key secrets ps ad packet :
  construct session_key secrets ps ad = Ok packet -> (sum_shifts ps <= PAYLOADS_LEN)%nat.
Proof.
  unfold construct. do 2 (case_match; [done|]). case_match eqn:E; [done|]. intros _.
  by apply Nat.ltb_ge in E.
Qed.

Context {Sg : Type} `{HCS : !ChannelSigner Sg}.
Context {K : Type} `{HK : !NodeSigner K Sg} {R : Type} `{HR : !EntropySource R} `{HO : HashOrder}.
Abbreviation Node := (Node (Sg := Sg) (K := K) (R := R)).

(** [C11] A payment works end to end.  When [pay_invoice] has found a route and
    built its onion, then (for hops that hold the keys of the route): the
    packet survives the wire; peeled hop by hop, it hands each hop a payload
    that decodes to the instructions meant for it; every forwarding node whose
    policy is the one it announced, given the HTLC and the payload the route
    prescribes for it, passes all the checks of [forward_htlc] and earns
    exactly its fee; and the payee, if the invoice is one of its own and at
    most the margin of blocks has passed, passes all the checks of
    [receive_final_htlc]. *)
Theorem payment_reaches_payee (n : Node) invoice amount route session_key sks secrets packet :
  let params := route_params n invoice amount in
  let hash := Invoice.payment_hash invoice in
  let payloads := hop_payloads (Invoice.payment_secret invoice) amount (hops route) in
  (forall e, u64 (n_scorer n e)) -> u64 amount -> node_id n <> Invoice.payee invoice ->
  find_route (n_graph n) (n_scorer n) params = Ok route ->
  map hop_node_id (hops route) = map sk_public_key sks ->
  payment_onion session_key invoice amount route = Ok (secrets, packet) ->
  length (Invoice.payment_secret invoice) = 32%nat -> bytes_ok (Invoice.payment_secret invoice) ->
  Forall (fun h => u64 (hop_short_channel_id h)) (hops route) ->
  Forall (fun h => h <> ZERO32)
    (inner_hmacs [] hash (pad_stream session_key) (combine secrets (map hop_encode payloads))) ->
  onion_parse (onion_serialize packet) = Ok packet /\
  peel_all sks packet hash = Ok (combine secrets (map hop_encode payloads)) /\
  Forall2 (fun raw payload => hop_decode raw = Ok payload) (map hop_encode payloads) payloads /\
  (forall i a b, hops route !! i = Some a -> hops route !! Datatypes.S i = Some b ->
     exists d cap payload,
       (hop_short_channel_id b, hop_node_id a, d, cap)
         ∈ all_edges (n_graph n) (hint_edges params) (hop_node_id b) /\
       payloads !! i = Some payload /\
       forall fp idx out onion id, announces fp d -> idx !! hop_short_channel_id b = Some out ->
         forward_check fp idx (arriving a hash onion id) payload =
           Ok (out, Graph.fee_for d (hop_amount_msat b))) /\
  (forall z, last (hops route) = Some z -> exists payload, last payloads = Some payload /\
     forall height invoices onion id, invoiced invoices invoice ->
       (forall required, Invoice.amount_msat invoice = Some required ->
          amount = required /\ required * 2 < 2 ^ 64) ->
       0 <= min_final_cltv_or_default invoice -> 0 <= n_best_height n -> 0 <= height ->
       height <= n_best_height n + nc_final_cltv_margin (n_config n) ->
       n_best_height n + min_final_cltv_or_default invoice + nc_final_cltv_margin (n_config n) < 2 ^ 32 ->
       0 <= nc_final_cltv_margin (n_config n) ->
       final_refusal height invoices (arriving z hash onion id) payload = None).
Proof.
  intros params hash payloads Hsc Ha Hne Hroute Hsks Honion Hlen Hok Hscids Hz.
  destruct (find_route_path (n_graph n) (n_scorer n) params route Hsc Ha Hne Hroute) as
    (fh & hop & hs & Ehs & _ & _ & _ & _ & _ & _ & Hpath & _).
  assert (Hc : u32 (final_cltv_expiry params)) by (apply wrap_uint; lia).
  destruct route as [hps ra rl]. cbn [hops] in *. subst hps.
  pose proof (route_hops_fit _ _ _ _ Hpath Ha Hc Hscids) as Hfit.
  unfold payment_onion in Honion. cbn [hops] in Honion. fold payloads hash in Honion.
  apply bind_Ok in Honion as (secs & Hss & Honion). apply bind_Ok in Honion as (pk & Hcon & Honion).
  apply Ok_inj in Honion. injection Honion as -> ->. rewrite Hsks in Hss.
  assert (Hl : length payloads = length sks).
  { rewrite <- (length_map sk_public_key sks), <- Hsks, length_map. apply hop_payloads_length. }
  destruct (onion_route_run session_key sks secrets (map hop_encode payloads) hash Hss) as
    (packet' & Hcon' & _ & Hparse & Hpeel).
  { by rewrite length_map. }
  { intros ->. destruct hs; discriminate Hsks. }
  { by eapply construct_shifts. }
  { rewrite Forall_map. apply Forall_true. intros x. apply hop_encode_long. }
  { exact Hz. }
  assert (packet' = packet) as ->.
  { rewrite Hcon' in Hcon. by apply Ok_inj in Hcon. }
  split_and!; [exact Hparse|exact Hpeel| | |].
  - pose proof (hop_payloads_ok (Invoice.payment_secret invoice) amount _ Hfit Hlen Hok Ha) as Hp.
    fold payloads in Hp. clear -Hp. induction Hp as [|x l Hx Hl IH]; [constructor|].
    constructor; [by apply hop_decode_encode|exact IH].
  - intros i a b Hi Hb. destruct (path_consecutive _ _ _ _ Hpath i a b Hi Hb) as (d & cap & He & E1 & E2).
    exists d, cap, (hop_forward (hop_amount_msat b) (hop_cltv_expiry b) (hop_short_channel_id b)).
    split; [exact He|]. split; [by apply hop_payloads_forward with a|].
    intros fp idx out onion id Hfp Hidx. by apply forward_check_announced.
  - intros z Hlast. destruct (path_final _ _ _ _ z Hpath Hlast) as [E1 E2].
    eexists. split; [by apply hop_payloads_final|].
    intros height invoices onion id Hinv Hreq H1 H2 H3 H4 H5 H6.
    apply final_accepted; [done|exact E1|done|exact Hreq| |by rewrite E2].
    rewrite E2. unfold params, route_params. cbn [final_cltv_expiry].
    rewrite (wrap_small 32 (_ + min_final_cltv_or_default invoice)) by (unfold uint; lia).
    rewrite wrap_small by (unfold uint; lia). lia.
Qed.
End NodePay.
