(* ===== verification/NodeGossip.v ===== *)
(** * NodeGossip: announcing our own channels

    The announcement and the update the node assembles for a channel of its
    own pass the checks of the graph: everybody who validates gossip the way
    this code does accepts them. *)
From stdpp Require Import gmap.
From S2P Require Import Prelude Secp Hex Types Features Text Ser Msgs Tx Shachain Keys Commitment Channel Dance Close Reestablish Machine Invoice Noise Onion Payload Graph Router NodeKeys Peer Node NodeChannel NodePayment NodeDispatch NodeInv NodeSafe.

(** Running a sequence one operation at a time. *)
Section Run.
Context {St E : Type}.
Lemma run_reads {A B} (g : St -> result E A) (f : A -> stm St E B) s a :
  g s = Ok a -> (reads_self g ≫= f) s = f a s.
Proof. intros H. unfold reads_self, mbind, stm_bind. by rewrite H. Qed.
Lemma run_gets {A B} (g : St -> A) (f : A -> stm St E B) s : (gets g ≫= f) s = f (g s) s.
Proof. reflexivity. Qed.
Lemma run_modify {B} (g : St -> St) (f : unit -> stm St E B) s : (modify g ≫= f) s = f tt (g s).
Proof. reflexivity. Qed.
Lemma run_ret {A B} (a : A) (f : A -> stm St E B) s : (mret a ≫= f) s = f a s.
Proof. reflexivity. Qed.
Lemma run_then {A B} (m : stm St E A) (f : A -> stm St E B) s a s' :
  m s = (Ok a, s') -> (m ≫= f) s = f a s'.
Proof. intros H. unfold mbind, stm_bind. by rewrite H. Qed.
End Run.

Section NodeGossip.
Context `{HS : Secp} {L : SecpLaws HS} {Sg : Type} `{HCS : !ChannelSigner Sg}.
Context {K : Type} `{HK : !NodeSigner K Sg} (keys_ok : K -> Prop) {HKL : NodeSignerLaws K Sg keys_ok}.
Context {R : Type} `{HR : !EntropySource R} `{HO : HashOrder}.
Abbreviation Channel := (Channel (Sg := Sg)).
Abbreviation Node := (Node (Sg := Sg) (K := K) (R := R)).
Abbreviation node := (stm Node NodeError).
Abbreviation ChannelEntry := (ChannelEntry (Sg := Sg)).

(** What broadcasting leaves alone. *)
Definition settled (n n' : Node) : Prop :=
  n_graph n' = n_graph n /\ n_config n' = n_config n /\ n_keys n' = n_keys n /\
  n_channels n' = n_channels n /\ n_now n' = n_now n.

Lemma settled_broadcast (n : Node) m : preserves (settled n) (broadcast_to_ready_peers m).
Proof.
  unfold broadcast_to_ready_peers. preserve.
  induction a as [|id ids IH]; cbn [for_each]; [apply preserves_ret|].
  apply preserves_bind; [|by intros]. unfold attempt. preserve. unfold send_to_peer, emit. preserve.
  - intros n1 Hn. unfold wp, on_peer. destruct (n_peers n1 !! id) as [p|]; [|done].
    destruct (Peer.encrypt _ p) as [r p']. assert (settled n (n1 <| n_peers := <[id := p']> (n_peers n1) |>))
      by exact Hn. by destruct r.
  - apply preserves_modify. intros n1 Hn. exact Hn.
Qed.

(** ** The announcement *)
(** The keys of a channel, in the order of the announcement. *)
Definition we_are_first (n : Node) (e : ChannelEntry) : bool :=
  match bytes_cmp (pk_serialize (node_id n)) (pk_serialize (ce_node_id e)) with Lt => true | _ => false end.

(** The peer's half of the signatures is good for our announcement. *)
Definition peer_half_ok (unsigned : ChannelAnnouncement) (e : ChannelEntry) (cp : ChannelPublicKeys)
    (theirs : AnnouncementSignatures) : Prop :=
  let hash := sha256d (channel_announcement_payload unsigned) in
  verify_ecdsa hash (as_node_signature theirs) (ce_node_id e) = true /\
  verify_ecdsa hash (as_bitcoin_signature theirs) (funding_pubkey cp) = true.

Lemma ids_differ_ordered (n : Node) (e : ChannelEntry) :
  node_id n <> ce_node_id e ->
  bytes_cmp (pk_serialize (if we_are_first n e then node_id n else ce_node_id e))
            (pk_serialize (if we_are_first n e then ce_node_id e else node_id n)) = Lt.
Proof.
  intros Hne. unfold we_are_first.
  destruct (bytes_cmp (pk_serialize (node_id n)) (pk_serialize (ce_node_id e))) eqn:E; [|exact E|].
  - apply bytes_cmp_eq in E. by apply pk_serialize_inj in E.
  - rewrite bytes_cmp_antisym, E. reflexivity.
Qed.

Section Announcement.
Context (n : Node) (e : ChannelEntry) (scid : Z) (cp : ChannelPublicKeys) (dummy : Signature)
  (theirs : AnnouncementSignatures).
Let unsigned := (unsigned_announcement n e scid cp dummy).1.
Let hash := sha256d (channel_announcement_payload unsigned).
Let full := with_signatures unsigned (we_are_first n e) (ns_sign_gossip (n_keys n) hash)
  (sign_announcement_with_funding_key (ch_signer (ce_channel e)) hash) theirs.
Hypothesis Hkeys : keys_ok (n_keys n).
Hypothesis Hbitcoin : forall h, verify_ecdsa h
  (sign_announcement_with_funding_key (ch_signer (ce_channel e)) h)
  (funding_pubkey (ch_holder_pubkeys (ce_channel e))) = true.
Hypothesis Htheirs : peer_half_ok unsigned e cp theirs.
Hypothesis Hne : node_id n <> ce_node_id e.

Lemma full_announcement_verifies : announcement_verifies full = true.
Proof.
  destruct Htheirs as [H1 H2]. fold unsigned hash in H1, H2.
  pose proof (ns_gossip_verifies (n_keys n) hash Hkeys) as H3. pose proof (Hbitcoin hash) as H4.
  unfold announcement_verifies. change (sha256d (channel_announcement_payload full)) with hash.
  unfold full, with_signatures. cbn [ca_node_signature_1 ca_node_signature_2 ca_bitcoin_signature_1
    ca_bitcoin_signature_2 ca_node_id_1 ca_node_id_2 ca_bitcoin_key_1 ca_bitcoin_key_2].
  change (ca_node_id_1 unsigned) with (if we_are_first n e then node_id n else ce_node_id e).
  change (ca_node_id_2 unsigned) with (if we_are_first n e then ce_node_id e else node_id n).
  change (ca_bitcoin_key_1 unsigned) with (if we_are_first n e
    then funding_pubkey (ch_holder_pubkeys (ce_channel e)) else funding_pubkey cp).
  change (ca_bitcoin_key_2 unsigned) with (if we_are_first n e
    then funding_pubkey cp else funding_pubkey (ch_holder_pubkeys (ce_channel e))).
  revert H1 H2 H3 H4. generalize hash. intros h H1 H2 H3 H4. unfold node_id.
  destruct (we_are_first n e); by rewrite H1, H2, H3, H4.
Qed.

(** The graph takes it, if it does not know the channel. *)
Lemma full_announcement_stored :
  g_chain_hash (n_graph n) = chain_hash (nc_network (n_config n)) ->
  channels (n_graph n) !! scid = None ->
  exists g c, apply_channel_announcement (n_graph n) full (Some (ch_funding_amount_sat (ce_channel e))) = Ok g /\
    g_chain_hash g = g_chain_hash (n_graph n) /\ channels g !! scid = Some c /\
    (if we_are_first n e then node_1 c else node_2 c) = node_id n /\
    (if we_are_first n e then node_2 c else node_1 c) = ce_node_id e /\
    capacity_sat c = Some (ch_funding_amount_sat (ce_channel e)) /\
    one_to_two c = None /\ two_to_one c = None.
Proof.
  intros Hchain Hnew. eexists _, _. split; [apply announcement_Ok; split; [|reflexivity]; split_and!|].
  - symmetry. exact Hchain.
  - exact Hnew.
  - unfold ids_ordered. change (ca_node_id_1 full) with (if we_are_first n e then node_id n else ce_node_id e).
    change (ca_node_id_2 full) with (if we_are_first n e then ce_node_id e else node_id n).
    by rewrite (ids_differ_ordered n e Hne).
  - exact full_announcement_verifies.
  - split; [reflexivity|]. change (ca_short_channel_id full) with scid.
    change (channels (_ <| nodes := _ |>)) with
      (<[scid := {| node_1 := ca_node_id_1 full; node_2 := ca_node_id_2 full;
         capacity_sat := Some (ch_funding_amount_sat (ce_channel e)); one_to_two := None; two_to_one := None |}]>
       (channels (n_graph n))).
    split; [apply lookup_insert_eq|]. cbn [node_1 node_2 capacity_sat one_to_two two_to_one].
    change (ca_node_id_1 full) with (if we_are_first n e then node_id n else ce_node_id e).
    change (ca_node_id_2 full) with (if we_are_first n e then ce_node_id e else node_id n).
    by destruct (we_are_first n e).
Qed.
End Announcement.

(** ** The update *)
(** The policy we announce for a channel. *)
Definition our_policy (n : Node) (e : ChannelEntry) : DirectionalInfo :=
  let policy := nc_forwarding (n_config n) in
  {| timestamp := wrap 32 (n_now n); enabled := true;
     Graph.cltv_expiry_delta := fp_cltv_expiry_delta policy; Graph.htlc_minimum_msat := 1;
     Graph.htlc_maximum_msat := wrap 64 (ch_funding_amount_sat (ce_channel e) * 1000);
     Graph.fee_base_msat := fp_fee_base_msat policy;
     Graph.fee_proportional_millionths := fp_fee_proportional_millionths policy |}.

Lemma our_update_built (n : Node) id e scid dummy :
  n_channels n !! id = Some e -> ch_short_channel_id (ce_channel e) = Some scid ->
  dummy_sig = Some dummy ->
  exists update, build_our_channel_update id (we_are_first n e) n = (Ok update, n) /\
    cu_chain_hash update = chain_hash (nc_network (n_config n)) /\
    cu_short_channel_id update = scid /\ from_node_1 update = we_are_first n e /\
    update_policy update = our_policy n e /\
    cu_signature update = ns_sign_gossip (n_keys n) (sha256d (channel_update_payload update)).
Proof.
  intros He Hs Hd. unfold build_our_channel_update, get_entry, reads_self, gets, mbind, stm_bind, mret, stm_ret.
  rewrite He. cbn [ok_or]. rewrite Hs. cbn [ok_or]. rewrite Hd. cbn [expect]. eexists. split; [reflexivity|].
  split; [reflexivity|]. split; [reflexivity|]. split; [by destruct (we_are_first n e)|]. split; [|reflexivity].
  unfold update_policy, our_policy. by destruct (we_are_first n e).
Qed.

Lemma process_no_panic (c : CipherState) : process c <> Panic.
Proof. by rewrite process_eq. Qed.
Lemma encrypt_no_panic m (p : Peer) : (Peer.encrypt m p).1 <> Panic.
Proof.
  unfold Peer.encrypt. destruct (p_transport p) as [| |t|]; try done.
  assert (H : (encrypt_message m t).1 <> Panic).
  { unfold encrypt_message, throw_if, send_process, mbind, stm_bind, mret, stm_ret.
    destruct (MAX_MSG_LEN <? _); [done|]. cbn [fail_if].
    pose proof (process_no_panic (t_send t)). destruct (process (t_send t)) as [[[k1 n1] s1]| |]; try done.
    set (t1 := t <| t_send := s1 |>). pose proof (process_no_panic (t_send t1)).
    by destruct (process (t_send t1)) as [[[k2 n2] s2]| |]. }
  by destruct (encrypt_message m t).
Qed.

(** Broadcasting always comes to an end, whatever becomes of the messages. *)
Lemma broadcast_runs m (n : Node) :
  exists n', broadcast_to_ready_peers m n = (Ok tt, n') /\ settled n n'.
Proof.
  assert (H : (broadcast_to_ready_peers m n).1 = Ok tt).
  { unfold broadcast_to_ready_peers, gets, mbind at 1, stm_bind at 1. generalize (peers_where is_ready n).
    intros ids. revert n. induction ids as [|id ids IH]; intros n; [reflexivity|]. cbn [for_each].
    unfold mbind at 1, stm_bind at 1. assert (E : (attempt (send_to_peer id m) n).1 = Ok tt).
    { unfold attempt, catch, send_to_peer, on_peer, emit, modify, mbind, stm_bind, mret, stm_ret.
      destruct (n_peers n !! id) as [p|]; [|reflexivity].
      assert (Hp : (Peer.encrypt (Msgs.encode m) p).1 <> Panic) by apply encrypt_no_panic.
      destruct (Peer.encrypt _ p) as [[]]; done. }
    destruct (attempt _ n) as [[[]| |] n1]; done || apply IH. }
  pose proof (settled_broadcast n m n ltac:(done)) as Hs. unfold wp in Hs.
  destruct (broadcast_to_ready_peers m n) as [[[]| |] n']; try done. by exists n'.
Qed.

(** [C30] A node's own channel enters its graph: once both halves of the
    signatures are there, [maybe_announce_channel] assembles an announcement
    that passes every check the graph makes of anybody's announcement
    (ordered ids, four signatures, known chain), stores the channel with its
    capacity, and fills the node's own direction, and only that, with the
    policy of its configuration; the entry is marked announced, and the
    broadcasts, whatever becomes of them, do not undo any of it. *)
Theorem our_announcement_accepted (n : Node) id e scid cp dummy theirs :
  let unsigned := (unsigned_announcement n e scid cp dummy).1 in
  node_ok n -> keys_ok (n_keys n) -> n_channels n !! id = Some e ->
  ch_announce (ce_channel e) = true -> is_usable (ce_channel e) = true ->
  ch_short_channel_id (ce_channel e) = Some scid ->
  ch_counterparty_pubkeys (ce_channel e) = Some cp -> dummy_sig = Some dummy ->
  ce_sent_announcement_sigs e = true -> ce_announced e = false ->
  ce_their_announcement_sigs e = Some theirs ->
  (forall h, verify_ecdsa h (sign_announcement_with_funding_key (ch_signer (ce_channel e)) h)
    (funding_pubkey (ch_holder_pubkeys (ce_channel e))) = true) ->
  peer_half_ok unsigned e cp theirs -> node_id n <> ce_node_id e ->
  channels (n_graph n) !! scid = None ->
  exists n' c, maybe_announce_channel id n = (Ok tt, n') /\
    channels (n_graph n') !! scid = Some c /\
    (if we_are_first n e then node_1 c else node_2 c) = node_id n /\
    (if we_are_first n e then node_2 c else node_1 c) = ce_node_id e /\
    capacity_sat c = Some (ch_funding_amount_sat (ce_channel e)) /\
    slot c (we_are_first n e) = Some (our_policy n e) /\ slot c (negb (we_are_first n e)) = None /\
    n_channels n' !! id = Some (e <| ce_announced := true |>).
Proof.
  intros unsigned Hok Hkeys He Hann Huse Hscid Hcp Hdummy Hsent Hfresh Htheirs Hbtc Hhalf Hne Hnew.
  destruct (ok_graph n Hok) as [_ Hchain].
  destruct (full_announcement_stored n e scid cp dummy theirs Hkeys Hbtc Hhalf Hne Hchain Hnew)
    as (g & c & Hg & Hgc & Hc & H1 & H2 & H3 & H4 & H5).
  set (e1 := e <| ce_announced := true |>).
  set (n1 := n <| n_channels := <[id := e1]> (n_channels n) |> <| n_graph := g |>).
  assert (E1 : maybe_announce_channel id n = (
    _ ← broadcast_to_ready_peers (MChannelAnnouncement (with_signatures unsigned (we_are_first n e)
        (ns_sign_gossip (n_keys n) (sha256d (channel_announcement_payload unsigned)))
        (sign_announcement_with_funding_key (ch_signer (ce_channel e))
           (sha256d (channel_announcement_payload unsigned))) theirs));
    update ← build_our_channel_update id (we_are_first n e);
    _ ← apply_gossip (fun g => apply_channel_update g update);
    broadcast_to_ready_peers (MChannelUpdate update)) n1).
  { unfold maybe_announce_channel. rewrite run_gets. change (Datatypes.id n) with n.
    rewrite He, Hann, Huse. cbn [negb orb].
    rewrite (run_reads _ _ n (Some (unsigned, we_are_first n e))); cycle 1.
    { unfold build_our_announcement. by rewrite He, Hscid, Hcp, Hdummy. }
    cbv zeta iota. rewrite (run_reads _ _ n scid) by (by rewrite Hscid). rewrite Hsent. cbn [negb].
    rewrite run_ret, Hfresh, Htheirs. unfold publish_announcement, the_entry. cbv zeta.
    rewrite (run_reads _ _ n e) by (by rewrite He). rewrite run_gets. change (Datatypes.id n) with n.
    unfold update_entry. rewrite run_modify, He. fold e1.
    rewrite (run_then _ _ _ (Ok tt) n1); [reflexivity|]. unfold apply_gossip.
    change (n_graph (n <| n_channels := <[id := e1]> (n_channels n) |>)) with (n_graph n).
    fold unsigned in Hg. by rewrite Hg. }
  rewrite E1. clear E1.
  match goal with |- context [broadcast_to_ready_peers ?m ≫= _] =>
    destruct (broadcast_runs m n1) as (n2 & Hb & (S1 & S2 & S3 & S4 & S5)) end.
  rewrite (run_then _ _ _ _ _ Hb). clear Hb.
  assert (He2 : n_channels n2 !! id = Some e1).
  { rewrite S4. change (n_channels n1) with (<[id := e1]> (n_channels n)). apply lookup_insert_eq. }
  assert (Hfirst : we_are_first n2 e1 = we_are_first n e) by (unfold we_are_first, node_id; by rewrite S3).
  destruct (our_update_built n2 id e1 scid dummy He2 Hscid Hdummy) as (u & Hu & U1 & U2 & U3 & U4 & U5).
  rewrite Hfirst in Hu, U3. rewrite (run_then _ _ _ _ _ Hu).
  assert (Hpol : update_policy u = our_policy n e).
  { rewrite U4. unfold our_policy. by rewrite S2, S5. }
  assert (Hstore : exists g', apply_channel_update g u = Ok g' /\
    channels g' !! scid = Some (set_slot c (we_are_first n e) (our_policy n e))).
  { eexists. split.
    - apply update_Ok. exists c. split; [|reflexivity]. rewrite U2. split_and!.
      + rewrite U1, S2, Hgc. symmetry. exact Hchain.
      + exact Hc.
      + unfold update_verifies, update_signer. rewrite U3, U5, S3, H1. by apply ns_gossip_verifies.
      + unfold slot. rewrite H4, H5. by destruct (from_node_1 u).
    - rewrite U2, U3, Hpol. apply lookup_insert_eq. }
  destruct Hstore as (g' & Hg' & Hc').
  rewrite (run_then _ _ n2 (Ok tt) (n2 <| n_graph := g' |>)); cycle 1.
  { unfold apply_gossip. rewrite S1. change (n_graph n1) with g. by rewrite Hg'. }
  destruct (broadcast_runs (MChannelUpdate u) (n2 <| n_graph := g' |>)) as (n4 & -> & (T1 & _ & _ & T4 & _)).
  exists n4, (set_slot c (we_are_first n e) (our_policy n e)). split; [reflexivity|].
  destruct (set_slot_ends c (we_are_first n e) (our_policy n e)) as (-> & -> & ->).
  rewrite T1, T4. split; [exact Hc'|]. split; [exact H1|]. split; [exact H2|]. split; [exact H3|].
  rewrite !slot_set_slot, eqb_reflx. split; [reflexivity|]. split; [|exact He2].
  unfold slot. rewrite H4, H5. by destruct (we_are_first n e).
Qed.
End NodeGossip.
