(* ===== verification/NodeScenario.v ===== *)
(** * NodeScenario: a node that has opened a channel

    A node over the toy curve: it dials a peer, finishes the handshake,
    exchanges [init]s and opens a channel, then accepts a connection from
    somebody else.  The theorems about the node are applied to its states;
    nothing is hashed, the steps are taken symbolically. *)
From stdpp Require Import gmap relations.
From S2P Require Import Prelude Secp Hex Types Features Text Ser Msgs Tx Shachain Keys Commitment Channel Dance Close Reestablish Ledger Moves Machine Sample Invoice Noise Onion Payload Graph Router NodeKeys Peer Node NodeChannel NodePayment NodeDispatch NodeInv NodeSafe NodeMoney NodePay NodeGossip.

(** ** A toy node *)
#[local] Instance toy_node_signer : NodeSigner (HS := toy_secp) (SecretKey (Secp := toy_secp)) toy_signer := {
  ns_node_id k := sk_public_key (Secp := toy_secp) k;
  ns_ecdh k other := ecdh (Secp := toy_secp) other k;
  ns_sign_gossip k h := sign_ecdsa (Secp := toy_secp) h k;
  ns_sign_invoice_digest k digest := sign_ecdsa_recoverable (Secp := toy_secp) digest k;
  ns_noise_secret k := k;
  ns_derive_channel_signer _ _ := Some (sample_signer 10);
}.
#[local] Instance toy_node_laws : NodeSignerLaws (HS := toy_secp) (SecretKey (Secp := toy_secp)) toy_signer (fun _ => True).
Proof. split; [|done..]. intros k h _. apply verify_sign. Qed.

#[local] Instance toy_entropy : EntropySource unit := fun _ => (replicate 32 5, tt).
#[local] Instance toy_order : HashOrder := {
  peers_order A m := (map_to_list m).*1;
  channels_order A m := (map_to_list m).*1;
}.
Lemma toy_order_laws : HashOrderLaws toy_order.
Proof. by split. Qed.

Abbreviation ToyNode := (Node (HS := toy_secp) (Sg := toy_signer) (K := SecretKey (Secp := toy_secp)) (R := unit)).
Abbreviation ToyEntry := (ChannelEntry (HS := toy_secp) (Sg := toy_signer)).

Definition toy_config : NodeConfig := node_config_new Regtest [].
Definition toy_us : SecretKey (Secp := toy_secp) := toy_of 3.
Definition toy_peer : SecretKey (Secp := toy_secp) := toy_of 9.
Definition toy_peer_id : PublicKey (Secp := toy_secp) := sk_public_key (Secp := toy_secp) toy_peer.
Definition toy_node : ToyNode := node_new toy_us tt toy_config.
Definition toy_init : Message (HS := toy_secp) :=
  MInit {| init_global_features := []; init_features := []; init_networks := None |}.

Lemma toy_random (n : ToyNode) : random_secret_key n = (Ok (toy_of (of_be (replicate 32 5))), n).
Proof.
  unfold random_secret_key. change KEY_DRAWS with (Datatypes.S 255). generalize 255%nat. intros k.
  cbn [random_secret_key_loop]. eapply (stm_run _ _ n (replicate 32 5) n); [|reflexivity].
  unfold random_bytes, get_random_bytes, toy_entropy. destruct n as [? ? [] ? ? ? ? ? ? ? ? ? ? ? ? ? ? ? ?]. reflexivity.
Qed.

(** Dialling the peer. *)
Lemma toy_connects : exists act1 i,
  i_act_one (initiator_new toy_us toy_peer_id (toy_of (of_be (replicate 32 5))))
    = (Ok act1, i) /\
  run (InConnect toy_peer_id) toy_node =
    (true, toy_node <| n_next_peer := 2 |>
      <| n_peers := <[1 := Peer.new_outbound i toy_peer_id]> ∅ |>
      <| n_by_node_id := <[pk_serialize (Secp := toy_secp) toy_peer_id := 1]> ∅ |>).
Proof.
  destruct (session_run (S := toy_secp) toy_us toy_peer (toy_of (of_be (replicate 32 5))) (toy_of 9))
    as (act1 & _ & _ & i & _ & _ & E & _).
  exists act1, i. split; [exact E|]. unfold run, connect_outbound.
  rewrite (run_then _ _ _ _ _ (toy_random toy_node)), run_gets.
  change (ns_noise_secret (n_keys toy_node)) with toy_us. fold toy_peer_id in E. rewrite E. reflexivity.
Qed.

(** Sending on a connection that is up. *)
Lemma toy_send (n : ToyNode) id p t m :
  n_peers n !! id = Some p -> p_transport p = Ready t -> sendable (Msgs.encode m) ->
  exists d t', send_to_peer id m n = (Ok tt,
    n <| n_peers := <[id := p <| p_transport := Ready t' |>]> (n_peers n) |>
      <| n_outputs := n_outputs n ++ [Wire id d] |>).
Proof.
  intros Hp Ht Hm. exists (frame (t_send t) (Msgs.encode m)), (t <| t_send := after_frame (t_send t) |>).
  unfold send_to_peer, on_peer, emit, modify, mbind, stm_bind. rewrite Hp.
  unfold Peer.encrypt. rewrite Ht, encrypt_message_eq, decide_True by exact Hm. reflexivity.
Qed.

(** ** The connection comes up *)
(** What the later steps need of the node. *)
Record toy_live (n : ToyNode) : Prop := {
  tl_keys : n_keys n = toy_us;
  tl_config : n_config n = toy_config;
  tl_channels : n_channels n = ∅;
  tl_next : n_next_peer n = 2;
  tl_name : n_by_node_id n !! pk_serialize (Secp := toy_secp) toy_peer_id = Some 1;
  tl_peer : exists p t, n_peers n !! 1 = Some p /\ p_transport p = Ready t /\ is_ready p = true /\
    p_node_id p = Some toy_peer_id;
}.

Lemma toy_init_sendable : sendable (Msgs.encode toy_init).
Proof. apply Z.leb_le. reflexivity. Qed.
Lemma toy_init_decodes : decode (Msgs.encode toy_init) = Ok toy_init.
Proof. reflexivity. Qed.

Lemma toy_handles_init (n : ToyNode) p t :
  n_keys n = toy_us -> n_config n = toy_config -> n_channels n = ∅ -> n_next_peer n = 2 ->
  n_by_node_id n !! pk_serialize (Secp := toy_secp) toy_peer_id = Some 1 ->
  n_peers n !! 1 = Some p -> p_transport p = Ready t -> p_node_id p = Some toy_peer_id ->
  p_init_sent p = true ->
  exists n', handle_plaintext 1 (Msgs.encode toy_init) n = (Ok tt, n') /\ toy_live n'.
Proof.
  intros Hk Hc Hch Hn Hb Hp Ht Hid Hs. unfold handle_plaintext. rewrite toy_init_decodes.
  unfold handle_message, toy_init, on_init. rewrite run_gets, Hc. cbv zeta.
  change (unknown_required_bits _ _) with (@None Z). cbn [init_networks].
  set (p' := p <| p_features := [] |> <| p_init_received := true |>).
  set (n1 := n <| n_peers := <[1 := p']> (n_peers n) |>).
  rewrite (run_then _ _ n tt n1) by (unfold on_peer; rewrite Hp; reflexivity).
  assert (Hp1 : n_peers n1 !! 1 = Some p') by apply lookup_insert_eq.
  rewrite (run_reads _ _ n1 p') by (by rewrite Hp1).
  assert (Hr : is_ready p' = true).
  { unfold is_ready. change (p_transport p') with (p_transport p). rewrite Ht.
    change (p_init_sent p') with (p_init_sent p). by rewrite Hs. }
  rewrite Hr. change (p_node_id p') with (p_node_id p). rewrite Hid.
  rewrite (run_then _ _ n1 tt (n1 <| n_outputs := n_outputs n1 ++ [Event (EvPeerConnected 1 toy_peer_id)] |>))
    by reflexivity.
  set (n2 := n1 <| n_outputs := _ |>). rewrite (run_reads _ _ n2 []).
  { exists n2. split; [reflexivity|]. split; try done. exists p', t. split; [exact Hp1|].
    by split_and!. }
  unfold reestablishes. change (n_channels n2) with (n_channels n). rewrite Hch. reflexivity.
Qed.

(** The peer's act and its [init], in one read. *)
Lemma toy_comes_up (n : ToyNode) data p0 p t act3 :
  n_keys n = toy_us -> n_config n = toy_config -> n_channels n = ∅ -> n_next_peer n = 2 ->
  n_by_node_id n !! pk_serialize (Secp := toy_secp) toy_peer_id = Some 1 ->
  n_peers n !! 1 = Some p0 -> transport_ready p0 = false ->
  input data p0 = (Ok ([act3], [Msgs.encode toy_init]), p) ->
  p_transport p = Ready t -> p_node_id p = Some toy_peer_id ->
  exists n', run (InBytes 1 data) n = (true, n') /\ toy_live n'.
Proof.
  intros Hk Hc Hch Hn Hb Hp0 Hr0 Hi Ht Hid.
  set (n1 := n <| n_peers := <[1 := p]> (n_peers n) |>).
  set (n2 := n1 <| n_outputs := n_outputs n1 ++ [Wire 1 act3] |>).
  set (n3 := n2 <| n_by_node_id := <[pk_serialize (Secp := toy_secp) toy_peer_id := 1]> (n_by_node_id n2) |>).
  assert (H1 : receive_bytes 1 data n = (Ok (true, [Msgs.encode toy_init]), n3)).
  { unfold receive_bytes. rewrite (run_reads _ _ n p0) by (by rewrite Hp0). rewrite Hr0. cbn [negb andb].
    rewrite (run_then _ _ n ([act3], [Msgs.encode toy_init]) n1) by (unfold on_peer; rewrite Hp0, Hi; reflexivity).
    rewrite run_modify. change (n1 <| n_outputs := n_outputs n1 ++ map (Wire 1) [act3] |>) with n2.
    rewrite (run_reads _ _ n2 p); cycle 1.
    { change (n_peers n2) with (<[1 := p]> (n_peers n)). by rewrite lookup_insert_eq. }
    unfold transport_ready. rewrite Ht, Hid. cbn [negb andb]. reflexivity. }
  assert (Hp3 : n_peers n3 !! 1 = Some p) by apply lookup_insert_eq.
  assert (H2 : exists n5 t', send_init 1 n3 = (Ok tt, n5) /\ n_keys n5 = n_keys n /\
      n_config n5 = n_config n /\ n_channels n5 = n_channels n /\ n_next_peer n5 = n_next_peer n /\
      n_by_node_id n5 = n_by_node_id n3 /\
      n_peers n5 !! 1 = Some (p <| p_transport := Ready t' |> <| p_init_sent := true |>)).
  { unfold send_init. rewrite run_gets. replace (n_config n3) with toy_config by (symmetry; exact Hc).
    edestruct (toy_send n3 1 p t) as (d & t' & Hs); [exact Hp3|exact Ht| |].
    2: rewrite (run_then _ _ _ _ _ Hs). { apply Z.leb_le. reflexivity. }
    set (n4 := n3 <| n_peers := _ |> <| n_outputs := _ |>).
    eexists _, t'. split; [reflexivity|]. unfold update_peer.
    change (n_peers n4) with (<[1 := p <| p_transport := Ready t' |>]> (n_peers n3)).
    rewrite lookup_insert_eq. split_and!; try reflexivity. apply lookup_insert_eq. }
  destruct H2 as (n5 & t' & H2 & K1 & K2 & K3 & K4 & K5 & K6).
  destruct (toy_handles_init n5 (p <| p_transport := Ready t' |> <| p_init_sent := true |>) t') as (n6 & H3 & Hl);
    [by rewrite K1|by rewrite K2|by rewrite K3|by rewrite K4| |exact K6|reflexivity|exact Hid|reflexivity|].
  { rewrite K5. apply lookup_insert_eq. }
  exists n6. split; [|exact Hl]. unfold run, peer_input.
  rewrite (run_then _ _ _ _ _ H1). rewrite (run_then _ _ _ _ _ H2). cbn [for_each].
  rewrite (run_then _ _ _ _ _ H3). reflexivity.
Qed.

Lemma toy_connected : exists n : ToyNode,
  NodeDispatch.reachable toy_us tt toy_config n /\ toy_live n.
Proof.
  destruct (session_run (S := toy_secp) toy_us toy_peer (toy_of (of_be (replicate 32 5))) (toy_of 9))
    as (act1 & act2 & act3 & i & ti & tr & E & _ & Hfeed & _). fold toy_peer_id in E, Hfeed.
  destruct toy_connects as (act1' & i' & E' & Hrun). rewrite E in E'. injection E' as <- <-.
  set (n1 := toy_node <| n_next_peer := 2 |> <| n_peers := _ |> <| n_by_node_id := _ |>) in Hrun.
  assert (H1 : NodeDispatch.reachable toy_us tt toy_config n1).
  { eapply reach_step; [apply reach_new| |exists (InConnect toy_peer_id); exact Hrun]. done. }
  set (tr' := tr <| t_send := after_frame (t_send tr) |>).
  destruct (Hfeed [Msgs.encode toy_init] (frame (t_send tr) (Msgs.encode toy_init)) tr'
    [act2 ++ frame (t_send tr) (Msgs.encode toy_init)]) as (p & t & Hf & Ht & Hid & _).
  { cbn [encrypt_all]. rewrite (run_then _ _ tr (frame (t_send tr) (Msgs.encode toy_init)) tr').
    - rewrite run_ret, app_nil_r. reflexivity.
    - by rewrite encrypt_message_eq, decide_True by apply toy_init_sendable. }
  { cbn [concat]. by rewrite app_nil_r. }
  cbn [feed] in Hf. destruct (input _ _) as [[[ts ms]|e|] q] eqn:Ei; [|discriminate Hf..].
  rewrite !app_nil_r in Hf. injection Hf as -> -> ->.
  destruct (toy_comes_up n1 _ _ p t act3 eq_refl eq_refl eq_refl eq_refl
    ltac:(apply lookup_insert_eq) ltac:(apply lookup_insert_eq) eq_refl Ei Ht Hid) as (n2 & Hr2 & Hl).
  exists n2. split; [|exact Hl]. eapply reach_step; [exact H1| |eexists; exact Hr2]. done.
Qed.

(** ** A channel, and a stranger *)
Definition toy_temp_id : bytes := replicate 32 5.

Lemma toy_new_channel : exists (c : ToyChannel) msg,
  Channel.new_outbound (sample_signer 10) default_config Regtest toy_temp_id 1000000 0 253 = Ok (c, msg).
Proof. unfold Channel.new_outbound. destruct (toy_point 10 0) as [p ->]. by do 2 eexists. Qed.

Lemma toy_send_any (n : ToyNode) id m : exists r n', send_to_peer id m n = (r, n') /\ r <> Panic /\
  n_channels n' = n_channels n /\ n_next_peer n' = n_next_peer n /\ n_keys n' = n_keys n.
Proof.
  unfold send_to_peer, on_peer, emit, modify, mbind, stm_bind.
  destruct (n_peers n !! id) as [p|]; [|by do 2 eexists].
  pose proof (encrypt_no_panic (Msgs.encode m) p) as Hp.
  destruct (Peer.encrypt _ p) as [[d|e|] p']; [by do 2 eexists..|done].
Qed.

(** A reachable node with a channel to [toy_peer], and a connection, number 2,
    whose handshake has not even started. *)
Lemma toy_stranger : exists (n : ToyNode) e p,
  NodeDispatch.reachable toy_us tt toy_config n /\ n_channels n !! toy_temp_id = Some e /\
  ce_node_id e = toy_peer_id /\ n_peers n !! 2 = Some p /\ p_node_id p = None.
Proof.
  destruct toy_connected as (n & Hr & [Hk Hc Hch Hn Hb (p & t & Hp & Ht & Hready & Hid)]).
  destruct toy_new_channel as (c & msg & Ec).
  set (n1 := n <| n_channel_counter := wrap 64 (n_channel_counter n + 1) |>).
  set (n2 := n1 <| n_channels := <[toy_temp_id := new_entry c toy_peer_id]> (n_channels n1) |>).
  assert (H1 : exists n3, run (InOpen toy_peer_id 1000000 0) n = (true, n3) /\
    n_channels n3 = n_channels n2 /\ n_next_peer n3 = 2 /\ n_keys n3 = toy_us).
  { destruct (toy_send_any n2 1 (MOpenChannel msg)) as (r & n3 & Es & Hp3 & H1 & H2 & H3).
    exists n3. split; [|split; [exact H1|split; [exact (eq_trans H2 Hn)|exact (eq_trans H3 Hk)]]]. unfold run, open_channel.
    rewrite (run_reads _ _ n 1) by (by rewrite Hb).
    rewrite (run_then _ _ n tt n) by (unfold throw_if; rewrite Hp, Hready; reflexivity).
    rewrite (run_reads _ _ n (sample_signer 10)) by done. rewrite run_modify. fold n1.
    rewrite (run_then _ _ n1 toy_temp_id n1); cycle 1.
    { unfold random_bytes, get_random_bytes, toy_entropy. clear -n. unfold n1. destruct n as [? ? []]. reflexivity. }
    rewrite run_gets. change (n_config n1) with (n_config n). rewrite Hc.
    rewrite (run_reads _ _ n1 (c, msg)).
    - unfold put_entry. rewrite run_modify. fold n2. unfold mbind, stm_bind. rewrite Es. clear -Hp3. destruct r; [reflexivity..|done].
    - change (map_err EChannel (Channel.new_outbound (sample_signer 10) default_config Regtest toy_temp_id 1000000 0 253)
        = Ok (c, msg)). rewrite Ec. reflexivity. }
  destruct H1 as (n3 & H3 & E1 & E2 & E3).
  assert (Hr3 : NodeDispatch.reachable toy_us tt toy_config n3).
  { eapply reach_step; [exact Hr| |eexists; exact H3]. by rewrite Hn. }
  set (q := Peer.new_inbound (responder_new toy_us (toy_of (of_be (replicate 32 5))))).
  assert (H4 : run InAccept n3 = (true, n3 <| n_next_peer := 3 |> <| n_peers := <[2 := q]> (n_peers n3) |>)).
  { unfold run, accept_inbound. rewrite (run_then _ _ _ _ _ (toy_random n3)), run_gets. cbv zeta.
    rewrite run_gets, E2, E3. reflexivity. }
  exists (n3 <| n_next_peer := 3 |> <| n_peers := <[2 := q]> (n_peers n3) |>), (new_entry c toy_peer_id), q.
  split; [eapply reach_step; [exact Hr3|by rewrite E2|eexists; exact H4]|]. split.
  { change (n_channels n3 !! toy_temp_id = Some (new_entry c toy_peer_id)). rewrite E1. apply lookup_insert_eq. }
  split; [reflexivity|]. split; [apply lookup_insert_eq|reflexivity].
Qed.

(** ** The theorems at these states *)
Lemma node_refines_channel_machine_witness :
  exists (n : ToyNode) e, n_channels n !! toy_temp_id = Some e /\
    (Machine.reachable (ce_channel e) \/ outlived (ce_channel e)).
Proof.
  destruct toy_stranger as (n & e & p & Hr & He & _). exists n, e. split; [exact He|].
  exact (node_refines_channel_machine toy_us tt toy_config n toy_temp_id e Hr He).
Defined.

Lemma node_well_formed_witness :
  exists n : ToyNode, n_by_node_id n !! pk_serialize (Secp := toy_secp) toy_peer_id = Some 1 /\ node_ok n.
Proof.
  destruct toy_connected as (n & Hr & Hl). exists n. split; [exact (tl_name n Hl)|].
  exact (node_well_formed toy_us tt toy_config n Hr).
Defined.


(** But it may have it force-closed: [error] messages are not checked against
    the channel's peer. *)
Theorem stranger_closes_channel :
  exists (n : ToyNode) e p, NodeDispatch.reachable toy_us tt toy_config n /\
    n_channels n !! toy_temp_id = Some e /\ n_peers n !! 2 = Some p /\ p_node_id p = None /\
    handle_message 2 (MError {| err_channel_id := toy_temp_id; err_data := [] |}) n =
      force_close toy_temp_id (str "peer error: ") n.
Proof.
  destruct toy_stranger as (n & e & p & Hr & He & _ & Hp & Hid). exists n, e, p.
  do 4 (split; [done|]). unfold handle_message, on_error. cbv zeta. rewrite run_gets.
  rewrite (bool_decide_true (is_Some _)) by (by exists e). reflexivity.
Qed.

(** ** A node with a usable channel *)
Definition live_channel : ToyChannel :=
  sample_located <| ch_state := Normal |> <| ch_short_channel_id := Some 5 |>.
Definition live_entry : ToyEntry := new_entry live_channel toy_peer_id.
Definition paying_node : ToyNode :=
  toy_node <| n_channels := {[ sample_id := live_entry ]} |> <| n_scid_index := {[ 5 := sample_id ]} |>
    <| n_best_height := 100 |>.

Definition toy_htlc : CommittedInboundHtlc :=
  {| cih_id := 4; cih_amount_msat := 2001200; cih_payment_hash := replicate 32 6;
     cih_cltv_expiry := 440; cih_onion := [] |}.
Definition toy_next : OnionPacket (S := toy_secp) :=
  {| version := 0; ephemeral_key := toy_of 7; payloads := []; hmac := [] |}.

(** The HTLC is forwarded, and every millisatoshi of the fee was in it. *)
Lemma forwards_are_covered_witness :
  let payload := hop_forward 2000000 400 5 in
  let out := forward_htlc [1] toy_htlc payload toy_next paying_node in
  one_more paying_node out.2 sample_id
    (2000000, cih_payment_hash toy_htlc, 400, Some (Forwarded [1] 4)) /\
  2000000 + 1000 + 2000000 * 100 / 1000000 <= cih_amount_msat toy_htlc.
Proof.
  intros payload out.
  assert (Hr : match out.1 with Panic => false | _ => true end = true) by reflexivity.
  assert (Ho : length (offers out.2 sample_id) = 1%nat) by reflexivity.
  destruct (forwards_are_covered paying_node [1] toy_htlc payload toy_next out.1 out.2)
    as [H|(scid & id & Hs & Hi & H1 & H2 & _)].
  - apply surjective_pairing.
  - intros E. by rewrite E in Hr.
  - change (forward_fits default_forwarding payload). repeat split; cbn; lia.
  - rewrite H in Ho. discriminate Ho.
  - injection Hs as <-. injection Hi as <-. split; [exact H1|exact H2].
Defined.

(** The bound on the sums of [forwards_are_covered] is needed: over a channel
    whose peer chose a reserve and an in-flight limit to match, an HTLC of
    1 msat makes the node offer one of 1.8e19 msat (the fee, the sum with the
    fee and the balance check all wrap). *)
Definition greedy_channel : ToyChannel :=
  live_channel <| ch_params := (ch_params live_channel)
    <| counterparty_max_htlc_value_in_flight_msat := 2 ^ 64 - 1 |>
    <| counterparty_selected_reserve_sat := 18444899585 |> |>.
Definition greedy_node : ToyNode :=
  paying_node <| n_channels := {[ sample_id := new_entry greedy_channel toy_peer_id ]} |>.

Theorem forward_overflow :
  let dust := {| cih_id := 4; cih_amount_msat := 1; cih_payment_hash := replicate 32 6;
                 cih_cltv_expiry := 440; cih_onion := [] |} in
  let amount := 18446725628809966866 in
  offers (forward_htlc [1] dust (hop_forward amount 400 5) toy_next greedy_node).2 sample_id =
    [(amount, replicate 32 6, 400, Some (Forwarded [1] 4))].
Proof. vm_compute. reflexivity. Qed.

(** ** A node with an invoice *)
Definition toy_invoice_entry : InvoiceEntry :=
  {| ie_preimage := replicate 32 4; ie_payment_secret := replicate 32 8; ie_amount_msat := Some 2000000;
     ie_min_final_cltv := 144 |}.
Definition invoicing_node : ToyNode :=
  paying_node <| n_invoices := {[ replicate 32 6 := toy_invoice_entry ]} |>.

Lemma claimed_iff_invoice_paid_witness :
  let payload := final_hop 2000000 400 (replicate 32 8) 2000000 in
  exists n1, receive_final_htlc sample_id toy_htlc payload invoicing_node =
      claim_payment (replicate 32 6) n1 /\
    n_claimable n1 !! replicate 32 6 = Some (sample_id, 4, 2001200).
Proof.
  intros payload. eexists. destruct (claimed_iff_invoice_paid invoicing_node sample_id toy_htlc payload) as [H _].
  - intros inv Hinv. injection Hinv as <-. split; [|change (0 <= 100 + 144 < 2 ^ 32); lia].
    intros required Hq. change (Some 2000000 = Some required) in Hq. injection Hq as <-. lia.
  - split; [apply H|apply lookup_insert_eq]. do 2 eexists. split; [reflexivity|]. split; [reflexivity|].
    split; [reflexivity|]. split; [change (2000000 <= 2001200); lia|].
    split; [intros required Hq|].
    { change (Some 2000000 = Some required) in Hq. injection Hq as <-. cbn. lia. }
    change (400 <= 440 /\ 100 + 144 <= 440). lia.
Defined.

(** ** A payment over the channel *)
Definition toy_invoice : Bolt11Invoice (S := toy_secp) :=
  {| network := Regtest; amount_msat := Some 2000000; Invoice.timestamp := 0;
     Invoice.payment_hash := replicate 32 6; Invoice.payment_secret := replicate 32 8;
     description := Direct []; expiry_secs := None; min_final_cltv_expiry_delta := None;
     Invoice.features := []; Invoice.route_hints := []; payee := toy_peer_id |}.

Definition toy_session : SecretKey (Secp := toy_secp) := toy_of 7.

Lemma payment_reaches_payee_witness :
  exists r secrets packet,
    find_route (n_graph paying_node) (n_scorer paying_node) (route_params paying_node toy_invoice 2000000) = Ok r /\
    payment_onion toy_session toy_invoice 2000000 r = Ok (secrets, packet) /\
    peel_all [toy_peer] packet (replicate 32 6) =
      Ok (combine secrets (map hop_encode (hop_payloads (replicate 32 8) 2000000 (hops r)))).
Proof.
  destruct (find_route (n_graph paying_node) (n_scorer paying_node) (route_params paying_node toy_invoice 2000000))
    as [r| |] eqn:E.
  2-3: assert (H : is_ok (find_route (n_graph paying_node) (n_scorer paying_node)
      (route_params paying_node toy_invoice 2000000)) = true) by (by vm_compute); by rewrite E in H.
  assert (Hh : hops r = [{| hop_node_id := toy_peer_id; hop_short_channel_id := 5;
    hop_amount_msat := 2000000; hop_cltv_expiry := 124 |}]).
  { assert (H : match find_route (n_graph paying_node) (n_scorer paying_node)
        (route_params paying_node toy_invoice 2000000) with
      | Ok r => map (fun h => (toy_val (hop_node_id h), hop_short_channel_id h, hop_amount_msat h,
                               hop_cltv_expiry h)) (hops r)
      | _ => [] end = [(9, 5, 2000000, 124)]) by (vm_compute; reflexivity).
    rewrite E in H. clear E. destruct (hops r) as [|[pk scid amt cltv] [|]]; try discriminate H.
    injection H as H1 -> -> ->. do 2 f_equal. rewrite <- (toy_of_proj pk). by apply toy_of_eq; rewrite H1. }
  destruct (payment_onion toy_session toy_invoice 2000000 r) as [[secrets packet]| |] eqn:Eo.
  2-3: exfalso; assert (H : is_ok (payment_onion toy_session toy_invoice 2000000 r) = true);
      [unfold payment_onion; rewrite Hh; reflexivity|by rewrite Eo in H].
  exists r, secrets, packet. split; [reflexivity|]. split; [exact Eo|].
  refine (proj1 (proj2 (payment_reaches_payee paying_node toy_invoice 2000000 r toy_session [toy_peer]
    secrets packet _ _ _ E _ Eo _ _ _ _))).
  - intros e. apply penalty_u64.
  - by apply uintb_spec.
  - intros H. by apply (f_equal (toy_val)) in H.
  - by rewrite Hh.
  - reflexivity.
  - apply (bool_decide_unpack _). by vm_compute.
  - rewrite Hh. constructor; [by apply uintb_spec|constructor].
  - rewrite Hh. cbn [hop_payloads map]. destruct secrets as [|ss [|]]; cbn; constructor.
Defined.

(** ** Announcing the channel *)
Definition toy_dummy : Signature (Secp := toy_secp) := toy_of (of_be (replicate 32 0) + toy_val (toy_of (of_be (replicate 32 1)))).
Definition toy_unsigned : ChannelAnnouncement (HS := toy_secp) :=
  (unsigned_announcement paying_node live_entry 5 (pubkeys (sample_signer 20)) toy_dummy).1.
Definition toy_half : AnnouncementSignatures (HS := toy_secp) :=
  let hash := sha256d (channel_announcement_payload toy_unsigned) in
  {| as_channel_id := sample_id; as_short_channel_id := 5;
     as_node_signature := sign_ecdsa (Secp := toy_secp) hash toy_peer;
     as_bitcoin_signature := sign_announcement_with_funding_key (sample_signer 20) hash |}.
Definition announcing_entry : ToyEntry :=
  live_entry <| ce_their_announcement_sigs := Some toy_half |> <| ce_sent_announcement_sigs := true |>.
Definition announcing_node : ToyNode := paying_node <| n_channels := {[ sample_id := announcing_entry ]} |>.

Lemma announcing_node_ok : node_ok announcing_node.
Proof. destruct (node_ok_new (HS := toy_secp) (Sg := toy_signer) (toy_us : SecretKey (Secp := toy_secp)) tt toy_config). by split. Qed.

Lemma our_announcement_accepted_witness :
  exists n' c, maybe_announce_channel sample_id announcing_node = (Ok tt, n') /\
    channels (n_graph n') !! 5 = Some c /\ node_1 c = node_id announcing_node /\
    one_to_two c = Some (our_policy announcing_node announcing_entry).
Proof.
  destruct (our_announcement_accepted (fun _ => True) announcing_node sample_id announcing_entry 5
    (pubkeys (sample_signer 20)) toy_dummy toy_half) as (n' & c & H1 & H2 & H3 & _ & _ & H4 & _);
    try reflexivity.
  - exact announcing_node_ok.
  - intros h. exact (verify_sign (S := toy_secp) h (funding_key (sample_signer 10))).
  - split; [exact (verify_sign (S := toy_secp) _ toy_peer)|].
    exact (verify_sign (S := toy_secp) _ (funding_key (sample_signer 20))).
  - intros H. by apply (f_equal toy_val) in H.
  - exists n', c. split; [exact H1|]. split; [exact H2|]. split; [exact H3|exact H4].
Defined.
