(* ===== verification/Hazards.v ===== *)
(** * Hazards: where the channel's bookkeeping departs from the protocol

    The side conditions of [Conservation] are needed: concrete channels on
    which an addition of amounts wraps, and on which a disconnection undoes
    what the peer has already revoked to or keeps an HTLC it should forget. *)
From S2P Require Import Prelude Secp Types Msgs Tx Shachain Keys Commitment Channel Dance Reestablish Ledger Moves Solvency Sample.

Definition hazard_channel (htlcs : list Htlc) : ToyChannel :=
  sample_channel <| ch_state := Normal |> <| ch_params := sample_live_params |>
    <| ch_to_holder_msat := 500000000 |> <| ch_to_counterparty_msat := 500000000 |>
    <| ch_htlcs := htlcs |> <| ch_next_holder_htlc_id := 1 |> <| ch_next_counterparty_htlc_id := 1 |>.

(** One HTLC of 5,000 sat, in either direction. *)
Definition hazard_htlc (outbound : bool) (r : option HtlcResolution) (ph pc : HtlcPhase) : Htlc :=
  MkHtlc outbound 0 5000000 (replicate 32 2) 600 []
    (if outbound then Some sample_source else None) r ph pc false.

Definition hazard_add (id amount : Z) : UpdateAddHtlc :=
  {| add_channel_id := sample_id; add_id := id; add_amount_msat := amount;
     add_payment_hash := replicate 32 2; add_cltv_expiry := 600; add_onion_routing_packet := [] |}.

(** With one HTLC in flight, an inbound HTLC of 2^64 - 1 msat is accepted on a
    channel of 1,000,000 sat: both the in-flight total and the amount needed
    wrap around. *)
Theorem inbound_add_wraps :
  let c := hazard_channel [hazard_htlc false None Committed Committed] in
  validate_inbound_add c (hazard_add 1 (2 ^ 64 - 1)) = Ok tt /\
  1000 * ch_funding_amount_sat c < 2 ^ 64 - 1 /\
  (on_update_add_htlc (hazard_add 1 (2 ^ 64 - 1)) c).1 = Ok tt /\
  (balances_for (on_update_add_htlc (hazard_add 1 (2 ^ 64 - 1)) c).2 true).2 = 0.
Proof. cbv zeta. vm_compute. by split_and!. Qed.

(** A removal by the peer that our commitment already reflects (the HTLC is
    [Gone] there and we have revoked the commitment that had it) is undone by
    a disconnection, although the peer does not retransmit it: the balances of
    our commitment change while no commitment is exchanged. *)
Theorem disconnect_undoes_removal :
  let h := hazard_htlc true (Some (Fulfill (replicate 32 3))) Gone Removing in
  let c := hazard_channel [h] in
  let c' := (on_disconnect c).2 in
  stage_ok h = true /\ (on_disconnect c).1 = Ok tt /\
  ch_htlcs c' = [hazard_htlc true None Committed Committed] /\
  balances_for c true = (495000000, 505000000) /\
  balances_for c' true = (495000000, 500000000) /\
  ch_holder_commitment_number c' = ch_holder_commitment_number c.
Proof. cbv zeta. vm_compute. by split_and!. Qed.

(** An inbound HTLC that no signed commitment contains survives a
    disconnection when an older one has the same hash, amount and expiry; the
    peer forgets it and uses its id again, which is then refused. *)
Theorem disconnect_keeps_lookalike (hc : HolderCommitment (HS := toy_secp)) :
  let old := hazard_htlc false None Committed Committed in
  let new := (hazard_htlc false None Pending NotYet) <| h_id := 1 |> in
  let c := (hazard_channel [old; new]) <| ch_next_counterparty_htlc_id := 2 |>
             <| ch_current_holder_commitment := Some hc |> in
  hc_htlcs hc = [htlc_in_commitment old true] ->
  let c' := (on_disconnect c).2 in
  ch_htlcs c' = [old; new] /\ ch_next_counterparty_htlc_id c' = 2 /\
  exists e, (on_update_add_htlc (hazard_add 1 5000000) c').1 = Err (Close e).
Proof.
  destruct hc as [n b sg sgs hs k f]. cbv zeta. cbn [hc_htlcs]. intros ->. vm_compute.
  split; [done|]. split; [done|]. by eexists.
Qed.
